(* ===== verification/_CoqProject ===== *)
-Q . S2P
Prelude.v
CString.v
Paths.v
Safety.v
StatusCodec.v
NetworkState.v
CgroupParse.v
Sys.v
Resources.v
Equiv.v
Process.v
Fs.v
Cgroup.v
NetworkStore.v
Config.v
Network.v
StatusInfo.v
Volumes.v
Workspace.v
Container.v
Cleanup.v
Commands.v
Lifecycle.v
Exec.v
CmdParser.v
Main.v
Terminate.v
Batch.v
Looking.v
Launch.v
Cooperative.v
