(* ===== verification/Prelude.v ===== *)
(** * tinydocker: verification library

    tinydocker is a small container runtime in C.  [docker run] builds an
    overlay root file system, bind-mounts volumes, makes a control group, clones
    a child into new namespaces, gives it an address on a bridge and forwards
    ports, records the container in a status file and lets the child execute its
    command; the other commands read those records, signal the processes of the
    control group or take all of it down again.  Almost every function is a
    sequence of system calls with an early return for each failure.  This
    library models that code function by function and proves what the sequences
    promise on every path.

    ** How the code is modelled

    Text handling (core/) is pure: a function that returns 0 and fills its
    out-parameters, or -1 with a message, is a Rocq function into [result].
    Buffers are modelled with their sizes ([truncated] is the check of a
    [snprintf]), integers with their widths ([u32], [INT_MAX], ...), characters
    as bytes.  Everything that calls the operating system is a [prog]
    (Sys.v): a tree of calls with their arguments; the answer of a call comes
    from outside and is arbitrary, so every theorem about a [prog] holds for
    every behaviour of the kernel, including a failure of any call at any time.
    [wp M p Q w] says that [p], started in the state [w] of a [model] [M], makes
    only calls that [M] allows and, when it returns, ends in [Q].  A model is
    what a theorem watches: the descriptors and children held, the mount table,
    the directory walked to, the last ownership check, the paths that were
    opened and what was read from them, the text still in the buffer of a stream
    and the text that has reached its file, what was published.  [terminates] says that a program ends when only finitely many
    calls are interrupted, [run] executes a program against a handler and
    [run_sound] connects the two.

    ** Files, and the code they model

    - Prelude.v: C strings, results, widths, tactics, hint databases.
      CString.v: the string functions of the C library the code uses ([strtol],
      [strtok_r], the conversions of [snprintf], ...).
      Paths.v: what a path means, the reference for path safety.
    - Safety.v: core/safety.c.  StatusCodec.v: core/status_codec.c and
      core/container_state.h.  NetworkState.v: core/network_state.c.
      CgroupParse.v: core/cgroup_parse.c.
    - Sys.v: calls, programs, models and their rules.  Resources.v: the model of
      descriptors and children; [balanced p] means that [p] gives back what it
      takes on every path.
    - Process.v: core/process.c (commands without a shell).  Fs.v: core/fs.c and
      util/utils.c (trees, directories, archives).  Cgroup.v: docker/cgroup.c.
      Config.v: cmdparser/cmdparser.h (the argument records).
    - NetworkStore.v: the network state file and the allocation of addresses,
      docker/network.c up to [list_network].  Network.v: bridges, veth pairs and
      port mappings, the rest of docker/network.c.
    - StatusInfo.v: docker/status_info.c (status files and liveness).
      Volumes.v: docker/volumes.c.  Workspace.v: docker/workspace.c and the
      image hash of util/utils.c; OpenSSL's digest is the class [Digest].
    - Container.v: docker/container.c: [docker_run] with the cleanup of a failed
      start, the child [child_fn], [docker_stop] and [docker_rm].  Cleanup.v:
      the order in which [clean_container_runtime] gives things back.
    - Commands.v: the rest of docker/container.c: the set-up of the runtime,
      commit, ps, top, exec with its namespace worker, inspect and stats.
      Lifecycle.v: what stop, top and exec promise across the components they
      are made of.  Exec.v: what the namespace worker has joined.
    - CmdParser.v: cmdparser/cmdparser.c.  The callbacks of the option parsers
      are functions on the argument records; the order in which glibc's
      [argp_parse] calls them is a parameter.  Main.v: main.c, the dispatch of
      the parsed command, and the command lines that are refused.
    - Equiv.v: programs no model or handler tells apart, the laws of the monad,
      and two models side by side.
    - The last files hold no code, only what whole commands promise:
      Terminate.v (that they end, and how long stop waits), Batch.v (commands on
      several names), Looking.v (the commands that only look), Launch.v (what is
      on record before a container is released) and Cooperative.v (a kernel that
      serves every call, with a process table in which each member of the group
      leaves at a time of its own, and what stop then achieves).

    [docker_run] composes Workspace, Volumes, Cgroup, Network and StatusInfo;
    these call Process, Fs and the pure codecs below them.  State shared between
    invocations is on disk: the status file of each container (StatusCodec is
    its format, StatusInfo its life) and the network state file (NetworkState is
    its format, NetworkStore its life, under a lock file).

    ** What the theorems show

    - Formats: what is written reads back as the same record, and only complete,
      bounded records of the expected name are accepted, each field with the
      value its line has
      ([container_info_roundtrip], [container_info_parse_sound],
      [network_record_parse_sound], [network_state_roundtrip], ...).
    - Paths: joined container paths, archive entries and named paths stay
      beneath their base; directories are made by a descent that follows no link
      ([td_join_rootfs_path_beneath], [td_ensure_directory_beneath_walk]).
    - Refinement: the programs on the network state file publish exactly the
      pure functions on records, atomically or not at all
      ([network_updates_refine], [alloc_new_ip_refines]), and the pure allocation
      hands out the lowest free address ([allocate_lowest_free]).  A status file
      is replaced by the complete text of the new record, flushed and
      synchronised before, or left alone ([write_container_info_atomic]).
    - Ownership and order: only interfaces and rules of the container are
      deleted, only after they were verified ([delete_owned_interfaces],
      [delete_dnat_rules_own]); volumes are mounted all or none; a workspace is
      deleted only after every mount in it was undone, and a status file is
      removed only after all the container held was given back; a container is
      removed only when it is known not to run; an archive is extracted only
      after all of its listing was read and found safe ([extract_tar_checked]); the child executes only inside its own root and
      when released ([mount_volumes_all_or_nothing],
      [clean_container_runtime_order], [docker_rm_spares_running],
      [child_fn_gated], [init_and_set_new_root_isolates]).
    - Commands: what the parser returns satisfies the checks the commands rely
      on ([parse_docker_cmd_wellformed], [docker_run_words]); stop signals
      members of the group only and records STOPPED after the group was read
      empty ([docker_stop_empties_group]); exec enters a live member of the
      group, and starts its command inside the namespaces
      ([docker_exec_enters_live_member], [exec_worker_joins]); run releases a
      container only when it is on record ([docker_run_releases_recorded]);
      the commands that show something change nothing
      ([inspecting_only_looks]); a command on several names is the sequence of
      the commands on each ([several_names_split]); a command line with a bad
      name for a container or a network is refused before anything is done
      ([bad_names_refused]).
    - Success: under a kernel that serves every call, stop empties the group,
      with SIGKILL for the processes that outstay the grace time, and records
      STOPPED ([docker_stop_succeeds]); releasing an address undoes its
      allocation ([release_undoes_allocate]).
    - Resources and termination: on no path of the program is a descriptor
      leaked or closed twice, or a child left unwaited for
      ([main_resources]); the commands end under every kernel that interrupts
      them finitely often ([commands_terminate]), and stop waits no longer than
      it was asked to ([docker_stop_waits]).

    ** Conventions and bounds

    - A NULL test of a pointer no caller passes as NULL is left out; where a
      caller may pass NULL the parameter is an [option].  Logging and [perror]
      are left out; output that is the result of a command is the call [Print].
    - What an out-parameter holds after a failure is modelled only where some
      caller reads it.
    - Allocation succeeds in the pure parsers; in programs [Malloc] is a call
      that may fail.
    - The loops of pure functions recurse on the text, or with fuel of its length
      plus one, which their lemmas show to be enough.  A loop of a program that
      is bounded by the code recurses on the bound (the 100 temporary names, the
      polls of [docker_stop]); the others are [Iter], whose rule is an
      invariant and whose end is the subject of the termination theorems.
    - A child of [fork] or [clone] is a program of its own ([exec_child],
      [capture_child], [child_fn]); the parent's call names it.
    - The state of other processes is in the answers: a theorem that one call
      saw something does not say that it is still so later.

    ** Not modelled

    The vendored logger and test.c; the help texts and the messages that
    cmdparser.c prints before it exits, and its allocations of the argument
    structures (taken to succeed); how argp cuts words into options; OpenSSL's
    digest; signals that end the process between two calls (in particular
    SIGPIPE at the start byte). *)
From stdpp Require Export prelude list strings.
From Stdlib Require Export ZArith Ascii.
From Stdlib Require Import Lia.

#[global] Open Scope Z_scope.

(** ** C strings

    A [char *] is the list of the bytes before its terminating NUL, so
    [strlen] is the length of the list.  A pointer the code compares with
    NULL is an [option]. *)
Abbreviation cstr := (list ascii).

Definition lit (s : string) : cstr := String.list_ascii_of_string s.
Arguments lit : simpl never.

Definition code (c : ascii) : Z := Z.of_N (N_of_ascii c).
Definition chr (z : Z) : ascii := ascii_of_N (Z.to_N z).

Definition strlen (s : cstr) : Z := Z.of_nat (length s).

Definition NUL : ascii := "000"%char.
Definition TAB : ascii := "009"%char.
Definition LF : ascii := "010"%char.
Definition CR : ascii := "013"%char.
Definition SP : ascii := " "%char.

(** The widths of the LP64 target the Makefile builds for. *)
Definition INT_MAX : Z := 2 ^ 31 - 1.
Definition INT_MIN : Z := - 2 ^ 31.
Definition LONG_MAX : Z := 2 ^ 63 - 1.
Definition LONG_MIN : Z := - 2 ^ 63.
Definition ULLONG_MAX : Z := 2 ^ 64 - 1.
Definition UINT32_MAX : Z := 2 ^ 32 - 1.
Definition u32 (z : Z) : Z := z mod 2 ^ 32.
Definition u64 (z : Z) : Z := z mod 2 ^ 64.

(** ** Results

    A function of [core/] returns 0 and fills its out-parameters, or returns
    -1 after [set_error].  [Ok] carries the out-parameters, [Err] the message
    handed to [set_error]. *)
Inductive result (A : Type) : Type :=
  | Ok (a : A)
  | Err (msg : cstr).
Arguments Ok {A} _.
Arguments Err {A} _.

#[global] Instance result_ret : MRet result := λ A a, Ok a.
#[global] Instance result_bind : MBind result := λ A B f r,
  match r with Ok a => f a | Err m => Err m end.

Definition is_Ok {A} (r : result A) : bool :=
  match r with Ok _ => true | Err _ => false end.

(** [if (b) { set_error(msg); return -1; }] *)
Definition reject_if (b : bool) (msg : cstr) : result unit :=
  if b then Err msg else Ok tt.

(** A loop whose body may fail, over the elements of a list. *)
Fixpoint mfold {S A} (f : S → A → result S) (s : S) (l : list A) : result S :=
  match l with
  | [] => Ok s
  | a :: l' => s' ← f s a; mfold f s' l'
  end.

(** What [vsnprintf] leaves in an [error] buffer of [size] bytes. *)
Definition set_error (size : Z) (msg : cstr) : cstr :=
  take (Z.to_nat (size - 1)) msg.

Lemma bind_Ok {A B} (r : result A) (f : A → result B) b :
  (r ≫= f) = Ok b ↔ ∃ a, r = Ok a ∧ f a = Ok b.
Proof. destruct r; cbn; naive_solver. Qed.

Lemma reject_if_Ok b m u : reject_if b m = Ok u ↔ b = false.
Proof. destruct b, u; cbn; naive_solver. Qed.

Lemma reject_bind_Ok {A} b m (k : unit → result A) a :
  (reject_if b m ≫= k) = Ok a ↔ b = false ∧ k tt = Ok a.
Proof. destruct b; cbn; naive_solver. Qed.

Lemma reject_if_false {A} b m (f : unit → result A) :
  b = false → (reject_if b m ≫= f) = f tt.
Proof. by intros ->. Qed.

Lemma reject_if_true {A} b m (f : unit → result A) :
  b = true → (reject_if b m ≫= f) = Err m.
Proof. by intros ->. Qed.

Lemma mfold_cons {S A} (f : S → A → result S) s a l :
  mfold f s (a :: l) = (s' ← f s a; mfold f s' l).
Proof. reflexivity. Qed.

Lemma mfold_app {S A} (f : S → A → result S) s l k :
  mfold f s (l ++ k) = (s' ← mfold f s l; mfold f s' k).
Proof. revert s; induction l as [|a l IH]; intros s; cbn; [done|]. by destruct (f s a); cbn. Qed.

(** A loop invariant: [I] holds of the state with the elements consumed. *)
Lemma mfold_invariant {S A} (f : S → A → result S) (I : list A → S → Prop) l :
  (∀ done a s s', I done s → a ∈ l → f s a = Ok s' → I (done ++ [a]) s') →
  ∀ s s', I [] s → mfold f s l = Ok s' → I l s'.
Proof.
  intros Hstep s s' H0. revert H0.
  assert (G : ∀ k done s, done ++ k = l → I done s → mfold f s k = Ok s' → I l s'); [|by apply G].
  induction k as [|a k IH]; intros dn t Hl Hd; cbn.
  { intros [= ->]. by rewrite app_nil_r in Hl; subst. }
  intros (t' & Hf & Hk)%bind_Ok. apply (IH (dn ++ [a]) t'); [by rewrite <-app_assoc| |done].
  eapply Hstep; [done| |done]. rewrite <-Hl. set_solver.
Qed.

#[global] Arguments mfold : simpl never.

(** [inv_ok H] walks a successful run through its binds and rejections. *)
Ltac inv_ok H :=
  let a := fresh "v" in let H1 := fresh "Hok" in let H2 := fresh "Hok" in
  lazymatch type of H with
  | (_ ≫= _) = Ok _ =>
      apply bind_Ok in H as (a & H1 & H2); inv_ok H1; inv_ok H2
  | reject_if _ _ = Ok _ => apply reject_if_Ok in H
  | Ok _ = Ok _ => injection H as H; try subst
  | mret _ = Ok _ => injection H as H; try subst
  | Err _ = Ok _ => discriminate H
  | _ => idtac
  end.

(** ** Booleans to propositions *)
Ltac bool_step :=
  match goal with
  | H : _ && _ = true |- _ => apply andb_true_iff in H; destruct H
  | H : _ || _ = false |- _ => apply orb_false_iff in H; destruct H
  | H : negb _ = true |- _ => apply negb_true_iff in H
  | H : negb _ = false |- _ => apply negb_false_iff in H
  | H : bool_decide _ = true |- _ => apply bool_decide_eq_true in H
  | H : bool_decide _ = false |- _ => apply bool_decide_eq_false in H
  | H : (_ =? _) = true |- _ => apply Z.eqb_eq in H
  | H : (_ =? _) = false |- _ => apply Z.eqb_neq in H
  | H : (_ <? _) = true |- _ => apply Z.ltb_lt in H
  | H : (_ <? _) = false |- _ => apply Z.ltb_ge in H
  | H : (_ <=? _) = true |- _ => apply Z.leb_le in H
  | H : (_ <=? _) = false |- _ => apply Z.leb_gt in H
  end.
Ltac bools := repeat bool_step.

(** ** Lists *)
Lemma strlen_nonneg s : 0 ≤ strlen s.
Proof. unfold strlen; lia. Qed.

Lemma strlen_app a b : strlen (a ++ b) = strlen a + strlen b.
Proof. unfold strlen; rewrite length_app; lia. Qed.

Lemma strlen_cons c s : strlen (c :: s) = 1 + strlen s.
Proof. unfold strlen; cbn [length]; lia. Qed.

Lemma strlen_nil : strlen [] = 0.
Proof. reflexivity. Qed.

Lemma code_range c : 0 ≤ code c < 256.
Proof. destruct c as [[][][][][][][][]]; vm_compute; split; congruence. Qed.

Lemma code_inj a b : code a = code b → a = b.
Proof.
  unfold code; intros H. apply N2Z.inj in H.
  by rewrite <-(ascii_N_embedding a), <-(ascii_N_embedding b), H.
Qed.

Lemma code_chr z : 0 ≤ z < 256 → code (chr z) = z.
Proof. intros ?. unfold code, chr. rewrite N_ascii_embedding by lia. lia. Qed.

(** Induction two elements at a time. *)
Lemma list_pair_ind {A} (P : list A → Prop) :
  P [] → (∀ a, P [a]) → (∀ a b t, P t → P (a :: b :: t)) → ∀ l, P l.
Proof. intros H0 H1 H2. fix IH 1.
  intros [|a [|b t]]; [exact H0|exact (H1 a)|exact (H2 a b t (IH t))]. Qed.

Create HintDb cstring.
#[export] Hint Resolve strlen_nonneg code_range : cstring.
Create Rewrite HintDb strlen.
#[export] Hint Rewrite strlen_app strlen_cons strlen_nil : strlen.
