(* ===== verification/CString.v ===== *)
(** * The C library functions the sources call

    Pure models of the string, number and address functions of the C library
    the modules of [core/] use: [strchr], [strrchr], [strtok_r], [strtol],
    [strtoull], the [printf] conversions [%d], [%u], [%x] and [%.Ns],
    [sscanf] with [%s], [inet_pton] and [inet_ntop], each with the lemmas the
    clients need (split/join, print/parse). *)
From S2P Require Import Prelude.
From Stdlib Require Import Lia.

(** ** Character classes of the C locale *)
Definition isdigit (c : ascii) : bool := (48 <=? code c) && (code c <=? 57).
Definition isupper (c : ascii) : bool := (65 <=? code c) && (code c <=? 90).
Definition islower (c : ascii) : bool := (97 <=? code c) && (code c <=? 122).
Definition isalnum (c : ascii) : bool := isdigit c || isupper c || islower c.
Definition isspace (c : ascii) : bool :=
  (code c =? 32) || ((9 <=? code c) && (code c <=? 13)).

#[global] Arguments isdigit : simpl never.
#[global] Arguments isalnum : simpl never.
#[global] Arguments isspace : simpl never.

(** ** Searching *)

(** [strchr s c] as the text before and the text after the first [c]. *)
Fixpoint strchr (s : cstr) (c : ascii) : option (cstr * cstr) :=
  match s with
  | [] => None
  | x :: s' =>
      if bool_decide (x = c) then Some ([], s')
      else match strchr s' c with
           | Some (a, b) => Some (x :: a, b)
           | None => None
           end
  end.

(** [strrchr s c], likewise around the last [c]. *)
Fixpoint strrchr (s : cstr) (c : ascii) : option (cstr * cstr) :=
  match s with
  | [] => None
  | x :: s' =>
      match strrchr s' c with
      | Some (a, b) => Some (x :: a, b)
      | None => if bool_decide (x = c) then Some ([], s') else None
      end
  end.

(** [strchr(s, c) != NULL]. *)
Definition contains (s : cstr) (c : ascii) : bool := bool_decide (c ∈ s).

(** [strncmp(s, p, strlen(p)) == 0]. *)
Definition starts_with (p s : cstr) : bool := bool_decide (take (length p) s = p).

Lemma strchr_Some s c a b : strchr s c = Some (a, b) ↔ s = a ++ c :: b ∧ c ∉ a.
Proof.
  revert a b; induction s as [|x s IH]; intros a b; cbn.
  { split; [done|]. intros [H _]. by destruct a. }
  case_bool_decide as Hx; subst.
  - split.
    + intros [= <- <-]. split; [done|]. set_solver.
    + intros [H Hn]. destruct a as [|y a]; simplify_eq/=; [done|]. set_solver.
  - destruct (strchr s c) as [[a' b']|] eqn:E.
    + split.
      * intros [= <- <-]. destruct (proj1 (IH a' b') eq_refl) as [-> ?].
        split; [done|]. set_solver.
      * intros [H Hn]. destruct a as [|y a]; simplify_eq/=.
        assert (Some (a', b') = Some (a, b)) as [= -> ->]; [|done].
        apply IH. split; [done|set_solver].
    + split; [done|]. intros [H Hn]. destruct a as [|y a]; simplify_eq/=.
      assert (None = Some (a, b)); [|done]. apply IH. split; [done|set_solver].
Qed.

Lemma strchr_None s c : strchr s c = None ↔ c ∉ s.
Proof.
  split.
  - intros H Hin. apply list_elem_of_split in Hin as (a & b & ->).
    revert H. induction a as [|x a IH]; cbn; case_bool_decide; try done.
    intros H'. destruct (strchr (a ++ c :: b) c) as [[??]|]; naive_solver.
  - intros Hn. destruct (strchr s c) as [[a b]|] eqn:E; [|done].
    apply strchr_Some in E as [-> _]. set_solver.
Qed.

Lemma strchr_app a c b : c ∉ a → strchr (a ++ c :: b) c = Some (a, b).
Proof. intros ?. by apply strchr_Some. Qed.

Lemma strrchr_None s c : strrchr s c = None ↔ c ∉ s.
Proof.
  induction s as [|x s IH]; cbn; [set_solver|].
  destruct (strrchr s c) as [[a b]|] eqn:E.
  - split; [done|]. intros Hn. assert (c ∉ s) by set_solver. naive_solver.
  - case_bool_decide; subst; [set_solver|].
    split; [|done]. intros _. apply not_elem_of_cons; naive_solver.
Qed.

Lemma strrchr_app a c b : c ∉ b → strrchr (a ++ c :: b) c = Some (a, b).
Proof.
  intros Hn. induction a as [|x a IH]; cbn.
  - apply strrchr_None in Hn as ->. by rewrite bool_decide_eq_true_2.
  - by rewrite IH.
Qed.

Lemma strrchr_Some s c a b : strrchr s c = Some (a, b) → s = a ++ c :: b ∧ c ∉ b.
Proof.
  revert a b; induction s as [|x s IH]; intros a b; cbn; [done|].
  destruct (strrchr s c) as [[a' b']|] eqn:E.
  - intros [= <- <-]. destruct (IH _ _ eq_refl) as [-> ?]. done.
  - case_bool_decide; [|done]. intros [= <- <-]. subst.
    split; [done|]. by apply strrchr_None.
Qed.

Lemma contains_true s c : contains s c = true ↔ c ∈ s.
Proof. apply bool_decide_eq_true. Qed.
Lemma contains_false s c : contains s c = false ↔ c ∉ s.
Proof. apply bool_decide_eq_false. Qed.

(** ** Fields and tokens *)

(** The fields between separators, empty ones included. *)
Fixpoint split_on (p : ascii → bool) (s : cstr) : list cstr :=
  match s with
  | [] => [[]]
  | c :: s' =>
      if p c then [] :: split_on p s'
      else match split_on p s' with
           | w :: ws => (c :: w) :: ws
           | [] => [[c]]
           end
  end.

Definition nonempty (s : cstr) : bool := match s with [] => false | _ => true end.

Definition is_delim (delims : cstr) (c : ascii) : bool := bool_decide (c ∈ delims).

(** The tokens successive [strtok_r] calls return: the non-empty fields. *)
Definition strtok (delims : cstr) (s : cstr) : list cstr :=
  List.filter nonempty (split_on (is_delim delims) s).

Lemma split_on_nonnil p s : split_on p s ≠ [].
Proof. destruct s as [|c s]; cbn; [done|]. destruct (p c); [done|]. by destruct (split_on p s). Qed.

Lemma split_on_app p a c b :
  p c = true → split_on p (a ++ c :: b) = split_on p a ++ split_on p b.
Proof.
  intros Hc. induction a as [|x a IH]; cbn.
  - by rewrite Hc.
  - rewrite IH. destruct (p x); [done|].
    destruct (split_on p a) eqn:E; [|done]. by apply split_on_nonnil in E.
Qed.

Lemma split_on_none p s : Forall (λ c, p c = false) s → split_on p s = [s].
Proof. induction 1 as [|c s Hc _ IH]; cbn; [done|]. by rewrite Hc, IH. Qed.

Lemma strtok_app delims a c b :
  c ∈ delims → strtok delims (a ++ c :: b) = strtok delims a ++ strtok delims b.
Proof.
  intros. unfold strtok. rewrite split_on_app, List.filter_app; [done|].
  by apply bool_decide_eq_true.
Qed.

Lemma is_delim_none delims s :
  Forall (.∉ delims) s → Forall (λ c, is_delim delims c = false) s.
Proof. intros H. eapply Forall_impl; [exact H|]. intros c Hc. by apply bool_decide_eq_false. Qed.

Lemma strtok_single delims s :
  s ≠ [] → Forall (.∉ delims) s → strtok delims s = [s].
Proof.
  intros ? H%is_delim_none. unfold strtok. rewrite split_on_none by done.
  by destruct s.
Qed.

Lemma strtok_nil delims : strtok delims [] = [].
Proof. reflexivity. Qed.

Lemma split_on_fields p s : Forall (Forall (λ c, p c = false)) (split_on p s).
Proof.
  induction s as [|c s IH]; cbn; [by repeat constructor|].
  destruct (p c) eqn:E; [by constructor|].
  destruct (split_on p s); [by repeat constructor|].
  apply Forall_cons in IH as [??]. by repeat constructor.
Qed.

Lemma split_on_In p s w c : w ∈ split_on p s → c ∈ w → c ∈ s.
Proof.
  revert w; induction s as [|x s IH]; intros w; cbn [split_on].
  { intros ->%list_elem_of_singleton. done. }
  destruct (p x).
  - intros [->|Hw]%elem_of_cons Hc; [by apply elem_of_nil in Hc|].
    apply elem_of_cons. right. by apply (IH w).
  - destruct (split_on p s) as [|v vs].
    + intros ->%list_elem_of_singleton Hc. apply list_elem_of_singleton in Hc as ->.
      by left.
    + intros [->|Hw]%elem_of_cons Hc.
      * apply elem_of_cons in Hc as [->|Hc]; [by left|right]. apply (IH v); [by left|done].
      * right. apply (IH w); [by right|done].
Qed.

(** Every byte is a separator or lies in a field. *)
Lemma split_on_cover p s c : c ∈ s → p c = true ∨ ∃ w, w ∈ split_on p s ∧ c ∈ w.
Proof.
  induction s as [|x s IH]; [by intros ?%elem_of_nil|]. cbn [split_on].
  intros [->|Hc]%elem_of_cons.
  - destruct (p x); [by left|right]. destruct (split_on p s) as [|v vs];
      eexists; (split; [by left|by left]).
  - destruct (IH Hc) as [?|(w & Hw & Hin)]; [by left|right]. destruct (p x).
    + exists w. split; [by right|done].
    + destruct (split_on p s) as [|v vs]; [by apply elem_of_nil in Hw|].
      apply elem_of_cons in Hw as [->|Hw].
      * eexists. split; [by left|by right].
      * exists w. split; [by right|done].
Qed.

Lemma strtok_tokens delims s :
  Forall (λ t, t ≠ [] ∧ Forall (.∉ delims) t) (strtok delims s).
Proof.
  apply Forall_forall. intros t Ht. unfold strtok in Ht.
  apply list_elem_of_In, List.filter_In in Ht as [Ht Hne].
  split; [by destruct t|].
  apply list_elem_of_In in Ht.
  pose proof (split_on_fields (is_delim delims) s) as H.
  rewrite Forall_forall in H. specialize (H t Ht).
  eapply Forall_impl; [exact H|]. intros c Hc. by apply bool_decide_eq_false in Hc.
Qed.

(** The text made of words with one separator byte between them. *)
Fixpoint join (sep : ascii) (ws : list cstr) : cstr :=
  match ws with
  | [] => []
  | [w] => w
  | w :: ws' => w ++ sep :: join sep ws'
  end.

Definition token (delims w : cstr) : Prop := w ≠ [] ∧ Forall (.∉ delims) w.

Lemma strtok_join delims sep ws :
  sep ∈ delims → Forall (token delims) ws → strtok delims (join sep ws) = ws.
Proof.
  intros Hsep. induction 1 as [|w ws [Hne Hw] Hws IH]; [done|].
  destruct ws as [|v ws].
  - by apply strtok_single.
  - change (join sep (w :: v :: ws)) with (w ++ sep :: join sep (v :: ws)).
    by rewrite strtok_app, strtok_single, IH.
Qed.

Lemma strtok_snoc delims s c : c ∈ delims → strtok delims (s ++ [c]) = strtok delims s.
Proof. intros. by rewrite strtok_app, strtok_nil, app_nil_r. Qed.

(** The text made of lines, each with its line feed. *)
Definition lines_text (ls : list cstr) : cstr := concat (map (λ l, l ++ [LF]) ls).

Lemma strtok_lines ls : Forall (token [LF]) ls → strtok [LF] (lines_text ls) = ls.
Proof.
  unfold lines_text. induction 1 as [|l ls [Hne Hl] _ IH]; [done|]. cbn [map concat].
  rewrite <-app_assoc. cbn [app]. by rewrite strtok_app, strtok_single, IH by (done || by left).
Qed.

(** ** Reading integers *)
Fixpoint span (p : ascii → bool) (s : cstr) : cstr * cstr :=
  match s with
  | [] => ([], [])
  | c :: s' => if p c then let '(a, b) := span p s' in (c :: a, b) else ([], s)
  end.

Definition digit (c : ascii) : Z := code c - 48.
Definition digits_val (ds : cstr) : Z := fold_left (λ acc c, 10 * acc + digit c) ds 0.

(** White space, an optional sign, then decimal digits: the sign, the digits
    and the unread rest, or [None] when there is no digit ([end == text]). *)
Definition scan_int (s : cstr) : option (bool * cstr * cstr) :=
  let s1 := (span isspace s).2 in
  let '(neg, s2) :=
    match s1 with
    | c :: t => if bool_decide (c = "-"%char) then (true, t)
                else if bool_decide (c = "+"%char) then (false, t) else (false, s1)
    | [] => (false, [])
    end in
  let '(ds, rest) := span isdigit s2 in
  match ds with [] => None | _ => Some (neg, ds, rest) end.

(** The value, [*end], whether [end != text], and [errno == ERANGE]. *)
Record strto := Strto { st_value : Z; st_end : cstr; st_conv : bool; st_erange : bool }.

Definition strtol (s : cstr) : strto :=
  match scan_int s with
  | None => Strto 0 s false false
  | Some (neg, ds, rest) =>
      let v := if (neg : bool) then - digits_val ds else digits_val ds in
      if v <? LONG_MIN then Strto LONG_MIN rest true true
      else if LONG_MAX <? v then Strto LONG_MAX rest true true
      else Strto v rest true false
  end.

(** [strtoull] accepts a minus sign and negates modulo 2^64. *)
Definition strtoull (s : cstr) : strto :=
  match scan_int s with
  | None => Strto 0 s false false
  | Some (neg, ds, rest) =>
      let v := digits_val ds in
      if ULLONG_MAX <? v then Strto ULLONG_MAX rest true true
      else Strto (if (neg : bool) then u64 (- v) else v) rest true false
  end.

(** [errno != 0 || end == text || *end != 0]: the test every caller makes. *)
Definition strto_failed (r : strto) : bool :=
  st_erange r || negb (st_conv r) || nonempty (st_end r).

(** ** Printing integers *)
Definition digit_char (d : Z) : ascii := chr (48 + d).

Fixpoint dec_digits (fuel : nat) (n : Z) : cstr :=
  match fuel with
  | O => []
  | S f => if n <? 10 then [digit_char n]
           else dec_digits f (n / 10) ++ [digit_char (n mod 10)]
  end.

(** [%u], [%zu], [%llu] of a value below 2^64: at most twenty digits. *)
Definition fmt_u (n : Z) : cstr := dec_digits 20 n.
(** [%d], [%ld], [%lld]. *)
Definition fmt_d (z : Z) : cstr := if z <? 0 then "-"%char :: fmt_u (- z) else fmt_u z.

Definition hex_char (d : Z) : ascii := if d <? 10 then chr (48 + d) else chr (87 + d).
(** [%0Nx] of a value below 16^N. *)
Fixpoint fmt_hex (width : nat) (n : Z) : cstr :=
  match width with
  | O => []
  | S w => fmt_hex w (n / 16) ++ [hex_char (n mod 16)]
  end.

#[global] Arguments fmt_u : simpl never.
#[global] Arguments fmt_d : simpl never.
#[global] Arguments strtol : simpl never.
#[global] Arguments strtoull : simpl never.

(** [snprintf(out, size, ...) >= size] is the truncation test: the text that
    was to be written does not fit with its NUL. *)
Definition truncated (text : cstr) (size : Z) : bool := size <=? strlen text.

Lemma isdigit_digit_char d : 0 ≤ d < 10 → isdigit (digit_char d) = true.
Proof.
  intros. unfold isdigit, digit_char. rewrite code_chr by lia.
  apply andb_true_iff; split; apply Z.leb_le; lia.
Qed.

Lemma digit_digit_char d : 0 ≤ d < 10 → digit (digit_char d) = d.
Proof. intros. unfold digit, digit_char. rewrite code_chr; lia. Qed.

Lemma digits_val_snoc ds c : digits_val (ds ++ [c]) = 10 * digits_val ds + digit c.
Proof. unfold digits_val. by rewrite fold_left_app. Qed.

Lemma digits_val_nonneg ds : Forall (λ c, isdigit c = true) ds → 0 ≤ digits_val ds.
Proof.
  induction ds as [|c ds IH] using rev_ind; [done|].
  intros [Hds Hc]%Forall_app. rewrite digits_val_snoc.
  rewrite Forall_singleton in Hc. unfold isdigit in Hc. bools.
  unfold digit. specialize (IH Hds). lia.
Qed.

Lemma dec_digits_spec fuel n :
  0 ≤ n < 10 ^ Z.of_nat fuel → (0 < fuel)%nat →
  Forall (λ c, isdigit c = true) (dec_digits fuel n) ∧
  dec_digits fuel n ≠ [] ∧ digits_val (dec_digits fuel n) = n.
Proof.
  revert n; induction fuel as [|f IH]; intros n Hn Hf; [lia|]. cbn [dec_digits].
  case (Z.ltb_spec n 10); intros Hlt.
  - split; [|split]; [|done|].
    + apply Forall_singleton, isdigit_digit_char; lia.
    + unfold digits_val; cbn. rewrite digit_digit_char; lia.
  - assert (Hf' : (0 < f)%nat).
    { destruct f; [|lia]. cbn in Hn. lia. }
    rewrite Nat2Z.inj_succ, Z.pow_succ_r in Hn by lia.
    assert (Hdiv : 0 ≤ n / 10 < 10 ^ Z.of_nat f).
    { split; [apply Z.div_pos; lia|]. apply Z.div_lt_upper_bound; lia. }
    destruct (IH _ Hdiv Hf') as (Hall & Hne & Hval).
    pose proof (Z.mod_pos_bound n 10 ltac:(lia)).
    split; [|split].
    + apply Forall_app; split; [done|]. by apply Forall_singleton, isdigit_digit_char.
    + by destruct (dec_digits f (n / 10)).
    + rewrite digits_val_snoc, Hval, digit_digit_char by done.
      pose proof (Z.div_mod n 10). lia.
Qed.

Lemma dec_digits_length fuel n : (length (dec_digits fuel n) ≤ fuel)%nat.
Proof.
  revert n; induction fuel as [|f IH]; intros n; cbn [dec_digits]; [done|].
  destruct (n <? 10); [cbn; lia|]. rewrite length_app; cbn. specialize (IH (n / 10)); lia.
Qed.

Lemma fmt_u_spec n :
  0 ≤ n ≤ ULLONG_MAX →
  Forall (λ c, isdigit c = true) (fmt_u n) ∧ fmt_u n ≠ [] ∧ digits_val (fmt_u n) = n.
Proof. intros. apply dec_digits_spec; [|lia]. unfold ULLONG_MAX in *. lia. Qed.

Lemma fmt_u_length n k :
  0 ≤ n < 10 ^ Z.of_nat k → (0 < k)%nat → strlen (fmt_u n) ≤ Z.of_nat k.
Proof.
  intros Hn Hk. unfold strlen, fmt_u. apply inj_le. revert k n Hn Hk.
  generalize 20%nat as fuel. induction fuel as [|f IH]; intros k n Hn Hk; cbn [dec_digits]; [cbn; lia|].
  case (Z.ltb_spec n 10); intros ?; [cbn; lia|].
  rewrite length_app; cbn [length]. destruct k as [|k]; [lia|].
  rewrite Nat2Z.inj_succ, Z.pow_succ_r in Hn by lia.
  assert (0 < k)%nat by (destruct k; cbn in *; lia).
  assert (0 ≤ n / 10 < 10 ^ Z.of_nat k)
    by (split; [apply Z.div_pos; lia|apply Z.div_lt_upper_bound; lia]).
  specialize (IH k (n / 10)). lia.
Qed.

Lemma span_all p a b :
  Forall (λ c, p c = true) a → (∀ c t, b = c :: t → p c = false) →
  span p (a ++ b) = (a, b).
Proof.
  induction 1 as [|c a Hc _ IH]; intros Hb; cbn.
  - destruct b as [|c b]; cbn; [done|]. by rewrite (Hb c b eq_refl).
  - by rewrite Hc, IH.
Qed.

Lemma span_spec p s a b :
  span p s = (a, b) → s = a ++ b ∧ Forall (λ c, p c = true) a ∧
  (∀ c t, b = c :: t → p c = false).
Proof.
  revert a b; induction s as [|c s IH]; intros a b; cbn.
  { intros [= <- <-]. split_and!; [done|constructor|naive_solver]. }
  destruct (p c) eqn:E.
  - destruct (span p s) as [a' b'] eqn:E'. intros [= <- <-].
    destruct (IH _ _ eq_refl) as (-> & ? & ?). split_and!; [done|by constructor|done].
  - intros [= <- <-]. split_and!; [done|constructor|]. naive_solver.
Qed.

Lemma isdigit_not_space c : isdigit c = true → isspace c = false.
Proof.
  unfold isdigit, isspace. intros. bools.
  apply orb_false_iff; split; [apply Z.eqb_neq; lia|].
  apply andb_false_iff. right. apply Z.leb_gt; lia.
Qed.

Lemma isdigit_not_sign c : isdigit c = true → c ≠ "-"%char ∧ c ≠ "+"%char.
Proof. intros H; split; intros ->; vm_compute in H; discriminate. Qed.

(** No digit follows. *)
Definition stops (rest : cstr) : Prop := ∀ c t, rest = c :: t → isdigit c = false.

Lemma scan_int_digits ds rest :
  Forall (λ c, isdigit c = true) ds → ds ≠ [] → stops rest →
  scan_int (ds ++ rest) = Some (false, ds, rest).
Proof.
  intros Hds Hne Hrest. destruct ds as [|c ds]; [done|].
  inversion Hds as [|?? Hc Hds']; subst. unfold scan_int. cbn [span app].
  rewrite (isdigit_not_space _ Hc). cbn [snd].
  destruct (isdigit_not_sign _ Hc) as [??].
  rewrite !bool_decide_eq_false_2 by done.
  change (c :: ds ++ rest) with ((c :: ds) ++ rest). by rewrite span_all.
Qed.

Lemma scan_int_neg_digits ds rest :
  Forall (λ c, isdigit c = true) ds → ds ≠ [] → stops rest →
  scan_int ("-"%char :: ds ++ rest) = Some (true, ds, rest).
Proof.
  intros Hds Hne Hrest. unfold scan_int. cbn [span].
  change (isspace "-"%char) with false. cbn [snd].
  rewrite bool_decide_eq_true_2, span_all by done. by destruct ds.
Qed.

Lemma stops_nil : stops [].
Proof. by intros ?? [=]. Qed.

(** ** Printing then reading *)
Lemma strtoull_fmt_u n rest :
  0 ≤ n ≤ ULLONG_MAX → stops rest → strtoull (fmt_u n ++ rest) = Strto n rest true false.
Proof.
  intros Hn Hr. destruct (fmt_u_spec n Hn) as (Hd & Hne & Hv).
  unfold strtoull. rewrite scan_int_digits by done. rewrite Hv.
  case (Z.ltb_spec ULLONG_MAX n); [lia|done].
Qed.

Lemma strtol_fmt_d z rest :
  LONG_MIN ≤ z ≤ LONG_MAX → stops rest → strtol (fmt_d z ++ rest) = Strto z rest true false.
Proof.
  intros Hz Hr. unfold strtol, fmt_d. unfold LONG_MIN, LONG_MAX in Hz.
  case (Z.ltb_spec z 0); intros Hneg.
  - destruct (fmt_u_spec (- z)) as (Hd & Hne & Hv); [unfold ULLONG_MAX; lia|].
    cbn [app]. rewrite scan_int_neg_digits by done. rewrite Hv, Z.opp_involutive. cbv zeta iota.
    unfold LONG_MIN, LONG_MAX. case (Z.ltb_spec z (- 2 ^ 63)); [lia|].
    case (Z.ltb_spec (2 ^ 63 - 1) z); [lia|done].
  - destruct (fmt_u_spec z) as (Hd & Hne & Hv); [unfold ULLONG_MAX; lia|].
    rewrite scan_int_digits by done. rewrite Hv. cbv zeta iota.
    unfold LONG_MIN, LONG_MAX. case (Z.ltb_spec z (- 2 ^ 63)); [lia|].
    case (Z.ltb_spec (2 ^ 63 - 1) z); [lia|done].
Qed.

Lemma strtol_range s : LONG_MIN ≤ st_value (strtol s) ≤ LONG_MAX.
Proof.
  unfold strtol. destruct (scan_int s) as [[[neg ds] rest]|]; [|done].
  cbv zeta. generalize (if neg then - digits_val ds else digits_val ds) as v. intros v.
  unfold LONG_MIN, LONG_MAX.
  case (Z.ltb_spec v (- 2 ^ 63)); intros; [cbn [st_value]; lia|].
  case (Z.ltb_spec (2 ^ 63 - 1) v); intros; cbn [st_value]; lia.
Qed.

Lemma scan_int_rest_digits s neg ds rest :
  scan_int s = Some (neg, ds, rest) →
  Forall (λ c, isdigit c = true) ds ∧ ds ≠ [] ∧ stops rest.
Proof.
  unfold scan_int. destruct (span isspace s) as [w s1]. cbn [snd].
  match goal with |- context [match s1 with [] => ?a | c :: t => @?f c t end] =>
    destruct (match s1 with [] => a | c :: t => f c t end) as [ng s2] end.
  destruct (span isdigit s2) as [d r] eqn:E. apply span_spec in E as (_ & Hd & Hr).
  destruct d; [done|]. intros [= <- <- <-]. split_and!; done.
Qed.

(** What an integer text read to its end is made of. *)
Definition int_char (c : ascii) : Prop :=
  isspace c = true ∨ c = "-"%char ∨ c = "+"%char ∨ isdigit c = true.

Lemma scan_int_chars s neg ds : scan_int s = Some (neg, ds, []) → Forall int_char s.
Proof.
  unfold scan_int. destruct (span isspace s) as [w s1] eqn:E. cbn [snd].
  apply span_spec in E as (-> & Hw & _).
  assert (Hw' : Forall int_char w) by (eapply Forall_impl; [exact Hw|]; intros ??; by left).
  assert (Hd : ∀ s2 ds', span isdigit s2 = (ds', []) → Forall int_char s2).
  { intros s2 ds' E. apply span_spec in E as (-> & Hd & _). rewrite app_nil_r.
    eapply Forall_impl; [exact Hd|]. intros ??. unfold int_char. auto. }
  intros H. apply Forall_app; split; [done|].
  destruct s1 as [|c t]; [done|].
  case_bool_decide as Hm; [|case_bool_decide as Hp].
  1,2: destruct (span isdigit t) as [d r] eqn:E; destruct d; simplify_eq;
       apply Forall_cons; split; [unfold int_char; auto|by eapply Hd].
  destruct (span isdigit (c :: t)) as [d r] eqn:E; destruct d; simplify_eq. by eapply Hd.
Qed.

Lemma strtol_chars s : strto_failed (strtol s) = false → Forall int_char s.
Proof.
  unfold strtol, strto_failed. destruct (scan_int s) as [[[neg ds] rest]|] eqn:E.
  - destruct rest; [by intros _; eapply scan_int_chars|].
    cbv zeta. repeat case_match; cbn; rewrite ?orb_true_r; done.
  - done.
Qed.

Lemma strtoull_range s : 0 ≤ st_value (strtoull s) ≤ ULLONG_MAX.
Proof.
  unfold strtoull. destruct (scan_int s) as [[[neg ds] rest]|] eqn:E; [|done].
  apply scan_int_rest_digits in E as (Hd & _ & _). apply digits_val_nonneg in Hd.
  unfold ULLONG_MAX. case (Z.ltb_spec (2 ^ 64 - 1) (digits_val ds)); intros; cbn [st_value]; [lia|].
  destruct neg; [|lia]. unfold u64.
  pose proof (Z.mod_pos_bound (- digits_val ds) (2 ^ 64)). lia.
Qed.

(** ** Hexadecimal text *)
Lemma fmt_hex_length w n : length (fmt_hex w n) = w.
Proof.
  revert n; induction w as [|w IH]; intros n; cbn [fmt_hex]; [done|].
  rewrite length_app, IH; cbn; lia.
Qed.

#[global] Arguments fmt_hex : simpl never.

(** ** [sscanf] with [%Ns] conversions

    The words read, in order; the return value of the call is their number
    when the input is not empty. *)
Fixpoint sscanf_words (widths : list nat) (s : cstr) : list cstr :=
  match widths with
  | [] => []
  | w :: ws =>
      match (span isspace s).2 with
      | [] => []
      | s1 =>
          let word := take w (span (λ c, negb (isspace c)) s1).1 in
          word :: sscanf_words ws (drop (length word) s1)
      end
  end.

(** ** IPv4 addresses, in host byte order ([ntohl]/[htonl] applied) *)
Definition inet_octet (w : cstr) : option Z :=
  match w with
  | [] => None
  | c :: t =>
      if negb (forallb isdigit w) || (bool_decide (c = "0"%char) && nonempty t)
         || (255 <? digits_val w)
      then None else Some (digits_val w)
  end.

Definition is_dot (c : ascii) : bool := bool_decide (c = "."%char).

(** [inet_pton(AF_INET, s)]: exactly four decimal octets, no leading zero. *)
Definition inet_pton (s : cstr) : option Z :=
  match split_on is_dot s with
  | [a; b; c; d] =>
      match inet_octet a, inet_octet b, inet_octet c, inet_octet d with
      | Some w, Some x, Some y, Some z =>
          Some (w * 2 ^ 24 + x * 2 ^ 16 + y * 2 ^ 8 + z)
      | _, _, _, _ => None
      end
  | _ => None
  end.

Definition inet_ntop (a : Z) : cstr :=
  fmt_u (a / 2 ^ 24 mod 256) ++ "."%char :: fmt_u (a / 2 ^ 16 mod 256) ++ "."%char ::
  fmt_u (a / 2 ^ 8 mod 256) ++ "."%char :: fmt_u (a mod 256).

Lemma inet_octet_range w z : inet_octet w = Some z → 0 ≤ z < 256.
Proof.
  unfold inet_octet. destruct w as [|c t]; [done|].
  destruct (_ || _) eqn:E; [done|]. intros [= <-]. bools.
  split; [|lia]. apply digits_val_nonneg.
  match goal with H : forallb _ _ = true |- _ => rename H into Hf end.
  apply Forall_forall. intros x Hx. rewrite forallb_forall in Hf.
  apply Hf. by apply list_elem_of_In.
Qed.

Lemma inet_pton_range s a : inet_pton s = Some a → 0 ≤ a ≤ UINT32_MAX.
Proof.
  unfold inet_pton.
  destruct (split_on is_dot s) as [|w1 [|w2 [|w3 [|w4 [|]]]]]; try done.
  destruct (inet_octet w1) eqn:E1, (inet_octet w2) eqn:E2, (inet_octet w3) eqn:E3,
    (inet_octet w4) eqn:E4; try done.
  apply inet_octet_range in E1, E2, E3, E4. intros [= <-]. unfold UINT32_MAX. lia.
Qed.

Lemma inet_pton_chars s a : inet_pton s = Some a → Forall (λ c, isdigit c = true ∨ c = "."%char) s.
Proof.
  unfold inet_pton. intros H. apply Forall_forall. intros c Hc.
  destruct (split_on_cover is_dot s c Hc) as [Hd%bool_decide_eq_true|(w & Hw & Hin)]; [by right|left].
  assert (O : ∀ w z, inet_octet w = Some z → c ∈ w → isdigit c = true).
  { intros w' z Ho Hin'. unfold inet_octet in Ho. destruct w' as [|x t]; [done|].
    destruct (_ || _) eqn:E; [done|]. bools.
    match goal with H : forallb _ _ = true |- _ => rewrite forallb_forall in H; apply H end.
    by apply list_elem_of_In. }
  destruct (split_on is_dot s) as [|w1 [|w2 [|w3 [|w4 [|]]]]]; try done.
  destruct (inet_octet w1) eqn:E1, (inet_octet w2) eqn:E2, (inet_octet w3) eqn:E3,
    (inet_octet w4) eqn:E4; try done.
  rewrite !elem_of_cons in Hw. destruct Hw as [->|[->|[->|[->|Hw]]]]; eauto.
  by apply elem_of_nil in Hw.
Qed.

Lemma inet_octet_fmt n : 0 ≤ n < 256 → inet_octet (fmt_u n) = Some n.
Proof.
  intros Hn.
  assert (H : forallb (λ k, bool_decide (inet_octet (fmt_u (Z.of_nat k)) = Some (Z.of_nat k)))
                (seq 0 256) = true) by (vm_compute; reflexivity).
  rewrite forallb_forall in H.
  specialize (H (Z.to_nat n)). rewrite Z2Nat.id in H by lia.
  apply bool_decide_eq_true in H; [done|]. apply in_seq. lia.
Qed.

Lemma fmt_u_no_dot n : 0 ≤ n < 256 → Forall (λ c, is_dot c = false) (fmt_u n).
Proof.
  intros Hn. destruct (fmt_u_spec n) as (Hd & _); [unfold ULLONG_MAX; lia|].
  eapply Forall_impl; [exact Hd|]. intros c Hc. apply bool_decide_eq_false.
  intros ->. by vm_compute in Hc.
Qed.

Lemma inet_pton_ntop a : 0 ≤ a ≤ UINT32_MAX → inet_pton (inet_ntop a) = Some a.
Proof.
  intros Ha. unfold inet_pton, inet_ntop.
  assert (Hm : ∀ x, 0 ≤ x mod 256 < 256) by (intros; apply Z.mod_pos_bound; lia).
  rewrite !split_on_app, !(split_on_none _ (fmt_u _)) by
    (reflexivity || (apply fmt_u_no_dot, Hm)).
  cbn [app]. rewrite !inet_octet_fmt by apply Hm. f_equal.
  pose proof (Z.div_mod a 256 ltac:(lia)). pose proof (Z.div_mod (a / 256) 256 ltac:(lia)).
  pose proof (Z.div_mod (a / 256 / 256) 256 ltac:(lia)).
  assert (E3 : a / 2 ^ 24 mod 256 = a / 256 / 256 / 256).
  { rewrite !Z.div_div by lia. apply Z.mod_small. unfold UINT32_MAX in Ha.
    split; [apply Z.div_pos; lia|]. apply Z.div_lt_upper_bound; lia. }
  rewrite E3. change (2 ^ 16) with (256 * 256). change (2 ^ 8) with 256.
  rewrite <- (Z.div_div a 256 256) by lia. change (2 ^ 24) with (256 * 256 * 256). lia.
Qed.

Lemma inet_ntop_length a : strlen (inet_ntop a) ≤ 15.
Proof.
  unfold inet_ntop.
  assert (H : ∀ x, strlen (fmt_u (x mod 256)) ≤ 3).
  { intros x. apply (fmt_u_length _ 3); [|lia].
    pose proof (Z.mod_pos_bound x 256 ltac:(lia)). lia. }
  autorewrite with strlen.
  pose proof (H (a / 2 ^ 24)). pose proof (H (a / 2 ^ 16)).
  pose proof (H (a / 2 ^ 8)). pose proof (H a). lia.
Qed.
