(* ===== verification/Paths.v ===== *)
(** * Lexical path resolution

    The specification the path functions are measured against: the components
    of a path and where a path leads when ["."] and [".."] are resolved. *)
From S2P Require Import Prelude CString.
From Stdlib Require Import Lia.

Definition is_slash (c : ascii) : bool := bool_decide (c = "/"%char).
Definition is_dots (w : cstr) : bool :=
  bool_decide (w = lit ".") || bool_decide (w = lit "..").

(** The non-empty fields between slashes. *)
Definition components (p : cstr) : list cstr := List.filter nonempty (split_on is_slash p).

(** Follow components from a directory given by its own components. *)
Fixpoint resolve_from (stack ws : list cstr) : list cstr :=
  match ws with
  | [] => stack
  | w :: ws' =>
      if bool_decide (w = lit ".") then resolve_from stack ws'
      else if bool_decide (w = lit "..") then resolve_from (List.removelast stack) ws'
      else resolve_from (stack ++ [w]) ws'
  end.
Definition resolve (p : cstr) : list cstr := resolve_from [] (components p).

Definition no_dots (ws : list cstr) : Prop := Forall (λ w, is_dots w = false) ws.

Lemma components_app_slash a b : components (a ++ "/"%char :: b) = components a ++ components b.
Proof. unfold components. by rewrite split_on_app, List.filter_app. Qed.

Lemma components_slash b : components ("/"%char :: b) = components b.
Proof. exact (components_app_slash [] b). Qed.

Lemma components_word w : w ≠ [] → Forall (λ c, is_slash c = false) w → components w = [w].
Proof. intros ??. unfold components. rewrite split_on_none by done. by destruct w. Qed.

Lemma components_nil : components [] = [].
Proof. reflexivity. Qed.

Lemma components_no_slash p : Forall (λ w, w ≠ [] ∧ Forall (λ c, is_slash c = false) w) (components p).
Proof.
  apply Forall_forall. intros w Hw. unfold components in Hw.
  apply list_elem_of_In, List.filter_In in Hw as [Hw Hne]. split; [by destruct w|].
  pose proof (split_on_fields is_slash p) as H. rewrite Forall_forall in H.
  apply H. by apply list_elem_of_In.
Qed.

Lemma components_skip s a b :
  span is_slash s = (a, b) → components s = components b.
Proof.
  intros H. apply span_spec in H as (-> & Ha & _).
  induction Ha as [|c a Hc _ IH]; [done|].
  apply bool_decide_eq_true in Hc as ->. cbn [app]. by rewrite components_slash.
Qed.

Lemma components_take_word s w r :
  span (λ c, negb (is_slash c)) s = (w, r) → w ≠ [] → components s = w :: components r.
Proof.
  intros H Hne. apply span_spec in H as (-> & Hw & Hr).
  assert (Hns : Forall (λ c, is_slash c = false) w).
  { eapply Forall_impl; [exact Hw|]. intros c Hc. by apply negb_true_iff. }
  destruct r as [|c r].
  - by rewrite app_nil_r, components_word.
  - specialize (Hr c r eq_refl). apply negb_false_iff in Hr.
    apply bool_decide_eq_true in Hr as ->.
    by rewrite components_app_slash, components_slash, components_word.
Qed.

Lemma resolve_from_app st ws vs : resolve_from st (ws ++ vs) = resolve_from (resolve_from st ws) vs.
Proof. revert st; induction ws as [|w ws IH]; intros st; cbn; [done|]. repeat case_bool_decide; auto. Qed.

Lemma resolve_from_no_dots st ws : no_dots ws → resolve_from st ws = st ++ ws.
Proof.
  intros H; revert st; induction H as [|w ws Hw _ IH]; intros st; cbn; [by rewrite app_nil_r|].
  unfold is_dots in Hw. bools. rewrite !bool_decide_eq_false_2 by done.
  by rewrite IH, <-app_assoc.
Qed.

Lemma resolve_slash a b : resolve (a ++ "/"%char :: b) = resolve_from (resolve a) (components b).
Proof. unfold resolve. by rewrite components_app_slash, resolve_from_app. Qed.
