(* ===== verification/Safety.v ===== *)
(** * core/safety.c: validation of names, numbers, paths and addresses

    Every string that reaches a path, a command line or a state file passes
    through one of these functions first.  A [const char *] the code compares
    with NULL is an [option]; an out-parameter is a component of the result.
    Buffers a function declares ([char host[8]]) appear as the size tests the
    code makes before it copies. *)
From S2P Require Import Prelude CString Paths.
From Stdlib Require Import Lia.

(** ** Definitions *)

Definition name_char (c : ascii) : bool :=
  isalnum c || bool_decide (c = "."%char) || bool_decide (c = "_"%char)
  || bool_decide (c = "-"%char).

(** The loop over [cursor]: the first byte that is not allowed. *)
Fixpoint first_invalid (s : cstr) : option ascii :=
  match s with
  | [] => None
  | c :: s' => if name_char c then first_invalid s' else Some c
  end.

Definition td_validate_name (name : option cstr) (max_length : Z) : result unit :=
  match name with
  | None | Some [] => Err (lit "name must not be empty")
  | Some n =>
      _ ← reject_if (max_length <? strlen n)
            (lit "name length must be <= " ++ fmt_u max_length);
      _ ← reject_if (bool_decide (n = lit ".") || bool_decide (n = lit ".."))
            (lit "name is a reserved path component");
      match first_invalid n with
      | None => Ok tt
      | Some c =>
          Err (lit "name contains invalid byte 0x" ++ fmt_hex 2 (code c) ++
               lit "; allowed: [A-Za-z0-9._-]")
      end
  end.

Definition td_parse_long (text : option cstr) (minimum maximum : Z) : result Z :=
  match text with
  | None | Some [] => Err (lit "invalid integer input")
  | Some t =>
      _ ← reject_if (maximum <? minimum) (lit "invalid integer input");
      let parsed := strtol t in
      _ ← reject_if (strto_failed parsed) (lit "value must be a base-10 integer: " ++ t);
      _ ← reject_if ((st_value parsed <? minimum) || (maximum <? st_value parsed))
            (lit "integer must be in range " ++ fmt_d minimum ++ lit ".." ++ fmt_d maximum);
      Ok (st_value parsed)
  end.

(** [(host_port, container_port)]. *)
Definition td_parse_port_mapping (text : option cstr) : result (Z * Z) :=
  let bad := lit "port mapping must be host:container" in
  match text with
  | None => Err bad
  | Some t =>
      match strchr t ":"%char with
      | None => Err bad
      | Some (host, container) =>
          _ ← reject_if (negb (nonempty host) || negb (nonempty container)
                         || contains container ":"%char) bad;
          _ ← reject_if ((8 <=? strlen host) || (8 <=? strlen container))
                (lit "port value is too long");
          parsed_host ← td_parse_long (Some host) 1 65535;
          parsed_container ← td_parse_long (Some container) 1 65535;
          Ok (parsed_host, parsed_container)
      end
  end.

(** The [while] loop of [has_unsafe_path_component]; every turn drops at least
    one byte of [component], so the length of the path is enough fuel. *)
Fixpoint unsafe_component_loop (fuel : nat) (component : cstr) : bool :=
  match fuel with
  | O => false
  | S f =>
      match (span is_slash component).2 with
      | [] => false
      | c1 =>
          let '(word, rest) := span (λ c, negb (is_slash c)) c1 in
          if is_dots word then true else unsafe_component_loop f rest
      end
  end.
Definition has_unsafe_path_component (path : cstr) : bool :=
  unsafe_component_loop (length path) path.

Definition ends_with_slash (s : cstr) : bool :=
  match last s with Some c => is_slash c | None => false end.
Definition starts_with_slash (s : cstr) : bool :=
  match s with c :: _ => is_slash c | [] => false end.

Definition td_join_rootfs_path (rootfs container_path : option cstr)
    (output_size : Z) : result cstr :=
  match rootfs with
  | None => Err (lit "invalid rootfs path arguments")
  | Some root =>
      _ ← reject_if (negb (starts_with_slash root) || (output_size =? 0))
            (lit "invalid rootfs path arguments");
      match container_path with
      | None => Err (lit "container path must be absolute")
      | Some path =>
          _ ← reject_if (negb (starts_with_slash path))
                (lit "container path must be absolute");
          _ ← reject_if (bool_decide (path = lit "/"))
                (lit "mounting over the container root is not allowed");
          _ ← reject_if (has_unsafe_path_component path)
                (lit "container path contains traversal component");
          let output := root ++ (if ends_with_slash root then tail path else path) in
          _ ← reject_if (truncated output output_size)
                (lit "container path is too long");
          Ok output
      end
  end.

(** [(host, container, read_only)]. *)
Definition td_parse_volume_spec (text : option cstr) (host_size container_size : Z)
    : result (cstr * cstr * Z) :=
  match text with
  | None => Err (lit "invalid volume specification input")
  | Some t =>
      _ ← reject_if ((host_size =? 0) || (container_size =? 0))
            (lit "invalid volume specification input");
      match strchr t ":"%char with
      | None => Err (lit "volume must use host:container[:ro|rw] form")
      | Some (host, after) =>
          _ ← reject_if (negb (nonempty host) || negb (nonempty after))
                (lit "volume must use host:container[:ro|rw] form");
          let '(container, mode) :=
            match strchr after ":"%char with
            | None => (after, None)
            | Some (c, m) => (c, Some m)
            end in
          _ ← reject_if (match mode with Some m => contains m ":"%char | None => false end)
                (lit "volume has too many fields");
          _ ← reject_if (negb (nonempty host) || (host_size <=? strlen host)
                         || negb (nonempty container) || (container_size <=? strlen container))
                (lit "volume path is empty or too long");
          _ ← reject_if (negb (starts_with_slash host) || contains host LF || contains host CR)
                (lit "volume host path must be an absolute single-line path");
          _ ← td_join_rootfs_path (Some (lit "/rootfs")) (Some container) 4096;
          match mode with
          | None => Ok (host, container, 0)
          | Some m =>
              if bool_decide (m = lit "ro") then Ok (host, container, 1)
              else if bool_decide (m = lit "rw") then Ok (host, container, 0)
              else Err (lit "volume mode must be ro or rw")
          end
      end
  end.

(** [UINT32_MAX << (32U - prefix)], and 0 for a prefix of 0. *)
Definition cidr_mask (prefix : Z) : Z :=
  if prefix =? 0 then 0 else u32 (Z.shiftl UINT32_MAX (32 - prefix)).

(** [(network, prefix)]; [INET_ADDRSTRLEN] is 16. *)
Definition td_parse_ipv4_cidr (text : option cstr) : result (Z * Z) :=
  match text with
  | None => Err (lit "CIDR must be an IPv4 address and prefix")
  | Some t =>
      match strchr t "/"%char with
      | None => Err (lit "CIDR must have address/prefix form")
      | Some (address_text, prefix_text) =>
          _ ← reject_if (negb (nonempty address_text) || negb (nonempty prefix_text)
                         || contains prefix_text "/"%char)
                (lit "CIDR must have address/prefix form");
          _ ← reject_if ((16 <=? strlen address_text) || (4 <=? strlen prefix_text))
                (lit "CIDR is too long");
          match inet_pton address_text with
          | None => Err (lit "CIDR contains an invalid IPv4 address")
          | Some host_address =>
              parsed_prefix ← td_parse_long (Some prefix_text) 0 32;
              Ok (Z.land host_address (cidr_mask parsed_prefix), parsed_prefix)
          end
      end
  end.

Definition td_build_named_path (base directory name : option cstr) (output_size : Z)
    : result cstr :=
  match base, directory with
  | Some b, Some d =>
      _ ← reject_if (negb (starts_with_slash b) || negb (nonempty d)
                     || contains d "/"%char || (output_size =? 0))
            (lit "invalid runtime path arguments");
      _ ← td_validate_name name 127;
      let output := b ++ (if ends_with_slash b then [] else lit "/") ++ d ++ lit "/" ++
                    default [] name in
      _ ← reject_if (truncated output output_size) (lit "runtime path is too long");
      Ok output
  | _, _ => Err (lit "invalid runtime path arguments")
  end.

(** Field 22 of [/proc/PID/stat]: token 19 after the last closing parenthesis. *)
Definition td_parse_proc_stat_start_time (stat_line : option cstr) : result Z :=
  match stat_line with
  | None => Err (lit "invalid /proc stat input")
  | Some line =>
      match strchr line "("%char, strrchr line ")"%char with
      | Some (before_open, _), Some (before_close, after_close) =>
          match after_close with
          | sp :: rest =>
              _ ← reject_if (bool_decide (length before_close < length before_open)%nat
                             || negb (bool_decide (sp = SP)))
                    (lit "malformed /proc stat record");
              match strtok [SP; TAB; CR; LF] rest !! 19%nat with
              | Some token =>
                  let parsed := strtoull token in
                  _ ← reject_if (strto_failed parsed) (lit "invalid process start time");
                  Ok (st_value parsed)
              | None => Err (lit "process start time field is missing")
              end
          | [] => Err (lit "malformed /proc stat record")
          end
      | _, _ => Err (lit "malformed /proc stat record")
      end
  end.

(** FNV-1a over the bytes of the name, in 32 bits. *)
Definition fnv_step (hash : Z) (c : ascii) : Z := u32 (Z.lxor hash (code c) * 16777619).
Definition fnv_hash (name : cstr) : Z := fold_left fnv_step name 2166136261.

(** The text [snprintf] produces for a validated name. *)
Definition veth_text (name : cstr) : cstr :=
  lit "td" ++ take 6 name ++ lit "-" ++ fmt_hex 6 (Z.land (fnv_hash name) 16777215).

(** [None] is the return value -1. *)
Definition td_make_veth_name (container_name : option cstr) (output_size : Z) : option cstr :=
  if (output_size <? 16) || negb (is_Ok (td_validate_name container_name 127)) then None
  else
    let text := veth_text (default [] container_name) in
    if strlen text =? 15 then Some text else None.

(** [output[1] = 'p']. *)
Definition td_make_veth_peer_name (container_name : option cstr) (output_size : Z)
    : option cstr :=
  match td_make_veth_name container_name output_size with
  | None => None
  | Some output => Some (<[1%nat := "p"%char]> output)
  end.

(** [while (entry_name[0] == '.' && entry_name[1] == '/') entry_name += 2;] *)
Fixpoint strip_dot_slash (s : cstr) : cstr :=
  match s with
  | a :: b :: t =>
      if bool_decide (a = "."%char) && bool_decide (b = "/"%char) then strip_dot_slash t else s
  | _ => s
  end.

Definition td_archive_entry_is_safe (entry_name : option cstr) : Z :=
  match entry_name with
  | None => 0
  | Some e =>
      if negb (nonempty e) || starts_with_slash e || contains e LF || contains e CR then 0
      else match strip_dot_slash e with
           | [] => 1
           | e' => if has_unsafe_path_component e' then 0 else 1
           end
  end.

#[global] Arguments td_validate_name : simpl never.
#[global] Arguments td_parse_long : simpl never.
#[global] Arguments td_parse_ipv4_cidr : simpl never.
#[global] Arguments td_join_rootfs_path : simpl never.
#[global] Arguments td_build_named_path : simpl never.
#[global] Arguments cidr_mask : simpl never.

(** ** Helper lemmas *)

Lemma first_invalid_None s : first_invalid s = None ↔ Forall (λ c, name_char c = true) s.
Proof.
  induction s as [|c s IH]; cbn; [done|].
  rewrite Forall_cons. destruct (name_char c); naive_solver.
Qed.

Lemma unsafe_component_loop_spec fuel s :
  (length s ≤ fuel)%nat → unsafe_component_loop fuel s = existsb is_dots (components s).
Proof.
  revert s; induction fuel as [|f IH]; intros s Hlen.
  { by destruct s; [|cbn in Hlen; lia]. }
  cbn [unsafe_component_loop]. destruct (span is_slash s) as [a c1] eqn:E1.
  cbn [snd]. rewrite (components_skip _ _ _ E1).
  apply span_spec in E1 as (Hs & _ & Hc1).
  destruct c1 as [|x c1]; [done|].
  destruct (span _ (x :: c1)) as [w r] eqn:E2.
  assert (Hw : w ≠ []).
  { cbn in E2. rewrite (Hc1 x c1 eq_refl) in E2. cbn in E2.
    by destruct (span _ c1); simplify_eq. }
  rewrite (components_take_word _ _ _ E2 Hw). cbn [existsb].
  apply span_spec in E2 as (Hwr & _ & _).
  assert (length r ≤ f)%nat.
  { apply (f_equal length) in Hs, Hwr. rewrite length_app in Hs, Hwr.
    destruct w; [done|]. cbn in *. lia. }
  rewrite IH by done. by destruct (is_dots w).
Qed.

Lemma has_unsafe_path_component_false p :
  has_unsafe_path_component p = false ↔ no_dots (components p).
Proof.
  unfold has_unsafe_path_component. rewrite unsafe_component_loop_spec by done.
  unfold no_dots. rewrite <-not_true_iff_false, existsb_exists, Forall_forall.
  split.
  - intros H w Hw. apply not_true_iff_false. intros Hd. apply H.
    exists w. split; [by apply list_elem_of_In|done].
  - intros H (w & Hw & Hd). apply list_elem_of_In in Hw. rewrite H in Hd; done.
Qed.

Lemma ends_with_slash_true s : ends_with_slash s = true → ∃ s', s = s' ++ ["/"%char].
Proof.
  unfold ends_with_slash. destruct s as [|c s _] using rev_ind; [done|].
  rewrite last_snoc. intros H%bool_decide_eq_true. subst. by exists s.
Qed.

Lemma starts_with_slash_true s : starts_with_slash s = true → ∃ s', s = "/"%char :: s'.
Proof. destruct s as [|c s]; [done|]. intros H%bool_decide_eq_true. subst. by exists s. Qed.

(** Joining below a directory, however many slashes stand at the seam. *)
Lemma components_join root path :
  starts_with_slash path = true →
  components (root ++ (if ends_with_slash root then tail path else path)) =
  components root ++ components path.
Proof.
  intros (p & ->)%starts_with_slash_true. cbn [tail]. rewrite components_slash.
  destruct (ends_with_slash root) eqn:E.
  - apply ends_with_slash_true in E as (r & ->). rewrite <-app_assoc. cbn [app].
    rewrite !components_app_slash, components_nil. by rewrite app_nil_r.
  - by rewrite components_app_slash.
Qed.

Lemma td_validate_name_Ok n m :
  td_validate_name (Some n) m = Ok tt ↔
  n ≠ [] ∧ strlen n ≤ m ∧ is_dots n = false ∧ Forall (λ c, name_char c = true) n.
Proof.
  unfold td_validate_name. destruct n as [|c n]; [naive_solver|].
  rewrite !reject_bind_Ok. unfold is_dots. rewrite <-first_invalid_None, Z.ltb_ge.
  destruct (first_invalid (c :: n)); naive_solver.
Qed.

Lemma name_char_sound c (d : ascii) : name_char d = false → name_char c = true → c ≠ d.
Proof. intros H1 H2 ->. congruence. Qed.

(** A valid name has none of the separators of the state files and paths. *)
Lemma valid_name_excludes n m d :
  td_validate_name (Some n) m = Ok tt → name_char d = false → d ∉ n.
Proof.
  intros (_ & _ & _ & H)%td_validate_name_Ok Hd Hin.
  rewrite Forall_forall in H. specialize (H _ Hin). congruence.
Qed.
#[export] Hint Resolve valid_name_excludes : cstring.

Lemma td_parse_long_Some_Ok t mn mx v :
  td_parse_long (Some t) mn mx = Ok v ↔
  t ≠ [] ∧ mn ≤ v ≤ mx ∧ strto_failed (strtol t) = false ∧ st_value (strtol t) = v.
Proof.
  unfold td_parse_long. destruct t as [|c t]; [naive_solver|].
  cbv zeta. rewrite !reject_bind_Ok. split.
  - intros (H1 & H2 & H3 & H). inv_ok H. bools. split_and!; done || lia.
  - intros (_ & H & Hf & <-). split_and!; [apply Z.ltb_ge; lia|done| |done].
    apply orb_false_iff; split; apply Z.ltb_ge; lia.
Qed.

Lemma td_parse_long_fmt v mn mx :
  LONG_MIN ≤ v ≤ LONG_MAX → mn ≤ v ≤ mx → td_parse_long (Some (fmt_d v)) mn mx = Ok v.
Proof.
  intros Hv Hr. apply td_parse_long_Some_Ok.
  pose proof (strtol_fmt_d v [] Hv stops_nil) as E. rewrite app_nil_r in E. rewrite E.
  split_and!; [|lia|lia|done|done].
  intros H0. rewrite H0 in E. by vm_compute in E.
Qed.
#[export] Hint Resolve td_parse_long_fmt : cstring.

(** *** Network masks *)

Lemma cidr_mask_ones p : 0 ≤ p ≤ 32 → cidr_mask p = Z.shiftl (Z.ones p) (32 - p).
Proof.
  intros Hp.
  assert (H : forallb (λ k, cidr_mask (Z.of_nat k) =? Z.shiftl (Z.ones (Z.of_nat k)) (32 - Z.of_nat k))
                (seq 0 33) = true) by (vm_compute; reflexivity).
  rewrite forallb_forall in H. specialize (H (Z.to_nat p)).
  rewrite Z2Nat.id in H by lia. apply Z.eqb_eq, H, in_seq. lia.
Qed.

(** Masking clears the host bits. *)
Lemma land_cidr_mask a p :
  0 ≤ a ≤ UINT32_MAX → 0 ≤ p ≤ 32 → Z.land a (cidr_mask p) = a - a mod 2 ^ (32 - p).
Proof.
  intros Ha Hp. rewrite cidr_mask_ones by done. set (k := 32 - p).
  assert (E : Z.land a (Z.shiftl (Z.ones p) k) = Z.shiftl (Z.land (Z.shiftr a k) (Z.ones p)) k).
  { rewrite Z.shiftl_land. apply Z.bits_inj'. intros n Hn.
    rewrite !Z.land_spec, !Z.shiftl_spec by done.
    case (Z.ltb_spec n k); intros Hk.
    - by rewrite (Z.testbit_neg_r (Z.ones p)), !andb_false_r by lia.
    - rewrite Z.shiftr_spec by lia. by rewrite Z.sub_add. }
  rewrite E, Z.land_ones, Z.shiftr_div_pow2, Z.shiftl_mul_pow2 by lia.
  assert (2 ^ 32 = 2 ^ k * 2 ^ p) by (rewrite <-Z.pow_add_r by lia; f_equal; lia).
  assert (0 < 2 ^ k) by (apply Z.pow_pos_nonneg; lia).
  rewrite Z.mod_small.
  - pose proof (Z.div_mod a (2 ^ k)). lia.
  - unfold UINT32_MAX in Ha. split; [apply Z.div_pos; lia|].
    apply Z.div_lt_upper_bound; lia.
Qed.

(** [network | ~mask] is the last address of the block. *)
Definition cidr_broadcast (network prefix : Z) : Z :=
  Z.lor network (u32 (Z.lnot (cidr_mask prefix))).

Lemma u32_lnot_mask p : 0 ≤ p ≤ 32 → u32 (Z.lnot (cidr_mask p)) = 2 ^ (32 - p) - 1.
Proof.
  intros Hp.
  assert (H : forallb (λ k, u32 (Z.lnot (cidr_mask (Z.of_nat k))) =? 2 ^ (32 - Z.of_nat k) - 1)
                (seq 0 33) = true) by (vm_compute; reflexivity).
  rewrite forallb_forall in H. specialize (H (Z.to_nat p)).
  rewrite Z2Nat.id in H by lia. apply Z.eqb_eq, H, in_seq. lia.
Qed.

Lemma cidr_broadcast_eq n p :
  0 ≤ p ≤ 32 → n mod 2 ^ (32 - p) = 0 → cidr_broadcast n p = n + 2 ^ (32 - p) - 1.
Proof.
  intros Hp Hn. unfold cidr_broadcast. rewrite u32_lnot_mask by done.
  set (k := 32 - p). change (2 ^ k - 1) with (Z.pred (2 ^ k)). rewrite <-Z.ones_equiv.
  assert (Hl : Z.land n (Z.ones k) = 0) by (by rewrite Z.land_ones by lia).
  rewrite <-Z.lxor_lor, <-Z.add_nocarry_lxor by done. rewrite Z.ones_equiv. lia.
Qed.

(** What a parsed CIDR is: the network address of the written address. *)
Lemma td_parse_ipv4_cidr_Ok t network prefix :
  td_parse_ipv4_cidr (Some t) = Ok (network, prefix) →
  ∃ address_text prefix_text a,
    strchr t "/"%char = Some (address_text, prefix_text) ∧
    inet_pton address_text = Some a ∧ 0 ≤ a ≤ UINT32_MAX ∧ strlen address_text < 16 ∧
    0 ≤ prefix ≤ 32 ∧ network = a - a mod 2 ^ (32 - prefix) ∧ nonempty address_text = true.
Proof.
  unfold td_parse_ipv4_cidr. destruct (strchr t "/"%char) as [[at_ pt]|] eqn:E; [|done].
  rewrite !reject_bind_Ok. intros (H1 & H2 & H). bools.
  destruct (inet_pton at_) as [a|] eqn:Ea; [|done].
  apply bind_Ok in H as (pp & Hp & H). inv_ok H.
  apply td_parse_long_Some_Ok in Hp as (_ & Hp & _).
  pose proof (inet_pton_range _ _ Ea).
  eexists at_, pt, a. simplify_eq. split_and!; try done; try lia.
  by apply land_cidr_mask.
Qed.

Lemma veth_text_length n : strlen (veth_text n) = 9 + Z.min 6 (strlen n).
Proof.
  unfold veth_text. autorewrite with strlen. unfold strlen.
  rewrite length_take, fmt_hex_length. change (length (lit "td")) with 2%nat.
  change (length (lit "-")) with 1%nat. lia.
Qed.

Lemma td_make_veth_name_Some n size out :
  td_make_veth_name (Some n) size = Some out ↔
  16 ≤ size ∧ td_validate_name (Some n) 127 = Ok tt ∧ 6 ≤ strlen n ∧ out = veth_text n.
Proof.
  unfold td_make_veth_name. cbn [default]. rewrite veth_text_length.
  destruct (td_validate_name (Some n) 127) as [[]|]; cbn;
    case (Z.ltb_spec size 16); intros; cbn; try by (split; [done|intros (?&?&?&?); done || lia]).
  case (Z.eqb_spec (9 + Z.min 6 (strlen n)) 15); intros.
  - split; [intros [= <-]; split_and!; done || lia|by intros (?&?&?&->)].
  - split; [done|intros (?&?&?&?); lia].
Qed.

(** *** Volume specifications *)

(** The text [create_container_info] stores for a volume. *)
Definition volume_text (host container : cstr) (ro : Z) : cstr :=
  host ++ ":"%char :: container ++ ":"%char :: (if ro =? 1 then lit "ro" else lit "rw").

(** What an accepted volume satisfies. *)
Record volume_ok (host container : cstr) (host_size container_size : Z) : Prop := {
  vol_host_abs : starts_with_slash host = true;
  vol_host_line : (LF ∉ host) ∧ (CR ∉ host);
  vol_host_fits : strlen host < host_size;
  vol_container_abs : starts_with_slash container = true;
  vol_container_fits : strlen container < container_size ∧ strlen container < 4089;
  vol_container_not_root : container ≠ lit "/";
  vol_container_safe : no_dots (components container);
  vol_no_colon : (":"%char ∉ host) ∧ (":"%char ∉ container)
}.

Lemma td_join_rootfs_path_Ok root path size out :
  td_join_rootfs_path (Some root) (Some path) size = Ok out ↔
  starts_with_slash root = true ∧ size ≠ 0 ∧ starts_with_slash path = true ∧
  path ≠ lit "/" ∧ no_dots (components path) ∧ strlen out < size ∧
  out = root ++ (if ends_with_slash root then tail path else path).
Proof.
  unfold td_join_rootfs_path. cbv zeta. rewrite !reject_bind_Ok.
  rewrite <-has_unsafe_path_component_false. unfold truncated. split.
  - intros (H1 & H2 & H3 & H4 & H5 & H). inv_ok H. bools. split_and!; done.
  - intros (H1 & H2 & H3 & H4 & H5 & H6 & ->). rewrite H1, H3. cbn.
    rewrite bool_decide_eq_false_2 by done.
    split_and!; try done; [by apply Z.eqb_neq|by apply Z.leb_gt].
Qed.

Lemma rootfs_join_fits container :
  starts_with_slash container = true → container ≠ lit "/" → no_dots (components container) →
  strlen container < 4089 → ∃ out, td_join_rootfs_path (Some (lit "/rootfs")) (Some container) 4096 = Ok out.
Proof.
  intros. eexists. apply td_join_rootfs_path_Ok. split_and!; try done.
  change (ends_with_slash (lit "/rootfs")) with false. rewrite strlen_app.
  change (strlen (lit "/rootfs")) with 7. lia.
Qed.

Definition mode_value (m : option cstr) : option Z :=
  match m with
  | None => Some 0
  | Some m => if bool_decide (m = lit "ro") then Some 1
              else if bool_decide (m = lit "rw") then Some 0 else None
  end.

Lemma nonempty_slash s : starts_with_slash s = true → nonempty s = true.
Proof. by destruct s. Qed.

Lemma td_parse_volume_spec_Ok t hs cs h c ro :
  hs ≠ 0 → cs ≠ 0 →
  td_parse_volume_spec (Some t) hs cs = Ok (h, c, ro) ↔
  volume_ok h c hs cs ∧
  ∃ m, mode_value m = Some ro ∧
    t = h ++ ":"%char :: c ++ match m with Some m => ":"%char :: m | None => [] end.
Proof.
  intros Hhs Hcs. unfold td_parse_volume_spec. rewrite reject_if_false by
    (apply orb_false_iff; split; by apply Z.eqb_neq). split.
  - destruct (strchr t ":"%char) as [[h' after]|] eqn:E1; [|done].
    apply strchr_Some in E1 as [-> Hh'].
    rewrite reject_bind_Ok. intros (H1 & H).
    destruct (strchr after ":"%char) as [[c' m']|] eqn:E2.
    all: apply bind_Ok in H as (? & Hm & H); apply reject_if_Ok in Hm;
      rewrite !reject_bind_Ok in H; destruct H as (H2 & H3 & H);
      apply bind_Ok in H as (j & Hj & H); bools;
      apply td_join_rootfs_path_Ok in Hj as (_ & _ & Hj1 & Hj2 & Hj3 & Hj4 & ->);
      change (ends_with_slash (lit "/rootfs")) with false in Hj4;
      rewrite strlen_app in Hj4; change (strlen (lit "/rootfs")) with 7 in Hj4.
    + apply strchr_Some in E2 as [-> Hc'].
      assert (mode_value (Some m') = Some ro ∧ h' = h ∧ c' = c) as (Hmv & -> & ->).
      { unfold mode_value. repeat case_bool_decide; try done; by simplify_eq. }
      split; [|by exists (Some m')]. unfold contains in *. bools.
      by constructor; [..|split; [|lia]| | |].
    + apply strchr_None in E2. simplify_eq. split; [|exists None; by rewrite app_nil_r].
      unfold contains in *. bools. by constructor; [..|split; [|lia]| | |].
  - intros ([Ha [Hl1 Hl2] Hf Hca [Hcf Hcf'] Hcr Hcs' [Hn1 Hn2]] & m & Hm & ->).
    rewrite strchr_app by done.
    destruct (rootfs_join_fits c) as (j & Hj); [done..|].
    pose proof (nonempty_slash _ Ha). pose proof (nonempty_slash _ Hca).
    rewrite reject_if_false; [|destruct c; [done|]; by destruct h].
    assert (E : strchr (c ++ match m with Some m => ":"%char :: m | None => [] end) ":"%char =
                match m with Some m => Some (c, m) | None => None end).
    { destruct m; [by apply strchr_app|]. rewrite app_nil_r. by apply strchr_None. }
    assert (Hmc : match m with Some m => contains m ":"%char | None => false end = false).
    { destruct m as [m|]; [|done]. unfold mode_value in Hm.
      repeat case_bool_decide; subst; done. }
    rewrite E.
    destruct m as [m|]; [|rewrite app_nil_r]; cbn [reject_if];
      rewrite ?Hmc; cbn [mbind result_bind reject_if];
      rewrite reject_if_false, reject_if_false, Hj; cbn [mbind result_bind].
    + unfold mode_value in Hm. repeat case_bool_decide; simplify_eq; done.
    + rewrite Ha. apply orb_false_iff; split; [apply orb_false_iff; split; [done|]|]; by apply contains_false.
    + apply Z.leb_gt in Hf, Hcf. rewrite Hf, Hcf. destruct h, c; done.
    + unfold mode_value in Hm. by simplify_eq.
    + rewrite Ha. apply orb_false_iff; split; [apply orb_false_iff; split; [done|]|]; by apply contains_false.
    + apply Z.leb_gt in Hf, Hcf. rewrite Hf, Hcf. destruct h, c; done.
Qed.

(** ** Theorems *)

(** Names.  [td_validate_name] succeeds exactly on the non-empty names of
    at most [max_length] bytes from [A-Za-z0-9._-] other than the two reserved
    path components; NULL is rejected. *)
Theorem td_validate_name_spec name max_length :
  td_validate_name name max_length = Ok tt ↔
  ∃ n, name = Some n ∧ n ≠ [] ∧ strlen n ≤ max_length ∧ n ≠ lit "." ∧ n ≠ lit ".." ∧
    Forall (λ c, isalnum c = true ∨ c ∈ lit "._-") n.
Proof.
  assert (Hc : ∀ c, name_char c = true ↔ isalnum c = true ∨ c ∈ lit "._-").
  { intros c. unfold name_char. rewrite !orb_true_iff, !bool_decide_eq_true.
    change (lit "._-") with ["."%char; "_"%char; "-"%char]. set_solver. }
  destruct name as [n|]; [|split; [done|intros (n & [=] & _)]].
  rewrite td_validate_name_Ok. unfold is_dots. rewrite orb_false_iff, !bool_decide_eq_false.
  setoid_rewrite <-Hc. naive_solver.
Qed.

(** C25: joining a container path below a root file system never leaves it:
    resolving the result leads to the root followed by the components of the
    container path, none of which is a dot component, and the result fits its
    buffer with its NUL. *)
Theorem td_join_rootfs_path_beneath root path size out :
  td_join_rootfs_path (Some root) (Some path) size = Ok out →
  resolve out = resolve root ++ components path ∧ no_dots (components path) ∧
  strlen out < size.
Proof.
  intros (_ & _ & Hp & _ & Hs & Hf & ->)%td_join_rootfs_path_Ok.
  split; [|done]. unfold resolve.
  by rewrite components_join, resolve_from_app, (resolve_from_no_dots (resolve_from _ _)).
Qed.

Lemma td_join_rootfs_path_beneath_witness :
  ∃ out, td_join_rootfs_path (Some (lit "/a/../r")) (Some (lit "/var/data")) 64 = Ok out ∧
    resolve out = resolve (lit "/a/../r") ++ components (lit "/var/data").
Proof.
  eexists. split; [vm_compute; reflexivity|].
  eapply (td_join_rootfs_path_beneath _ _ 64). vm_compute. reflexivity.
Defined.

(** C36: an accepted archive entry extracts below the directory it is extracted
    into, whatever that directory is. *)
Theorem td_archive_entry_is_safe_beneath entry dir :
  td_archive_entry_is_safe (Some entry) = 1 →
  ∃ ws, no_dots ws ∧ resolve (dir ++ "/"%char :: entry) = resolve dir ++ ws.
Proof.
  unfold td_archive_entry_is_safe. destruct (_ || _); [done|]. intros H.
  exists (components (strip_dot_slash entry)).
  assert (Hs : no_dots (components (strip_dot_slash entry))).
  { apply has_unsafe_path_component_false.
    destruct (strip_dot_slash entry); [done|]. by destruct (has_unsafe_path_component _). }
  split; [done|]. rewrite resolve_slash, <-(resolve_from_no_dots (resolve dir)) by done.
  clear. generalize (resolve dir). intros st.
  induction entry as [| a | a b t IH] using list_pair_ind; try done. cbn [strip_dot_slash].
  case_bool_decide as Ha; case_bool_decide as Hb; cbn [andb]; try done. subst.
  change ("."%char :: "/"%char :: t) with (["."%char] ++ "/"%char :: t).
  rewrite components_app_slash, resolve_from_app. exact IH.
Qed.

Lemma td_archive_entry_is_safe_beneath_witness :
  ∃ ws, no_dots ws ∧
    resolve (lit "/images/x" ++ "/"%char :: lit "././usr/bin/tool") = resolve (lit "/images/x") ++ ws.
Proof. apply (td_archive_entry_is_safe_beneath (lit "././usr/bin/tool")). vm_compute. reflexivity. Defined.

(** The test that forbids mounting over the container root is by string
    equality with ["/"]: the path ["//"] passes it and names the root itself. *)
Theorem td_join_rootfs_path_double_slash root size :
  starts_with_slash root = true → strlen root + 2 < size →
  ∃ out, td_join_rootfs_path (Some root) (Some (lit "//")) size = Ok out ∧
    resolve out = resolve root.
Proof.
  intros Hr Hs. eexists. split.
  - apply td_join_rootfs_path_Ok. split_and!; try done.
    + pose proof (strlen_nonneg root). lia.
    + vm_compute. constructor.
    + rewrite strlen_app. destruct (ends_with_slash root);
        [change (strlen (tail (lit "//"))) with 1|change (strlen (lit "//")) with 2]; lia.
  - unfold resolve. rewrite components_join by done.
    change (components (lit "//")) with (@nil cstr). by rewrite app_nil_r.
Qed.

Lemma td_join_rootfs_path_double_slash_witness :
  ∃ out, td_join_rootfs_path (Some (lit "/rootfs")) (Some (lit "//")) 4096 = Ok out ∧
    resolve out = resolve (lit "/rootfs").
Proof. apply td_join_rootfs_path_double_slash; [reflexivity|vm_compute; reflexivity]. Defined.

(** A volume specification that is accepted has a single-line absolute host
    path and a container path that stays below the root file system, and the
    text the metadata stores for it reads back as the same volume. *)
Theorem td_parse_volume_spec_roundtrip text hs cs host container ro :
  td_parse_volume_spec text hs cs = Ok (host, container, ro) →
  volume_ok host container hs cs ∧ (ro = 0 ∨ ro = 1) ∧
  td_parse_volume_spec (Some (volume_text host container ro)) hs cs = Ok (host, container, ro).
Proof.
  intros H. destruct text as [t|]; [|done].
  assert (hs ≠ 0 ∧ cs ≠ 0) as [Hh Hc].
  { unfold td_parse_volume_spec in H. rewrite reject_bind_Ok in H. destruct H as [H _].
    by bools. }
  apply td_parse_volume_spec_Ok in H as (Hok & m & Hm & _); [|done..].
  assert (Hro : ro = 0 ∨ ro = 1).
  { unfold mode_value in Hm. destruct m; repeat case_bool_decide; naive_solver. }
  split_and!; [done..|]. apply td_parse_volume_spec_Ok; [done..|]. split; [done|].
  exists (Some (if ro =? 1 then lit "ro" else lit "rw")). by destruct Hro as [-> | ->].
Qed.

Lemma td_parse_volume_spec_roundtrip_witness :
  ∃ h c, td_parse_volume_spec (Some (volume_text h c 1)) 1024 1024 = Ok (h, c, 1).
Proof.
  eexists _, _.
  apply (td_parse_volume_spec_roundtrip (Some (lit "/tmp/data:/data:ro")) 1024 1024).
  vm_compute. reflexivity.
Defined.

(** Integers.  The parse of a printed [long] gives it back exactly when it
    is in the range, and is refused otherwise. *)
Theorem td_parse_long_roundtrip v minimum maximum :
  LONG_MIN ≤ v ≤ LONG_MAX →
  td_parse_long (Some (fmt_d v)) minimum maximum = Ok v ↔ minimum ≤ v ≤ maximum.
Proof.
  intros Hv. split; [|by apply td_parse_long_fmt].
  by intros (_ & ? & _)%td_parse_long_Some_Ok.
Qed.

Lemma td_parse_long_roundtrip_witness :
  td_parse_long (Some (fmt_d (-42))) (-100) 100 = Ok (-42) ↔ -100 ≤ -42 ≤ 100.
Proof. apply td_parse_long_roundtrip. vm_compute. split; discriminate. Defined.

(** Port mappings.  An accepted mapping has both ports in 1..65535, and
    every such pair is accepted in its printed form. *)
Theorem td_parse_port_mapping_spec h c :
  (∃ text, td_parse_port_mapping text = Ok (h, c)) ↔ 1 ≤ h ≤ 65535 ∧ 1 ≤ c ≤ 65535.
Proof.
  split.
  - intros ([t|] & H); [|done]. unfold td_parse_port_mapping in H. destruct (strchr t ":"%char) as [[a b]|]; [|done].
    rewrite !reject_bind_Ok in H. destruct H as (_ & _ & H).
    apply bind_Ok in H as (x & Hx & H). apply bind_Ok in H as (y & Hy & H). inv_ok H.
    apply td_parse_long_Some_Ok in Hx as (_ & ? & _), Hy as (_ & ? & _). by simplify_eq.
  - intros [Hh Hc]. exists (Some (fmt_d h ++ ":"%char :: fmt_d c)). unfold td_parse_port_mapping.
    assert (F : ∀ p, 1 ≤ p ≤ 65535 → (":"%char ∉ fmt_d p) ∧ nonempty (fmt_d p) = true ∧ strlen (fmt_d p) ≤ 5).
    { intros p Hp. unfold fmt_d. case (Z.ltb_spec p 0); [lia|]. intros _.
      destruct (fmt_u_spec p) as (Hd & Hne & _); [unfold ULLONG_MAX; lia|]. split_and!.
      - intros Hin. rewrite Forall_forall in Hd. by specialize (Hd _ Hin).
      - by destruct (fmt_u p).
      - apply (fmt_u_length p 5); lia. }
    destruct (F h Hh) as (Fh1 & Fh2 & Fh3), (F c Hc) as (Fc1 & Fc2 & Fc3).
    rewrite strchr_app by done. cbv zeta. rewrite Fh2, Fc2.
    rewrite reject_if_false by (by apply contains_false).
    rewrite reject_if_false by (apply orb_false_iff; split; apply Z.leb_gt; lia).
    rewrite !td_parse_long_fmt by (unfold LONG_MIN, LONG_MAX; lia). done.
Qed.

(** The printed form of every address and prefix parses to the network the
    address lies in: the address with its low [32 - prefix] bits cleared. *)
Theorem td_parse_ipv4_cidr_print a prefix :
  0 ≤ a ≤ UINT32_MAX → 0 ≤ prefix ≤ 32 →
  td_parse_ipv4_cidr (Some (inet_ntop a ++ "/"%char :: fmt_d prefix)) =
  Ok (a - a mod 2 ^ (32 - prefix), prefix).
Proof.
  intros Ha Hp. unfold td_parse_ipv4_cidr.
  assert (Hs : ∀ x, 0 ≤ x < 256 → "/"%char ∉ fmt_u x).
  { intros x Hx Hin. destruct (fmt_u_spec x) as (Hd & _); [unfold ULLONG_MAX; lia|].
    rewrite Forall_forall in Hd. by specialize (Hd _ Hin). }
  assert (Hm : ∀ x, 0 ≤ x mod 256 < 256) by (intros; apply Z.mod_pos_bound; lia).
  assert (Hp' : "/"%char ∉ fmt_d prefix).
  { unfold fmt_d. case (Z.ltb_spec prefix 0); [lia|]. intros _. apply Hs. lia. }
  rewrite strchr_app.
  2:{ unfold inet_ntop. rewrite !elem_of_app, !elem_of_cons, !elem_of_app, !elem_of_cons,
        elem_of_app, elem_of_cons.
      pose proof (Hs _ (Hm (a / 2 ^ 24))). pose proof (Hs _ (Hm (a / 2 ^ 16))).
      pose proof (Hs _ (Hm (a / 2 ^ 8))). pose proof (Hs _ (Hm a)). intuition done. }
  assert (Hlen : strlen (fmt_d prefix) ≤ 2).
  { unfold fmt_d. case (Z.ltb_spec prefix 0); [lia|]. intros _. apply (fmt_u_length _ 2); lia. }
  rewrite reject_if_false.
  2:{ apply orb_false_iff; split; [|by apply contains_false].
      pose proof (inet_pton_ntop a Ha) as E.
      assert (nonempty (inet_ntop a) = true) as -> by (by destruct (inet_ntop a)).
      assert (fmt_d prefix ≠ []) by
        (intros E'; pose proof (td_parse_long_fmt prefix 0 32) as E2; rewrite E' in E2;
         specialize (E2 ltac:(unfold LONG_MIN, LONG_MAX; lia) Hp); done).
      by destruct (fmt_d prefix). }
  pose proof (inet_ntop_length a).
  rewrite reject_if_false by (apply orb_false_iff; split; apply Z.leb_gt; lia).
  rewrite inet_pton_ntop, td_parse_long_fmt by (done || unfold LONG_MIN, LONG_MAX; lia).
  cbn [mbind result_bind]. by rewrite land_cidr_mask.
Qed.

Lemma td_parse_ipv4_cidr_print_witness :
  td_parse_ipv4_cidr (Some (inet_ntop 2886860809 ++ "/"%char :: fmt_d 24)) = Ok (2886860800, 24).
Proof.
  apply (td_parse_ipv4_cidr_print 2886860809 24); [vm_compute; split; discriminate|lia].
Defined.

(** A path built for a runtime object is its base followed by exactly the
    directory and the object's name, a safe component. *)
Theorem td_build_named_path_components base directory name size out :
  td_build_named_path (Some base) (Some directory) (Some name) size = Ok out →
  components out = components base ++ [directory; name] ∧ is_dots name = false ∧
  strlen out < size ∧ starts_with_slash out = true.
Proof.
  unfold td_build_named_path. cbv zeta. rewrite reject_bind_Ok. intros (H1 & H).
  apply bind_Ok in H as ([] & Hn & H). rewrite reject_bind_Ok in H. destruct H as (H2 & H).
  inv_ok H. bools.
  pose proof (valid_name_excludes _ _ "/"%char Hn eq_refl) as Hns.
  apply td_validate_name_Ok in Hn as (Hne & _ & Hd & _).
  assert (Hw : ∀ w, "/"%char ∉ w → Forall (λ c, is_slash c = false) w).
  { intros w Hw. apply Forall_forall. intros c Hc. apply bool_decide_eq_false.
    intros ->. done. }
  assert (Hdir : directory ≠ []) by (by destruct directory).
  match goal with H : contains directory _ = false |- _ => apply contains_false in H end.
  split_and!; [|done|unfold truncated in *; bools; done|by destruct base].
  assert (E : ∀ b', components (b' ++ "/"%char :: directory ++ "/"%char :: name) =
                    components b' ++ [directory; name]).
  { intros b'. rewrite !components_app_slash, (components_word directory),
      (components_word name) by auto. done. }
  cbn [default]. destruct (ends_with_slash base) eqn:Eb; cbn [app].
  - apply ends_with_slash_true in Eb as (b' & ->). rewrite <-app_assoc. cbn [app].
    rewrite (E b'). by rewrite components_app_slash, components_nil, app_nil_r.
  - apply E.
Qed.

Lemma td_build_named_path_components_witness :
  ∃ out, td_build_named_path (Some (lit "/runtime")) (Some (lit "containers")) (Some (lit "demo")) 256
         = Ok out ∧ components out = components (lit "/runtime") ++ [lit "containers"; lit "demo"].
Proof.
  eexists. split; [vm_compute; reflexivity|].
  eapply (td_build_named_path_components _ _ _ 256). vm_compute. reflexivity.
Defined.

(** The record the kernel prints in [/proc/PID/stat]. *)
Definition stat_record (pid : Z) (comm : cstr) (fields : list cstr) : cstr :=
  fmt_d pid ++ lit " (" ++ comm ++ lit ") " ++ join SP fields ++ [LF].

(** The start time is found whatever bytes the process has put in its
    command name, parentheses and spaces included. *)
Theorem td_parse_proc_stat_start_time_any_comm pid comm fields start_time :
  0 ≤ pid ≤ INT_MAX → 0 ≤ start_time ≤ ULLONG_MAX →
  Forall (λ f, token [SP; TAB; CR; LF] f ∧ ")"%char ∉ f) fields →
  fields !! 19%nat = Some (fmt_u start_time) →
  td_parse_proc_stat_start_time (Some (stat_record pid comm fields)) = Ok start_time.
Proof.
  intros Hpid Hst Hf H19. unfold td_parse_proc_stat_start_time, stat_record.
  assert (Ho : "("%char ∉ fmt_d pid ++ [SP]).
  { unfold fmt_d. case (Z.ltb_spec pid 0); [lia|]. intros _.
    destruct (fmt_u_spec pid) as (Hd & _); [unfold ULLONG_MAX, INT_MAX in *; lia|].
    rewrite elem_of_app. intros [Hin|Hin]; [|by apply list_elem_of_singleton in Hin].
    rewrite Forall_forall in Hd. by specialize (Hd _ Hin). }
  assert (Hc : ")"%char ∉ SP :: join SP fields ++ [LF]).
  { apply not_elem_of_cons; split; [done|]. apply not_elem_of_app; split; [|set_solver].
    clear H19. induction Hf as [|f [|f' fs] [[_ _] Hf] _ IH]; [set_solver|done|].
    change (join SP (f :: f' :: fs)) with (f ++ SP :: join SP (f' :: fs)).
    apply not_elem_of_app; split; [done|]. apply not_elem_of_cons; by split. }
  change (lit " (" ++ comm ++ lit ") " ++ join SP fields ++ [LF])
    with (SP :: "("%char :: comm ++ ")"%char :: SP :: join SP fields ++ [LF]).
  replace (fmt_d pid ++ SP :: "("%char :: comm ++ ")"%char :: SP :: join SP fields ++ [LF])
    with ((fmt_d pid ++ [SP]) ++ "("%char :: comm ++ ")"%char :: SP :: join SP fields ++ [LF])
    by (by rewrite <-app_assoc).
  rewrite strchr_app by done. rewrite app_comm_cons, app_assoc, strrchr_app by done.
  rewrite reject_if_false.
  2:{ rewrite (bool_decide_eq_true_2 (SP = SP)) by done. rewrite orb_false_r.
      apply bool_decide_eq_false. rewrite length_app. lia. }
  rewrite strtok_snoc, strtok_join, H19.
  - pose proof (strtoull_fmt_u start_time [] Hst stops_nil) as E. rewrite app_nil_r in E.
    by rewrite E.
  - set_solver.
  - eapply Forall_impl; [exact Hf|]. by intros f [? _].
  - set_solver.
Qed.

Lemma td_parse_proc_stat_start_time_any_comm_witness :
  td_parse_proc_stat_start_time
    (Some (stat_record 4242 (lit "a) b (c ") (replicate 19 (lit "7") ++ [fmt_u 987654; lit "20"])))
  = Ok 987654.
Proof.
  apply td_parse_proc_stat_start_time_any_comm.
  - vm_compute. split; discriminate.
  - vm_compute. split; discriminate.
  - apply (bool_decide_unpack _). vm_compute. exact I.
  - reflexivity.
Defined.

(** Interface names.  [td_make_veth_name] succeeds exactly on the valid
    container names of at least six bytes, with a name of exactly 15 bytes (the
    longest Linux takes); shorter container names have no interface name. *)
Theorem td_make_veth_name_spec n size out :
  td_make_veth_name (Some n) size = Some out ↔
  16 ≤ size ∧ td_validate_name (Some n) 127 = Ok tt ∧ 6 ≤ strlen n ∧
  out = lit "td" ++ take 6 n ++ "-"%char :: fmt_hex 6 (fnv_hash n mod 2 ^ 24) ∧ strlen out = 15.
Proof.
  assert (E : veth_text n = lit "td" ++ take 6 n ++ "-"%char :: fmt_hex 6 (fnv_hash n mod 2 ^ 24)).
  { unfold veth_text. change 16777215 with (Z.ones 24). by rewrite Z.land_ones by lia. }
  rewrite td_make_veth_name_Some, <-E. split; [|naive_solver].
  intros (?&?&?&->). split_and!; try done. rewrite veth_text_length. lia.
Qed.

(** The peer name of a container is never the host name of any container. *)
Theorem td_make_veth_peer_name_distinct a b size_a size_b host peer :
  td_make_veth_name (Some a) size_a = Some host →
  td_make_veth_peer_name (Some b) size_b = Some peer →
  host ≠ peer ∧ strlen peer = 15.
Proof.
  intros (_ & _ & Ha & ->)%td_make_veth_name_Some. unfold td_make_veth_peer_name.
  destruct (td_make_veth_name (Some b) size_b) as [o|] eqn:E; [|done].
  apply td_make_veth_name_Some in E as (_ & _ & Hb & ->). intros [= <-]. split.
  - unfold veth_text. intros H. apply (f_equal (.!! 1%nat)) in H. by cbn in H.
  - pose proof (veth_text_length b) as L. unfold strlen in *.
    change (Z.of_nat (length (veth_text b)) = 15). lia.
Qed.

Lemma td_make_veth_peer_name_distinct_witness :
  ∃ h p, td_make_veth_name (Some (lit "same-prefix-container-a")) 16 = Some h ∧
    td_make_veth_peer_name (Some (lit "same-prefix-container-a")) 16 = Some p ∧ h ≠ p.
Proof.
  eexists _, _. split; [vm_compute; reflexivity|]. split; [vm_compute; reflexivity|].
  eapply (td_make_veth_peer_name_distinct (lit "same-prefix-container-a")
    (lit "same-prefix-container-a") 16 16); vm_compute; reflexivity.
Defined.
