(* ===== verification/StatusCodec.v ===== *)
(** * core/status_codec.c: the container metadata record

    [struct container_info] of [core/container_state.h], its text form, the
    parser and the writer.  [volumes] is the array of 32 strings, all empty
    after [memset]. *)
From S2P Require Import Prelude CString Paths Safety.
From Stdlib Require Import Lia.

(** ** Data *)

Inductive container_status := CONTAINER_RUNNING | CONTAINER_STOPPED | CONTAINER_EXITED.

Record container_info := ContainerInfo {
  ci_pid : Z;
  ci_pid_start_time : Z;
  ci_detach : Z;
  ci_container_id : cstr;
  ci_image : cstr;
  ci_command : cstr;
  ci_created : cstr;
  ci_status : cstr;
  ci_name : cstr;
  ci_ip_addr : cstr;
  ci_volume_cnt : Z;
  ci_volumes : list cstr
}.

Definition MAX_VOLUMES : nat := 32.
Definition ID_SIZE : Z := 128.
Definition IMAGE_SIZE : Z := 128.
Definition COMMAND_SIZE : Z := 512.
Definition CREATED_SIZE : Z := 20.
Definition STATUS_SIZE : Z := 10.
Definition NAME_SIZE : Z := 128.
Definition IP_SIZE : Z := 16.
Definition VOLUME_SIZE : Z := 512.

(** [memset(info, 0, sizeof( *info))]. *)
Definition zero_info : container_info :=
  ContainerInfo 0 0 0 [] [] [] [] [] [] [] 0 (replicate MAX_VOLUMES []).

(** Assignments to one field. *)
Definition set_pid v i := let '(ContainerInfo _ b c d e f g h j k l m) := i in ContainerInfo v b c d e f g h j k l m.
Definition set_pid_start v i := let '(ContainerInfo a _ c d e f g h j k l m) := i in ContainerInfo a v c d e f g h j k l m.
Definition set_detach v i := let '(ContainerInfo a b _ d e f g h j k l m) := i in ContainerInfo a b v d e f g h j k l m.
Definition set_id v i := let '(ContainerInfo a b c _ e f g h j k l m) := i in ContainerInfo a b c v e f g h j k l m.
Definition set_image v i := let '(ContainerInfo a b c d _ f g h j k l m) := i in ContainerInfo a b c d v f g h j k l m.
Definition set_command v i := let '(ContainerInfo a b c d e _ g h j k l m) := i in ContainerInfo a b c d e v g h j k l m.
Definition set_created v i := let '(ContainerInfo a b c d e f _ h j k l m) := i in ContainerInfo a b c d e f v h j k l m.
Definition set_status v i := let '(ContainerInfo a b c d e f g _ j k l m) := i in ContainerInfo a b c d e f g v j k l m.
Definition set_name v i := let '(ContainerInfo a b c d e f g h _ k l m) := i in ContainerInfo a b c d e f g h v k l m.
Definition set_ip v i := let '(ContainerInfo a b c d e f g h j _ l m) := i in ContainerInfo a b c d e f g h j v l m.
Definition set_volume_cnt v i := let '(ContainerInfo a b c d e f g h j k _ m) := i in ContainerInfo a b c d e f g h j k v m.
Definition set_volumes v i := let '(ContainerInfo a b c d e f g h j k l _) := i in ContainerInfo a b c d e f g h j k l v.

Definition FIELD_PID : Z := Z.shiftl 1 0.
Definition FIELD_DETACH : Z := Z.shiftl 1 1.
Definition FIELD_ID : Z := Z.shiftl 1 2.
Definition FIELD_IMAGE : Z := Z.shiftl 1 3.
Definition FIELD_COMMAND : Z := Z.shiftl 1 4.
Definition FIELD_CREATED : Z := Z.shiftl 1 5.
Definition FIELD_STATUS : Z := Z.shiftl 1 6.
Definition FIELD_IP : Z := Z.shiftl 1 7.
Definition FIELD_NAME : Z := Z.shiftl 1 8.
Definition FIELD_VOLUME_COUNT : Z := Z.shiftl 1 9.
Definition FIELD_PID_START : Z := Z.shiftl 1 10.

Definition required_fields : Z :=
  Z.lor FIELD_PID (Z.lor FIELD_DETACH (Z.lor FIELD_ID (Z.lor FIELD_IMAGE (Z.lor FIELD_COMMAND
  (Z.lor FIELD_CREATED (Z.lor FIELD_STATUS (Z.lor FIELD_IP (Z.lor FIELD_NAME FIELD_VOLUME_COUNT)))))))).

(** ** Parser *)

Definition copy_field (destination_size : Z) (value field : cstr) : result cstr :=
  _ ← reject_if (destination_size <=? strlen value)
        (lit "metadata field is too long: " ++ field);
  Ok value.

(** The new [seen] mask. *)
Definition claim_field (seen field : Z) (name : cstr) : result Z :=
  _ ← reject_if (negb (Z.land seen field =? 0)) (lit "duplicate metadata field: " ++ name);
  Ok (Z.lor seen field).

Definition parse_unsigned_long_long (text field : cstr) : result Z :=
  let parsed := strtoull text in
  _ ← reject_if (strto_failed parsed) (lit "invalid numeric metadata field: " ++ field);
  Ok (st_value parsed).

Definition valid_status (value : cstr) : bool :=
  bool_decide (value = lit "RUNNING") || bool_decide (value = lit "STOPPED")
  || bool_decide (value = lit "EXITED").

Definition parse_key_value (key value : cstr) (info : container_info) (seen : Z)
    : result (container_info * Z) :=
  if bool_decide (key = lit "pid") then
    seen' ← claim_field seen FIELD_PID key;
    parsed ← td_parse_long (Some value) 1 INT_MAX;
    Ok (set_pid parsed info, seen')
  else if bool_decide (key = lit "pid_start_time") then
    seen' ← claim_field seen FIELD_PID_START key;
    parsed ← parse_unsigned_long_long value key;
    Ok (set_pid_start parsed info, seen')
  else if bool_decide (key = lit "detach") then
    seen' ← claim_field seen FIELD_DETACH key;
    parsed ← td_parse_long (Some value) 0 1;
    Ok (set_detach parsed info, seen')
  else if bool_decide (key = lit "container_id") then
    seen' ← claim_field seen FIELD_ID key;
    copied ← copy_field ID_SIZE value key;
    Ok (set_id copied info, seen')
  else if bool_decide (key = lit "image") then
    seen' ← claim_field seen FIELD_IMAGE key;
    copied ← copy_field IMAGE_SIZE value key;
    Ok (set_image copied info, seen')
  else if bool_decide (key = lit "command") then
    seen' ← claim_field seen FIELD_COMMAND key;
    copied ← copy_field COMMAND_SIZE value key;
    Ok (set_command copied info, seen')
  else if bool_decide (key = lit "created") then
    seen' ← claim_field seen FIELD_CREATED key;
    copied ← copy_field CREATED_SIZE value key;
    Ok (set_created copied info, seen')
  else if bool_decide (key = lit "status") then
    match claim_field seen FIELD_STATUS key with
    | Ok seen' =>
        if valid_status value then
          match copy_field STATUS_SIZE value key with
          | Ok copied => Ok (set_status copied info, seen')
          | Err _ => Ok (info, seen')
          end
        else Err (lit "invalid metadata status: " ++ value)
    | Err _ => Err (lit "invalid metadata status: " ++ value)
    end
  else if bool_decide (key = lit "ip_addr") then
    seen' ← claim_field seen FIELD_IP key;
    copied ← copy_field IP_SIZE value key;
    Ok (set_ip copied info, seen')
  else if bool_decide (key = lit "name") then
    seen' ← claim_field seen FIELD_NAME key;
    copied ← copy_field NAME_SIZE value key;
    Ok (set_name copied info, seen')
  else if bool_decide (key = lit "volume_cnt") then
    seen' ← claim_field seen FIELD_VOLUME_COUNT key;
    parsed ← td_parse_long (Some value) 0 (Z.of_nat MAX_VOLUMES);
    Ok (set_volume_cnt parsed info, seen')
  else Err (lit "unknown metadata field: " ++ key).

(** The locals of the line loop. *)
Record parse_state := ParseState {
  ps_info : container_info;
  ps_seen : Z;
  ps_volume_index : Z
}.

(** [if (line[line_length - 1] == '\r') line[line_length - 1] = 0]. *)
Definition strip_cr (line : cstr) : cstr :=
  match last line with
  | Some c => if bool_decide (c = CR) then removelast line else line
  | None => line
  end.

Definition parse_line (st : parse_state) (raw : cstr) : result parse_state :=
  let line := strip_cr raw in
  let '(ParseState info seen volume_index) := st in
  if negb (Z.land seen FIELD_VOLUME_COUNT =? 0) then
    _ ← reject_if (ci_volume_cnt info <=? volume_index) (lit "metadata has extra volume entries");
    copied ← copy_field VOLUME_SIZE line (lit "volume");
    Ok (ParseState (set_volumes (<[Z.to_nat volume_index := copied]> (ci_volumes info)) info)
          seen (volume_index + 1))
  else
    match strchr line "="%char with
    | None => Err (lit "malformed metadata line")
    | Some (key, value) =>
        _ ← reject_if (negb (nonempty key)) (lit "malformed metadata line");
        '(info', seen') ← parse_key_value key value info seen;
        Ok (ParseState info' seen' volume_index)
    end.

Definition td_parse_container_info (data expected_name : option cstr) : result container_info :=
  match data, expected_name with
  | Some data, Some expected =>
      _ ← reject_if (contains data NUL) (lit "metadata contains a NUL byte");
      st ← mfold parse_line (ParseState zero_info 0 0) (strtok [LF] data);
      let info := ps_info st in
      _ ← reject_if (negb (Z.land (ps_seen st) required_fields =? required_fields))
            (lit "metadata is missing required fields");
      _ ← reject_if (negb (ps_volume_index st =? ci_volume_cnt info))
            (lit "metadata volume count does not match entries");
      _ ← reject_if (negb (is_Ok (td_validate_name (Some (ci_name info)) 127))
                     || negb (bool_decide (ci_name info = expected)))
            (lit "metadata name does not match file name");
      Ok info
  | _, _ => Err (lit "invalid metadata input")
  end.

(** ** Writer *)

Definition contains_record_separator (value : cstr) : bool := contains value LF || contains value CR.

(** The text of the [fprintf] call. *)
Definition header_text (info : container_info) : cstr :=
  lit "pid=" ++ fmt_d (ci_pid info) ++ [LF] ++
  lit "pid_start_time=" ++ fmt_u (ci_pid_start_time info) ++ [LF] ++
  lit "detach=" ++ fmt_d (ci_detach info) ++ [LF] ++
  lit "container_id=" ++ ci_container_id info ++ [LF] ++
  lit "image=" ++ ci_image info ++ [LF] ++
  lit "command=" ++ ci_command info ++ [LF] ++
  lit "created=" ++ ci_created info ++ [LF] ++
  lit "status=" ++ ci_status info ++ [LF] ++
  lit "ip_addr=" ++ ci_ip_addr info ++ [LF] ++
  lit "name=" ++ ci_name info ++ [LF] ++
  lit "volume_cnt=" ++ fmt_d (ci_volume_cnt info).

(** The loop over the volumes: each on its own line. *)
Definition write_volume (out volume : cstr) : result cstr :=
  _ ← reject_if (contains_record_separator volume) (lit "failed to write metadata volume");
  Ok (out ++ LF :: volume).

(** The bytes that reach the stream when no write to it fails. *)
Definition td_write_container_info (info : option container_info) : result cstr :=
  match info with
  | None => Err (lit "invalid metadata output")
  | Some info =>
      _ ← reject_if ((ci_pid info <=? 0) || (ci_volume_cnt info <? 0)
                     || (Z.of_nat MAX_VOLUMES <? ci_volume_cnt info)
                     || negb (valid_status (ci_status info))
                     || contains_record_separator (ci_image info)
                     || contains_record_separator (ci_command info)
                     || contains_record_separator (ci_name info))
            (lit "container metadata contains invalid values");
      out ← mfold write_volume (header_text info)
              (take (Z.to_nat (ci_volume_cnt info)) (ci_volumes info));
      Ok (out ++ [LF])
  end.

#[global] Arguments td_parse_container_info : simpl never.
#[global] Arguments td_write_container_info : simpl never.

(** ** What a record may hold

    [text_ok nocr s]: [s] has no line feed and no NUL, and no carriage return
    either when [nocr] is set. *)
Definition text_ok (nocr : bool) (s : cstr) : Prop :=
  (LF ∉ s) ∧ (NUL ∉ s) ∧ (nocr = true → CR ∉ s).

Record scalars_ok (nocr : bool) (seen : Z) (i : container_info) : Prop := {
  so_pid : Z.testbit seen 0 = true → 1 ≤ ci_pid i ≤ INT_MAX;
  so_start : 0 ≤ ci_pid_start_time i ≤ ULLONG_MAX;
  so_detach : 0 ≤ ci_detach i ≤ 1;
  so_id : strlen (ci_container_id i) < ID_SIZE ∧ text_ok nocr (ci_container_id i);
  so_image : strlen (ci_image i) < IMAGE_SIZE ∧ text_ok nocr (ci_image i);
  so_command : strlen (ci_command i) < COMMAND_SIZE ∧ text_ok nocr (ci_command i);
  so_created : strlen (ci_created i) < CREATED_SIZE ∧ text_ok nocr (ci_created i);
  so_status : Z.testbit seen 6 = true → valid_status (ci_status i) = true;
  so_name : strlen (ci_name i) < NAME_SIZE ∧ text_ok nocr (ci_name i);
  so_ip : strlen (ci_ip_addr i) < IP_SIZE ∧ text_ok nocr (ci_ip_addr i);
  so_cnt : 0 ≤ ci_volume_cnt i ≤ Z.of_nat MAX_VOLUMES
}.

Definition volume_line_ok (nocr : bool) (v : cstr) : Prop :=
  strlen v < VOLUME_SIZE ∧ text_ok nocr v ∧ (nocr = true → v ≠ []).

(** The array: [n] stored volumes, then zeroed entries. *)
Definition volumes_ok (nocr : bool) (n : nat) (vs : list cstr) : Prop :=
  ∃ used, vs = used ++ replicate (MAX_VOLUMES - n) [] ∧ length used = n ∧
    (n ≤ MAX_VOLUMES)%nat ∧ Forall (volume_line_ok nocr) used.

(** All fields set and in their bounds. *)
Record storable (nocr : bool) (i : container_info) : Prop := {
  sto_scalars : scalars_ok nocr required_fields i;
  sto_name : td_validate_name (Some (ci_name i)) 127 = Ok tt;
  sto_volumes : volumes_ok nocr (Z.to_nat (ci_volume_cnt i)) (ci_volumes i)
}.

(** ** The writer's text as lines *)
Definition header_lines (info : container_info) : list cstr :=
  [ lit "pid=" ++ fmt_d (ci_pid info);
    lit "pid_start_time=" ++ fmt_u (ci_pid_start_time info);
    lit "detach=" ++ fmt_d (ci_detach info);
    lit "container_id=" ++ ci_container_id info;
    lit "image=" ++ ci_image info;
    lit "command=" ++ ci_command info;
    lit "created=" ++ ci_created info;
    lit "status=" ++ ci_status info;
    lit "ip_addr=" ++ ci_ip_addr info;
    lit "name=" ++ ci_name info;
    lit "volume_cnt=" ++ fmt_d (ci_volume_cnt info) ].

Lemma join_app sep ws vs :
  ws ≠ [] → join sep (ws ++ vs) = join sep ws ++ concat (map (cons sep) vs).
Proof.
  intros Hne. induction ws as [|w ws IH]; [done|]. clear Hne.
  destruct ws as [|w' ws].
  - clear IH. cbn [app]. revert w. induction vs as [|v vs IHv]; intros w; cbn [map concat].
    + by rewrite app_nil_r.
    + change (join sep (w :: v :: vs)) with (w ++ sep :: join sep (v :: vs)).
      by rewrite IHv.
  - change ((w :: w' :: ws) ++ vs) with (w :: (w' :: ws ++ vs)).
    change (join sep (w :: w' :: ws ++ vs)) with (w ++ sep :: join sep ((w' :: ws) ++ vs)).
    rewrite IH by done. by rewrite app_comm_cons, app_assoc.
Qed.

Lemma header_text_join info : header_text info = join LF (header_lines info).
Proof. unfold header_text, header_lines. cbn [join]. by rewrite <-!app_assoc. Qed.

Lemma write_volume_Ok out v text :
  write_volume out v = Ok text ↔ contains_record_separator v = false ∧ text = out ++ LF :: v.
Proof. unfold write_volume. rewrite reject_bind_Ok. naive_solver. Qed.

Lemma write_volumes_Ok vs out text :
  mfold write_volume out vs = Ok text ↔
  Forall (λ v, contains_record_separator v = false) vs ∧ text = out ++ concat (map (cons LF) vs).
Proof.
  revert out; induction vs as [|v vs IH]; intros out; rewrite ?mfold_cons; cbn [map concat].
  - cbv [mfold]. rewrite app_nil_r. split; [intros [= <-]; by split|by intros [_ ->]].
  - rewrite bind_Ok. setoid_rewrite write_volume_Ok. rewrite Forall_cons. split.
    + intros (t & [Hv ->] & Ht). apply IH in Ht as [Hvs ->]. by rewrite <-app_assoc.
    + intros [[Hv Hvs] ->]. eexists. split; [done|]. apply IH. by rewrite <-app_assoc.
Qed.

Lemma no_separator s nocr : text_ok nocr s → nocr = true → contains_record_separator s = false.
Proof.
  intros (? & _ & Hc) Hn. apply orb_false_iff; split; apply contains_false; auto.
Qed.

Lemma write_storable info :
  storable true info →
  td_write_container_info (Some info) =
  Ok (join LF (header_lines info ++ take (Z.to_nat (ci_volume_cnt info)) (ci_volumes info)) ++ [LF]).
Proof.
  intros [[] Hn (used & Hu & Hlen & Hle & Hall)]. unfold td_write_container_info.
  destruct so_pid0 as [? ?]; [reflexivity|]. specialize (so_status0 eq_refl).
  destruct so_image0, so_command0, so_name0.
  rewrite reject_if_false.
  2:{ rewrite so_status0, !no_separator with (nocr := true) by done.
      rewrite !orb_false_r. repeat (apply orb_false_iff; split);
        [apply Z.leb_gt; lia|apply Z.ltb_ge; lia|apply Z.ltb_ge; lia]. }
  assert (Ht : take (Z.to_nat (ci_volume_cnt info)) (ci_volumes info) = used).
  { rewrite Hu, <-Hlen. by rewrite take_app_length. }
  rewrite Ht. rewrite join_app by done. rewrite <-header_text_join.
  destruct (mfold write_volume (header_text info) used) as [t|] eqn:E.
  - apply write_volumes_Ok in E as [_ ->]. done.
  - assert (mfold write_volume (header_text info) used =
            Ok (header_text info ++ concat (map (cons LF) used))) as E2; [|by rewrite E in E2].
    apply write_volumes_Ok. split; [|done]. eapply Forall_impl; [exact Hall|].
    intros v (_ & Hv & _). by eapply no_separator.
Qed.

(** ** Reading the lines back *)

Lemma strip_cr_id s : CR ∉ s → strip_cr s = s.
Proof.
  intros Hn. unfold strip_cr. destruct s as [|c s _] using rev_ind; [done|].
  rewrite last_snoc, bool_decide_eq_false_2; [done|]. set_solver.
Qed.

Lemma parse_header_line key value info seen vi :
  Z.land seen FIELD_VOLUME_COUNT = 0 → nonempty key = true → "="%char ∉ key →
  CR ∉ key ++ "="%char :: value →
  parse_line (ParseState info seen vi) (key ++ "="%char :: value) =
  ('(info', seen') ← parse_key_value key value info seen; Ok (ParseState info' seen' vi)).
Proof.
  intros Hs Hk He Hc. unfold parse_line. rewrite strip_cr_id, Hs by done. cbn [negb Z.eqb].
  by rewrite strchr_app, Hk.
Qed.

Lemma fmt_d_chars z c : c ∈ fmt_d z → INT_MIN ≤ z ≤ ULLONG_MAX → isdigit c = true ∨ c = "-"%char.
Proof.
  unfold fmt_d. intros Hin Hz. unfold INT_MIN, ULLONG_MAX in Hz.
  case (Z.ltb_spec z 0) as [Hneg|Hneg].
  - apply elem_of_cons in Hin as [->|Hin]; [by right|left].
    destruct (fmt_u_spec (- z)) as (Hd & _); [unfold ULLONG_MAX; lia|].
    rewrite Forall_forall in Hd. auto.
  - left. destruct (fmt_u_spec z) as (Hd & _); [unfold ULLONG_MAX; lia|].
    rewrite Forall_forall in Hd. auto.
Qed.

Lemma number_text_ok z : 0 ≤ z ≤ ULLONG_MAX → text_ok true (fmt_d z).
Proof.
  intros Hz.
  assert (F : ∀ c, c ∈ fmt_d z → isdigit c = true ∨ c = "-"%char).
  { intros c Hc. apply (fmt_d_chars z); [done|]. unfold INT_MIN, ULLONG_MAX in *. lia. }
  split_and!; intros; intros Hin; by destruct (F _ Hin) as [?| [=]].
Qed.

Lemma fmt_d_nonneg z : 0 ≤ z → fmt_d z = fmt_u z.
Proof. intros. unfold fmt_d. case (Z.ltb_spec z 0); [lia|done]. Qed.

Lemma status_text_ok s : valid_status s = true → text_ok true s ∧ strlen s < STATUS_SIZE.
Proof.
  unfold valid_status. rewrite !orb_true_iff, !bool_decide_eq_true.
  assert (∀ l, forallb (λ c, negb (bool_decide (c = LF)) && negb (bool_decide (c = NUL))
                             && negb (bool_decide (c = CR))) l = true → text_ok true l) as F.
  { intros l Hl. rewrite forallb_forall in Hl.
    split_and!; intros; intros Hin%list_elem_of_In; specialize (Hl _ Hin); done. }
  intros [[-> | ->]| ->]; (split; [apply F; reflexivity|reflexivity]).
Qed.

Lemma copy_field_Ok size value field v :
  copy_field size value field = Ok v ↔ strlen value < size ∧ v = value.
Proof. unfold copy_field. rewrite reject_bind_Ok, Z.leb_gt. naive_solver. Qed.

Lemma copy_field_fits size value field : strlen value < size → copy_field size value field = Ok value.
Proof. intros. by apply copy_field_Ok. Qed.

Lemma parse_ull_fmt n field :
  0 ≤ n ≤ ULLONG_MAX → parse_unsigned_long_long (fmt_u n) field = Ok n.
Proof.
  intros Hn. unfold parse_unsigned_long_long.
  pose proof (strtoull_fmt_u n [] Hn stops_nil) as E. rewrite app_nil_r in E. by rewrite E.
Qed.

(** The branches of [parse_key_value] as a table: the bit a key claims and
    what its value does to the record. *)
Definition field_of (key : cstr) : option (Z * (cstr → container_info → result container_info)) :=
  if bool_decide (key = lit "pid") then
    Some (FIELD_PID, λ v i, p ← td_parse_long (Some v) 1 INT_MAX; Ok (set_pid p i))
  else if bool_decide (key = lit "pid_start_time") then
    Some (FIELD_PID_START, λ v i, p ← parse_unsigned_long_long v key; Ok (set_pid_start p i))
  else if bool_decide (key = lit "detach") then
    Some (FIELD_DETACH, λ v i, p ← td_parse_long (Some v) 0 1; Ok (set_detach p i))
  else if bool_decide (key = lit "container_id") then
    Some (FIELD_ID, λ v i, c ← copy_field ID_SIZE v key; Ok (set_id c i))
  else if bool_decide (key = lit "image") then
    Some (FIELD_IMAGE, λ v i, c ← copy_field IMAGE_SIZE v key; Ok (set_image c i))
  else if bool_decide (key = lit "command") then
    Some (FIELD_COMMAND, λ v i, c ← copy_field COMMAND_SIZE v key; Ok (set_command c i))
  else if bool_decide (key = lit "created") then
    Some (FIELD_CREATED, λ v i, c ← copy_field CREATED_SIZE v key; Ok (set_created c i))
  else if bool_decide (key = lit "status") then
    Some (FIELD_STATUS, λ v i,
      if valid_status v then Ok (set_status v i) else Err (lit "invalid metadata status: " ++ v))
  else if bool_decide (key = lit "ip_addr") then
    Some (FIELD_IP, λ v i, c ← copy_field IP_SIZE v key; Ok (set_ip c i))
  else if bool_decide (key = lit "name") then
    Some (FIELD_NAME, λ v i, c ← copy_field NAME_SIZE v key; Ok (set_name c i))
  else if bool_decide (key = lit "volume_cnt") then
    Some (FIELD_VOLUME_COUNT, λ v i,
      p ← td_parse_long (Some v) 0 (Z.of_nat MAX_VOLUMES); Ok (set_volume_cnt p i))
  else None.

Lemma claim_field_Ok seen field name seen' :
  claim_field seen field name = Ok seen' ↔ Z.land seen field = 0 ∧ seen' = Z.lor seen field.
Proof.
  unfold claim_field. rewrite reject_bind_Ok, negb_false_iff, Z.eqb_eq. naive_solver.
Qed.

(** One branch with the shape claim; convert; store. *)
Lemma claim_branch {A} seen field key (r : result A) (f : A → container_info) p :
  (seen' ← claim_field seen field key; v ← r; Ok (f v, seen')) = Ok p ↔
  Z.land seen field = 0 ∧ (v ← r; Ok (f v)) = Ok p.1 ∧ p.2 = Z.lor seen field.
Proof.
  rewrite bind_Ok. setoid_rewrite claim_field_Ok. destruct r, p; cbn; naive_solver.
Qed.

Lemma status_branch value info seen key p :
  match claim_field seen FIELD_STATUS key with
  | Ok seen' =>
      if valid_status value then
        match copy_field STATUS_SIZE value key with
        | Ok copied => Ok (set_status copied info, seen')
        | Err _ => Ok (info, seen')
        end
      else Err (lit "invalid metadata status: " ++ value)
  | Err _ => Err (lit "invalid metadata status: " ++ value)
  end = Ok p ↔
  Z.land seen FIELD_STATUS = 0 ∧
  (if valid_status value then Ok (set_status value info)
   else Err (lit "invalid metadata status: " ++ value)) = Ok p.1 ∧
  p.2 = Z.lor seen FIELD_STATUS.
Proof.
  destruct (valid_status value) eqn:E; [|by destruct (claim_field _ _ _); naive_solver].
  rewrite copy_field_fits by apply status_text_ok, E.
  destruct (claim_field seen FIELD_STATUS key) as [s|] eqn:C.
  - apply claim_field_Ok in C as [? ->]. destruct p; naive_solver.
  - split; [done|]. intros (H & _). unfold claim_field in C. rewrite H in C. done.
Qed.

Lemma parse_key_value_Ok key value info seen p :
  parse_key_value key value info seen = Ok p ↔
  ∃ field update, field_of key = Some (field, update) ∧ Z.land seen field = 0 ∧
    update value info = Ok p.1 ∧ p.2 = Z.lor seen field.
Proof.
  unfold parse_key_value, field_of.
  repeat case_bool_decide; try (rewrite claim_branch || rewrite status_branch); naive_solver.
Qed.

Lemma header_step key value field update info info' seen rest :
  field_of key = Some (field, update) →
  Z.land seen field = 0 → Z.land seen FIELD_VOLUME_COUNT = 0 →
  nonempty key = true → "="%char ∉ key → CR ∉ key ++ "="%char :: value →
  update value info = Ok info' →
  mfold parse_line (ParseState info seen 0) ((key ++ "="%char :: value) :: rest) =
  mfold parse_line (ParseState info' (Z.lor seen field) 0) rest.
Proof.
  intros Hf Hl Hv Hk He Hc Hu.
  rewrite mfold_cons, parse_header_line by done.
  assert (parse_key_value key value info seen = Ok (info', Z.lor seen field)) as ->; [|done].
  apply parse_key_value_Ok. by exists field, update.
Qed.

Lemma cr_free_line (k : cstr) v :
  forallb (λ c, negb (bool_decide (c = CR))) (k ++ ["="%char]) = true → CR ∉ v →
  CR ∉ k ++ "="%char :: v.
Proof.
  intros Hk Hv Hin. replace (k ++ "="%char :: v) with ((k ++ ["="%char]) ++ v) in Hin
    by (by rewrite <-app_assoc).
  apply elem_of_app in Hin as [Hin|Hin]; [|done].
  rewrite forallb_forall in Hk. apply list_elem_of_In in Hin. by specialize (Hk _ Hin).
Qed.

(** [header k]: read the line of the field [k]; the value's side conditions and
    the update are left to the caller. *)
Ltac header k :=
  lazymatch goal with
  | |- mfold parse_line (ParseState ?i ?s 0) ((?kk ++ ?v) :: ?rest) = _ =>
      change (kk ++ v) with (lit k ++ "="%char :: v);
      erewrite (header_step (lit k) v);
      [ | reflexivity | reflexivity | reflexivity | reflexivity
        | apply contains_false; reflexivity
        | apply cr_free_line; [reflexivity | ]
        | cbv beta ]
  end.

Lemma parse_header info rest :
  storable true info →
  mfold parse_line (ParseState zero_info 0 0) (header_lines info ++ rest) =
  mfold parse_line (ParseState (set_volumes (replicate MAX_VOLUMES []) info) 2047 0) rest.
Proof.
  intros [[] _ _]. destruct info as [pid start det id img cmd cre sta nam ip cnt vols].
  cbn [ci_pid ci_pid_start_time ci_detach ci_container_id ci_image
    ci_command ci_created ci_status ci_name ci_ip_addr ci_volume_cnt] in *.
  specialize (so_pid0 eq_refl). specialize (so_status0 eq_refl).
  destruct (status_text_ok _ so_status0) as [[_ [_ ?]] _].
  destruct so_id0 as [? [_ [_ ?]]], so_image0 as [? [_ [_ ?]]], so_command0 as [? [_ [_ ?]]],
    so_created0 as [? [_ [_ ?]]], so_name0 as [? [_ [_ ?]]], so_ip0 as [? [_ [_ ?]]].
  assert (Hnum : ∀ z, 0 ≤ z ≤ ULLONG_MAX → CR ∉ fmt_d z).
  { intros z Hz. by apply (number_text_ok z Hz). }
  unfold INT_MAX in so_pid0. unfold MAX_VOLUMES in so_cnt0.
  unfold header_lines. cbn [app ci_pid ci_pid_start_time ci_detach ci_container_id ci_image
    ci_command ci_created ci_status ci_name ci_ip_addr ci_volume_cnt].
  header "pid"; [|apply Hnum; unfold ULLONG_MAX; lia|
    rewrite td_parse_long_fmt by (unfold LONG_MIN, LONG_MAX, INT_MAX; lia); reflexivity].
  header "pid_start_time"; [|rewrite <-fmt_d_nonneg by lia; by apply Hnum|
    rewrite parse_ull_fmt by done; reflexivity].
  header "detach"; [|apply Hnum; unfold ULLONG_MAX; lia|
    rewrite td_parse_long_fmt by (unfold LONG_MIN, LONG_MAX; lia); reflexivity].
  header "container_id"; [|by auto|rewrite copy_field_fits by done; reflexivity].
  header "image"; [|by auto|rewrite copy_field_fits by done; reflexivity].
  header "command"; [|by auto|rewrite copy_field_fits by done; reflexivity].
  header "created"; [|by auto|rewrite copy_field_fits by done; reflexivity].
  header "status"; [|by auto|rewrite so_status0; reflexivity].
  header "ip_addr"; [|by auto|rewrite copy_field_fits by done; reflexivity].
  header "name"; [|by auto|rewrite copy_field_fits by done; reflexivity].
  header "volume_cnt"; [|apply Hnum; unfold ULLONG_MAX; lia|
    rewrite td_parse_long_fmt by (unfold LONG_MIN, LONG_MAX, MAX_VOLUMES; lia); reflexivity].
  reflexivity.
Qed.

Lemma set_volumes_twice a b i : set_volumes a (set_volumes b i) = set_volumes a i.
Proof. by destruct i. Qed.
Lemma ci_volumes_set vs i : ci_volumes (set_volumes vs i) = vs.
Proof. by destruct i. Qed.
Lemma ci_volume_cnt_set vs i : ci_volume_cnt (set_volumes vs i) = ci_volume_cnt i.
Proof. by destruct i. Qed.
Lemma set_volumes_id i : set_volumes (ci_volumes i) i = i.
Proof. by destruct i. Qed.

Lemma parse_volume_line info seen vi v :
  Z.land seen FIELD_VOLUME_COUNT ≠ 0 →
  parse_line (ParseState info seen vi) v =
  (_ ← reject_if (ci_volume_cnt info <=? vi) (lit "metadata has extra volume entries");
   copied ← copy_field VOLUME_SIZE (strip_cr v) (lit "volume");
   Ok (ParseState (set_volumes (<[Z.to_nat vi := copied]> (ci_volumes info)) info) seen (vi + 1))).
Proof. intros Hs%Z.eqb_neq. unfold parse_line. by rewrite Hs. Qed.

(** One volume line goes into the next free entry. *)
Lemma volume_step info used k seen v rest :
  Z.land seen FIELD_VOLUME_COUNT ≠ 0 → Z.of_nat (length used) < ci_volume_cnt info →
  strlen (strip_cr v) < VOLUME_SIZE →
  mfold parse_line
    (ParseState (set_volumes (used ++ replicate (S k) []) info) seen (Z.of_nat (length used)))
    (v :: rest) =
  mfold parse_line
    (ParseState (set_volumes ((used ++ [strip_cr v]) ++ replicate k []) info) seen
       (Z.of_nat (length (used ++ [strip_cr v])))) rest.
Proof.
  intros Hs Hlt Hv. rewrite mfold_cons, parse_volume_line by done.
  rewrite ci_volume_cnt_set, reject_if_false by (apply Z.leb_gt; lia).
  rewrite copy_field_fits by done. cbn [mbind result_bind].
  rewrite set_volumes_twice, ci_volumes_set, Nat2Z.id.
  rewrite insert_app_r_alt, Nat.sub_diag by done.
  cbn [replicate]. change (<[0%nat:=strip_cr v]> ([] :: replicate k [])) with (strip_cr v :: replicate k []).
  rewrite <-app_assoc, length_app. cbn [app length].
  by rewrite Nat2Z.inj_add.
Qed.

Lemma parse_volumes info vs : ∀ used k,
  Forall (volume_line_ok true) vs →
  Z.of_nat (length used + length vs) ≤ ci_volume_cnt info →
  mfold parse_line
    (ParseState (set_volumes (used ++ replicate (length vs + k) []) info) 2047 (Z.of_nat (length used))) vs =
  Ok (ParseState (set_volumes (used ++ vs ++ replicate k []) info) 2047
        (Z.of_nat (length used + length vs))).
Proof.
  induction vs as [|v vs IH]; intros used k Hall Hcnt.
  { cbn [length app Nat.add]. by rewrite Nat.add_0_r. }
  apply Forall_cons in Hall as [(Hv1 & (_ & _ & Hv2) & _) Hvs]. cbn [length] in *.
  assert (Hcr : strip_cr v = v) by (apply strip_cr_id; auto).
  change (S (length vs) + k)%nat with (S (length vs + k)).
  rewrite volume_step by (done || rewrite ?Hcr; done || lia). rewrite Hcr.
  rewrite IH; [|done|rewrite length_app; cbn; lia].
  rewrite length_app, <-app_assoc. cbn [app length].
  by replace (length used + 1 + length vs)%nat with (length used + S (length vs))%nat by lia.
Qed.

(** Every line the writer emits is one token of the parser. *)
Lemma header_tokens info : storable true info → Forall (token [LF]) (header_lines info).
Proof.
  intros [[] _ _]. specialize (so_pid0 eq_refl). specialize (so_status0 eq_refl).
  destruct (status_text_ok _ so_status0) as [[? _] _].
  destruct so_id0 as [? [? _]], so_image0 as [? [? _]], so_command0 as [? [? _]],
    so_created0 as [? [? _]], so_name0 as [? [? _]], so_ip0 as [? [? _]].
  assert (Hnum : ∀ z, 0 ≤ z ≤ ULLONG_MAX → LF ∉ fmt_d z) by (intros z Hz; by apply (number_text_ok z Hz)).
  assert (F : ∀ k v, nonempty k = true → LF ∉ k → LF ∉ v → token [LF] (k ++ v)).
  { intros k v Hk Hk' Hv. split; [by destruct k|]. apply Forall_app; split;
      apply Forall_forall; intros c Hc Hc'%list_elem_of_singleton; subst; done. }
  unfold INT_MAX, MAX_VOLUMES in *.
  unfold header_lines. rewrite <-(fmt_d_nonneg (ci_pid_start_time info)) by lia.
  rewrite !Forall_cons, Forall_nil. split_and!; try exact I; apply F; try reflexivity;
    try (apply contains_false; reflexivity); try assumption;
    apply Hnum; unfold ULLONG_MAX in *; lia.
Qed.

Lemma NUL_free_join ws : Forall (λ w, NUL ∉ w) ws → NUL ∉ join LF ws.
Proof.
  induction 1 as [|w ws Hw _ IH]; [set_solver|]. destruct ws as [|w' ws]; [done|].
  change (join LF (w :: w' :: ws)) with (w ++ LF :: join LF (w' :: ws)).
  apply not_elem_of_app; split; [done|]. apply not_elem_of_cons; by split.
Qed.

Lemma header_NUL_free info : storable true info → Forall (λ w, NUL ∉ w) (header_lines info).
Proof.
  intros [[] _ _]. specialize (so_pid0 eq_refl). specialize (so_status0 eq_refl).
  destruct (status_text_ok _ so_status0) as [[? [? _]] _].
  destruct so_id0 as [? [? [? _]]], so_image0 as [? [? [? _]]], so_command0 as [? [? [? _]]],
    so_created0 as [? [? [? _]]], so_name0 as [? [? [? _]]], so_ip0 as [? [? [? _]]].
  assert (Hnum : ∀ z, 0 ≤ z ≤ ULLONG_MAX → NUL ∉ fmt_d z) by (intros z Hz; by apply (number_text_ok z Hz)).
  assert (F : ∀ k v, NUL ∉ k → NUL ∉ v → NUL ∉ k ++ v) by (intros; by apply not_elem_of_app).
  unfold INT_MAX, MAX_VOLUMES in *.
  unfold header_lines. rewrite <-(fmt_d_nonneg (ci_pid_start_time info)) by lia.
  rewrite !Forall_cons, Forall_nil. split_and!; try exact I; apply F;
    try (apply contains_false; reflexivity); try assumption;
    apply Hnum; unfold ULLONG_MAX in *; lia.
Qed.

Lemma parse_written info :
  storable true info →
  td_parse_container_info
    (Some (join LF (header_lines info ++ take (Z.to_nat (ci_volume_cnt info)) (ci_volumes info)) ++ [LF]))
    (Some (ci_name info)) = Ok info.
Proof.
  intros Hst. pose proof Hst as [Hsc Hname (used & Hu & Hlen & Hle & Hall)].
  assert (Ht : take (Z.to_nat (ci_volume_cnt info)) (ci_volumes info) = used).
  { rewrite Hu, <-Hlen. by rewrite take_app_length. }
  rewrite Ht. unfold td_parse_container_info. rewrite reject_if_false.
  2:{ apply contains_false, not_elem_of_app; split; [|set_solver]. apply NUL_free_join, Forall_app.
      split; [by apply header_NUL_free|]. eapply Forall_impl; [exact Hall|].
      intros v (_ & (_ & ? & _) & _). done. }
  assert (Htok : Forall (token [LF]) (header_lines info ++ used)).
  { apply Forall_app; split; [by apply header_tokens|]. eapply Forall_impl; [exact Hall|].
    intros v (_ & (Hlf & _ & _) & Hne). split; [by apply Hne|].
    apply Forall_forall. intros c Hc Hc'%list_elem_of_singleton. by subst. }
  rewrite strtok_snoc, strtok_join, parse_header by (done || set_solver).
  pose proof (so_cnt _ _ _ Hsc) as Hcnt.
  pose proof (parse_volumes info used [] (MAX_VOLUMES - length used) Hall) as P.
  cbn [app length] in P. change (Z.of_nat 0) with 0 in P. rewrite Hlen in P.
  replace (Z.to_nat (ci_volume_cnt info) + (MAX_VOLUMES - Z.to_nat (ci_volume_cnt info)))%nat
    with MAX_VOLUMES in P by lia.
  rewrite P by lia. rewrite <-Hu, set_volumes_id. cbn [mbind result_bind ps_info ps_seen ps_volume_index].
  rewrite reject_if_false by reflexivity.
  rewrite reject_if_false by (apply negb_false_iff, Z.eqb_eq; lia).
  rewrite reject_if_false; [done|]. rewrite Hname, bool_decide_eq_true_2 by done. done.
Qed.

(** ** What the parser accepts *)

Lemma text_ok_suffix nocr a b : text_ok nocr (a ++ b) → text_ok nocr b.
Proof. intros (H1 & H2 & H3). split_and!; [set_solver|set_solver|]. intros Hn. specialize (H3 Hn). set_solver. Qed.

Lemma text_ok_prefix nocr a b : text_ok nocr (a ++ b) → text_ok nocr a.
Proof. intros (H1 & H2 & H3). split_and!; [set_solver|set_solver|]. intros Hn. specialize (H3 Hn). set_solver. Qed.

Lemma strip_cr_prefix s : ∃ t, s = strip_cr s ++ t.
Proof.
  unfold strip_cr. destruct s as [|c s _] using rev_ind; [by exists []|].
  rewrite last_snoc. case_bool_decide; [|by exists []; rewrite app_nil_r].
  exists [c]. by rewrite removelast_last.
Qed.

Lemma strip_cr_text_ok nocr s : text_ok nocr s → text_ok nocr (strip_cr s).
Proof. destruct (strip_cr_prefix s) as [t Ht]. intros H. rewrite Ht in H. by eapply text_ok_prefix. Qed.

Lemma status_text_ok_any nocr s : valid_status s = true → text_ok nocr s.
Proof. intros H. destruct (status_text_ok s H) as [(?&?&?) _]. split_and!; auto. Qed.

Lemma text_ok_nil nocr : text_ok nocr [].
Proof. split_and!; [set_solver|set_solver|]. intros _. set_solver. Qed.

Lemma scalars_zero nocr : scalars_ok nocr 0 zero_info.
Proof. constructor; cbn; try done; try (split; [done|apply text_ok_nil]). Qed.

#[local] Arguments Z.testbit : simpl never.
#[local] Arguments Z.lor : simpl never.

(** A field update keeps the bounds, records its bit and leaves the volumes. *)
Lemma scalars_update nocr key field update value i i' seen :
  field_of key = Some (field, update) → update value i = Ok i' → text_ok nocr value →
  scalars_ok nocr seen i →
  scalars_ok nocr (Z.lor seen field) i' ∧ ci_volumes i' = ci_volumes i ∧
  0 ≤ ci_volume_cnt i'.
Proof.
  intros Hf Hu Ht []. unfold field_of in Hf. destruct i.
  repeat case_bool_decide; simplify_eq; try done.
  all: try (apply bind_Ok in Hu as (v & Hv & Hu); injection Hu as <-).
  all: try (destruct (valid_status value) eqn:Hvs; [injection Hu as <-|done]).
  all: try (apply copy_field_Ok in Hv as [Hv ->]).
  all: try (apply td_parse_long_Some_Ok in Hv as (_ & Hv & _)).
  all: try (unfold parse_unsigned_long_long in Hv; rewrite reject_bind_Ok in Hv;
            destruct Hv as [_ Hv]; injection Hv as <-).
  all: cbn in *; split; [|split; [done|lia]].
  all: constructor; cbn; try done; try apply strtoull_range; rewrite Z.lor_spec.
  all: intros [Hb|Hb]%orb_true_iff; auto; vm_compute in Hb; discriminate.
Qed.

Record parse_inv (nocr : bool) (st : parse_state) : Prop := {
  pi_scalars : scalars_ok nocr (ps_seen st) (ps_info st);
  pi_index : 0 ≤ ps_volume_index st ≤ ci_volume_cnt (ps_info st);
  pi_volumes : volumes_ok nocr (Z.to_nat (ps_volume_index st)) (ci_volumes (ps_info st));
  pi_before : Z.land (ps_seen st) FIELD_VOLUME_COUNT = 0 → ps_volume_index st = 0
}.

Lemma volumes_ok_snoc nocr n vs v :
  volumes_ok nocr n vs → volume_line_ok nocr v → (n < MAX_VOLUMES)%nat →
  volumes_ok nocr (S n) (<[n := v]> vs).
Proof.
  intros (used & -> & Hlen & Hle & Hall) Hv Hn. exists (used ++ [v]). split_and!.
  - rewrite insert_app_r_alt, Hlen, Nat.sub_diag by lia.
    replace (MAX_VOLUMES - n)%nat with (S (MAX_VOLUMES - S n)) by lia.
    by rewrite <-app_assoc.
  - rewrite length_app; cbn; lia.
  - lia.
  - apply Forall_app; split; [done|]. by apply Forall_singleton.
Qed.

Lemma scalars_volumes nocr seen vs i : scalars_ok nocr seen i → scalars_ok nocr seen (set_volumes vs i).
Proof. destruct i. intros []. constructor; done. Qed.

Lemma parse_line_inv nocr st raw st' :
  parse_inv nocr st → text_ok nocr raw → raw ≠ [] → parse_line st raw = Ok st' →
  parse_inv nocr st'.
Proof.
  destruct st as [info seen vi]. intros [Hs Hi Hv Hb] Ht Hne H.
  cbn [ps_info ps_seen ps_volume_index] in *.
  pose proof (strip_cr_text_ok _ _ Ht) as Ht'.
  destruct (decide (Z.land seen FIELD_VOLUME_COUNT = 0)) as [E|E].
  - unfold parse_line in H. rewrite E in H. cbn [negb Z.eqb] in H.
    destruct (strchr (strip_cr raw) "="%char) as [[key value]|] eqn:Ek; [|done].
    apply strchr_Some in Ek as [Ek _]. rewrite Ek in Ht'.
    apply reject_bind_Ok in H as [_ H]. apply bind_Ok in H as ([i' s'] & Hk & H).
    injection H as <-. apply parse_key_value_Ok in Hk as (field & update & Hf & Hl & Hu & Hs').
    cbn in Hu, Hs'. subst s'.
    destruct (scalars_update nocr _ _ _ _ _ _ seen Hf Hu) as (Hs2 & Hv2 & Hc2); [|done|].
    { replace (key ++ "="%char :: value) with ((key ++ ["="%char]) ++ value) in Ht'
        by (by rewrite <-app_assoc). by eapply text_ok_suffix. }
    specialize (Hb E). subst vi.
    constructor; cbn; [done|lia|by rewrite Hv2|done].
  - rewrite parse_volume_line in H by done. apply reject_bind_Ok in H as [Hlt H].
    apply bind_Ok in H as (c & Hc & H). injection H as <-. apply copy_field_Ok in Hc as [Hc ->].
    bools. pose proof (so_cnt _ _ _ Hs).
    constructor; cbn.
    + by apply scalars_volumes.
    + rewrite ci_volume_cnt_set. lia.
    + rewrite ci_volumes_set. replace (Z.to_nat (vi + 1)) with (S (Z.to_nat vi)) by lia.
      apply volumes_ok_snoc; [done| |lia]. split_and!; [done|done|].
      intros ->. rewrite strip_cr_id; [done|]. by apply Ht.
    + done.
Qed.

Lemma land_required seen n :
  Z.land seen required_fields = required_fields → Z.testbit required_fields n = true →
  Z.testbit seen n = true.
Proof. intros H Hn. rewrite <-H, Z.land_spec in Hn. by apply andb_true_iff in Hn as [? _]. Qed.

(** ** What an accepted file says *)

(** The header of the file has a line [key=value]. *)
Definition has_entry (header : list cstr) (key value : cstr) : Prop := key ++ "="%char :: value ∈ header.
Definition has_number (header : list cstr) (key : cstr) (parse : cstr → result Z) (n : Z) : Prop :=
  ∃ text, has_entry header key text ∧ parse text = Ok n.

(** The required fields, each with the line it was taken from. *)
Definition field_values (header : list cstr) (i : container_info) : list Prop :=
  [ has_number header (lit "pid") (λ v, td_parse_long (Some v) 1 INT_MAX) (ci_pid i);
    has_number header (lit "detach") (λ v, td_parse_long (Some v) 0 1) (ci_detach i);
    has_entry header (lit "container_id") (ci_container_id i);
    has_entry header (lit "image") (ci_image i);
    has_entry header (lit "command") (ci_command i);
    has_entry header (lit "created") (ci_created i);
    has_entry header (lit "status") (ci_status i);
    has_entry header (lit "ip_addr") (ci_ip_addr i);
    has_entry header (lit "name") (ci_name i);
    has_number header (lit "volume_cnt") (λ v, td_parse_long (Some v) 0 (Z.of_nat MAX_VOLUMES)) (ci_volume_cnt i) ].
(** The start time may be missing: it is 0 then. *)
Definition start_value (header : list cstr) (i : container_info) : Prop :=
  has_number header (lit "pid_start_time") (λ v, parse_unsigned_long_long v (lit "pid_start_time")) (ci_pid_start_time i) ∨
  ci_pid_start_time i = 0 ∧ ∀ value, ¬ has_entry header (lit "pid_start_time") value.

(** The fields seen so far. *)
Definition recorded (seen : Z) (header : list cstr) (i : container_info) : Prop :=
  (∀ n P, field_values header i !! n = Some P → Z.testbit seen (Z.of_nat n) = true → P) ∧
  start_value header i.

Lemma has_number_mono header header' key parse n :
  (∀ k v, has_entry header k v → has_entry header' k v) →
  has_number header key parse n → has_number header' key parse n.
Proof. intros Hm (v & ? & ?). exists v. auto. Qed.
Lemma has_number_here header key value (parse : cstr → result Z) n :
  has_entry header key value → parse value = Ok n → has_number header key parse n.
Proof. intros ? ?. by exists value. Qed.

Lemma start_value_other header key value i :
  "="%char ∉ key → key ≠ lit "pid_start_time" → start_value header i →
  start_value (header ++ [key ++ "="%char :: value]) i.
Proof.
  intros He Hk [H|[H0 Hn]].
  { left. eapply has_number_mono; [|exact H]. unfold has_entry. set_solver. }
  right. split; [done|]. intros v [H|H%list_elem_of_singleton]%elem_of_app; [by apply (Hn v)|]. apply Hk.
  pose proof (strchr_app key "="%char value He) as E. rewrite <-H, strchr_app in E; [congruence|].
  apply contains_false. reflexivity.
Qed.

(** The claimed fields of the record are on lines of a longer header. *)
Lemma values_update key field update value i i' seen header header' :
  field_of key = Some (field, update) → update value i = Ok i' →
  (∀ k v, has_entry header k v → has_entry header' k v) → has_entry header' key value →
  (∀ n P, field_values header i !! n = Some P → Z.testbit seen (Z.of_nat n) = true → P) →
  ∀ n P, field_values header' i' !! n = Some P → Z.testbit (Z.lor seen field) (Z.of_nat n) = true → P.
Proof.
  intros Hf Hu Hm Hl H. unfold field_of in Hf.
  repeat case_bool_decide; simplify_eq; try done.
  all: try (apply bind_Ok in Hu as (v & Hv & Hu); injection Hu as <-).
  all: try (destruct (valid_status value) eqn:Hvs; [injection Hu as <-|done]).
  all: try (apply copy_field_Ok in Hv as [_ ->]).
  all: destruct i; intros n P Hn; rewrite Z.lor_spec; intros [Hb|Hb]%orb_true_iff.
  all: do 10 (destruct n as [|n]; [injection Hn as <-;
    match type of Hb with
    | Z.testbit ?s (Z.of_nat ?k) = true => is_var s;
        first [ exact Hl | exact (has_number_here _ _ _ _ _ Hl Hv)
              | apply Hm; exact (H k _ eq_refl Hb) | apply (has_number_mono _ _ _ _ _ Hm); exact (H k _ eq_refl Hb) ]
    | _ => first [ exact Hl | exact (has_number_here _ _ _ _ _ Hl Hv) | by vm_compute in Hb ]
    end|]).
  all: done.
Qed.

Lemma start_update key field update value i i' header :
  field_of key = Some (field, update) → update value i = Ok i' → "="%char ∉ key → start_value header i →
  start_value (header ++ [key ++ "="%char :: value]) i'.
Proof.
  intros Hf Hu He Hs. destruct (decide (key = lit "pid_start_time")) as [->|Hk].
  - cbn in Hf. injection Hf as <- <-. apply bind_Ok in Hu as (v & Hv & Hu). injection Hu as <-.
    destruct i. left. exists value. split; [|exact Hv]. unfold has_entry. set_solver.
  - apply start_value_other; [done|done|].
    assert (E : ci_pid_start_time i' = ci_pid_start_time i); [|unfold start_value; by rewrite E].
    unfold field_of in Hf. repeat case_bool_decide; simplify_eq; try done.
    all: try (apply bind_Ok in Hu as (v & Hv & Hu); injection Hu as <-).
    all: try (destruct (valid_status value) eqn:Hvs; [injection Hu as <-|done]).
    all: by destruct i.
Qed.

(** The lines read so far: a header, then the volumes stored. *)
Record line_inv (lines : list cstr) (st : parse_state) : Prop := {
  li_split : ∃ header, lines = header ++ take (Z.to_nat (ps_volume_index st)) (ci_volumes (ps_info st)) ∧
    recorded (ps_seen st) header (ps_info st);
  li_index : 0 ≤ ps_volume_index st ∧ (Z.to_nat (ps_volume_index st) ≤ length (ci_volumes (ps_info st)))%nat;
  li_before : Z.land (ps_seen st) FIELD_VOLUME_COUNT = 0 → ps_volume_index st = 0
}.

Lemma recorded_volumes_set seen header vs i : recorded seen header i → recorded seen header (set_volumes vs i).
Proof. by destruct i. Qed.

Lemma update_volumes key field update value i i' :
  field_of key = Some (field, update) → update value i = Ok i' → ci_volumes i' = ci_volumes i.
Proof.
  intros Hf Hu. unfold field_of in Hf. repeat case_bool_decide; simplify_eq; try done.
  all: try (apply bind_Ok in Hu as (v & Hv & Hu); injection Hu as <-).
  all: try (destruct (valid_status value) eqn:Hvs; [injection Hu as <-|done]).
  all: by destruct i.
Qed.

Lemma line_step nocr lines st raw st' :
  parse_inv nocr st → line_inv lines st → parse_line st raw = Ok st' → line_inv (lines ++ [strip_cr raw]) st'.
Proof.
  destruct st as [info seen vi]. intros [Hsc _ (used & Hvs & Hlen & Hle & _) _] [(header & -> & Hr) Hi Hb] H.
  assert (Hv : length (ci_volumes info) = MAX_VOLUMES).
  { cbn [ps_info ps_volume_index] in *. rewrite Hvs, length_app, length_replicate. lia. }
  pose proof (so_cnt _ _ _ Hsc) as Hcnt.
  cbn [ps_info ps_seen ps_volume_index] in *. destruct (decide (Z.land seen FIELD_VOLUME_COUNT = 0)) as [E|E].
  - specialize (Hb E). subst vi.
    unfold parse_line in H. rewrite E in H. cbn [negb Z.eqb] in H.
    destruct (strchr (strip_cr raw) "="%char) as [[key value]|] eqn:Ek; [|done].
    apply strchr_Some in Ek as [-> He]. apply reject_bind_Ok in H as [_ H]. apply bind_Ok in H as ([i' s'] & Hk & H).
    injection H as <-. apply parse_key_value_Ok in Hk as (field & update & Hf & Hl & Hu & Hs').
    cbn [fst snd] in Hu, Hs'. subst s'. pose proof (update_volumes _ _ _ _ _ _ Hf Hu) as Hvols.
    constructor; cbn [ps_info ps_seen ps_volume_index]; [|split; [done|cbn; lia]|done].
    exists (header ++ [key ++ "="%char :: value]). cbn [Z.to_nat take]. rewrite !app_nil_r. split; [done|]. split.
    + eapply (values_update _ _ _ _ _ _ _ header); [exact Hf|exact Hu| | |apply Hr]; unfold has_entry; set_solver.
    + eapply start_update; [exact Hf|exact Hu|done|apply Hr].
  - rewrite parse_volume_line in H by done. apply reject_bind_Ok in H as [Hlt H].
    apply bind_Ok in H as (c & Hc & H). injection H as <-. apply copy_field_Ok in Hc as [Hc ->].
    bools. assert (Hroom : (Z.to_nat vi < length (ci_volumes info))%nat) by lia.
    constructor; cbn [ps_info ps_seen ps_volume_index]; rewrite ?ci_volumes_set; [|rewrite length_insert; lia|done].
    exists header. replace (Z.to_nat (vi + 1)) with (S (Z.to_nat vi)) by lia. split; [|by apply recorded_volumes_set].
    rewrite (take_S_r _ _ (strip_cr raw)) by (by apply list_lookup_insert_eq). rewrite <-app_assoc.
    by rewrite take_insert_ge by lia.
Qed.

(** Both invariants hold after the loop over the lines of a file. *)
Lemma lines_inv nocr data st :
  NUL ∉ data → (nocr = true → CR ∉ data) →
  mfold parse_line (ParseState zero_info 0 0) (strtok [LF] data) = Ok st →
  parse_inv nocr st ∧ line_inv (strip_cr <$> strtok [LF] data) st.
Proof.
  intros Hnul Hcr Hst.
  assert (Hin : ∀ t c, t ∈ strtok [LF] data → c ∈ t → c ∈ data).
  { intros t c Ht Hc. apply list_elem_of_In, List.filter_In in Ht as [Ht _].
    by eapply split_on_In; [apply list_elem_of_In|]. }
  eapply (mfold_invariant parse_line (λ lines st, parse_inv nocr st ∧ line_inv (strip_cr <$> lines) st)
    (strtok [LF] data)); [| |exact Hst].
  - intros lines raw s s' [Hs Hl] Hraw Hp. pose proof (strtok_tokens [LF] data) as Htok.
    rewrite Forall_forall in Htok. destruct (Htok raw Hraw) as [Hne Hlf]. split.
    + eapply parse_line_inv; [done| |done|done]. split_and!.
      * intros Hc. rewrite Forall_forall in Hlf. specialize (Hlf _ Hc). set_solver.
      * intros Hc. eauto.
      * intros Hn Hc. apply (Hcr Hn). eauto.
    + rewrite fmap_app. by eapply line_step.
  - split; constructor; cbn; [apply scalars_zero|lia| |done| | |done].
    + exists []. split_and!; [done..|lia|constructor].
    + exists []. split; [done|]. split; [|right; split; [done|by intros v ?%elem_of_nil]].
      intros n P _. by rewrite Z.testbit_0_l.
    + split; [done|]. vm_compute. lia.
Qed.

Lemma parse_sound nocr data name info :
  (nocr = true → CR ∉ data) →
  td_parse_container_info (Some data) (Some name) = Ok info →
  storable nocr info ∧ ci_name info = name.
Proof.
  intros Hcr H. unfold td_parse_container_info in H. apply reject_bind_Ok in H as [Hnul H].
  apply contains_false in Hnul. apply bind_Ok in H as (st & Hst & H).
  cbv zeta in H. rewrite !reject_bind_Ok in H. destruct H as (Hreq & Hidx & Hname & H).
  injection H as <-. bools.
  destruct (lines_inv nocr data st Hnul Hcr Hst) as [[Hs Hi Hv _] _].
  assert (Ht : ∀ n, Z.testbit required_fields n = true → Z.testbit (ps_seen st) n = true)
    by (intros; by eapply land_required).
  split; [|done]. constructor.
  - destruct Hs. constructor; auto.
  - by destruct (td_validate_name _ _) as [[]|].
  - match goal with H : ps_volume_index st = _ |- _ => by rewrite <-H end.
Qed.

Lemma parse_complete data name info :
  td_parse_container_info (Some data) (Some name) = Ok info →
  ∃ header,
    strip_cr <$> strtok [LF] data = header ++ take (Z.to_nat (ci_volume_cnt info)) (ci_volumes info) ∧
    Forall (λ P, P) (field_values header info) ∧ start_value header info.
Proof.
  intros H. unfold td_parse_container_info in H. apply reject_bind_Ok in H as [Hnul H].
  apply contains_false in Hnul. apply bind_Ok in H as (st & Hst & H).
  cbv zeta in H. rewrite !reject_bind_Ok in H. destruct H as (Hreq & Hidx & _ & H).
  injection H as <-. bools.
  assert (Hinv : line_inv (strip_cr <$> strtok [LF] data) st).
  { apply (lines_inv false data) in Hst; [apply Hst|done..]. }
  destruct Hinv as [(header & Hl & Hr & Hs) _ _]. exists header. rewrite <-Hidx. split_and!; [done| |done].
  apply Forall_lookup. intros n P Hn. apply (Hr n P Hn). eapply land_required; [done|].
  do 10 (destruct n as [|n]; [reflexivity|]). done.
Qed.

(** ** Theorems *)

(** C16: a storable record is written, and what is written reads back as the
    same record: scalars, strings and the whole volume array. *)
Theorem container_info_roundtrip info :
  storable true info →
  ∃ text, td_write_container_info (Some info) = Ok text ∧
    td_parse_container_info (Some text) (Some (ci_name info)) = Ok info.
Proof.
  intros H. eexists. split; [by apply write_storable|by apply parse_written].
Qed.

Definition demo_info : container_info :=
  ContainerInfo 4242 987654 1 (lit "1700000000") (lit "busybox.tar.xz") (lit "/bin/sh -c a=b")
    (lit "2023-11-14 22:13:20") (lit "RUNNING") (lit "demo") (lit "172.18.0.2") 1
    (lit "/tmp/data:/data:ro" :: replicate 31 []).

Lemma demo_info_storable : storable true demo_info.
Proof.
  assert (T : ∀ s, negb (contains s LF) && negb (contains s NUL) && negb (contains s CR) = true →
                   text_ok true s).
  { intros s Hs. unfold contains in Hs. bools. by split_and!. }
  constructor.
  - constructor; cbn; try (split; [reflexivity|apply T; reflexivity]);
      vm_compute; try (intros _); try reflexivity; split; discriminate.
  - reflexivity.
  - exists [lit "/tmp/data:/data:ro"]. split_and!; [reflexivity..|vm_compute; lia|].
    apply Forall_singleton. split_and!; [reflexivity|..]; by (apply T; reflexivity) || intros.
Qed.

Lemma container_info_roundtrip_witness :
  ∃ text, td_write_container_info (Some demo_info) = Ok text ∧
    td_parse_container_info (Some text) (Some (lit "demo")) = Ok demo_info.
Proof. apply (container_info_roundtrip demo_info), demo_info_storable. Defined.

(** C30: whatever bytes a metadata file holds, an accepted record is what the
    file says and fits its structure.  The lines of the file, carriage returns
    stripped, are a header followed by exactly the volumes of the record; each
    of the ten required fields has its line in the header, with the value of the
    record; the start time has one too, or is 0.  Every string is shorter than
    its array, the numbers are in range, the status is one of the three, at most
    32 volumes are stored and the name is a valid container name, the one asked
    for.  When the file has no carriage return the record can be stored again. *)
Theorem container_info_parse_sound data name info :
  td_parse_container_info (Some data) (Some name) = Ok info →
  storable false info ∧ (CR ∉ data → storable true info) ∧ ci_name info = name ∧
  ∃ header,
    strip_cr <$> strtok [LF] data = header ++ take (Z.to_nat (ci_volume_cnt info)) (ci_volumes info) ∧
    Forall (λ P, P) (field_values header info) ∧ start_value header info.
Proof.
  intros H. split_and!; [by eapply (parse_sound false)| |by eapply (parse_sound false)|by eapply parse_complete].
  intros Hcr. by eapply (parse_sound true).
Qed.

Lemma container_info_parse_sound_witness :
  ∃ text, td_parse_container_info (Some text) (Some (lit "demo")) = Ok demo_info ∧
    storable false demo_info.
Proof.
  assert (H : td_parse_container_info
    (Some (join LF (header_lines demo_info ++ [lit "/tmp/data:/data:ro"]) ++ [LF]))
    (Some (lit "demo")) = Ok demo_info) by (vm_compute; reflexivity).
  eexists. split; [exact H|]. exact (proj1 (container_info_parse_sound _ _ _ H)).
Defined.

(** Rewriting a record that was read succeeds and changes nothing, for
    every file without carriage returns: the status update of a container
    keeps every other field. *)
Theorem container_info_rewrite data name info status :
  CR ∉ data → td_parse_container_info (Some data) (Some name) = Ok info →
  valid_status status = true →
  ∃ text, td_write_container_info (Some (set_status status info)) = Ok text ∧
    td_parse_container_info (Some text) (Some name) = Ok (set_status status info).
Proof.
  intros Hcr H Hs. apply (parse_sound true) in H as [Hst <-]; [|done].
  assert (storable true (set_status status info)) as Hst'.
  { destruct Hst as [[] ? ?]. destruct info. constructor; [constructor|..]; done. }
  eexists. split; [by apply write_storable|].
  replace (ci_name info) with (ci_name (set_status status info)) by (by destruct info).
  by apply parse_written.
Qed.

Lemma container_info_rewrite_witness :
  ∃ text, td_write_container_info (Some (set_status (lit "EXITED") demo_info)) = Ok text ∧
    td_parse_container_info (Some text) (Some (lit "demo")) = Ok (set_status (lit "EXITED") demo_info).
Proof.
  apply (container_info_rewrite
    (join LF (header_lines demo_info ++ [lit "/tmp/data:/data:ro"]) ++ [LF])).
  - apply contains_false. vm_compute. reflexivity.
  - vm_compute. reflexivity.
  - reflexivity.
Defined.
