(* ===== verification/NetworkState.v ===== *)
(** * core/network_state.c: one line of the network state file

    [struct td_network_record], its parser, its formatter and the check that
    names are unique.  [nr_used_ips] are the entries of the array below
    [used_ip_count], the only ones the code reads. *)
From S2P Require Import Prelude CString Paths Safety.
From Stdlib Require Import Lia.

(** ** Data *)

Definition TD_NETWORK_MAX_RECORDS : Z := 128.
Definition TD_NETWORK_MAX_USED_IPS : Z := 128.
Definition TD_NETWORK_NAME_SIZE : Z := 16.
Definition TD_NETWORK_DRIVER_SIZE : Z := 16.
Definition TD_NETWORK_CIDR_SIZE : Z := 32.

Record td_network_record := NetworkRecord {
  nr_name : cstr;
  nr_driver : cstr;
  nr_cidr : cstr;
  nr_used_ips : list Z
}.

Definition used_ip_count (r : td_network_record) : Z := Z.of_nat (length (nr_used_ips r)).

#[global] Instance td_network_record_eq_dec : EqDecision td_network_record.
Proof. solve_decision. Defined.

(** ** Validation *)

Definition copy_value (destination_size : Z) (value field : cstr) : result cstr :=
  _ ← reject_if ((strlen value =? 0) || (destination_size <=? strlen value))
        (lit "invalid network field length: " ++ field);
  Ok value.

(** A CIDR without a slash is refused before any message is set. *)
Definition validate_cidr (cidr : cstr) : result unit :=
  match strchr cidr "/"%char with
  | None => Err []
  | Some (address_text, _) =>
      '(network, prefix) ← td_parse_ipv4_cidr (Some cidr);
      _ ← reject_if (30 <? prefix)
            (lit "bridge CIDR needs room for gateway and container addresses");
      _ ← reject_if ((strlen address_text =? 0) || (16 <=? strlen address_text))
            (lit "invalid network CIDR address");
      reject_if (match inet_pton address_text with
                 | Some a => negb (a =? network)
                 | None => true
                 end) (lit "CIDR address must be the network address")
  end.

(** One turn of the loop of [parse_used_ips]: the text of one address. *)
Definition parse_used_ip (ips : list Z) (text : cstr) : result (list Z) :=
  let parsed := strtoull text in
  _ ← reject_if (strto_failed parsed || (st_value parsed =? 0) || (UINT32_MAX <? st_value parsed))
        (lit "invalid allocated network address");
  _ ← reject_if (existsb (Z.eqb (u32 (st_value parsed))) ips)
        (lit "duplicate allocated network address");
  Ok (ips ++ [u32 (st_value parsed)]).

(** The loop, over the fields between semicolons: every field but the last
    ends at a separator; the loop stops at the end of the text, so an empty
    last field is not looked at. *)
Fixpoint parse_used_ips_loop (ips : list Z) (fields : list cstr) : result (list Z) :=
  match fields with
  | [] => Ok ips
  | [text] =>
      if nonempty text then
        _ ← reject_if (TD_NETWORK_MAX_USED_IPS <=? Z.of_nat (length ips))
              (lit "too many allocated network addresses");
        parse_used_ip ips text
      else Ok ips
  | text :: rest =>
      _ ← reject_if (TD_NETWORK_MAX_USED_IPS <=? Z.of_nat (length ips))
            (lit "too many allocated network addresses");
      _ ← reject_if (negb (nonempty text)) (lit "empty allocated network address");
      ips' ← parse_used_ip ips text;
      parse_used_ips_loop ips' rest
  end.
Definition is_semicolon (c : ascii) : bool := bool_decide (c = ";"%char).
Definition parse_used_ips (text : cstr) : result (list Z) :=
  parse_used_ips_loop [] (split_on is_semicolon text).

(** The loop of [validate_allocated_addresses] after the addresses [previous]. *)
Fixpoint validate_addresses_loop (network broadcast : Z) (previous ips : list Z) : result unit :=
  match ips with
  | [] => Ok tt
  | ip :: rest =>
      _ ← reject_if ((ip <=? u32 (network + 1)) || (broadcast <=? ip))
            (lit "allocated address is outside the usable CIDR range");
      _ ← reject_if (existsb (Z.eqb ip) previous) (lit "duplicate allocated network address");
      validate_addresses_loop network broadcast (previous ++ [ip]) rest
  end.
Definition validate_allocated_addresses (record : td_network_record) : result unit :=
  '(network, prefix) ← td_parse_ipv4_cidr (Some (nr_cidr record));
  validate_addresses_loop network (cidr_broadcast network prefix) [] (nr_used_ips record).

(** ** Parser *)

Definition MAX_LINE_SIZE : Z := 4096.
Definition is_bridge (driver : cstr) : bool := bool_decide (driver = lit "bridge").

(** The three separators, in turn. *)
Definition split_fields (line : cstr) : option (cstr * cstr * cstr * cstr) :=
  match strchr line ":"%char with
  | None => None
  | Some (f0, r0) =>
      match strchr r0 ":"%char with
      | None => None
      | Some (f1, r1) =>
          match strchr r1 ":"%char with
          | None => None
          | Some (f2, f3) => Some (f0, f1, f2, f3)
          end
      end
  end.

Definition build_record (f0 f1 f2 f3 : cstr) : result td_network_record :=
  _ ← td_validate_name (Some f0) (TD_NETWORK_NAME_SIZE - 1);
  _ ← reject_if (negb (is_bridge f1)) [];
  name ← copy_value TD_NETWORK_NAME_SIZE f0 (lit "name");
  driver ← copy_value TD_NETWORK_DRIVER_SIZE f1 (lit "driver");
  cidr ← copy_value TD_NETWORK_CIDR_SIZE f2 (lit "cidr");
  _ ← validate_cidr cidr;
  ips ← parse_used_ips f3;
  _ ← validate_allocated_addresses (NetworkRecord name driver cidr ips);
  Ok (NetworkRecord name driver cidr ips).

Definition td_parse_network_record (line : option cstr) : result td_network_record :=
  match line with
  | None => Err (lit "invalid network record input")
  | Some line =>
      _ ← reject_if ((strlen line =? 0) || (MAX_LINE_SIZE <=? strlen line)
                     || contains line LF || contains line CR)
            (lit "invalid network record length");
      match split_fields line with
      | None => Err (lit "network record is missing fields")
      | Some (f0, f1, f2, f3) =>
          _ ← reject_if (contains f3 ":"%char) (lit "network record has extra fields");
          match build_record f0 f1 f2 f3 with
          | Ok r => Ok r
          | Err m => Err (if is_bridge f1 then m else lit "unsupported network driver")
          end
      end
  end.

(** ** Formatter *)

(** [snprintf(output + used, output_size - used, "%u;", ip)]. *)
Definition append_ip (output_size : Z) (output : cstr) (ip : Z) : result cstr :=
  _ ← reject_if (ip =? 0) (lit "invalid allocated network address");
  let text := fmt_u ip ++ [";"%char] in
  _ ← reject_if (truncated text (output_size - strlen output))
        (lit "network record output is too small");
  Ok (output ++ text).

Definition record_header (r : td_network_record) : cstr :=
  nr_name r ++ lit ":" ++ nr_driver r ++ lit ":" ++ nr_cidr r ++ lit ":".

Definition td_format_network_record (record : option td_network_record) (output_size : Z)
    : result cstr :=
  match record with
  | None => Err (lit "invalid network record values")
  | Some r =>
      _ ← reject_if ((output_size =? 0) || (TD_NETWORK_MAX_USED_IPS <? used_ip_count r)
                     || negb (is_Ok (td_validate_name (Some (nr_name r)) (TD_NETWORK_NAME_SIZE - 1)))
                     || negb (is_bridge (nr_driver r))
                     || negb (is_Ok (validate_cidr (nr_cidr r)))
                     || negb (is_Ok (validate_allocated_addresses r)))
            (lit "invalid network record values");
      _ ← reject_if (truncated (record_header r) output_size)
            (lit "network record output is too small");
      mfold (append_ip output_size) (record_header r) (nr_used_ips r)
  end.

(** ** Uniqueness of names *)

Fixpoint names_unique_loop (previous : list cstr) (records : list td_network_record) : result unit :=
  match records with
  | [] => Ok tt
  | r :: rest =>
      _ ← reject_if (existsb (λ n, bool_decide (nr_name r = n)) previous)
            (lit "duplicate network name: " ++ nr_name r);
      names_unique_loop (previous ++ [nr_name r]) rest
  end.
Definition td_network_record_names_are_unique (records : list td_network_record) : result unit :=
  _ ← reject_if (TD_NETWORK_MAX_RECORDS <? Z.of_nat (length records))
        (lit "invalid network record list");
  names_unique_loop [] records.

#[global] Arguments td_parse_network_record : simpl never.
#[global] Arguments td_format_network_record : simpl never.
#[global] Arguments validate_cidr : simpl never.
#[global] Arguments validate_allocated_addresses : simpl never.

(** ** Specification *)

(** [cidr] denotes the network [network]/[prefix], written with its network
    address. *)
Definition cidr_ok (cidr : cstr) (network prefix : Z) : Prop :=
  td_parse_ipv4_cidr (Some cidr) = Ok (network, prefix) ∧ prefix ≤ 30 ∧
  ∃ address_text prefix_text,
    strchr cidr "/"%char = Some (address_text, prefix_text) ∧
    inet_pton address_text = Some network.

(** The addresses a network hands out: above the gateway, below the broadcast
    address. *)
Definition allocatable (network prefix ip : Z) : Prop :=
  network + 1 < ip < network + 2 ^ (32 - prefix) - 1.

Record record_ok (r : td_network_record) : Prop := {
  rec_name : td_validate_name (Some (nr_name r)) (TD_NETWORK_NAME_SIZE - 1) = Ok tt;
  rec_driver : nr_driver r = lit "bridge";
  rec_cidr_size : strlen (nr_cidr r) < TD_NETWORK_CIDR_SIZE;
  rec_cidr_line : (LF ∉ nr_cidr r) ∧ (CR ∉ nr_cidr r);
  rec_addresses : ∃ network prefix, cidr_ok (nr_cidr r) network prefix ∧
    NoDup (nr_used_ips r) ∧ Forall (allocatable network prefix) (nr_used_ips r);
  rec_count : used_ip_count r ≤ TD_NETWORK_MAX_USED_IPS;
}.

(** The line of a record. *)
Definition ip_text (ip : Z) : cstr := fmt_u ip ++ [";"%char].
Definition record_text (r : td_network_record) : cstr :=
  record_header r ++ concat (map ip_text (nr_used_ips r)).

(** ** Lemmas *)

Lemma cidr_ok_bounds cidr n p :
  cidr_ok cidr n p → 0 ≤ n ∧ 0 ≤ p ≤ 30 ∧ n mod 2 ^ (32 - p) = 0 ∧ n + 2 ^ (32 - p) ≤ 2 ^ 32.
Proof.
  intros (H & Hp & _). apply td_parse_ipv4_cidr_Ok in H as (_ & _ & a & _ & _ & Ha & _ & Hp' & -> & _).
  assert (Hk : 0 < 2 ^ (32 - p)) by (apply Z.pow_pos_nonneg; lia).
  set (k := 2 ^ (32 - p)) in *.
  pose proof (Z.mod_pos_bound a k Hk). pose proof (Z.mod_le a k ltac:(lia) Hk).
  assert (E : a - a mod k = k * (a / k)) by (pose proof (Z.div_mod a k); lia).
  split_and!; [lia|lia|lia| |].
  - rewrite E, Z.mul_comm. apply Z.mod_mul. lia.
  - rewrite E. assert (HK : 2 ^ 32 = k * 2 ^ p).
    { unfold k. rewrite <-Z.pow_add_r by lia. f_equal. lia. }
    assert (a / k < 2 ^ p).
    { apply Z.div_lt_upper_bound; [lia|]. unfold UINT32_MAX in Ha. lia. }
    rewrite HK. nia.
Qed.

Lemma validate_cidr_Ok cidr : validate_cidr cidr = Ok tt ↔ ∃ n p, cidr_ok cidr n p.
Proof.
  unfold validate_cidr, cidr_ok. destruct (strchr cidr "/"%char) as [[a b]|] eqn:E.
  2:{ split; [done|]. intros (n & p & _ & _ & ? & ? & [=] & _). }
  split.
  - rewrite bind_Ok. intros ([n p] & H & H'). rewrite !reject_bind_Ok in H'.
    destruct H' as (Hp & Hl & Hn%reject_if_Ok). bools.
    exists n, p. split_and!; [done|lia|]. exists a, b. split; [done|].
    destruct (inet_pton a) as [x|]; [|done]. bools. by subst.
  - intros (n & p & H & Hp & ? & ? & [= <- <-] & Hi). rewrite H. cbn [mbind result_bind].
    pose proof (td_parse_ipv4_cidr_Ok _ _ _ H) as (x & y & z & Hs & _ & _ & Hl & _ & _ & Hne).
    rewrite E in Hs. injection Hs as -> ->.
    rewrite !reject_bind_Ok, reject_if_Ok, Hi, Z.eqb_refl.
    split_and!; [apply Z.ltb_ge; lia| |done].
    apply orb_false_iff. split; [|apply Z.leb_gt; lia].
    apply Z.eqb_neq. destruct x; [done|]. rewrite strlen_cons. pose proof (strlen_nonneg x). lia.
Qed.

Lemma existsb_eqb x l : existsb (Z.eqb x) l = false ↔ x ∉ l.
Proof.
  rewrite <-not_true_iff_false, existsb_exists, list_elem_of_In. split.
  - intros H Hin. apply H. exists x. by rewrite Z.eqb_refl.
  - intros H (y & Hin & ->%Z.eqb_eq). done.
Qed.

Lemma validate_addresses_loop_Ok n b previous ips :
  validate_addresses_loop n b previous ips = Ok tt ↔
  NoDup ips ∧ Forall (λ ip, ip ∉ previous) ips ∧ Forall (λ ip, u32 (n + 1) < ip < b) ips.
Proof.
  revert previous. induction ips as [|ip ips IH]; intros previous; cbn [validate_addresses_loop].
  { split; [|done]. intros _. split_and!; constructor. }
  rewrite !reject_bind_Ok, IH, existsb_eqb, !Forall_cons, NoDup_cons.
  assert (Hb : (ip <=? u32 (n + 1)) || (b <=? ip) = false ↔ u32 (n + 1) < ip < b)
    by (rewrite orb_false_iff, !Z.leb_gt; lia).
  rewrite Hb, !Forall_forall. set_solver.
Qed.

Lemma validate_allocated_addresses_Ok r n p :
  cidr_ok (nr_cidr r) n p →
  validate_allocated_addresses r = Ok tt ↔
  NoDup (nr_used_ips r) ∧ Forall (allocatable n p) (nr_used_ips r).
Proof.
  intros Hc. pose proof (cidr_ok_bounds _ _ _ Hc) as (Hn & Hp & Hm & Hb).
  destruct Hc as (Hc & _). unfold validate_allocated_addresses. rewrite Hc. cbn [mbind result_bind].
  rewrite validate_addresses_loop_Ok, cidr_broadcast_eq by (done || lia).
  assert (4 ≤ 2 ^ (32 - p)) by (change 4 with (2 ^ 2); apply Z.pow_le_mono_r; lia).
  unfold u32. rewrite Z.mod_small by lia.
  split; [naive_solver|]. intros [? Hf]. split_and!; [done| |exact Hf].
  apply Forall_forall. intros ? _. apply not_elem_of_nil.
Qed.

(** What the text of an accepted CIDR is made of. *)
Lemma cidr_ok_chars cidr n p :
  cidr_ok cidr n p → Forall (λ c, c = "/"%char ∨ c = "."%char ∨ int_char c) cidr.
Proof.
  intros (H & _ & a & b & Hs & Hi). unfold td_parse_ipv4_cidr in H. rewrite Hs in H.
  apply strchr_Some in Hs as [-> _].
  rewrite !reject_bind_Ok, Hi in H. destruct H as (_ & _ & H). inv_ok H.
  apply td_parse_long_Some_Ok in Hok as (_ & _ & Hf & _).
  apply strtol_chars in Hf. apply inet_pton_chars in Hi.
  apply Forall_app; split; [|apply Forall_cons; split; [by left|]].
  - eapply Forall_impl; [exact Hi|]. unfold int_char. naive_solver.
  - eapply Forall_impl; [exact Hf|]. auto.
Qed.

Lemma cidr_ok_excludes cidr n p c :
  cidr_ok cidr n p → c ≠ "/"%char → c ≠ "."%char → ¬ int_char c → c ∉ cidr.
Proof.
  intros H%cidr_ok_chars. rewrite Forall_forall in H. intros ? ? ? Hin. naive_solver.
Qed.

Lemma split_on_ip_texts ips :
  Forall (λ ip, 0 ≤ ip ≤ UINT32_MAX) ips →
  split_on is_semicolon (concat (map ip_text ips)) = map fmt_u ips ++ [[]].
Proof.
  induction 1 as [|ip ips Hip _ IH]; cbn [map concat app]; [done|].
  unfold ip_text at 1. rewrite <-app_assoc. cbn [app].
  rewrite split_on_app, IH by done. rewrite split_on_none; [done|].
  destruct (fmt_u_spec ip) as (Hd & _ & _); [unfold ULLONG_MAX, UINT32_MAX in *; lia|].
  eapply Forall_impl; [exact Hd|]. intros c Hc. apply bool_decide_eq_false. by intros ->.
Qed.

Lemma parse_used_ip_fmt previous ip :
  0 < ip ≤ UINT32_MAX → ip ∉ previous → parse_used_ip previous (fmt_u ip) = Ok (previous ++ [ip]).
Proof.
  intros Hip Hn. unfold parse_used_ip.
  pose proof (strtoull_fmt_u ip [] ltac:(unfold ULLONG_MAX, UINT32_MAX in *; lia) stops_nil) as E.
  rewrite app_nil_r in E. rewrite E. cbn [st_value].
  assert (E' : u32 ip = ip) by (unfold u32, UINT32_MAX in *; apply Z.mod_small; lia). rewrite E'.
  rewrite !reject_bind_Ok, existsb_eqb. split_and!; [|done|done].
  unfold strto_failed. cbn. rewrite orb_false_iff, Z.eqb_neq, Z.ltb_ge. lia.
Qed.

Lemma parse_used_ips_loop_texts ips : ∀ previous,
  NoDup (previous ++ ips) → Forall (λ ip, 0 < ip ≤ UINT32_MAX) ips →
  Z.of_nat (length (previous ++ ips)) ≤ TD_NETWORK_MAX_USED_IPS →
  parse_used_ips_loop previous (map fmt_u ips ++ [[]]) = Ok (previous ++ ips).
Proof.
  induction ips as [|ip ips IH]; intros previous Hd Hr Hl.
  { cbn. by rewrite app_nil_r. }
  apply Forall_cons in Hr as [Hip Hr].
  assert (Hn : ip ∉ previous).
  { apply NoDup_app in Hd as (_ & Hd & _). intros Hin. apply (Hd _ Hin). by left. }
  change (ip :: ips) with ([ip] ++ ips) in Hd, Hl |- *. rewrite app_assoc in Hd, Hl |- *.
  destruct (fmt_u_spec ip) as (_ & Hne & _); [unfold ULLONG_MAX, UINT32_MAX in *; lia|].
  rewrite <-IH by done. clear IH.
  assert (Hc : (TD_NETWORK_MAX_USED_IPS <=? Z.of_nat (length previous)) = false).
  { apply Z.leb_gt. rewrite !length_app in Hl. cbn in Hl. lia. }
  cbn [map app parse_used_ips_loop]. destruct (map fmt_u ips ++ [[]]) eqn:E; [by destruct ips|].
  rewrite Hc. rewrite reject_if_false by done.
  rewrite reject_if_false by (by destruct (fmt_u ip)).
  by rewrite parse_used_ip_fmt.
Qed.

Lemma parse_used_ip_length previous text l :
  parse_used_ip previous text = Ok l → length l = S (length previous).
Proof. unfold parse_used_ip. rewrite !reject_bind_Ok. intros (_ & _ & [= <-]). rewrite length_app; cbn; lia. Qed.

Lemma parse_used_ips_count fields : ∀ previous l,
  parse_used_ips_loop previous fields = Ok l →
  Z.of_nat (length previous) ≤ TD_NETWORK_MAX_USED_IPS → Z.of_nat (length l) ≤ TD_NETWORK_MAX_USED_IPS.
Proof.
  induction fields as [|text fields IH]; intros previous l.
  { by intros [= <-]. }
  destruct fields as [|next fields].
  - cbn [parse_used_ips_loop]. destruct (nonempty text); [|by intros [= <-]].
    rewrite reject_bind_Ok. intros (Hc & ->%parse_used_ip_length) _. bools. lia.
  - cbn [parse_used_ips_loop]. rewrite !reject_bind_Ok, bind_Ok.
    intros (Hc & _ & ips & Hp%parse_used_ip_length & Hl) _. bools.
    apply (IH ips l Hl). lia.
Qed.

Lemma append_ip_Ok size out ip out' :
  append_ip size out ip = Ok out' ↔ ip ≠ 0 ∧ strlen (out ++ ip_text ip) < size ∧ out' = out ++ ip_text ip.
Proof.
  unfold append_ip, truncated. cbv zeta. rewrite !reject_bind_Ok, Z.eqb_neq, Z.leb_gt.
  fold (ip_text ip). rewrite strlen_app. intuition (try congruence; try lia).
Qed.

Lemma append_ips_Ok size ips : ∀ out,
  Forall (λ ip, ip ≠ 0) ips → strlen (out ++ concat (map ip_text ips)) < size →
  mfold (append_ip size) out ips = Ok (out ++ concat (map ip_text ips)).
Proof.
  induction ips as [|ip ips IH]; intros out Hz Hs; cbn [map concat].
  { by rewrite app_nil_r. }
  apply Forall_cons in Hz as [Hz Hzs]. cbn [map concat] in Hs. rewrite mfold_cons, app_assoc in *.
  pose proof (strlen_nonneg (concat (map ip_text ips))).
  assert (E : append_ip size out ip = Ok (out ++ ip_text ip)).
  { apply append_ip_Ok. split_and!; [done| |done]. rewrite strlen_app in Hs. lia. }
  rewrite E. by apply IH.
Qed.

Lemma record_ok_ips r : record_ok r →
  NoDup (nr_used_ips r) ∧ Forall (λ ip, 0 < ip ≤ UINT32_MAX) (nr_used_ips r).
Proof.
  intros [_ _ _ _ (n & p & Hc & Hd & Hf) _]. split; [done|].
  pose proof (cidr_ok_bounds _ _ _ Hc). unfold UINT32_MAX.
  eapply Forall_impl; [exact Hf|]. unfold allocatable. intros; lia.
Qed.

Lemma ip_texts_length ips :
  Forall (λ ip, 0 < ip ≤ UINT32_MAX) ips →
  strlen (concat (map ip_text ips)) ≤ 11 * Z.of_nat (length ips).
Proof.
  induction 1 as [|ip ips Hip _ IH]; cbn [map concat length]; [done|].
  unfold ip_text at 1. autorewrite with strlen.
  pose proof (fmt_u_length ip 10 ltac:(unfold UINT32_MAX in *; lia) ltac:(lia)).
  unfold strlen in *. lia.
Qed.

(** The longest line is well below [MAX_LINE_SIZE]. *)
Lemma record_text_length r : record_ok r → strlen (record_text r) < 1464.
Proof.
  intros H. pose proof (record_ok_ips r H) as [_ Hips%ip_texts_length].
  destruct H as [Hn Hd Hc _ _ Hl]. apply td_validate_name_Ok in Hn as (_ & Hn & _).
  unfold record_text, record_header. rewrite Hd. autorewrite with strlen.
  unfold TD_NETWORK_NAME_SIZE, TD_NETWORK_CIDR_SIZE, TD_NETWORK_MAX_USED_IPS, used_ip_count in *.
  change (strlen (lit ":")) with 1. change (strlen (lit "bridge")) with 6. lia.
Qed.

Lemma td_format_network_record_Ok r size :
  record_ok r → strlen (record_text r) < size →
  td_format_network_record (Some r) size = Ok (record_text r).
Proof.
  intros H Hs. pose proof (record_ok_ips r H) as [_ Hips].
  destruct H as [Hn Hd Hc _ (n & p & Ha & Hnd & Hf) Hl].
  unfold td_format_network_record. rewrite Hn.
  replace (validate_cidr (nr_cidr r)) with (@Ok unit tt) by (symmetry; apply validate_cidr_Ok; eauto).
  replace (validate_allocated_addresses r) with (@Ok unit tt)
    by (symmetry; by apply (validate_allocated_addresses_Ok r n p)).
  unfold record_text in Hs. pose proof (strlen_nonneg (concat (map ip_text (nr_used_ips r)))) as H0.
  pose proof (strlen_nonneg (record_header r)) as H1. rewrite strlen_app in Hs.
  rewrite !reject_if_false.
  - apply append_ips_Ok; [|rewrite strlen_app; lia].
    eapply Forall_impl; [exact Hips|]. cbn. lia.
  - unfold truncated. apply Z.leb_gt. lia.
  - unfold is_bridge. rewrite Hd, bool_decide_eq_true_2 by done. cbn.
    rewrite !orb_false_r. apply orb_false_iff. split; [apply Z.eqb_neq|apply Z.ltb_ge]; lia.
Qed.

Lemma split_fields_Some f0 f1 f2 f3 :
  ":"%char ∉ f0 → ":"%char ∉ f1 → ":"%char ∉ f2 →
  split_fields (f0 ++ ":"%char :: f1 ++ ":"%char :: f2 ++ ":"%char :: f3) = Some (f0, f1, f2, f3).
Proof. intros. unfold split_fields. by rewrite !strchr_app. Qed.

Lemma ip_texts_chars ips c :
  Forall (λ ip, 0 < ip ≤ UINT32_MAX) ips → c ∈ concat (map ip_text ips) → isdigit c = true ∨ c = ";"%char.
Proof.
  induction 1 as [|ip ips Hip _ IH]; cbn [map concat]; [by intros ?%elem_of_nil|].
  unfold ip_text at 1. rewrite !elem_of_app, list_elem_of_singleton.
  destruct (fmt_u_spec ip) as (Hd & _ & _); [unfold ULLONG_MAX, UINT32_MAX in *; lia|].
  rewrite Forall_forall in Hd. naive_solver.
Qed.

Lemma record_text_plain r c :
  record_ok r → c = LF ∨ c = CR ∨ c = NUL → c ∉ record_text r.
Proof.
  intros H Hc. pose proof (record_ok_ips r H) as [_ Hips]. destruct H as [Hn Hd _ [??] (n & p & Hcidr & _) _].
  pose proof (valid_name_excludes _ _ c Hn ltac:(by destruct Hc as [->|[->| ->]])) as Hname.
  assert (Hnul : NUL ∉ nr_cidr r).
  { eapply cidr_ok_excludes; [done|done|done|]. by intros [[=]|[[=]|[[=]|[=]]]]. }
  unfold record_text, record_header. rewrite Hd, !elem_of_app.
  assert (Hl : (c ∉ lit ":") ∧ (c ∉ lit "bridge")).
  { destruct Hc as [->|[->| ->]]; split; apply contains_false; reflexivity. }
  destruct Hl.
  intros [[?|[?|[?|[?|[?|?]]]]]|Hin%ip_texts_chars]; try done.
  - by destruct Hc as [->|[->| ->]].
  - destruct Hin, Hc as [->|[->| ->]]; done.
Qed.

Lemma split_record_text r :
  record_ok r →
  split_fields (record_text r) =
  Some (nr_name r, nr_driver r, nr_cidr r, concat (map ip_text (nr_used_ips r))).
Proof.
  intros [Hn Hd _ _ (n & p & Hc & _) _]. unfold record_text, record_header.
  rewrite <-!app_assoc. cbn [lit app]. apply split_fields_Some.
  - by eapply valid_name_excludes.
  - rewrite Hd. by apply contains_false.
  - eapply cidr_ok_excludes; [done|done|done|]. by intros [[=]|[[=]|[[=]|[=]]]].
Qed.

Lemma copy_value_Ok size v field w :
  copy_value size v field = Ok w ↔ w = v ∧ v ≠ [] ∧ strlen v < size.
Proof.
  unfold copy_value. rewrite reject_bind_Ok, orb_false_iff, Z.eqb_neq, Z.leb_gt.
  assert (strlen v ≠ 0 ↔ v ≠ []) as ->; [|naive_solver].
  destruct v; [done|]. rewrite strlen_cons. pose proof (strlen_nonneg v). naive_solver lia.
Qed.

Lemma build_record_Ok r :
  record_ok r →
  build_record (nr_name r) (nr_driver r) (nr_cidr r) (concat (map ip_text (nr_used_ips r))) = Ok r.
Proof.
  intros H. pose proof (record_ok_ips r H) as [Hnd Hips]. destruct H as [Hn Hd Hl _ (n & p & Hc & Hac) Hcnt].
  pose proof Hn as (Hne & Hlen & _)%td_validate_name_Ok.
  unfold build_record. rewrite Hn. cbn [mbind result_bind].
  unfold is_bridge. rewrite Hd, bool_decide_eq_true_2 by done. cbn [negb].
  rewrite reject_if_false by done.
  assert (Ename : copy_value TD_NETWORK_NAME_SIZE (nr_name r) (lit "name") = Ok (nr_name r))
    by (apply copy_value_Ok; split_and!; [done|done|unfold TD_NETWORK_NAME_SIZE in *; lia]).
  assert (Edriver : copy_value TD_NETWORK_DRIVER_SIZE (lit "bridge") (lit "driver") = Ok (lit "bridge"))
    by reflexivity.
  assert (Ecidr : copy_value TD_NETWORK_CIDR_SIZE (nr_cidr r) (lit "cidr") = Ok (nr_cidr r)).
  { apply copy_value_Ok. split_and!; [done| |done]. intros E.
    destruct Hc as (_ & _ & ? & ? & Hs & _). by rewrite E in Hs. }
  rewrite Ename, Edriver, Ecidr. cbn [mbind result_bind].
  replace (validate_cidr (nr_cidr r)) with (@Ok unit tt) by (symmetry; apply validate_cidr_Ok; eauto).
  cbn [mbind result_bind]. unfold parse_used_ips.
  rewrite split_on_ip_texts by (eapply Forall_impl; [exact Hips|]; cbn; lia).
  rewrite parse_used_ips_loop_texts by done. cbn [mbind result_bind app].
  replace (NetworkRecord (nr_name r) (lit "bridge") (nr_cidr r) (nr_used_ips r)) with r
    by (rewrite <-Hd; by destruct r).
  replace (validate_allocated_addresses r) with (@Ok unit tt); [done|].
  symmetry. by apply (validate_allocated_addresses_Ok r n p).
Qed.

Lemma td_parse_record_text r :
  record_ok r → td_parse_network_record (Some (record_text r)) = Ok r.
Proof.
  intros H. pose proof (record_text_length r H). unfold td_parse_network_record.
  rewrite reject_if_false.
  - rewrite split_record_text by done. rewrite reject_if_false; [by rewrite build_record_Ok|].
    apply contains_false. intros Hin. pose proof (record_ok_ips r H) as [_ Hips].
    by destruct (ip_texts_chars _ _ Hips Hin).
  - rewrite !orb_false_iff, !contains_false. split_and!.
    + apply Z.eqb_neq. unfold record_text, record_header. autorewrite with strlen.
      change (strlen (lit ":")) with 1. pose proof (strlen_nonneg (nr_name r)).
      pose proof (strlen_nonneg (nr_driver r)). pose proof (strlen_nonneg (nr_cidr r)).
      pose proof (strlen_nonneg (concat (map ip_text (nr_used_ips r)))). lia.
    + apply Z.leb_gt. unfold MAX_LINE_SIZE. lia.
    + apply record_text_plain; [done|by left].
    + apply record_text_plain; [done|by right; left].
Qed.

Lemma split_fields_inv line f0 f1 f2 f3 :
  split_fields line = Some (f0, f1, f2, f3) →
  line = f0 ++ ":"%char :: f1 ++ ":"%char :: f2 ++ ":"%char :: f3.
Proof.
  unfold split_fields.
  destruct (strchr line ":"%char) as [[a r0]|] eqn:E0; [|done].
  destruct (strchr r0 ":"%char) as [[b r1]|] eqn:E1; [|done].
  destruct (strchr r1 ":"%char) as [[c r2]|] eqn:E2; [|done].
  intros [= <- <- <- <-].
  apply strchr_Some in E0 as [-> _], E1 as [-> _], E2 as [-> _]. done.
Qed.

Lemma build_record_sound f0 f1 f2 f3 r :
  build_record f0 f1 f2 f3 = Ok r → LF ∉ f2 → CR ∉ f2 → record_ok r.
Proof.
  unfold build_record. rewrite bind_Ok. intros ([] & Hn & H) Hlf Hcr.
  rewrite reject_bind_Ok in H. destruct H as [Hb H]. inv_ok H.
  apply copy_value_Ok in Hok as (-> & _ & _), Hok1 as (-> & _ & _), Hok0 as (-> & _ & Hs).
  destruct v2, v4. apply validate_cidr_Ok in Hok2 as (n & p & Hc).
  pose proof Hok4 as (Hd & Hf)%(validate_allocated_addresses_Ok _ n p); [|done].
  unfold is_bridge in Hb. bools. constructor; cbn; try done.
  - by exists n, p.
  - apply (parse_used_ips_count _ _ _ Hok3). done.
Qed.

Lemma td_parse_network_record_sound line r :
  td_parse_network_record line = Ok r → record_ok r.
Proof.
  destruct line as [line|]; [|done]. unfold td_parse_network_record.
  rewrite reject_bind_Ok. intros [Hg H]. destruct (split_fields line) as [[[[f0 f1] f2] f3]|] eqn:E; [|done].
  rewrite reject_bind_Ok in H. destruct H as [_ H].
  destruct (build_record f0 f1 f2 f3) as [r'|] eqn:Eb; [|done]. injection H as ->.
  apply split_fields_inv in E. bools. rewrite !contains_false in *. subst line.
  eapply build_record_sound; [exact Eb|set_solver|set_solver].
Qed.

Lemma mfold_append_ip_prefix size out ips line :
  mfold (append_ip size) out ips = Ok line → ∃ t, line = out ++ t.
Proof.
  revert out. induction ips as [|ip ips IH]; intros out.
  - intros [= <-]. exists []. by rewrite app_nil_r.
  - rewrite mfold_cons, bind_Ok. intros (o & (_ & _ & ->)%append_ip_Ok & (t & ->)%IH).
    rewrite <-app_assoc. by eexists.
Qed.

Lemma names_unique_loop_Ok records : ∀ previous,
  names_unique_loop previous records = Ok tt ↔
  NoDup (map nr_name records) ∧ Forall (λ r, nr_name r ∉ previous) records.
Proof.
  induction records as [|r records IH]; intros previous; cbn [names_unique_loop map].
  { split; [|done]. intros _. split; constructor. }
  assert (Hx : existsb (λ n, bool_decide (nr_name r = n)) previous = false ↔ nr_name r ∉ previous).
  { rewrite <-not_true_iff_false, existsb_exists, list_elem_of_In.
    setoid_rewrite bool_decide_eq_true. naive_solver. }
  rewrite reject_bind_Ok, Hx, IH, NoDup_cons, Forall_cons, !Forall_forall.
  rewrite list_elem_of_fmap. set_solver.
Qed.

(** ** Properties *)

(** Every record the code may hold in memory is written as one line that
    the parser reads back as the same record: name, driver, CIDR and every
    allocated address in order. *)
Theorem network_record_roundtrip r output_size :
  record_ok r → 1464 ≤ output_size →
  ∃ line, td_format_network_record (Some r) output_size = Ok line ∧
    td_parse_network_record (Some line) = Ok r.
Proof.
  intros H Hs. exists (record_text r). pose proof (record_text_length r H).
  split; [apply td_format_network_record_Ok; [done|lia]|by apply td_parse_record_text].
Qed.

Definition demo_network : td_network_record :=
  NetworkRecord (lit "tinydocker0") (lit "bridge") (lit "172.11.11.0/24") [2886404866; 2886404867].

Lemma demo_network_ok : record_ok demo_network.
Proof.
  constructor; try (vm_compute; done).
  - split; by apply contains_false.
  - exists 2886404864, 24. split; [|].
    + split; [vm_compute; reflexivity|]. split; [done|].
      eexists _, _. split; [vm_compute; reflexivity|vm_compute; reflexivity].
    + cbn. split; [by apply (bool_decide_eq_true_1 _); vm_compute|].
      unfold allocatable. repeat constructor; vm_compute; reflexivity.
Defined.

Lemma network_record_roundtrip_witness :
  ∃ line, td_format_network_record (Some demo_network) 4096 = Ok line ∧
    td_parse_network_record (Some line) = Ok demo_network.
Proof. apply (network_record_roundtrip demo_network 4096); [exact demo_network_ok|lia]. Defined.

(** C31: a line is accepted only if it holds a well-formed record: a valid name
    of at most 15 bytes, the bridge driver, a CIDR written with its network
    address and a prefix of at most 30, and at most 128 distinct allocated
    addresses, each above the gateway and below the broadcast address. *)
Theorem network_record_parse_sound line r :
  td_parse_network_record line = Ok r →
  record_ok r ∧ ∃ network prefix, cidr_ok (nr_cidr r) network prefix ∧
    ∀ ip, ip ∈ nr_used_ips r → network + 2 ≤ ip ≤ network + 2 ^ (32 - prefix) - 2 ∧
      ip ≤ UINT32_MAX.
Proof.
  intros H%td_parse_network_record_sound. split; [done|].
  destruct H as [_ _ _ _ (n & p & Hc & _ & Hf) _]. exists n, p. split; [done|].
  pose proof (cidr_ok_bounds _ _ _ Hc). rewrite Forall_forall in Hf. unfold UINT32_MAX.
  intros ip Hip. specialize (Hf ip Hip). unfold allocatable in Hf. lia.
Qed.

Lemma network_record_parse_sound_witness :
  record_ok demo_network ∧ ∃ network prefix, cidr_ok (nr_cidr demo_network) network prefix ∧
    ∀ ip, ip ∈ nr_used_ips demo_network →
      network + 2 ≤ ip ≤ network + 2 ^ (32 - prefix) - 2 ∧ ip ≤ UINT32_MAX.
Proof.
  apply (network_record_parse_sound
    (Some (lit "tinydocker0:bridge:172.11.11.0/24:2886404866;2886404867;"))).
  vm_compute. reflexivity.
Defined.

(** A CIDR whose prefix is written after a line feed (["10.0.0.0/\n8"]) has
    a strictly parsed value, so the formatter accepts the record, but the line
    it writes is refused by the parser of the same file. *)
Theorem network_record_newline_cidr r output_size line :
  LF ∈ nr_cidr r → td_format_network_record (Some r) output_size = Ok line →
  td_parse_network_record (Some line) = Err (lit "invalid network record length").
Proof.
  intros Hin. unfold td_format_network_record. rewrite !reject_bind_Ok.
  intros (_ & _ & (t & ->)%mfold_append_ip_prefix). unfold td_parse_network_record.
  apply reject_if_true. rewrite !orb_true_iff, !contains_true. left; right.
  unfold record_header. set_solver.
Qed.

Lemma network_record_newline_cidr_witness :
  ∃ line, td_format_network_record
      (Some (NetworkRecord (lit "demo") (lit "bridge") (lit "10.0.0.0/" ++ LF :: lit "8") [])) 4096 = Ok line ∧
    td_parse_network_record (Some line) = Err (lit "invalid network record length").
Proof.
  eexists. split; [vm_compute; reflexivity|].
  eapply (network_record_newline_cidr
    (NetworkRecord (lit "demo") (lit "bridge") (lit "10.0.0.0/" ++ LF :: lit "8") []) 4096);
    [by apply contains_true|vm_compute; reflexivity].
Defined.

Lemma names_are_unique_Ok records :
  td_network_record_names_are_unique records = Ok tt ↔
  NoDup (map nr_name records) ∧ Z.of_nat (length records) ≤ TD_NETWORK_MAX_RECORDS.
Proof.
  unfold td_network_record_names_are_unique.
  rewrite reject_bind_Ok, names_unique_loop_Ok, Z.ltb_ge.
  split; [naive_solver|]. intros [??]. split_and!; [done|done|].
  apply Forall_forall. intros r _. apply not_elem_of_nil.
Qed.

(** The check accepts exactly the lists of at most 128 records whose names
    are pairwise different. *)
Theorem network_names_unique_spec records :
  td_network_record_names_are_unique records = Ok tt ↔
  NoDup (map nr_name records) ∧ Z.of_nat (length records) ≤ TD_NETWORK_MAX_RECORDS.
Proof. apply names_are_unique_Ok. Qed.
