(* ===== verification/CgroupParse.v ===== *)
(** * core/cgroup_parse.c: the texts the cgroup controllers print

    A stat file is lines of a key and a number; [td_format_bytes] prints a
    byte count with a binary unit, through [double] arithmetic and ["%.1f"];
    a pid list is one number a line. *)
From S2P Require Import Prelude CString Safety.
From Stdlib Require Import Lia.

(** ** [double] and ["%.1f"]

    A [double] has 53 significant bits and rounds to nearest, ties to even;
    dividing it by a power of two is exact; ["%.1f"] rounds the exact value
    the same way. *)
Definition div_rne (a b : Z) : Z :=
  let q := a / b in
  let r := a mod b in
  if 2 * r <? b then q
  else if b <? 2 * r then q + 1
  else if Z.even q then q else q + 1.

(** [(double)n] of an [unsigned long long]. *)
Definition to_double (n : Z) : Z :=
  if n <? 2 ^ 53 then n
  else let ulp := 2 ^ (Z.log2 n - 52) in div_rne n ulp * ulp.

(** The tenths of [d / 2^k], and their text. *)
Definition tenths (d k : Z) : Z := div_rne (10 * d) (2 ^ k).
Definition fmt_1f (t : Z) : cstr := fmt_u (t / 10) ++ "."%char :: fmt_u (t mod 10).

(** ** Operations *)

Fixpoint stat_loop (wanted_key : cstr) (value_size : Z) (lines : list cstr) : result cstr :=
  match lines with
  | [] => Err (lit "cgroup stat key not found: " ++ wanted_key)
  | line :: rest =>
      match sscanf_words [127; 127; 1]%nat line with
      | [key; parsed_value] =>
          if bool_decide (key = wanted_key) then
            _ ← reject_if (strto_failed (strtoull parsed_value))
                  (lit "cgroup stat " ++ wanted_key ++ lit " is not numeric");
            _ ← reject_if (value_size <=? strlen parsed_value)
                  (lit "cgroup stat value is too long");
            Ok parsed_value
          else stat_loop wanted_key value_size rest
      | _ => stat_loop wanted_key value_size rest
      end
  end.

Definition td_parse_cgroup_stat (contents wanted_key : option cstr) (value_size : Z) : result cstr :=
  match contents, wanted_key with
  | Some contents, Some wanted_key =>
      _ ← reject_if (negb (nonempty wanted_key) || (value_size =? 0))
            (lit "invalid cgroup stat input");
      stat_loop wanted_key value_size (strtok [LF] contents)
  | _, _ => Err (lit "invalid cgroup stat input")
  end.

Definition bytes_text (bytes : Z) : cstr :=
  if bytes <? 1024 then fmt_u bytes ++ lit "B"
  else if bytes <? 1024 * 1024 then fmt_1f (tenths (to_double bytes) 10) ++ lit "KB"
  else if bytes <? 1024 * 1024 * 1024 then fmt_1f (tenths (to_double bytes) 20) ++ lit "MB"
  else fmt_1f (tenths (to_double bytes) 30) ++ lit "GB".

Definition td_format_bytes (raw : option cstr) (output_size : Z) : result cstr :=
  match raw with
  | None => Err (lit "invalid byte value")
  | Some raw =>
      _ ← reject_if (output_size =? 0) (lit "invalid byte value");
      text ← (if bool_decide (raw = lit "max") || bool_decide (raw = lit "N/A") then Ok raw
              else
                _ ← reject_if (strto_failed (strtoull raw)) (lit "byte value must be numeric or max");
                Ok (bytes_text (st_value (strtoull raw))));
      _ ← reject_if (truncated text output_size) (lit "formatted byte value is too long");
      Ok text
  end.

(** One line of the list; the loop is a fold over the lines. *)
Definition append_pid (capacity : Z) (pids : list Z) (line : cstr) : result (list Z) :=
  _ ← reject_if (capacity <=? Z.of_nat (length pids))
        (lit "cgroup pid list exceeds capacity " ++ fmt_u capacity);
  parsed ← td_parse_long (Some line) 1 INT_MAX;
  Ok (pids ++ [parsed]).

Definition td_parse_cgroup_pid_list (contents : option cstr) (capacity : Z) : result (list Z) :=
  match contents with
  | None => Err (lit "invalid cgroup pid list input")
  | Some contents =>
      _ ← reject_if (capacity =? 0) (lit "invalid cgroup pid list input");
      mfold (append_pid capacity) [] (strtok [LF] contents)
  end.

#[global] Arguments td_parse_cgroup_stat : simpl never.
#[global] Arguments td_format_bytes : simpl never.
#[global] Arguments td_parse_cgroup_pid_list : simpl never.
#[global] Arguments bytes_text : simpl never.

Example format_1023K : td_format_bytes (Some (lit "1048575")) 64 = Ok (lit "1024.0KB").
Proof. vm_compute. reflexivity. Qed.
Example format_1536 : td_format_bytes (Some (lit "1536")) 64 = Ok (lit "1.5KB").
Proof. vm_compute. reflexivity. Qed.
Example format_max64 : td_format_bytes (Some (lit "18446744073709551615")) 64 = Ok (lit "17179869184.0GB").
Proof. vm_compute. reflexivity. Qed.

(** ** Lemmas *)

Lemma div_rne_error a b : 0 < b → 2 * Z.abs (a - div_rne a b * b) ≤ b.
Proof.
  intros Hb. unfold div_rne. pose proof (Z.div_mod a b ltac:(lia)) as E.
  pose proof (Z.mod_pos_bound a b Hb) as Hr. set (q := a / b) in *. set (r := a mod b) in *.
  case (Z.ltb_spec (2 * r) b); intros; [|case (Z.ltb_spec b (2 * r)); intros; [|destruct (Z.even q)]];
    nia.
Qed.

Lemma div_rne_nonneg a b : 0 ≤ a → 0 < b → 0 ≤ div_rne a b.
Proof.
  intros Ha Hb. unfold div_rne. pose proof (Z.div_pos a b Ha Hb).
  repeat case_match; lia.
Qed.

Lemma to_double_error n :
  0 ≤ n ≤ ULLONG_MAX →
  Z.abs (n - to_double n) ≤ (if n <? 2 ^ 53 then 0 else 1024) ∧ 0 ≤ to_double n.
Proof.
  intros Hn. unfold to_double. case (Z.ltb_spec n (2 ^ 53)); intros Hl; [lia|]. cbv zeta.
  assert (H1 : 53 ≤ Z.log2 n ≤ 63).
  { split; [apply Z.log2_le_pow2; lia|]. apply Z.lt_succ_r, Z.log2_lt_pow2; unfold ULLONG_MAX in *; lia. }
  set (e := Z.log2 n - 52). assert (He : 0 < 2 ^ e) by (apply Z.pow_pos_nonneg; lia).
  pose proof (div_rne_error n (2 ^ e) He). pose proof (div_rne_nonneg n (2 ^ e) ltac:(lia) He).
  assert (2 ^ e ≤ 2 ^ 11) by (apply Z.pow_le_mono_r; lia). nia.
Qed.

Lemma tenths_bound bytes k :
  0 ≤ bytes ≤ ULLONG_MAX → 10 ≤ k ≤ 30 →
  0 ≤ tenths (to_double bytes) k ∧
  2 * Z.abs (10 * bytes - tenths (to_double bytes) k * 2 ^ k)
    ≤ 2 ^ k + (if bytes <? 2 ^ 53 then 0 else 20480).
Proof.
  intros Hb Hk. destruct (to_double_error bytes Hb) as [He H0].
  assert (H2 : 0 < 2 ^ k) by (apply Z.pow_pos_nonneg; lia).
  unfold tenths. pose proof (div_rne_error (10 * to_double bytes) (2 ^ k) H2).
  pose proof (div_rne_nonneg (10 * to_double bytes) (2 ^ k) ltac:(lia) H2).
  destruct (bytes <? 2 ^ 53); lia.
Qed.

Lemma scan_word w n rest :
  w ≠ [] → Forall (λ c, isspace c = false) w → (length w ≤ n)%nat →
  (∀ c t, rest = c :: t → isspace c = true) →
  ∀ ws sp, Forall (λ c, isspace c = true) sp →
  sscanf_words (n :: ws) (sp ++ w ++ rest) = w :: sscanf_words ws rest.
Proof.
  intros Hne Hw Hn Hr ws sp Hsp. destruct w as [|c w]; [done|].
  pose proof (Forall_inv Hw) as Hc.
  cbn [sscanf_words]. rewrite span_all; [|done|cbn; by intros ? ? [= <- <-]].
  cbn [snd app]. change (c :: w ++ rest) with ((c :: w) ++ rest).
  rewrite span_all; [|eapply Forall_impl; [exact Hw|]; cbn; by intros ? ->
                     |intros ? ? E; by rewrite (Hr _ _ E)].
  cbn [fst]. rewrite take_ge by done. by rewrite drop_app_length.
Qed.

Lemma scan_end ws : sscanf_words ws [] = [].
Proof. by destruct ws. Qed.

(** A stat file: keys of printing characters, 64-bit values. *)
Definition stat_line (e : cstr * Z) : cstr := e.1 ++ SP :: fmt_u e.2.
Definition stat_text (entries : list (cstr * Z)) : cstr := lines_text (map stat_line entries).
Definition stat_entry (e : cstr * Z) : Prop :=
  e.1 ≠ [] ∧ Forall (λ c, isspace c = false) e.1 ∧ strlen e.1 ≤ 127 ∧ 0 ≤ e.2 ≤ ULLONG_MAX.

Fixpoint first_value (entries : list (cstr * Z)) (key : cstr) : option Z :=
  match entries with
  | [] => None
  | e :: rest => if bool_decide (e.1 = key) then Some e.2 else first_value rest key
  end.

Lemma fmt_u_not_space n : 0 ≤ n ≤ ULLONG_MAX → Forall (λ c, isspace c = false) (fmt_u n).
Proof.
  intros (Hd & _ & _)%fmt_u_spec. eapply Forall_impl; [exact Hd|]. apply isdigit_not_space.
Qed.

Lemma not_space_no_LF s : Forall (λ c, isspace c = false) s → Forall (.∉ [LF]) s.
Proof. intros H. eapply Forall_impl; [exact H|]. by intros c Hc ->%list_elem_of_singleton. Qed.

Lemma fmt_u_length_20 n : 0 ≤ n ≤ ULLONG_MAX → strlen (fmt_u n) ≤ 20.
Proof. intros. apply (fmt_u_length n 20); [unfold ULLONG_MAX in *; lia|lia]. Qed.

Lemma sscanf_stat_line e :
  stat_entry e → sscanf_words [127; 127; 1]%nat (stat_line e) = [e.1; fmt_u e.2].
Proof.
  intros (Hne & Hk & Hl & Hv). unfold stat_line.
  pose proof (fmt_u_spec e.2 Hv) as (_ & Hf & _). pose proof (fmt_u_length_20 _ Hv).
  change (e.1 ++ SP :: fmt_u e.2) with ([] ++ e.1 ++ SP :: fmt_u e.2).
  rewrite scan_word; [|done|done|unfold strlen in *; lia|by intros ? ? [= <- _]|constructor].
  change (SP :: fmt_u e.2) with ([SP] ++ fmt_u e.2). rewrite <-(app_nil_r (fmt_u e.2)).
  rewrite scan_word; [by rewrite scan_end, app_nil_r|done|by apply fmt_u_not_space|unfold strlen in *; lia|done|].
  by repeat constructor.
Qed.

Lemma stat_line_token e : stat_entry e → token [LF] (stat_line e).
Proof.
  intros (Hne & Hk & _ & Hv). unfold stat_line. split; [by destruct e.1|].
  apply Forall_app. split; [by apply not_space_no_LF|]. constructor; [set_solver|].
  by apply not_space_no_LF, fmt_u_not_space.
Qed.

(** ** Properties *)

(** In a stat file of distinct or repeated keys the value of the first
    line with the wanted key is returned as it is written, and a key that is
    on no line is an error. *)
Theorem td_parse_cgroup_stat_lookup entries key size :
  Forall stat_entry entries → key ≠ [] → 20 < size →
  td_parse_cgroup_stat (Some (stat_text entries)) (Some key) size =
  match first_value entries key with
  | Some v => Ok (fmt_u v)
  | None => Err (lit "cgroup stat key not found: " ++ key)
  end.
Proof.
  intros He Hk Hs. unfold td_parse_cgroup_stat.
  rewrite reject_if_false by (apply orb_false_iff; split; [by destruct key|apply Z.eqb_neq; lia]).
  unfold stat_text. rewrite strtok_lines.
  2:{ apply Forall_map. eapply Forall_impl; [exact He|]. apply stat_line_token. }
  induction He as [|e entries He _ IH]; cbn [map stat_loop first_value]; [done|].
  rewrite sscanf_stat_line by done. case_bool_decide; [|exact IH].
  destruct He as (_ & _ & _ & Hv).
  pose proof (strtoull_fmt_u e.2 [] Hv stops_nil) as E. rewrite app_nil_r in E. rewrite E.
  rewrite reject_if_false by done. rewrite reject_if_false; [done|].
  apply Z.leb_gt. pose proof (fmt_u_length_20 _ Hv). lia.
Qed.

Definition demo_stat : list (cstr * Z) := [(lit "usage_usec", 12345); (lit "user_usec", 678)].

Lemma td_parse_cgroup_stat_lookup_witness :
  td_parse_cgroup_stat (Some (stat_text demo_stat)) (Some (lit "user_usec")) 64 = Ok (fmt_u 678).
Proof.
  apply (td_parse_cgroup_stat_lookup demo_stat (lit "user_usec") 64); [|done|lia].
  repeat constructor; vm_compute; done.
Defined.

(** C40: a byte count of 1024 or more is printed with one decimal in the
    largest of KB, MB and GB that is at most the count; the printed tenths are
    the nearest ones, up to the rounding of counts of 2^53 and more to a
    [double], and the text always fits 15 bytes. *)
Theorem td_format_bytes_accuracy bytes size :
  1024 ≤ bytes ≤ ULLONG_MAX → 15 < size →
  ∃ whole tenth k unit,
    td_format_bytes (Some (fmt_u bytes)) size = Ok (fmt_u whole ++ lit "." ++ fmt_u tenth ++ unit) ∧
    (k, unit) ∈ [(10, lit "KB"); (20, lit "MB"); (30, lit "GB")] ∧
    2 ^ k ≤ bytes ∧ (k < 30 → bytes < 2 ^ (k + 10)) ∧
    0 ≤ whole ∧ 0 ≤ tenth < 10 ∧
    2 * Z.abs (10 * bytes - (10 * whole + tenth) * 2 ^ k)
      ≤ 2 ^ k + (if bytes <? 2 ^ 53 then 0 else 20480).
Proof.
  intros Hb Hs.
  assert (G : ∃ k unit, bytes_text bytes = fmt_1f (tenths (to_double bytes) k) ++ unit ∧
    (k, unit) ∈ [(10, lit "KB"); (20, lit "MB"); (30, lit "GB")] ∧ 10 ≤ k ≤ 30 ∧ strlen unit = 2 ∧
    2 ^ k ≤ bytes ∧ (k < 30 → bytes < 2 ^ (k + 10))).
  { unfold bytes_text. case (Z.ltb_spec bytes 1024); intros; [lia|].
    case (Z.ltb_spec bytes (1024 * 1024)); intros;
      [exists 10, (lit "KB")|case (Z.ltb_spec bytes (1024 * 1024 * 1024)); intros;
      [exists 20, (lit "MB")|exists 30, (lit "GB")]];
      (split_and!; [done|set_solver|lia|lia|done|lia|cbn; lia]). }
  destruct G as (k & unit & Et & Hin & Hk & Hu & Hlo & Hhi).
  destruct (tenths_bound bytes k ltac:(lia) Hk) as [H0 He].
  set (t := tenths (to_double bytes) k) in *.
  pose proof (Z.div_mod t 10 ltac:(lia)). pose proof (Z.mod_pos_bound t 10 ltac:(lia)).
  assert (Ht : t / 10 < 10 ^ 11).
  { apply Z.div_lt_upper_bound; [lia|].
    assert (Hc : k = 10 ∨ k = 20 ∨ k = 30) by (rewrite !elem_of_cons, elem_of_nil in Hin; naive_solver).
    unfold ULLONG_MAX in Hb.
    destruct Hc as [->|[->| ->]]; destruct (bytes <? 2 ^ 53); cbn in *; lia. }
  exists (t / 10), (t mod 10), k, unit. split_and!; try done; try lia.
  - unfold td_format_bytes. rewrite reject_if_false by (apply Z.eqb_neq; lia).
    pose proof (strtoull_fmt_u bytes [] ltac:(lia) stops_nil) as E. rewrite app_nil_r in E. rewrite E.
    pose proof (fmt_u_spec bytes ltac:(lia)) as (Hd & _ & _).
    rewrite !bool_decide_eq_false_2
      by (intros Eq; rewrite Eq in Hd; apply Forall_inv in Hd; discriminate Hd).
    cbn [orb]. rewrite reject_if_false by done. cbn [mbind result_bind st_value]. rewrite Et.
    unfold fmt_1f. rewrite <-app_assoc. rewrite reject_if_false; [done|].
    unfold truncated. apply Z.leb_gt. rewrite strlen_app. cbn [app]. rewrite strlen_cons, strlen_app.
    pose proof (fmt_u_length (t / 10) 11 ltac:(split; [apply Z.div_pos; lia|exact Ht]) ltac:(lia)).
    pose proof (fmt_u_length (t mod 10) 1 ltac:(lia) ltac:(lia)). lia.
Qed.

Lemma td_format_bytes_accuracy_witness :
  ∃ whole tenth k unit,
    td_format_bytes (Some (fmt_u 1500000)) 16 = Ok (fmt_u whole ++ lit "." ++ fmt_u tenth ++ unit) ∧
    2 * Z.abs (10 * 1500000 - (10 * whole + tenth) * 2 ^ k) ≤ 2 ^ k.
Proof.
  destruct (td_format_bytes_accuracy 1500000 16) as (w & t & k & u & H & _ & _ & _ & _ & _ & He);
    [unfold ULLONG_MAX; lia|lia|].
  exists w, t, k, u. split; [exact H|].
  change (if 1500000 <? 2 ^ 53 then 0 else 20480) with 0 in He. by rewrite Z.add_0_r in He.
Defined.

Lemma append_pids_Ok capacity pids : ∀ previous,
  Forall (λ p, 1 ≤ p ≤ INT_MAX) pids → Z.of_nat (length (previous ++ pids)) ≤ capacity →
  mfold (append_pid capacity) previous (map fmt_d pids) = Ok (previous ++ pids).
Proof.
  induction pids as [|p pids IH]; intros previous Hp Hc.
  { cbn. by rewrite app_nil_r. }
  apply Forall_cons in Hp as [Hp Hps]. cbn [map]. rewrite mfold_cons.
  assert (E : append_pid capacity previous (fmt_d p) = Ok (previous ++ [p])).
  { unfold append_pid. rewrite reject_if_false.
    - rewrite td_parse_long_fmt; [done|unfold LONG_MIN, LONG_MAX, INT_MAX in *; lia|done].
    - apply Z.leb_gt. rewrite length_app in Hc. cbn in Hc. lia. }
  rewrite E. cbn [mbind result_bind]. rewrite IH, <-app_assoc; [done|done|].
  by rewrite <-app_assoc.
Qed.

Lemma fmt_d_token p : 1 ≤ p ≤ INT_MAX → token [LF] (fmt_d p).
Proof.
  intros Hp. unfold fmt_d. case (Z.ltb_spec p 0); [lia|]. intros _.
  assert (Hu : 0 ≤ p ≤ ULLONG_MAX) by (unfold INT_MAX, ULLONG_MAX in *; lia).
  split; [by apply fmt_u_spec|by apply not_space_no_LF, fmt_u_not_space].
Qed.

Lemma pid_list_range contents capacity pids :
  0 < capacity → td_parse_cgroup_pid_list contents capacity = Ok pids →
  Z.of_nat (length pids) ≤ capacity ∧ Forall (λ p, 1 ≤ p ≤ INT_MAX) pids.
Proof.
  intros Hc. unfold td_parse_cgroup_pid_list. destruct contents as [t|]; [|done].
  rewrite reject_if_false by (apply Z.eqb_neq; lia).
  apply (mfold_invariant (append_pid capacity)
    (λ _ l, Z.of_nat (length l) ≤ capacity ∧ Forall (λ p, 1 ≤ p ≤ INT_MAX) l)); [|cbn; split; [lia|done]].
  intros _ line l l' [Hl Hf] _. unfold append_pid. rewrite reject_bind_Ok, bind_Ok.
  intros (Hn & p & (_ & Hp & _)%td_parse_long_Some_Ok & [= <-]). bools.
  rewrite length_app, Forall_app, Forall_singleton. cbn. split; [lia|done].
Qed.

(** The list the kernel prints is read back. *)
Lemma pid_list_printed capacity pids :
  0 < capacity → Z.of_nat (length pids) ≤ capacity → Forall (λ p, 1 ≤ p ≤ INT_MAX) pids →
  td_parse_cgroup_pid_list (Some (lines_text (map fmt_d pids))) capacity = Ok pids.
Proof.
  intros Hc Hl Hp. unfold td_parse_cgroup_pid_list. rewrite reject_if_false by (apply Z.eqb_neq; lia).
  rewrite strtok_lines; [by apply append_pids_Ok|]. apply Forall_map. eapply Forall_impl; [exact Hp|]. apply fmt_d_token.
Qed.

(** The pid list accepts exactly texts with at most [capacity] lines, each
    a pid of [1 .. INT_MAX]; the pids of a list the kernel prints come back in
    order, and whatever the text is the result never overruns the array. *)
Theorem td_parse_cgroup_pid_list_spec contents capacity pids :
  0 < capacity →
  (td_parse_cgroup_pid_list contents capacity = Ok pids →
     Z.of_nat (length pids) ≤ capacity ∧ Forall (λ p, 1 ≤ p ≤ INT_MAX) pids) ∧
  (Z.of_nat (length pids) ≤ capacity → Forall (λ p, 1 ≤ p ≤ INT_MAX) pids →
     td_parse_cgroup_pid_list (Some (lines_text (map fmt_d pids))) capacity = Ok pids).
Proof. intros Hc. split; [by apply pid_list_range|by apply pid_list_printed]. Qed.

Lemma td_parse_cgroup_pid_list_spec_witness :
  td_parse_cgroup_pid_list (Some (lines_text (map fmt_d [1; 4242; 2147483647]))) 8
  = Ok [1; 4242; 2147483647].
Proof.
  apply (td_parse_cgroup_pid_list_spec None 8 [1; 4242; 2147483647]); [lia|cbn; lia|].
  unfold INT_MAX. repeat constructor; lia.
Defined.
