(* ===== verification/Sys.v ===== *)
(** * System calls, programs and their specifications

    The functions of [docker/], [util/] and the system half of [core/] are
    programs: trees whose nodes are the C library calls they make.  A call's
    answer comes from outside, so a program says nothing about the operating
    system.  A [model] says which calls are allowed in a state and how
    answers change it; [wp] is the weakest precondition of a program for
    partial correctness, [run] executes a program against a deterministic
    handler, and [run_sound] relates the two. *)
From S2P Require Import Prelude CString.
From Stdlib Require Import Lia.

(** ** errno (Linux numbering) *)
Definition ENOENT : Z := 2.
Definition ESRCH : Z := 3.
Definition EINTR : Z := 4.
Definition EIO : Z := 5.
Definition ECHILD : Z := 10.
Definition EBUSY : Z := 16.
Definition EEXIST : Z := 17.
Definition EINVAL : Z := 22.
Definition ENAMETOOLONG : Z := 36.
Definition EOVERFLOW : Z := 75.

(** The return value of a call, or [errno] when it reports failure. *)
Inductive sysret (A : Type) : Type :=
  | SOk (a : A)
  | SErr (errno : Z).
Arguments SOk {A} _.
Arguments SErr {A} _.

Definition s_ok {A} (r : sysret A) : bool :=
  match r with SOk _ => true | SErr _ => false end.

(** [r < 0 && errno == e] *)
Definition failed_with {A} (r : sysret A) (e : Z) : bool :=
  match r with SOk _ => false | SErr x => x =? e end.

(** ** The calls *)

Inductive oflag :=
  | O_RDONLY | O_WRONLY | O_RDWR | O_CREAT | O_EXCL | O_TRUNC
  | O_DIRECTORY | O_CLOEXEC | O_NOFOLLOW.
Inductive mflag :=
  | MS_BIND | MS_REMOUNT | MS_RDONLY | MS_REC | MS_PRIVATE | MS_NOEXEC | MS_NOSUID | MS_NODEV.
Inductive file_kind := Regular | Directory | Other.
Record file_status := FileStatus { fs_kind : file_kind; fs_size : Z }.
(** [WIFEXITED]/[WEXITSTATUS] and [WTERMSIG] of a wait status. *)
Inductive wait_status := Exited (status : Z) | Signaled (signal : Z).

#[global] Instance oflag_eq_dec : EqDecision oflag.
Proof. solve_decision. Defined.
#[global] Instance mflag_eq_dec : EqDecision mflag.
Proof. solve_decision. Defined.
#[global] Instance file_kind_eq_dec : EqDecision file_kind.
Proof. solve_decision. Defined.

(** What a child made by [fork] or [clone] runs, with the locals it uses. *)
Inductive child :=
  | ChildExec (argv : list cstr)
  | ChildCapture (argv : list cstr) (read_end write_end : nat)
  | ChildContainer
  | ChildWorker (container : cstr) (pid detach : Z) (argv envp : list cstr)
  | ChildCommand (argv envp : list cstr).

Inductive syscall :=
  | Malloc (size : Z)
  | Open (path : cstr) (flags : list oflag) (mode : Z)
  | Openat (dirfd : nat) (name : cstr) (flags : list oflag) (mode : Z)
  | Close (fd : nat)
  | Read (fd : nat) (count : Z)
  | Write (fd : nat) (data : cstr)
  | Fsync (fd : nat)
  | Flock (fd : nat)
  | Dup2 (fd target : nat)
  | Fstat (fd : nat)
  | Stat (path : cstr)
  | Lstat (path : cstr)
  | Access (path : cstr)
  | Mkdir (path : cstr) (mode : Z)
  | Mkdirat (dirfd : nat) (name : cstr) (mode : Z)
  | Rmdir (path : cstr)
  | Unlink (path : cstr)
  | Unlinkat (dirfd : nat) (name : cstr)
  | Rename (old new : cstr)
  | Renameat (olddirfd : nat) (old : cstr) (newdirfd : nat) (new : cstr)
  | Nftw (path : cstr)
  | Realpath (path : cstr)
  | Fopen (path : cstr)
  | Fdopen (fd : nat)
  | Fputs (stream : nat) (text : cstr)
  | Fgets (stream : nat) (size : Z)
  | Fread (stream : nat) (size : Z)
  | Fflush (stream : nat)
  | Fclose (stream : nat)
  | Opendir (path : cstr)
  | Readdir (dir : nat)
  | Closedir (dir : nat)
  | Mount (source : option cstr) (target : cstr) (fstype : option cstr) (flags : list mflag)
      (data : option cstr)
  | Umount (target : cstr)
  | Umount2 (target : cstr)
  | PivotRoot (new_root put_old : cstr)
  | Chdir (path : cstr)
  | Pipe
  | Fork (what : child)
  | Clone (what : child)
  | Execvp (argv : list cstr)
  | Execve (path : cstr) (argv envp : list cstr)
  | Exit (status : Z)
  | Kill (pid signal : Z)
  | Waitpid (pid : Z)
  | Getpid
  | Setns (fd : nat)
  | Nanosleep (nanoseconds : Z)
  | Sigaction (signal : Z)
  | If_nametoindex (name : cstr)
  | Time
  | Strftime (timestamp : Z)
  | Print (text : cstr).

(** The type of a call's answer.  Descriptors and streams are numbers; a
    stream made by [fdopen] has the number of its descriptor. *)
Definition ans (c : syscall) : Type :=
  match c with
  | Open _ _ _ | Openat _ _ _ _ | Fopen _ | Opendir _ => sysret nat
  | Read _ _ => sysret cstr
  | Write _ _ => sysret Z
  | Fstat _ | Stat _ | Lstat _ => sysret file_status
  | Malloc _ | Access _ => bool
  | Nftw _ => Z
  | Realpath _ => option cstr
  | Fgets _ _ => sysret cstr
  | Fread _ _ => cstr * (bool * bool)
  | Readdir _ => option cstr
  | Pipe => sysret (nat * nat)
  | Fork _ | Clone _ => sysret positive
  | Waitpid _ => sysret wait_status
  | Getpid | Time => Z
  | If_nametoindex _ => N
  | Strftime _ => cstr
  | Execvp _ | Execve _ _ _ => Z
  | Exit _ | Print _ | Nanosleep _ => unit
  | _ => sysret unit
  end.

(** ** Programs *)

(** [Iter body s k] is a loop that has no bound the program knows: [body]
    either returns the next loop state or leaves the loop. *)
Inductive prog (A : Type) : Type :=
  | Ret (a : A)
  | Call (c : syscall) (k : ans c → prog A)
  | Iter (S B : Type) (body : S → prog (S + B)) (s : S) (k : B → prog A).
Arguments Ret {A} _.
Arguments Call {A} c k.
Arguments Iter {A S B} body s k.

Fixpoint pbind {A B} (p : prog A) (f : A → prog B) : prog B :=
  match p with
  | Ret a => f a
  | Call c k => Call c (λ x, pbind (k x) f)
  | Iter body s k => Iter body s (λ b, pbind (k b) f)
  end.
#[global] Instance prog_ret : MRet prog := λ A a, Ret a.
#[global] Instance prog_bind : MBind prog := λ A B f p, pbind p f.

Definition call (c : syscall) : prog (ans c) := Call c Ret.
Definition iter {S B} (body : S → prog (S + B)) (s : S) : prog B := Iter body s Ret.

(** [do { r = c; } while (r < 0 && errno == EINTR);] for a call whose answer is
    a [sysret]. *)
Definition retry_intr {A} (c : prog (sysret A)) : prog (sysret A) :=
  iter (λ _ : unit, r ← c; Ret (if failed_with r EINTR then inl tt else inr r)) tt.

(** [read] and [write] never transfer more than they are asked to. *)
Definition sys_read (fd : nat) (count : Z) : prog (sysret cstr) :=
  r ← call (Read fd count);
  Ret (match r with SOk data => SOk (take (Z.to_nat count) data) | SErr e => SErr e end).
Definition sys_write (fd : nat) (data : cstr) : prog (sysret Z) :=
  r ← call (Write fd data);
  Ret (match r with SOk n => SOk (Z.min n (strlen data)) | SErr e => SErr e end).

(** The C string at the start of a buffer. *)
Definition until_nul (data : cstr) : cstr := (span (λ c, negb (bool_decide (c = NUL))) data).1.

(** [if (b) {...}] around statements that return nothing. *)
Definition when (b : bool) (p : prog unit) : prog unit := if b then p else Ret tt.

(** [(void)f()] *)
Definition discard {A} (p : prog A) : prog unit := _ ← p; Ret tt.

(** Runs a program for each element, in order. *)
Fixpoint for_each {A} (l : list A) (f : A → prog unit) : prog unit :=
  match l with
  | [] => Ret tt
  | a :: l' => _ ← f a; for_each l' f
  end.

(** ** Specifications *)

Record model (W : Type) := Model {
  allowed : W → syscall → Prop;
  answered : W → ∀ c, ans c → W → Prop;
}.
Arguments Model {W} _ _.
Arguments allowed {W} _ _ _.
Arguments answered {W} _ _ _ _ _.

(** [wp M p Q w]: from [w] the program [p] only makes allowed calls, and when
    it returns, [Q] holds of its result and the final state.  A loop has an
    invariant. *)
Fixpoint wp {W} (M : model W) {A} (p : prog A) (Q : A → W → Prop) (w : W) {struct p} : Prop :=
  match p with
  | Ret a => Q a w
  | Call c k => allowed M w c ∧ ∀ a w', answered M w c a w' → wp M (k a) Q w'
  | Iter body s k =>
      ∃ I : _ → W → Prop, I s w ∧
        ∀ s w, I s w →
          wp M (body s) (λ r w', match r with inl s' => I s' w' | inr b => wp M (k b) Q w' end) w
  end.

(** A model that watches: every call is allowed that [ok] allows, every answer
    is possible, and the state is what [step] makes of it. *)
Definition observer {W} (ok : W → syscall → Prop) (step : W → ∀ c, ans c → W) : model W :=
  Model ok (λ w c a w', w' = step w c a).
Definition free {W} (step : W → ∀ c, ans c → W) : model W := observer (λ _ _, True) step.

(** ** Execution *)
Fixpoint loop_run {W S B R} (n : nat) (body : S → W → option ((S + B) * W))
    (exit : B → W → option R) (s : S) (w : W) : option R :=
  match n with
  | O => None
  | Datatypes.S n' =>
      match body s w with
      | Some (inl s', w') => loop_run n' body exit s' w'
      | Some (inr b, w') => exit b w'
      | None => None
      end
  end.

Fixpoint run {W A} (fuel : nat) (handle : W → ∀ c, ans c * W) (p : prog A) (w : W) : option (A * W) :=
  match p with
  | Ret a => Some (a, w)
  | Call c k => let '(a, w') := handle w c in run fuel handle (k a) w'
  | Iter body s k =>
      loop_run fuel (λ s, run fuel handle (body s)) (λ b, run fuel handle (k b)) s w
  end.

(** ** Lemmas *)

Lemma wp_mono {W} (M : model W) {A} (p : prog A) : ∀ (P Q : A → W → Prop) w,
  (∀ a w', P a w' → Q a w') → wp M p P w → wp M p Q w.
Proof.
  induction p as [A a|A c k IH|A S B body IHb s k IHk]; intros P Q w HPQ; cbn.
  - apply HPQ.
  - intros [Hok H]. split; [done|]. intros a w' Ha. eapply IH; [exact HPQ|by apply H].
  - intros (I & HI & H). exists I. split; [done|]. intros s' w' Hs.
    eapply IHb; [|by apply H]. intros [s''|b] w''; [done|]. cbn. by apply IHk.
Qed.

Lemma wp_bind {W} (M : model W) {A} (p : prog A) : ∀ {B} (f : A → prog B) Q w,
  wp M p (λ a, wp M (f a) Q) w → wp M (p ≫= f) Q w.
Proof.
  change (∀ B (f : A → prog B) Q w, wp M p (λ a, wp M (f a) Q) w → wp M (pbind p f) Q w).
  induction p as [A a|A c k IH|A S C body IHb s k IHk]; intros B f Q w; cbn.
  - done.
  - intros [Hok H]. split; [done|]. intros a w' Ha. by apply IH, H.
  - intros (I & HI & H). exists I. split; [done|]. intros s' w' Hs.
    eapply wp_mono; [|by apply H]. intros [s''|b] w''; [done|]. cbn. by apply IHk.
Qed.

Lemma wp_ret {W} (M : model W) {A} (a : A) (Q : A → W → Prop) w : Q a w → wp M (mret a) Q w.
Proof. done. Qed.

Lemma wp_observe {W} ok step c (Q : ans c → W → Prop) w :
  ok w c → (∀ a, Q a (step w c a)) → wp (observer ok step) (call c) Q w.
Proof. intros Hok H. split; [done|]. intros a w' ->. apply H. Qed.

Lemma wp_iter {W} (M : model W) {S B} (I : S → W → Prop) (body : S → prog (S + B)) s Q w :
  I s w →
  (∀ s w, I s w → wp M (body s) (λ r w', match r with inl s' => I s' w' | inr b => Q b w' end) w) →
  wp M (iter body s) Q w.
Proof.
  intros HI H. exists I. split; [done|]. intros s' w' Hs. eapply wp_mono; [|by apply H].
  intros [s''|b] w''; done.
Qed.

(** A call that is repeated while it is interrupted: [I] survives the
    interruptions. *)
Lemma wp_retry {W} (M : model W) {A} (I : W → Prop) (c : prog (sysret A)) Q w :
  I w →
  (∀ w, I w → wp M c (λ r w', if failed_with r EINTR then I w' else Q r w') w) →
  wp M (retry_intr c) Q w.
Proof.
  intros HI H. apply (wp_iter M (λ _, I)); [done|]. intros _ w' Hw. apply wp_bind.
  eapply wp_mono; [|by apply H]. intros r w''. cbn. by destruct (failed_with r EINTR).
Qed.

Lemma wp_and {W} (M : model W) {A} (p : prog A) (P : Prop) Q w :
  P → wp M p Q w → wp M p (λ a w', P ∧ Q a w') w.
Proof. intros HP. apply wp_mono. auto. Qed.

(** What [run] computes satisfies what [wp] proves. *)
Definition handler_of {W} (M : model W) (handle : W → ∀ c, ans c * W) : Prop :=
  ∀ w c, answered M w c (handle w c).1 (handle w c).2.

Lemma run_sound {W} (M : model W) handle fuel {A} (p : prog A) :
  handler_of M handle → ∀ (Q : A → W → Prop) w a w',
  wp M p Q w → run fuel handle p w = Some (a, w') → Q a w'.
Proof.
  intros HM. induction p as [A a|A c k IH|A S B body IHb s k IHk]; intros Q w r w'; cbn.
  - intros HQ E. injection E as <- <-. exact HQ.
  - intros [_ H]. destruct (handle w c) as [x wx] eqn:E. intros Hr.
    eapply IH; [|exact Hr]. apply H. pose proof (HM w c) as G. by rewrite E in G.
  - intros (I & HI & H). revert s w HI. generalize fuel at 1 as n.
    induction n as [|n IHn]; intros s w HI; [done|]. cbn.
    destruct (run fuel handle (body s) w) as [[[s'|b] w1]|] eqn:E; [| |done].
    + intros Hr. apply (IHn s' w1); [|exact Hr].
      exact (IHb s _ w (inl s') w1 (H s w HI) E).
    + intros Hr. apply (IHk b Q w1); [|exact Hr].
      exact (IHb s _ w (inr b) w1 (H s w HI) E).
Qed.

(** *** The calls a program may make *)

(** Every call of the program is one that [ok] allows. *)
Definition only (ok : syscall → bool) {A} (p : prog A) : Prop :=
  wp (observer (λ (_ : unit) c, ok c = true) (λ _ _ _, tt)) p (λ _ _, True) tt.

(** A property of the state that every such call keeps is kept by the program. *)
Lemma only_sound {W} (M : model W) (ok : syscall → bool) (P : W → Prop) {A} (p : prog A) :
  (∀ w c, P w → ok c = true → allowed M w c) →
  (∀ w c a w', P w → ok c = true → answered M w c a w' → P w') →
  only ok p → ∀ w, P w → wp M p (λ _ w', P w') w.
Proof.
  intros Hok Hst.
  assert (G : ∀ (Q : A → unit → Prop), wp (observer (λ (_ : unit) c, ok c = true) (λ _ _ _, tt)) p Q tt →
    ∀ w, P w → wp M p (λ a w', P w' ∧ Q a tt) w).
  { induction p as [A a|A c k IH|A S B body IHb s k IHk]; intros Q; cbn.
    - done.
    - intros [Hc H] w Hw. split; [by apply Hok|]. intros a w' Ha. apply IH; [by apply H|by eapply Hst].
    - intros (I & HI & H) w Hw. exists (λ s w, I s tt ∧ P w). split; [done|]. intros s' w' [Hs Hw'].
      eapply wp_mono; [|apply IHb; [by apply H|done]].
      intros [s''|b] w'' [HP HQ]; [done|]. cbn. by apply IHk. }
  intros H w Hw. eapply wp_mono; [|by apply G]. by intros a w' [? _].
Qed.

Lemma only_mono (ok ok' : syscall → bool) {A} (p : prog A) :
  (∀ c, ok c = true → ok' c = true) → only ok p → only ok' p.
Proof.
  intros H Hp. apply (only_sound _ ok (λ _, True)); [intros [] c _; apply H|done|exact Hp|done].
Qed.
Lemma only_ret ok {A} (a : A) : only ok (Ret a).
Proof. done. Qed.
Lemma only_call (ok : syscall → bool) c : ok c = true → only ok (call c).
Proof. by split. Qed.
Lemma only_bind ok {A B} (p : prog A) (f : A → prog B) :
  only ok p → (∀ a, only ok (f a)) → only ok (p ≫= f).
Proof. intros Hp Hf. apply wp_bind. eapply wp_mono; [|exact Hp]. intros a [] _. apply Hf. Qed.
Lemma only_iter ok {S B} (body : S → prog (S + B)) s : (∀ s, only ok (body s)) → only ok (iter body s).
Proof.
  intros H. apply (wp_iter _ (λ _ _, True)); [done|]. intros s' [] _.
  eapply wp_mono; [|apply H]. by intros [s''|b] [] _.
Qed.
Lemma only_retry ok {A} (c : prog (sysret A)) : only ok c → only ok (retry_intr c).
Proof. intros H. apply only_iter. intros []. apply only_bind; [done|]. intros r. apply only_ret. Qed.
Lemma only_for_each ok {A} (l : list A) (f : A → prog unit) : (∀ a, only ok (f a)) → only ok (for_each l f).
Proof. intros H. induction l as [|a l IH]; cbn; [done|]. by apply only_bind. Qed.

#[global] Arguments wp : simpl never.

(** ** Termination

    [twp] is [wp] with a measure for every loop.  A model of its own counts the
    interruptions the kernel still has in store: the loops of the sources are
    bounded by their data and by nothing else when signals arrive for ever. *)
Fixpoint twp {W} (M : model W) {A} (p : prog A) (Q : A → W → Prop) (w : W) {struct p} : Prop :=
  match p with
  | Ret a => Q a w
  | Call c k => ∀ a w', answered M w c a w' → twp M (k a) Q w'
  | Iter body s k =>
      ∃ (I : _ → W → Prop) (m : _ → W → nat), I s w ∧
        ∀ s w, I s w →
          twp M (body s) (λ r w', match r with
                                  | inl s' => I s' w' ∧ (m s' w' < m s w)%nat
                                  | inr b => twp M (k b) Q w'
                                  end) w
  end.

Definition interrupted (c : syscall) : ans c → bool :=
  match c with
  | Read _ _ => λ r, failed_with (A := cstr) r EINTR
  | Write _ _ => λ r, failed_with (A := Z) r EINTR
  | Waitpid _ => λ r, failed_with (A := wait_status) r EINTR
  | Flock _ => λ r, failed_with (A := unit) r EINTR
  | _ => λ _, false
  end.
Definition patient : model nat :=
  Model (λ _ _, True) (λ n c a n', if interrupted c a then n = S n' else n' = n).

Definition terminates {A} (p : prog A) : Prop := ∀ n, twp patient p (λ _ _, True) n.

Lemma twp_mono {W} (M : model W) {A} (p : prog A) : ∀ (P Q : A → W → Prop) w,
  (∀ a w', P a w' → Q a w') → twp M p P w → twp M p Q w.
Proof.
  induction p as [A a|A c k IH|A S B body IHb s k IHk]; intros P Q w HPQ; cbn.
  - apply HPQ.
  - intros H a w' Ha. eapply IH; [exact HPQ|by apply H].
  - intros (I & m & HI & H). exists I, m. split; [done|]. intros s' w' Hs.
    eapply IHb; [|by apply H]. intros [s''|b] w''; [done|]. cbn. by apply IHk.
Qed.

Lemma twp_bind {W} (M : model W) {A} (p : prog A) : ∀ {B} (f : A → prog B) Q w,
  twp M p (λ a, twp M (f a) Q) w → twp M (p ≫= f) Q w.
Proof.
  change (∀ B (f : A → prog B) Q w, twp M p (λ a, twp M (f a) Q) w → twp M (pbind p f) Q w).
  induction p as [A a|A c k IH|A S C body IHb s k IHk]; intros B f Q w; cbn.
  - done.
  - intros H a w' Ha. by apply IH, H.
  - intros (I & m & HI & H). exists I, m. split; [done|]. intros s' w' Hs.
    eapply twp_mono; [|by apply H]. intros [s''|b] w''; [done|]. cbn. by apply IHk.
Qed.

(** A terminating program has a result under every handler of the model. *)
Lemma loop_run_more {W S B R} n n' (body body' : S → W → option ((S + B) * W))
    (exit exit' : B → W → option R) :
  (n ≤ n')%nat → (∀ s w r, body s w = Some r → body' s w = Some r) →
  (∀ b w r, exit b w = Some r → exit' b w = Some r) →
  ∀ s w r, loop_run n body exit s w = Some r → loop_run n' body' exit' s w = Some r.
Proof.
  intros Hn Hb He. revert n' Hn.
  induction n as [|n IH]; intros [|n'] Hn s w r; cbn; [done|done|lia|].
  destruct (body s w) as [[[s'|b] w']|] eqn:E; [| |done]; rewrite (Hb _ _ _ E).
  - apply IH. lia.
  - apply He.
Qed.

Lemma run_more {W A} (handle : W → ∀ c, ans c * W) (p : prog A) : ∀ fuel fuel' w r,
  (fuel ≤ fuel')%nat → run fuel handle p w = Some r → run fuel' handle p w = Some r.
Proof.
  induction p as [A a|A c k IH|A S B body IHb s k IHk]; intros fuel fuel' w r Hle; cbn; [done| |].
  - destruct (handle w c). by apply IH.
  - apply loop_run_more; [done| |]; intros; [by eapply IHb|by eapply IHk].
Qed.

Lemma run_terminates {W} (M : model W) handle {A} (p : prog A) :
  handler_of M handle → ∀ (Q : A → W → Prop) w,
  twp M p Q w → ∃ fuel a w', run fuel handle p w = Some (a, w') ∧ Q a w'.
Proof.
  intros HM. induction p as [A a|A c k IH|A S B body IHb s k IHk]; intros Q w; cbn.
  - intros H. by exists O, a, w.
  - intros H. pose proof (HM w c) as G. destruct (handle w c) as [x wx].
    exact (IH x Q wx (H _ _ G)).
  - intros (I & m & HI & H).
    assert (G : ∀ n s w, I s w → (m s w < n)%nat → ∃ fuel a w',
      loop_run fuel (λ s, run fuel handle (body s)) (λ b, run fuel handle (k b)) s w = Some (a, w')
      ∧ Q a w'); [|exact (G _ s w HI (Nat.lt_succ_diag_r _))].
    clear s w HI. induction n as [|n IHn]; intros s w Hs Hm; [lia|].
    destruct (IHb s _ w (H _ _ Hs)) as (f1 & [s'|b] & w1 & E1 & H1).
    + destruct H1 as [H1 Hlt]. destruct (IHn s' w1 H1 ltac:(lia)) as (f2 & a & w2 & E2 & HQ).
      exists (Datatypes.S (f1 + f2))%nat, a, w2. split; [|done]. cbn [loop_run].
      rewrite (run_more handle (body s) f1 (Datatypes.S (f1 + f2))%nat _ _ ltac:(lia) E1).
      revert E2. apply loop_run_more; [lia| |]; intros ? ? ?; apply run_more; lia.
    + destruct (IHk b Q w1 H1) as (f2 & a & w2 & E2 & HQ).
      exists (Datatypes.S (f1 + f2))%nat, a, w2. split; [|done]. cbn [loop_run].
      rewrite (run_more handle (body s) f1 (Datatypes.S (f1 + f2))%nat _ _ ltac:(lia) E1).
      revert E2. apply run_more. lia.
Qed.

Lemma twp_call {W} (M : model W) c (Q : ans c → W → Prop) w :
  (∀ a w', answered M w c a w' → Q a w') → twp M (call c) Q w.
Proof. done. Qed.

Lemma twp_iter {W} (M : model W) {S B} (I : S → W → Prop) (m : S → W → nat) (body : S → prog (S + B)) s Q w :
  I s w →
  (∀ s w, I s w → twp M (body s) (λ r w', match r with
                                          | inl s' => I s' w' ∧ (m s' w' < m s w)%nat
                                          | inr b => Q b w'
                                          end) w) →
  twp M (iter body s) Q w.
Proof.
  intros HI H. exists I, m. split; [done|]. intros s' w' Hs. eapply twp_mono; [|by apply H].
  intros [s''|b] w''; done.
Qed.

Lemma terminates_ret {A} (a : A) : terminates (Ret a).
Proof. done. Qed.
Lemma terminates_call c : terminates (call c).
Proof. done. Qed.
Lemma terminates_bind {A B} (p : prog A) (f : A → prog B) :
  terminates p → (∀ a, terminates (f a)) → terminates (p ≫= f).
Proof.
  intros Hp Hf n. apply twp_bind. eapply twp_mono; [|apply Hp]. intros a n' _. apply Hf.
Qed.

(** A loop whose state gets smaller, or that was interrupted. *)
Lemma terminates_iter {S B} (I : S → Prop) (m : S → nat) (body : S → prog (S + B)) s :
  I s →
  (∀ s n, I s → twp patient (body s) (λ r n', match r with
     | inl s' => I s' ∧ (m s' + n' < m s + n)%nat
     | inr _ => True end) n) →
  terminates (iter body s).
Proof. intros HI H n. by apply (twp_iter patient (λ s _, I s) (λ s n, (m s + n)%nat)). Qed.

Lemma twp_call_bind {A} c (f : ans c → prog A) Q n :
  (∀ a n', answered patient n c a n' → twp patient (f a) Q n') → twp patient (call c ≫= f) Q n.
Proof. intros H. apply twp_bind. exact H. Qed.

Lemma twp_weaken {A B} (p : prog A) (f : A → prog B) Q n :
  terminates p → (∀ a n', twp patient (f a) Q n') → twp patient (p ≫= f) Q n.
Proof. intros Hp Hf. apply twp_bind. eapply twp_mono; [|apply Hp]. intros a n' _. apply Hf. Qed.

Lemma terminates_retry_flock fd : terminates (retry_intr (call (Flock fd))).
Proof.
  apply (terminates_iter (λ _ : unit, True) (λ _, O)); [done|]. intros [] n _.
  apply twp_call_bind. intros r n'. cbn [answered patient interrupted].
  destruct (failed_with r EINTR); intros ->; cbn; split; lia || done.
Qed.

Lemma terminates_for_each {A} (l : list A) (f : A → prog unit) :
  (∀ a, terminates (f a)) → terminates (for_each l f).
Proof. intros H. induction l as [|a l IH]; cbn; [done|]. by apply terminates_bind. Qed.

Create HintDb terminates.
#[export] Hint Resolve terminates_ret terminates_call terminates_retry_flock terminates_for_each : terminates.
#[export] Hint Extern 1 (terminates (call _)) => apply terminates_call : terminates.

(** [terminates_auto] proves termination part by part, branch by branch. *)
Ltac terminates_auto :=
  repeat first
    [ solve [auto with terminates]
    | match goal with
      | |- terminates (_ ≫= _) => apply terminates_bind; [|intros ?]
      | |- terminates (match ?x with _ => _ end) => destruct x eqn:?
      | |- terminates (let _ := _ in _) => cbv zeta
      end ].

#[global] Arguments twp : simpl never.

(** [only_auto] proves [only] part by part, branch by branch. *)
Create HintDb only.
#[export] Hint Resolve only_ret : only.
#[export] Hint Extern 1 (only _ (call _)) => apply only_call; done : only.
Ltac only_auto :=
  repeat first
    [ solve [auto with only]
    | match goal with
      | |- only _ (Ret _) => apply only_ret
      | |- only _ (_ ≫= _) => apply only_bind; [|intros ?]
      | |- only _ (iter _ _) => apply only_iter; intros ?
      | |- only _ (retry_intr _) => apply only_retry
      | |- only _ (for_each _ _) => apply only_for_each; intros ?
      | |- only _ (match ?x with _ => _ end) => destruct x eqn:?
      | |- only _ (let _ := _ in _) => cbv zeta
      end ].
