(* ===== verification/Resources.v ===== *)
(** * Descriptors and children

    A model that watches the descriptors (and streams and directory handles) a
    program holds and the children it has not waited for.  It allows a
    descriptor to be used or closed only while it is held; [balanced p] says
    that [p] gives back whatever it takes, on every path. *)
From S2P Require Import Prelude CString Sys.

Record held := Held { h_fds : list nat; h_children : list Z }.

Fixpoint remove1 {A} `{EqDecision A} (x : A) (l : list A) : list A :=
  match l with
  | [] => []
  | y :: l' => if decide (y = x) then l' else y :: remove1 x l'
  end.

Definition take_fd (fd : nat) (w : held) : held := Held (fd :: h_fds w) (h_children w).
Definition drop_fd (fd : nat) (w : held) : held := Held (remove1 fd (h_fds w)) (h_children w).
Definition add_child (pid : Z) (w : held) : held := Held (h_fds w) (pid :: h_children w).
Definition reap_child (pid : Z) (w : held) : held := Held (h_fds w) (remove1 pid (h_children w)).

#[global] Arguments take_fd : simpl never.
#[global] Arguments drop_fd : simpl never.
#[global] Arguments add_child : simpl never.
#[global] Arguments reap_child : simpl never.

Definition res_ok (w : held) (c : syscall) : Prop :=
  match c with
  | Close fd | Read fd _ | Write fd _ | Fsync fd | Flock fd | Fstat fd | Openat fd _ _ _
  | Mkdirat fd _ _ | Unlinkat fd _ | Renameat fd _ _ _ | Fdopen fd | Fputs fd _ | Fgets fd _
  | Fread fd _ | Fflush fd | Fclose fd | Readdir fd | Closedir fd | Setns fd | Dup2 fd _ => fd ∈ h_fds w
  | Waitpid pid => pid ∈ h_children w
  | _ => True
  end.

(** [close] releases the descriptor even when it reports an error. *)
Definition res_step (w : held) (c : syscall) : ans c → held :=
  match c with
  | Open _ _ _ | Openat _ _ _ _ | Fopen _ | Opendir _ => λ r : sysret nat,
      match r with SOk fd => take_fd fd w | SErr _ => w end
  | Pipe => λ r : sysret (nat * nat),
      match r with SOk (a, b) => take_fd a (take_fd b w) | SErr _ => w end
  | Close fd | Fclose fd | Closedir fd => λ _, drop_fd fd w
  | Fork _ | Clone _ => λ r : sysret positive,
      match r with SOk pid => add_child (Zpos pid) w | SErr _ => w end
  | Waitpid pid => λ r : sysret wait_status,
      if failed_with r EINTR then w else reap_child pid w
  | _ => λ _, w
  end.
Definition resources : model held := observer res_ok res_step.

Definition balanced {A} (p : prog A) : Prop := ∀ w, wp resources p (λ _ w', w' = w) w.

Lemma remove1_head {A} `{EqDecision A} (x : A) l : remove1 x (x :: l) = l.
Proof. cbn. by rewrite decide_True. Qed.
Lemma remove1_second {A} `{EqDecision A} (x y : A) l : remove1 x (y :: x :: l) = y :: l.
Proof. cbn. destruct (decide (y = x)) as [->|]; [done|]. by rewrite decide_True. Qed.

Lemma drop_take fd w : drop_fd fd (take_fd fd w) = w.
Proof. destruct w as [f c]. unfold drop_fd, take_fd. cbn [h_fds]. by rewrite remove1_head. Qed.
Lemma drop_second a b w : drop_fd b (take_fd a (take_fd b w)) = take_fd a w.
Proof. destruct w as [f c]. unfold drop_fd, take_fd. cbn [h_fds]. by rewrite remove1_second. Qed.
Lemma reap_add pid w : reap_child pid (add_child pid w) = w.
Proof. destruct w as [f c]. unfold reap_child, add_child. cbn [h_children]. by rewrite remove1_head. Qed.
Lemma drop_add fd pid w : drop_fd fd (add_child pid w) = add_child pid (drop_fd fd w).
Proof. done. Qed.
Lemma elem_add fd pid w : fd ∈ h_fds w → fd ∈ h_fds (add_child pid w).
Proof. done. Qed.
Lemma elem_take fd w : fd ∈ h_fds (take_fd fd w).
Proof. by left. Qed.
Lemma elem_take_2 a b w : b ∈ h_fds w → b ∈ h_fds (take_fd a w).
Proof. by right. Qed.

Create Rewrite HintDb held.
#[export] Hint Rewrite drop_take drop_second drop_add reap_add : held.
Create HintDb held.
#[export] Hint Resolve elem_take elem_take_2 elem_add : held.
#[export] Hint Extern 1 (res_ok _ _) => cbn : held.

(** ** Rules *)

Lemma wp_res {A} c (f : ans c → prog A) Q w :
  res_ok w c → (∀ a, wp resources (f a) Q (res_step w c a)) → wp resources (call c ≫= f) Q w.
Proof. intros Hok H. apply wp_bind. by apply wp_observe. Qed.

Lemma wp_read {A} fd n (f : sysret cstr → prog A) Q w :
  fd ∈ h_fds w → (∀ r, wp resources (f r) Q w) → wp resources (sys_read fd n ≫= f) Q w.
Proof. intros Hfd H. apply wp_bind. unfold sys_read. apply wp_res; [done|]. intros a. apply H. Qed.
Lemma wp_write {A} fd d (f : sysret Z → prog A) Q w :
  fd ∈ h_fds w → (∀ r, wp resources (f r) Q w) → wp resources (sys_write fd d ≫= f) Q w.
Proof. intros Hfd H. apply wp_bind. unfold sys_write. apply wp_res; [done|]. intros a. apply H. Qed.

(** A balanced part of a program leaves the state as it is. *)
Lemma wp_balanced {A B} (p : prog A) (f : A → prog B) Q w :
  balanced p → (∀ a, wp resources (f a) Q w) → wp resources (p ≫= f) Q w.
Proof. intros Hp H. apply wp_bind. eapply wp_mono; [|apply Hp]. by intros a w' ->. Qed.

Lemma wp_balanced_end {A} (p : prog A) (Q : A → held → Prop) w :
  balanced p → (∀ a, Q a w) → wp resources p Q w.
Proof. intros Hp H. eapply wp_mono; [|apply Hp]. by intros a w' ->. Qed.

(** A call that neither takes nor gives back anything. *)
Definition neutral (c : syscall) : Prop := ∀ w, res_ok w c ∧ ∀ a, res_step w c a = w.
Lemma balanced_call c : neutral c → balanced (call c).
Proof. intros H w. destruct (H w). by apply wp_observe. Qed.

Lemma balanced_ret {A} (a : A) : balanced (Ret a).
Proof. done. Qed.
Lemma balanced_bind {A B} (p : prog A) (f : A → prog B) :
  balanced p → (∀ a, balanced (f a)) → balanced (p ≫= f).
Proof. intros Hp Hf w. apply wp_balanced; [done|]. intros a. apply Hf. Qed.
Lemma balanced_for_each {A} (l : list A) (f : A → prog unit) :
  (∀ a, balanced (f a)) → balanced (for_each l f).
Proof. intros H. induction l as [|a l IH]; cbn; [done|]. by apply balanced_bind. Qed.

Create HintDb balanced.
#[export] Hint Resolve balanced_ret balanced_for_each : balanced.
#[export] Hint Extern 1 (balanced (call _)) => apply balanced_call; done : balanced.

(** [held_step] makes one step of a proof about [resources]: a call, a
    balanced part, a branch, the end. *)
Ltac held_step :=
  autorewrite with held;
  match goal with
  | |- wp resources (mret _) _ _ => apply wp_ret
  | |- wp resources (Ret _) _ _ => apply wp_ret
  | |- wp resources (sys_read _ _ ≫= _) _ _ => apply wp_read; [solve [auto 6 with held]|intros ?]
  | |- wp resources (sys_write _ _ ≫= _) _ _ => apply wp_write; [solve [auto 6 with held]|intros ?]
  | |- wp resources (call ?c ≫= _) _ _ =>
      apply wp_res; [solve [auto 6 with held]|intros ?; cbn [res_step]]
  | |- wp resources (_ ≫= _) _ _ => apply wp_balanced; [solve [eauto with balanced]|intros ?]
  | |- wp resources (call ?c) _ _ => apply wp_observe; [solve [auto 6 with held]|intros ?; cbn [res_step]]
  | |- wp resources (match ?x with _ => _ end) _ _ => destruct x eqn:?
  | |- wp resources (if ?x then _ else _) _ _ => destruct x eqn:?
  | |- wp resources _ _ (match ?x with _ => _ end) => destruct x eqn:?
  end.
Ltac held_auto := repeat held_step; autorewrite with held; try done.

(** [balanced_auto] proves [balanced] of a program that takes nothing itself:
    part by part, branch by branch. *)
Ltac balanced_auto :=
  repeat first
    [ solve [auto with balanced]
    | match goal with
      | |- balanced (_ ≫= _) => apply balanced_bind; [|intros ?]
      | |- balanced (match ?x with _ => _ end) => destruct x eqn:?
      | |- balanced (let _ := _ in _) => cbv zeta
      end ].
