(* ===== verification/Equiv.v ===== *)
(** * Equivalence of programs, and models side by side

    Two programs are equivalent when no model and no handler tells them apart;
    binding respects this, so that programs can be rewritten by the laws of the
    monad.  The second half runs two models side by side, and frames a program
    that only touches descriptors of its own. *)
From S2P Require Import Prelude CString Sys Resources.
From Stdlib Require Import Lia.

(** ** Equivalence *)

#[global] Instance prog_equiv {A} : Equiv (prog A) := λ p q,
  (∀ W (M : model W) Q w, wp M p Q w ↔ wp M q Q w) ∧
  (∀ W (M : model W) Q w, twp M p Q w ↔ twp M q Q w) ∧
  ∀ W fuel (handle : W → ∀ c, ans c * W) w, run fuel handle p w = run fuel handle q w.

#[global] Instance prog_equivalence {A} : Equivalence (@equiv (prog A) _).
Proof.
  split.
  - intros p. by split_and!.
  - intros p q (H1 & H2 & H3). by split_and!; intros; symmetry.
  - intros p q r (H1 & H2 & H3) (K1 & K2 & K3). split_and!; intros.
    + by rewrite H1.
    + by rewrite H2.
    + by rewrite H3.
Qed.

(** The converse of [wp_bind]. *)
Lemma wp_unbind {W} (M : model W) {A} (p : prog A) : ∀ {B} (f : A → prog B) Q w,
  wp M (p ≫= f) Q w → wp M p (λ a, wp M (f a) Q) w.
Proof.
  change (∀ B (f : A → prog B) Q w, wp M (pbind p f) Q w → wp M p (λ a, wp M (f a) Q) w).
  induction p as [A a|A c k IH|A S C body IHb s k IHk]; intros B f Q w.
  - done.
  - intros [Hok H]. split; [done|]. intros a w' Ha. by apply IH, H.
  - intros (I & HI & H). exists I. split; [done|]. intros s' w' Hs.
    eapply wp_mono; [|by apply H]. intros [s''|b] w''; [done|]. apply IHk.
Qed.
Lemma twp_unbind {W} (M : model W) {A} (p : prog A) : ∀ {B} (f : A → prog B) Q w,
  twp M (p ≫= f) Q w → twp M p (λ a, twp M (f a) Q) w.
Proof.
  change (∀ B (f : A → prog B) Q w, twp M (pbind p f) Q w → twp M p (λ a, twp M (f a) Q) w).
  induction p as [A a|A c k IH|A S C body IHb s k IHk]; intros B f Q w.
  - done.
  - intros H a w' Ha. by apply IH, H.
  - intros (I & m & HI & H). exists I, m. split; [done|]. intros s' w' Hs.
    eapply twp_mono; [|by apply H]. intros [s''|b] w''; [done|]. apply IHk.
Qed.

Lemma loop_run_exit {W S B R R'} n (body : S → W → option ((S + B) * W)) (exit : B → W → option R)
    (exit' : B → W → option R') (g : R → option R') :
  (∀ b w, exit' b w = match exit b w with Some r => g r | None => None end) →
  ∀ s w, loop_run n body exit' s w = match loop_run n body exit s w with Some r => g r | None => None end.
Proof.
  intros He. induction n as [|n IH]; intros s w; cbn [loop_run]; [done|].
  destruct (body s w) as [[[s'|b] w']|]; [apply IH|apply He|done].
Qed.

Lemma run_bind {W A B} fuel (handle : W → ∀ c, ans c * W) (p : prog A) (f : A → prog B) : ∀ w,
  run fuel handle (p ≫= f) w =
  match run fuel handle p w with Some (a, w') => run fuel handle (f a) w' | None => None end.
Proof.
  revert B f.
  change (∀ B (f : A → prog B) w, run fuel handle (pbind p f) w =
    match run fuel handle p w with Some (a, w') => run fuel handle (f a) w' | None => None end).
  induction p as [A a|A c k IH|A S C body IHb s k IHk]; intros B f w; cbn [pbind run].
  - done.
  - destruct (handle w c). apply IH.
  - apply (loop_run_exit fuel _ _ _ (λ r, let '(a, w') := r in run fuel handle (f a) w')).
    intros b w'. rewrite IHk. by destruct (run fuel handle (k b) w') as [[]|].
Qed.

#[global] Instance bind_proper {A B} :
  Proper ((≡) ==> pointwise_relation A (≡) ==> (≡)) (λ (p : prog A) (f : A → prog B), p ≫= f).
Proof.
  intros p q (H1 & H2 & H3) f g Hfg. split_and!; intros.
  - split; intros H%wp_unbind; apply wp_bind; apply H1; (eapply wp_mono; [|exact H]); intros a w'; apply (Hfg a).
  - split; intros H%twp_unbind; apply twp_bind; apply H2; (eapply twp_mono; [|exact H]); intros a w'; apply (Hfg a).
  - rewrite !run_bind, H3. destruct (run fuel handle q w) as [[a w']|]; [|done]. apply (Hfg a).
Qed.

#[global] Instance mbind_proper {A B} :
  Proper (pointwise_relation A (≡) ==> (≡) ==> (≡)) (mbind (M := prog) (A := A) (B := B)).
Proof. intros f g Hfg p q Hpq. by apply bind_proper. Qed.

(** Rewriting at the head, and below a binder. *)
Lemma bind_head {A B} (p q : prog A) (f : A → prog B) : p ≡ q → (p ≫= f) ≡ (q ≫= f).
Proof. intros H. by apply bind_proper. Qed.
Lemma bind_below {A B} (p : prog A) (f g : A → prog B) : (∀ a, f a ≡ g a) → (p ≫= f) ≡ (p ≫= g).
Proof. intros H. by apply bind_proper. Qed.

Lemma bind_ret_l {A B} (a : A) (f : A → prog B) : (Ret a ≫= f) ≡ f a.
Proof. done. Qed.
Lemma bind_ret_r {A} (p : prog A) : (p ≫= λ a, Ret a) ≡ p.
Proof.
  split_and!; intros.
  - split; intros H.
    + apply wp_unbind in H. by eapply wp_mono; [|exact H].
    + apply wp_bind. by eapply wp_mono; [|exact H].
  - split; intros H.
    + apply twp_unbind in H. by eapply twp_mono; [|exact H].
    + apply twp_bind. by eapply twp_mono; [|exact H].
  - rewrite run_bind. by destruct (run fuel handle p w) as [[]|].
Qed.
Lemma bind_assoc {A B C} (p : prog A) (f : A → prog B) (g : B → prog C) :
  ((p ≫= f) ≫= g) ≡ (p ≫= λ a, f a ≫= g).
Proof.
  split_and!; intros.
  - split; intros H.
    + apply wp_unbind, wp_unbind in H. apply wp_bind. eapply wp_mono; [|exact H]. intros a w'. apply wp_bind.
    + apply wp_unbind in H. apply wp_bind, wp_bind. eapply wp_mono; [|exact H]. intros a w'. apply wp_unbind.
  - split; intros H.
    + apply twp_unbind, twp_unbind in H. apply twp_bind. eapply twp_mono; [|exact H]. intros a w'. apply twp_bind.
    + apply twp_unbind in H. apply twp_bind, twp_bind. eapply twp_mono; [|exact H]. intros a w'. apply twp_unbind.
  - rewrite !run_bind. destruct (run fuel handle p w) as [[a w']|]; [|done]. by rewrite run_bind.
Qed.

(** ** Models side by side *)

(** Both models watch. *)
Definition beside {W V} (M : model W) (N : model V) : model (W * V) :=
  Model (λ x c, allowed M x.1 c ∧ allowed N x.2 c) (λ x c a y, answered M x.1 c a y.1 ∧ answered N x.2 c a y.2).

Lemma wp_beside {W V} (M : model W) (N : model V) {A} (p : prog A) : ∀ P Q w v,
  wp M p P w → wp N p Q v → wp (beside M N) p (λ a x, P a x.1 ∧ Q a x.2) (w, v).
Proof.
  induction p as [A a|A c k IH|A S B body IHb s k IHk]; intros P Q w v.
  - by split.
  - intros [Hc H] [Hd G]. split; [by split|]. intros a [w' v'] [Ha Hb]. apply IH; [by apply H|by apply G].
  - intros (I & HI & H) (J & HJ & G). exists (λ s x, I s x.1 ∧ J s x.2). split; [by split|].
    intros s' [w' v'] [Hs Ht]. eapply wp_mono; [|apply IHb; [by apply H|by apply G]].
    cbv beta. intros [s''|b] [w'' v''] [H1 H2]; [by split|]. by apply IHk.
Qed.

(** A model that allows and sees no more than another, up to [R]. *)
Lemma wp_transfer {W V} (M : model W) (N : model V) (R : W → V → Prop) :
  (∀ w v c, R w v → allowed M w c → allowed N v c) →
  (∀ w v c a v', R w v → allowed M w c → answered N v c a v' → ∃ w', answered M w c a w' ∧ R w' v') →
  ∀ {A} (p : prog A) Q w v, R w v → wp M p Q w → wp N p (λ a v', ∃ w', R w' v' ∧ Q a w') v.
Proof.
  intros Hok Hst A p. induction p as [A a|A c k IH|A S B body IHb s k IHk]; intros Q w v HR.
  - by exists w.
  - intros [Hc H]. split; [by eapply Hok|]. intros a v' Ha. destruct (Hst _ _ _ _ _ HR Hc Ha) as (w' & Hw & HR').
    eapply IH; [exact HR'|by apply H].
  - intros (I & HI & H). exists (λ s v, ∃ w, R w v ∧ I s w). split; [by exists w|]. intros s' v' (w' & HR' & Hs).
    eapply wp_mono; [|eapply IHb; [exact HR'|by apply H]]. cbv beta. intros [s''|b] v'' (w'' & HR'' & Hr); [by exists w''|].
    by eapply IHk.
Qed.

(** What is known of the result in any model. *)
Definition returns {A} (p : prog A) (P : A → Prop) : Prop := wp (free (λ (_ : unit) _ _, tt)) p (λ a _, P a) tt.

Lemma wp_returns {W} (M : model W) {A} (p : prog A) (P : A → Prop) Q w :
  returns p P → wp M p Q w → wp M p (λ a w', P a ∧ Q a w') w.
Proof.
  intros HP HQ. pose proof (wp_beside M _ p _ _ w tt HQ HP) as H.
  eapply wp_mono; [|eapply (wp_transfer _ M (λ x w, x = (w, tt))); [| |reflexivity|exact H]].
  - cbv beta. intros a w' (x & -> & H1 & H2). by split.
  - by intros x w' c -> [Hc _].
  - intros x w' c a w'' -> _ Ha. by exists (w'', tt).
Qed.
Lemma free_any {W} (step : W → ∀ c, ans c → W) {A} (p : prog A) : ∀ w, wp (free step) p (λ _ _, True) w.
Proof.
  induction p as [A a|A c k IH|A S B body IHb s k IHk]; intros w; [done| |].
  - split; [done|]. intros a w' _. apply IH.
  - exists (λ _ _, True). split; [done|]. intros s' w' _. eapply wp_mono; [|apply IHb]. intros [s''|b] w'' _; [done|]. apply IHk.
Qed.
Lemma returns_any {A} (p : prog A) : returns p (λ _, True).
Proof. apply free_any. Qed.
