(* ===== verification/Process.v ===== *)
(** * core/process.c: running external commands

    [td_run_command] and [td_capture_command] with their waiting and reading
    loops.  A child made by [fork] runs [child_prog]. *)
From S2P Require Import Prelude CString Sys Resources.
From Stdlib Require Import Lia.

(** The code of a child between [fork] and its last call. *)
Definition exec_child (argv : list cstr) : prog unit :=
  _ ← call (Execvp argv);
  call (Exit 127).
Definition capture_child (argv : list cstr) (read_end write_end : nat) : prog unit :=
  _ ← call (Close read_end);
  d ← call (Dup2 write_end 1);
  if s_ok d then
    _ ← call (Close write_end);
    exec_child argv
  else call (Exit 126).

Definition wait_for_child (child : positive) : prog Z :=
  r ← retry_intr (call (Waitpid (Zpos child)));
  Ret (match r with
       | SOk (Exited status) => status
       | SOk (Signaled _) | SErr _ => -1
       end).

Definition td_run_command (arguments : list cstr) : prog Z :=
  match arguments with
  | [] | [] :: _ => Ret (-1)
  | _ =>
      r ← call (Fork (ChildExec arguments));
      match r with
      | SErr _ => Ret (-1)
      | SOk child => wait_for_child child
      end
  end.

Definition INITIAL_CAPACITY : Z := 4096.
Definition MAX_CAPTURE_SIZE : Z := 1024 * 1024.
Definition SIGTERM : Z := 15.
Definition SIGKILL : Z := 9.

(** The part of a turn that makes room: the new capacity, or [None] after the
    child is disposed of. *)
Definition capture_grow (fd : nat) (child : positive) (used capacity : Z) : prog (option Z) :=
  if used + 1 =? capacity then
    let new_capacity := capacity * 2 in
    room ← (if MAX_CAPTURE_SIZE <? new_capacity then Ret false else call (Malloc new_capacity));
    if room : bool then Ret (Some new_capacity)
    else
      _ ← call (Close fd);
      _ ← call (Kill (Zpos child) SIGTERM);
      _ ← wait_for_child child;
      Ret None
  else Ret (Some capacity).

(** One turn of the reading loop; the loop leaves with the output, or with
    [None] after the descriptor is closed and the child waited for. *)
Definition capture_turn (fd : nat) (child : positive) (st : cstr * Z)
    : prog ((cstr * Z) + option cstr) :=
  let '(buffer, capacity) := st in
  grown ← capture_grow fd child (strlen buffer) capacity;
  match grown with
  | None => Ret (inr None)
  | Some capacity' =>
      count ← sys_read fd (capacity' - strlen buffer - 1);
      match count with
      | SErr e =>
          if e =? EINTR then Ret (inl (buffer, capacity'))
          else
            _ ← call (Close fd);
            _ ← wait_for_child child;
            Ret (inr None)
      | SOk data =>
          if nonempty data then Ret (inl (buffer ++ data, capacity'))
          else Ret (inr (Some buffer))
      end
  end.

(** The return value and [*output]. *)
Definition td_capture_command (arguments : list cstr) : prog (Z * option cstr) :=
  match arguments with
  | [] => Ret (-1, None)
  | _ =>
      descriptors ← call Pipe;
      match descriptors with
      | SErr _ => Ret (-1, None)
      | SOk (read_end, write_end) =>
          forked ← call (Fork (ChildCapture arguments read_end write_end));
          match forked with
          | SErr _ =>
              _ ← call (Close read_end);
              _ ← call (Close write_end);
              Ret (-1, None)
          | SOk child =>
              _ ← call (Close write_end);
              buffer ← call (Malloc INITIAL_CAPACITY);
              if buffer : bool then
                captured ← iter (capture_turn read_end child) ([], INITIAL_CAPACITY);
                match captured with
                | None => Ret (-1, None)
                | Some output =>
                    _ ← call (Close read_end);
                    command_result ← wait_for_child child;
                    Ret (command_result, Some output)
                end
              else
                _ ← call (Close read_end);
                _ ← call (Kill (Zpos child) SIGTERM);
                _ ← wait_for_child child;
                Ret (-1, None)
          end
      end
  end.

(** What a child runs; the container's children have their own files. *)
Definition child_prog (c : child) : option (prog unit) :=
  match c with
  | ChildExec argv => Some (exec_child argv)
  | ChildCapture argv r w => Some (capture_child argv r w)
  | ChildContainer | ChildWorker _ _ _ _ _ | ChildCommand _ _ => None
  end.

(** ** Descriptors and children *)

Lemma wp_wait {A} child (f : Z → prog A) Q w :
  (∀ v, wp resources (f v) Q w) →
  wp resources (wait_for_child child ≫= f) Q (add_child (Zpos child) w).
Proof.
  intros H. apply wp_bind. unfold wait_for_child. apply wp_bind.
  apply (wp_retry resources (λ w', w' = add_child (Zpos child) w)); [done|].
  intros w' ->. apply wp_observe; [by left|]. intros a. cbn [res_step].
  destruct (failed_with a EINTR); [done|]. rewrite reap_add. apply wp_ret, H.
Qed.

Lemma wp_wait_end child (Q : Z → held → Prop) w :
  (∀ v, Q v w) → wp resources (wait_for_child child) Q (add_child (Zpos child) w).
Proof.
  intros H. unfold wait_for_child. apply wp_bind.
  apply (wp_retry resources (λ w', w' = add_child (Zpos child) w)); [done|].
  intros w' ->. apply wp_observe; [by left|]. intros a. cbn [res_step].
  destruct (failed_with a EINTR); [done|]. rewrite reap_add. apply wp_ret, H.
Qed.

Lemma balanced_run_command argv : balanced (td_run_command argv).
Proof.
  intros w. unfold td_run_command. destruct argv as [|[|c s] l]; [done|done|].
  held_step. held_step; [|done]. by apply wp_wait_end.
Qed.
#[export] Hint Resolve balanced_run_command : balanced.

Lemma balanced_malloc n : balanced (call (Malloc n)).
Proof. apply balanced_call. done. Qed.
#[export] Hint Resolve balanced_malloc : balanced.

Lemma capture_grow_balanced fd child used capacity w :
  wp resources (capture_grow fd child used capacity)
    (λ r w', w' = if is_Some_dec r then add_child (Zpos child) (take_fd fd w) else w)
    (add_child (Zpos child) (take_fd fd w)).
Proof.
  unfold capture_grow. cbv zeta. held_step; [|by apply wp_ret].
  apply wp_balanced; [destruct (_ <? _); auto with balanced|]. intros [|]; [by apply wp_ret|].
  held_step. held_step. autorewrite with held. apply wp_wait. intros v. by apply wp_ret.
Qed.

Lemma capture_turn_balanced fd child st w :
  wp resources (capture_turn fd child st)
    (λ r w', w' = match r with inr None => w | _ => add_child (Zpos child) (take_fd fd w) end)
    (add_child (Zpos child) (take_fd fd w)).
Proof.
  unfold capture_turn. destruct st as [buffer capacity]. apply wp_bind.
  eapply wp_mono; [|apply capture_grow_balanced]. intros [capacity'|] w' ->; cbn [is_Some_dec].
  2:{ by apply wp_ret. }
  held_step. held_step; held_step; [by apply wp_ret|by apply wp_ret|by apply wp_ret|].
  held_step. autorewrite with held. apply wp_wait. intros v. by apply wp_ret.
Qed.

Lemma balanced_capture_command argv : balanced (td_capture_command argv).
Proof.
  intros w. unfold td_capture_command. destruct argv as [|a l]; [done|].
  held_step. held_step; [|done]. destruct a1 as [r wr]. held_step. held_step.
  2:{ held_step. held_step. by autorewrite with held. }
  match goal with H : _ = SOk ?c |- _ => rename c into child end.
  held_step. autorewrite with held. held_step. held_step.
  - apply wp_bind. apply (wp_iter resources (λ _ w', w' = add_child (Zpos child) (take_fd r w))); [done|].
    intros st w' ->. eapply wp_mono; [|apply capture_turn_balanced].
    intros [s|[o|]] w' ->; [done| |done].
    held_step. autorewrite with held. apply wp_wait. intros v. by apply wp_ret.
  - held_step. autorewrite with held. held_step. apply wp_wait. intros v. by apply wp_ret.
Qed.
#[export] Hint Resolve balanced_capture_command : balanced.

(** ** What is captured *)

(** The bytes delivered by [read], and whether the end of file was seen. *)
Definition delivered_step (w : cstr * bool) (c : syscall) : ans c → cstr * bool :=
  match c with
  | Read _ count => λ r : sysret cstr,
      match r with
      | SErr _ => w
      | SOk data =>
          let d := take (Z.to_nat count) data in
          if nonempty d then (w.1 ++ d, w.2) else (w.1, true)
      end
  | _ => λ _, w
  end.
(** Under any rule on the calls that leaves everything but running commands
    alone. *)
Section Delivered.
Context (ok : cstr * bool → syscall → Prop).
Hypothesis ok_other : ∀ w c, (∀ argv, c ≠ Fork (ChildExec argv)) → ok w c.

Definition delivered : model (cstr * bool) := observer ok delivered_step.
Definition silent {A} (p : prog A) : Prop := ∀ w, wp delivered p (λ _ w', w' = w) w.

Lemma wp_delivered {A} c (f : ans c → prog A) Q w :
  (∀ argv, c ≠ Fork (ChildExec argv)) →
  (∀ a, wp delivered (f a) Q (delivered_step w c a)) → wp delivered (call c ≫= f) Q w.
Proof using ok_other. intros Hc H. apply wp_bind. apply wp_observe; [by apply ok_other|done]. Qed.

Lemma silent_bind {A B} (p : prog A) (f : A → prog B) Q w :
  silent p → (∀ a, wp delivered (f a) Q w) → wp delivered (p ≫= f) Q w.
Proof using ok_other. intros Hp H. apply wp_bind. eapply wp_mono; [|apply Hp]. by intros a w' ->. Qed.

Lemma silent_wait child : silent (wait_for_child child).
Proof using ok_other.
  intros w. unfold wait_for_child. apply wp_bind.
  apply (wp_retry delivered (λ w', w' = w)); [done|].
  intros w' ->. apply wp_observe; [by apply ok_other|]. intros a. cbn [delivered_step].
  by destruct (failed_with a EINTR).
Qed.

Lemma silent_grow fd child used capacity w :
  wp delivered (capture_grow fd child used capacity)
    (λ r w', w' = w ∧ match r with
       | Some capacity' => capacity' = capacity ∧ used + 1 ≠ capacity ∨
           capacity' = 2 * capacity ∧ used + 1 = capacity ∧ capacity' ≤ MAX_CAPTURE_SIZE
       | None => True end) w.
Proof using ok_other.
  unfold capture_grow. destruct (Z.eqb_spec (used + 1) capacity) as [E|E].
  2:{ apply wp_ret. auto. }
  cbv zeta. apply wp_bind.
  assert (G : wp delivered (if MAX_CAPTURE_SIZE <? capacity * 2 then Ret false else call (Malloc (capacity * 2)))
    (λ (b : bool) w', w' = w ∧ (b = true → capacity * 2 ≤ MAX_CAPTURE_SIZE)) w).
  { case Z.ltb_spec; intros; [by apply wp_ret|]. by apply wp_observe; [apply ok_other|]. }
  eapply wp_mono; [|exact G]. intros [|] w' [-> Hle].
  - apply wp_ret. split; [done|]. right. specialize (Hle eq_refl). lia.
  - apply wp_delivered; [done|]; intros ?. apply wp_delivered; [done|]; intros ?. cbn [delivered_step].
    apply silent_bind; [apply silent_wait|]. intros v. by apply wp_ret.
Qed.

Definition capture_inv (st : cstr * Z) (w : cstr * bool) : Prop :=
  w = (st.1, false) ∧ strlen st.1 + 1 ≤ st.2 ≤ MAX_CAPTURE_SIZE.

Lemma capture_turn_delivered fd child st w :
  capture_inv st w →
  wp delivered (capture_turn fd child st)
    (λ r w', match r with
       | inl st' => capture_inv st' w'
       | inr (Some o) => w' = (o, true) ∧ strlen o < MAX_CAPTURE_SIZE
       | inr None => True end) w.
Proof using ok_other.
  destruct st as [buffer capacity]. intros [-> Hc]. cbn [fst snd] in Hc. unfold capture_turn.
  apply wp_bind. eapply wp_mono; [|apply silent_grow].
  intros [capacity'|] w' [-> Hgrow]; [|by apply wp_ret].
  apply wp_bind. unfold sys_read. apply wp_delivered; [done|]. intros [data|e]; cbn [delivered_step].
  - set (d := take _ data). apply wp_ret. destruct d eqn:E; cbn [nonempty]; apply wp_ret.
    + split; [done|]. lia.
    + assert (Hd : strlen d ≤ capacity' - strlen buffer - 1).
      { unfold strlen, d. rewrite length_take. unfold strlen in *. lia. }
      rewrite <-E. split; [done|]. cbn [fst snd]. rewrite strlen_app.
      pose proof (strlen_nonneg buffer). lia.
  - apply wp_ret. destruct (e =? EINTR); [apply wp_ret|].
    + split; [done|]. cbn [fst snd]. pose proof (strlen_nonneg buffer). lia.
    + apply wp_delivered; [done|]; intros ?. apply silent_bind; [apply silent_wait|]. done.
Qed.

Lemma capture_output argv :
  wp delivered (td_capture_command argv)
    (λ r w, match r with
       | (_, Some output) => w = (output, true) ∧ strlen output < MAX_CAPTURE_SIZE
       | (code, None) => code = -1
       end) ([], false).
Proof using ok_other.
  unfold td_capture_command. destruct argv as [|a l]; [by apply wp_ret|].
  apply wp_delivered; [done|]. intros [[r wr]|e]; [|by apply wp_ret]. cbn [delivered_step].
  apply wp_delivered; [done|]. intros [child|e]; cbn [delivered_step].
  2:{ apply wp_delivered; [done|]; intros ?. apply wp_delivered; [done|]; intros ?. done. }
  apply wp_delivered; [done|]; intros ?. apply wp_delivered; [done|]; intros [|]; cbn [delivered_step].
  - apply wp_bind. apply (wp_iter delivered capture_inv).
    { split; [done|]. vm_compute. split; discriminate. }
    intros st w HI. eapply wp_mono; [|by apply capture_turn_delivered].
    intros [st'|[o|]] w'; [done| |done]. intros [-> Ho].
    apply wp_delivered; [done|]; intros ?. cbn [delivered_step].
    apply silent_bind; [apply silent_wait|]. intros v. by apply wp_ret.
  - apply wp_delivered; [done|]; intros ?. apply wp_delivered; [done|]; intros ?.
    apply silent_bind; [apply silent_wait|]. intros v. by apply wp_ret.
Qed.
End Delivered.

(** C37: when the output of a command is returned it is every byte the pipe
    delivered, in order, up to its end, and less than one megabyte of it; on
    every failure no output is returned and the result is -1. *)
Theorem td_capture_command_output argv :
  wp (free delivered_step) (td_capture_command argv)
    (λ r w, match r with
       | (_, Some output) => w = (output, true) ∧ strlen output < MAX_CAPTURE_SIZE
       | (code, None) => code = -1
       end) ([], false).
Proof. by apply (capture_output (λ _ _, True)). Qed.


(** ** Termination *)

Lemma terminates_wait child : terminates (wait_for_child child).
Proof.
  apply terminates_bind; [|intros a; apply terminates_ret].
  apply (terminates_iter (λ _ : unit, True) (λ _, O)); [done|]. intros [] n _.
  apply twp_call_bind. intros r n'. cbn [answered patient interrupted].
  destruct (failed_with r EINTR); intros ->; cbn; split; lia || done.
Qed.

Lemma terminates_run_command argv : terminates (td_run_command argv).
Proof.
  unfold td_run_command. destruct argv as [|[|c s] l]; [done|done|].
  apply terminates_bind; [done|]. intros [child|e]; [apply terminates_wait|done].
Qed.

#[export] Hint Resolve terminates_wait terminates_run_command : terminates.

Lemma capture_grow_twp fd child used capacity n :
  used + 1 ≤ capacity ≤ MAX_CAPTURE_SIZE → 0 ≤ used →
  twp patient (capture_grow fd child used capacity)
    (λ r n', match r with
       | Some capacity' => n' = n ∧ used + 1 < capacity' ≤ MAX_CAPTURE_SIZE
       | None => True end) n.
Proof.
  intros Hc Hu. unfold capture_grow. destruct (Z.eqb_spec (used + 1) capacity) as [E|E].
  2:{ split; [done|]. lia. }
  cbv zeta. apply twp_bind. case Z.ltb_spec; intros Hm.
  - apply twp_call_bind; intros. apply twp_call_bind; intros.
    by apply twp_weaken; [apply terminates_wait|].
  - intros [|] n' ->.
    + split; [done|]. lia.
    + apply twp_call_bind; intros. apply twp_call_bind; intros.
      by apply twp_weaken; [apply terminates_wait|].
Qed.

Lemma capture_turn_twp fd child st n :
  strlen st.1 + 1 ≤ st.2 ≤ MAX_CAPTURE_SIZE →
  twp patient (capture_turn fd child st) (λ r n', match r with
    | inl st' => strlen st'.1 + 1 ≤ st'.2 ≤ MAX_CAPTURE_SIZE ∧
        (Z.to_nat (MAX_CAPTURE_SIZE - strlen st'.1) + n' < Z.to_nat (MAX_CAPTURE_SIZE - strlen st.1) + n)%nat
    | inr _ => True end) n.
Proof.
  destruct st as [buffer capacity]. cbn [fst snd]. intros Hc. pose proof (strlen_nonneg buffer).
  unfold capture_turn. apply twp_bind. eapply twp_mono; [|by apply capture_grow_twp].
  intros [capacity'|] n'; [|done]. intros [-> Hgrow]. apply twp_bind. unfold sys_read.
  apply twp_call_bind. intros r n'. cbn [answered patient interrupted].
  destruct r as [data|e]; cbn [failed_with].
  - intros ->. unfold twp at 1. set (d := take _ data). destruct d eqn:Ed; cbn [nonempty]; [done|].
    assert (Hd : strlen d ≤ capacity' - strlen buffer - 1).
    { unfold strlen, d. rewrite length_take. unfold strlen in *. lia. }
    assert (0 < strlen d) by (rewrite Ed, strlen_cons; pose proof (strlen_nonneg l); lia).
    rewrite <-Ed. unfold twp. cbn [fst snd]. rewrite strlen_app. lia.
  - unfold twp at 1. destruct (e =? EINTR); intros ->.
    + unfold twp. cbn [fst snd]. lia.
    + apply twp_call_bind; intros. by apply twp_weaken; [apply terminates_wait|].
Qed.

(** Capturing a command ends, with a result, under every kernel that
    interrupts it finitely often: the reading loop is bounded by the limit on
    the output, whatever the command prints. *)
Theorem td_capture_command_terminates argv : terminates (td_capture_command argv).
Proof.
  unfold td_capture_command. destruct argv as [|a l]; [done|].
  apply terminates_bind; [done|]. intros [[r wr]|e]; [|done].
  apply terminates_bind; [done|]. intros [child|e]; [|done].
  apply terminates_bind; [done|]. intros _. apply terminates_bind; [done|]. intros [|].
  - apply terminates_bind.
    + apply (terminates_iter (λ st, strlen st.1 + 1 ≤ st.2 ≤ MAX_CAPTURE_SIZE)
        (λ st, Z.to_nat (MAX_CAPTURE_SIZE - strlen st.1))).
      { vm_compute. split; discriminate. }
      intros st n HI. by apply capture_turn_twp.
    + intros [o|]; [|done]. apply terminates_bind; [done|]. intros _.
      apply terminates_bind; [apply terminates_wait|done].
  - do 2 (apply terminates_bind; [done|]; intros _). apply terminates_bind; [apply terminates_wait|done].
Qed.

(** Running or capturing a command leaves no descriptor open and no child
    unwaited for, on every path, and closes no descriptor it does not hold. *)
Theorem commands_balanced argv : balanced (td_run_command argv) ∧ balanced (td_capture_command argv).
Proof. split; [apply balanced_run_command|apply balanced_capture_command]. Qed.
