(* ===== verification/Fs.v ===== *)
(** * core/fs.c and util/utils.c: trees, directories and archives *)
From S2P Require Import Prelude CString Paths Safety Sys Resources Equiv Process.
From Stdlib Require Import Lia.

Definition S_IRWXU : Z := 448.

(** ** core/fs.c *)

(** [nftw] calls [remove] on every entry, children first, without following
    symbolic links. *)
Definition td_remove_tree (path : option cstr) : prog Z :=
  match path with
  | None => Ret (-1)
  | Some path =>
      if negb (nonempty path) || bool_decide (path = lit "/") then Ret (-1)
      else
        status ← call (Lstat path);
        match status with
        | SErr e => Ret (if e =? ENOENT then 0 else -1)
        | SOk _ => call (Nftw path)
        end
  end.

Definition directory_flags : list oflag := [O_RDONLY; O_DIRECTORY; O_CLOEXEC; O_NOFOLLOW].

(** The loop over the components, with the descriptor of the directory
    reached. *)
Fixpoint ensure_components (directory_fd : nat) (rest : list cstr) : prog Z :=
  match rest with
  | [] => _ ← call (Close directory_fd); Ret 0
  | component :: rest' =>
      made ← call (Mkdirat directory_fd component S_IRWXU);
      if negb (s_ok made) && negb (failed_with made EEXIST) then
        _ ← call (Close directory_fd); Ret (-1)
      else
        next ← call (Openat directory_fd component directory_flags 0);
        match next with
        | SErr _ => _ ← call (Close directory_fd); Ret (-1)
        | SOk next_fd =>
            _ ← call (Close directory_fd);
            ensure_components next_fd rest'
        end
  end.

(** [Some output] for 0. *)
Definition td_ensure_directory_beneath (rootfs container_path : option cstr) (output_size : Z)
    : prog (option cstr) :=
  match td_join_rootfs_path rootfs container_path output_size with
  | Err _ => Ret None
  | Ok output =>
      let root := default [] rootfs in
      let path := default [] container_path in
      directory ← call (Open root directory_flags 0);
      match directory with
      | SErr _ => Ret None
      | SOk directory_fd =>
          copied ← call (Malloc (strlen path));
          if copied : bool then
            result ← ensure_components directory_fd (strtok ["/"%char] (tail path));
            Ret (if result =? 0 then Some output else None)
          else _ ← call (Close directory_fd); Ret None
      end
  end.

(** ** util/utils.c *)

Definition path_exist (path : cstr) : prog bool := call (Access path).
Definition remove_dir (path : cstr) : prog Z := td_remove_tree (Some path).

(** The loop of [make_path]: [before] is the part of the path that is passed. *)
Fixpoint make_prefixes (before rest : cstr) : prog bool :=
  match rest with
  | [] => Ret true
  | c :: rest' =>
      if is_slash c then
        e ← path_exist before;
        if e : bool then make_prefixes (before ++ [c]) rest'
        else
          made ← call (Mkdir before S_IRWXU);
          if s_ok made then make_prefixes (before ++ [c]) rest' else Ret false
      else make_prefixes (before ++ [c]) rest'
  end.

Definition make_path (dir : cstr) : prog Z :=
  if negb (nonempty dir) || truncated dir 256 then Ret (-1)
  else
    let tmp := if ends_with_slash dir then removelast dir else dir in
    ok ← make_prefixes (take 1 tmp) (drop 1 tmp);
    if ok : bool then
      e ← path_exist tmp;
      if e : bool then Ret 0
      else made ← call (Mkdir tmp S_IRWXU); Ret (if s_ok made then 0 else -1)
    else Ret (-1).

Definition is_folder (path : cstr) : prog bool :=
  st ← call (Stat path);
  Ret (match st with SOk s => bool_decide (fs_kind s = Directory) | SErr _ => false end).

Definition create_tar (dir tar_path : cstr) : prog Z :=
  td_run_command [lit "tar"; lit "-czf"; tar_path; lit "-C"; dir; lit "."].

Definition list_arguments (tar_file : cstr) : list cstr := [lit "tar"; lit "-tf"; tar_file].
Definition extract_arguments (tar_file extract_dir : cstr) : list cstr :=
  [lit "tar"; lit "-xf"; tar_file; lit "-C"; extract_dir; lit "--no-same-owner";
   lit "--no-same-permissions"].

(** [listing] as a C string, by lines. *)
Definition archive_entries (listing : cstr) : list cstr := strtok [LF] (until_nul listing).

Definition extract_tar (tar_file extract_dir : cstr) : prog Z :=
  '(code, listing) ← td_capture_command (list_arguments tar_file);
  match listing with
  | Some listing =>
      if negb (code =? 0)
         || existsb (λ entry, td_archive_entry_is_safe (Some entry) =? 0) (archive_entries listing)
      then Ret (-1)
      else td_run_command (extract_arguments tar_file extract_dir)
  | None => Ret (-1)
  end.

(** [split_string]: the slots it allocates and the words it stores. *)
Definition is_space_byte (c : ascii) : bool := bool_decide (c = SP).
Definition split_string_slots (input : cstr) : Z :=
  let spaces := Z.of_nat (length (List.filter is_space_byte input)) in
  let trailing :=
    match last input with Some c => negb (is_space_byte c) | None => true end in
  spaces + (if trailing then 1 else 0) + 1.
Definition split_string (input : cstr) : list cstr := strtok [SP] input.

(** ** Lemmas *)

Lemma strtok_slash p : strtok ["/"%char] p = components p.
Proof.
  unfold strtok, components. f_equal. induction p as [|c p IH]; cbn [split_on]; [done|].
  rewrite IH. replace (is_delim ["/"%char] c) with (is_slash c); [done|].
  apply bool_decide_ext. by rewrite list_elem_of_singleton.
Qed.

Lemma balanced_path_exist p : balanced (path_exist p).
Proof. apply balanced_call. done. Qed.
Lemma balanced_remove_tree p : balanced (td_remove_tree p).
Proof. unfold td_remove_tree. balanced_auto. Qed.
Lemma balanced_remove_dir p : balanced (remove_dir p).
Proof. apply balanced_remove_tree. Qed.
#[export] Hint Resolve balanced_path_exist balanced_remove_tree balanced_remove_dir : balanced.

Lemma balanced_ensure_components comps fd w :
  wp resources (ensure_components fd comps) (λ _ w', w' = w) (take_fd fd w).
Proof.
  revert fd. induction comps as [|c comps IH]; intros fd; cbn [ensure_components].
  - held_step. by autorewrite with held.
  - held_step. held_step.
    + held_step. by autorewrite with held.
    + held_step. held_step; held_step; autorewrite with held; [apply IH|done].
Qed.

Lemma balanced_ensure_directory root path size : balanced (td_ensure_directory_beneath root path size).
Proof.
  intros w. unfold td_ensure_directory_beneath. destruct (td_join_rootfs_path _ _ _); [|done]. cbv zeta.
  held_step. held_step; [|done]. held_step. held_step.
  - apply wp_bind. eapply wp_mono; [|apply balanced_ensure_components]. by intros r w' ->.
  - held_step. by autorewrite with held.
Qed.
#[export] Hint Resolve balanced_ensure_directory : balanced.

Lemma balanced_make_prefixes rest before : balanced (make_prefixes before rest).
Proof.
  revert before. induction rest as [|c rest IH]; intros before; cbn [make_prefixes]; [auto with balanced|].
  balanced_auto.
Qed.
Lemma balanced_make_path dir : balanced (make_path dir).
Proof. pose proof balanced_make_prefixes. unfold make_path. balanced_auto. Qed.
#[export] Hint Resolve balanced_make_path : balanced.

(** ** The walk below a root *)

(** Where each directory descriptor is, below the root; the newest first. *)
Definition place : Type := list (nat * list cstr).
Fixpoint where_is (fd : nat) (w : place) : option (list cstr) :=
  match w with
  | [] => None
  | (x, l) :: w' => if decide (x = fd) then Some l else where_is fd w'
  end.

Definition plain (name : cstr) : Prop :=
  name ≠ [] ∧ Forall (λ c, is_slash c = false) name ∧ is_dots name = false.

(** Directories are made and entered one plain component at a time, from a
    directory that was itself opened without following a symbolic link. *)
Definition walk_ok (root : cstr) (w : place) (c : syscall) : Prop :=
  match c with
  | Open path flags _ => path = root ∧ O_NOFOLLOW ∈ flags ∧ O_DIRECTORY ∈ flags
  | Mkdirat fd name _ => is_Some (where_is fd w) ∧ plain name
  | Openat fd name flags _ =>
      is_Some (where_is fd w) ∧ plain name ∧ O_NOFOLLOW ∈ flags ∧ O_DIRECTORY ∈ flags
  | Close _ | Malloc _ => True
  | _ => False
  end.
Definition walk_step (w : place) (c : syscall) : ans c → place :=
  match c with
  | Open _ _ _ => λ r : sysret nat, match r with SOk fd => (fd, []) :: w | SErr _ => w end
  | Openat fd name _ _ => λ r : sysret nat,
      match r with
      | SOk next => (next, default [] (where_is fd w) ++ [name]) :: w
      | SErr _ => w
      end
  | _ => λ _, w
  end.
Definition walk (root : cstr) : model place := observer (walk_ok root) walk_step.

Lemma where_head fd l w : where_is fd ((fd, l) :: w) = Some l.
Proof. cbn. by rewrite decide_True. Qed.

Lemma wp_walk {A} root c (f : ans c → prog A) Q w :
  walk_ok root w c → (∀ a, wp (walk root) (f a) Q (walk_step w c a)) →
  wp (walk root) (call c ≫= f) Q w.
Proof. intros Hok H. apply wp_bind. by apply wp_observe. Qed.

Lemma ensure_components_walk root comps : ∀ fd at_ w,
  where_is fd w = Some at_ → head w = Some (fd, at_) → Forall plain comps →
  wp (walk root) (ensure_components fd comps)
    (λ r w', r = 0 → ∃ last, head w' = Some (last, at_ ++ comps)) w.
Proof.
  induction comps as [|c comps IH]; intros fd here w Hfd Hh Hc; cbn [ensure_components].
  { apply wp_walk; [done|]. intros ?; cbn [walk_step]. apply wp_ret. intros _. exists fd. by rewrite app_nil_r. }
  apply Forall_cons in Hc as [Hc Hcs].
  apply wp_walk; [by split|]. intros made. cbn [walk_step]. destruct (_ && _).
  { apply wp_walk; [done|]. intros ?; cbn [walk_step]. by apply wp_ret. }
  apply wp_walk; [split_and!; [done|done|set_solver|set_solver]|].
  intros [next|e]; cbn [walk_step].
  2:{ apply wp_walk; [done|]. intros ?; cbn [walk_step]. by apply wp_ret. }
  apply wp_walk; [done|]. intros ?; cbn [walk_step]. cbn [walk_step]. rewrite Hfd. cbn [default].
  eapply wp_mono; [|apply (IH next (here ++ [c])); [apply where_head|done|done]].
  cbn. intros r w' H Hr. destruct (H Hr) as (l & Hl). exists l. by rewrite Hl, <-app_assoc.
Qed.

(** C26: a mount point is made below the root file system one component at a
    time, each a plain name created and entered relative to the directory
    before it and never through a symbolic link; on success the last directory
    entered is the one the returned path names, and it lies beneath the root. *)
Theorem td_ensure_directory_beneath_walk root path size :
  wp (walk root) (td_ensure_directory_beneath (Some root) (Some path) size)
    (λ r w, ∀ output, r = Some output →
       (∃ fd, head w = Some (fd, components path)) ∧
       resolve output = resolve root ++ components path) [].
Proof.
  unfold td_ensure_directory_beneath.
  destruct (td_join_rootfs_path (Some root) (Some path) size) as [output|] eqn:E; [|by apply wp_ret].
  apply td_join_rootfs_path_Ok in E as (_ & _ & Hp & _ & Hd & _ & ->). cbv zeta.
  change (default [] (Some path)) with path. change (default [] (Some root)) with root.
  apply wp_walk; [split_and!; [done|set_solver|set_solver]|].
  intros [fd|e]; cbn [walk_step]; [|by apply wp_ret].
  apply wp_walk; [done|]. intros [|]; cbn [walk_step].
  2:{ apply wp_walk; [done|]. intros ?; cbn [walk_step]. by apply wp_ret. }
  assert (Et : strtok ["/"%char] (tail path) = components path).
  { apply starts_with_slash_true in Hp as (p & ->). cbn [tail]. by rewrite strtok_slash, components_slash. }
  rewrite Et. apply wp_bind.
  eapply wp_mono; [|apply (ensure_components_walk root _ fd []); [apply where_head|done|]].
  - cbn. intros r w H out Hr. destruct (Z.eqb_spec r 0) as [->|]; [|done].
    injection Hr as <-. destruct (H eq_refl) as (l & Hl). split; [by exists l|].
    unfold resolve. rewrite components_join by done. by rewrite resolve_from_app, resolve_from_no_dots.
  - pose proof (components_no_slash path) as Hn. rewrite !Forall_forall in *. unfold no_dots in Hd.
    rewrite Forall_forall in Hd. intros c Hc. destruct (Hn c Hc). split_and!; auto.
Qed.

(** ** Archives *)

Definition archive_safe (listing : cstr) : Prop :=
  Forall (λ entry, td_archive_entry_is_safe (Some entry) = 1) (archive_entries listing).

(** The last command that was started: its words, its process, the descriptor
    its output is read from, and whether that process was seen to exit with
    status 0. *)
Record command := Command
  { cm_words : list cstr; cm_child : positive; cm_pipe : option nat; cm_succeeded : bool }.
Definition last_command (w : option command) (c : syscall) : ans c → option command :=
  match c with
  | Fork (ChildCapture argv read_end _) => λ r : sysret positive,
      match r with SOk child => Some (Command argv child (Some read_end) false) | SErr _ => w end
  | Fork (ChildExec argv) => λ r : sysret positive,
      match r with SOk child => Some (Command argv child None false) | SErr _ => w end
  | Waitpid pid => λ r : sysret wait_status,
      match w, r with
      | Some m, SOk (Exited status) =>
          if bool_decide (pid = Zpos (cm_child m)) && (status =? 0)
          then Some (Command (cm_words m) (cm_child m) (cm_pipe m) true) else w
      | _, _ => w
      end
  | _ => λ _, w
  end.

(** Only the output of a running [tar -tf] of the archive is read, and an
    extraction of the archive is started only after that command succeeded. *)
Definition listed_ok (tar_file : cstr) (w : option command) (c : syscall) : Prop :=
  match c with
  | Read fd _ => ∃ m, w = Some m ∧ cm_words m = [lit "tar"; lit "-tf"; tar_file] ∧ cm_pipe m = Some fd
  | Fork (ChildCapture argv _ _) => w = None
  | Fork (ChildExec argv) =>
      ∃ m dir, w = Some m ∧ cm_words m = [lit "tar"; lit "-tf"; tar_file] ∧ cm_succeeded m = true ∧
        argv = [lit "tar"; lit "-xf"; tar_file; lit "-C"; dir; lit "--no-same-owner"; lit "--no-same-permissions"]
  | _ => True
  end.

(** An extraction may only be started when what was read is the whole listing
    and every entry of it is safe. *)
Definition extract_ok (w : cstr * bool) (c : syscall) : Prop :=
  match c with
  | Fork (ChildExec argv) => w.2 = true ∧ archive_safe w.1
  | _ => True
  end.

Lemma archive_entry_0_1 e : td_archive_entry_is_safe e = 0 ∨ td_archive_entry_is_safe e = 1.
Proof. unfold td_archive_entry_is_safe. repeat case_match; auto. Qed.

Lemma archive_checked l :
  existsb (λ entry, td_archive_entry_is_safe (Some entry) =? 0) l = false →
  Forall (λ entry, td_archive_entry_is_safe (Some entry) = 1) l.
Proof.
  intros H. apply Forall_forall. intros e He%list_elem_of_In.
  destruct (archive_entry_0_1 (Some e)) as [E|]; [|done].
  rewrite <-not_true_iff_false, existsb_exists in H. exfalso. apply H. exists e. by rewrite E.
Qed.

Lemma wp_run_command_delivered ok argv w :
  ok w (Fork (ChildExec argv)) → (∀ w pid, ok w (Waitpid pid)) →
  wp (delivered ok) (td_run_command argv) (λ _ _, True) w.
Proof.
  intros Hf Hw. unfold td_run_command. destruct argv as [|[|c s] l]; [done|done|].
  apply wp_bind. apply wp_observe; [done|]. intros [child|e]; [|done]. cbn [delivered_step].
  unfold wait_for_child. apply wp_bind. apply (wp_retry _ (λ _, True)); [done|].
  intros w' _. apply wp_observe; [apply Hw|]. intros a. by destruct (failed_with a EINTR).
Qed.

Definition listed (tar_file : cstr) : model (option command) := observer (listed_ok tar_file) last_command.

Lemma wait_listed tar_file words child pipe :
  wp (listed tar_file) (wait_for_child child)
    (λ r w, w = Some (Command words child pipe (r =? 0))) (Some (Command words child pipe false)).
Proof.
  unfold wait_for_child. apply wp_bind.
  apply (wp_retry _ (λ w, w = Some (Command words child pipe false))); [done|].
  intros w ->. apply wp_observe; [done|]. intros [[status|signal]|e]; cbn [failed_with last_command].
  - rewrite bool_decide_eq_true_2 by done. cbn [andb cm_words cm_child cm_pipe]. apply wp_ret.
    by destruct (status =? 0).
  - by apply wp_ret.
  - destruct (e =? EINTR); [done|]. by apply wp_ret.
Qed.

Definition listing_of (tar_file : cstr) (read_end : nat) (child : positive) (w : option command) : Prop :=
  w = Some (Command [lit "tar"; lit "-tf"; tar_file] child (Some read_end) false).

Lemma turn_listed tar_file read_end child st w :
  listing_of tar_file read_end child w →
  wp (listed tar_file) (capture_turn read_end child st) (λ r w', match r with
    | inr None => True | _ => listing_of tar_file read_end child w' end) w.
Proof.
  intros ->. destruct st as [buffer capacity]. unfold capture_turn. apply wp_bind.
  eapply (wp_mono _ _ (λ r w, is_Some r → listing_of tar_file read_end child w)).
  2:{ unfold capture_grow. destruct (_ =? _); [|by apply wp_ret]. apply wp_bind.
      eapply (wp_mono _ _ (λ _ w, listing_of tar_file read_end child w)).
      2:{ destruct (_ <? _); [by apply wp_ret|]. by apply wp_observe. }
      intros [|] w' ->; [by apply wp_ret|]. apply wp_bind. apply wp_observe; [done|]. intros ?.
      apply wp_bind. apply wp_observe; [done|]. intros ?. cbn [last_command]. apply wp_bind.
      eapply wp_mono; [|apply wait_listed]. intros _ w _. apply wp_ret. by intros []. }
  intros [capacity'|] w' H; [|by apply wp_ret]. specialize (H ltac:(by eexists)) as ->.
  apply wp_bind. unfold sys_read. apply wp_bind. apply wp_observe; [by eexists|].
  intros [data|e]; cbn [last_command]; apply wp_ret.
  - by destruct (nonempty _); apply wp_ret.
  - destruct (_ =? _); [by apply wp_ret|]. apply wp_bind. apply wp_observe; [done|]. intros ?.
    cbn [last_command]. apply wp_bind. eapply wp_mono; [|apply wait_listed]. done.
Qed.

Lemma capture_listed tar_file :
  wp (listed tar_file) (td_capture_command (list_arguments tar_file)) (λ r w, r.1 = 0 →
    ∃ m, w = Some m ∧ cm_words m = [lit "tar"; lit "-tf"; tar_file] ∧ cm_succeeded m = true) None.
Proof.
  unfold td_capture_command, list_arguments.
  apply wp_bind, wp_observe; [done|]. intros [[read_end write_end]|e]; [|by apply wp_ret]. cbn [last_command].
  apply wp_bind, wp_observe; [done|]. intros [child|e]; cbn [last_command].
  2:{ do 2 (apply wp_bind, wp_observe; [done|]; intros ?). by apply wp_ret. }
  apply wp_bind, wp_observe; [done|]. intros ?. cbn [last_command].
  apply wp_bind, wp_observe; [done|]. intros [|]; cbn [last_command].
  - apply wp_bind. apply (wp_iter _ (λ _, listing_of tar_file read_end child)); [done|].
    intros st w Hw. eapply wp_mono; [|by apply turn_listed].
    intros [st'|[o|]] w' H; [done| |by apply wp_ret]. rewrite H.
    apply wp_bind, wp_observe; [done|]. intros ?. cbn [last_command]. apply wp_bind.
    eapply wp_mono; [|apply wait_listed]. intros r ? ->. apply wp_ret.
    cbn [fst]. intros ->. by eexists.
  - do 2 (apply wp_bind, wp_observe; [done|]; intros ?). cbn [last_command]. apply wp_bind.
    eapply wp_mono; [|apply wait_listed]. intros ? ? _. by apply wp_ret.
Qed.

Lemma extract_listed tar_file extract_dir :
  wp (listed tar_file) (extract_tar tar_file extract_dir) (λ r w, r = 0 →
    ∃ m, w = Some m ∧ cm_words m = extract_arguments tar_file extract_dir ∧ cm_succeeded m = true) None.
Proof.
  unfold extract_tar. apply wp_bind. eapply wp_mono; [|apply capture_listed].
  intros [code [listing|]] w; [|by intros; apply wp_ret]. cbn [fst]. intros H.
  destruct (_ || _) eqn:E; [by apply wp_ret|]. bools.
  destruct H as (m & -> & Hw & Hs); [lia|]. cbn [td_run_command extract_arguments lit].
  apply wp_bind, wp_observe; [by exists m; eexists|]. intros [child|e]; cbn [last_command]; [|by apply wp_ret].
  eapply wp_mono; [|apply wait_listed]. intros r ? ->. intros ->. by eexists.
Qed.

Lemma extract_delivered tar_file extract_dir :
  wp (observer extract_ok delivered_step) (extract_tar tar_file extract_dir) (λ _ _, True) ([], false).
Proof.
  unfold extract_tar. apply wp_bind. eapply wp_mono; [|apply (capture_output extract_ok)].
  2:{ intros w c H. destruct c; try done. destruct what; try done. by destruct (H argv). }
  intros [code [listing|]] w; [|done]. intros [-> _].
  destruct (_ || _) eqn:E; [done|]. bools.
  apply wp_run_command_delivered; [|done]. split_and!; [done|]. by apply archive_checked.
Qed.

(** C35: [tar -xf] of the archive is started only after [tar -tf] of the same
    archive was run, its output was read from its pipe up to the end, it was
    seen to exit with status 0, and every entry of what was read passed the
    safety check; 0 is returned only when the extraction into the asked
    directory was started and exited with status 0. *)
Theorem extract_tar_checked tar_file extract_dir :
  wp (beside (observer extract_ok delivered_step) (observer (listed_ok tar_file) last_command))
    (extract_tar tar_file extract_dir)
    (λ r w, r = 0 → ∃ m, w.2 = Some m ∧ cm_succeeded m = true ∧
       cm_words m = [lit "tar"; lit "-xf"; tar_file; lit "-C"; extract_dir;
                     lit "--no-same-owner"; lit "--no-same-permissions"])
    (([], false), None).
Proof.
  eapply wp_mono; [|apply wp_beside; [apply extract_delivered|apply extract_listed]].
  intros r w [_ H] Hr. destruct (H Hr) as (m & ? & ? & ?). by exists m.
Qed.

Lemma fields_count p s :
  (length (List.filter nonempty (split_on p s)) ≤ length (List.filter p s) + 1)%nat.
Proof.
  assert (E : length (split_on p s) = (length (List.filter p s) + 1)%nat).
  { induction s as [|c s IH]; cbn [split_on List.filter]; [done|].
    destruct (p c); cbn [length]; [lia|]. pose proof (split_on_nonnil p s).
    by destruct (split_on p s). }
  rewrite <-E. generalize (split_on p s) as l. induction l as [|w l IH]; cbn; [lia|].
  destruct (nonempty w); cbn; lia.
Qed.

(** [split_string] never stores past the array it allocates: its words and the
    final NULL fit. *)
Lemma split_string_fits input : Z.of_nat (length (split_string input)) + 1 ≤ split_string_slots input.
Proof.
  unfold split_string, split_string_slots, strtok. cbv zeta.
  assert (Hd : ∀ s, split_on (is_delim [SP]) s = split_on is_space_byte s).
  { induction s as [|c s IH]; cbn [split_on]; [done|]. rewrite IH.
    replace (is_delim [SP] c) with (is_space_byte c); [done|].
    apply bool_decide_ext. by rewrite list_elem_of_singleton. }
  rewrite Hd. destruct input as [|c s _] using rev_ind; [cbn; lia|]. rewrite last_snoc.
  destruct (is_space_byte c) eqn:E.
  - rewrite split_on_app, !List.filter_app, !length_app by done. cbn [split_on List.filter nonempty negb].
    rewrite E. pose proof (fields_count is_space_byte s). cbn [length]. lia.
  - pose proof (fields_count is_space_byte (s ++ [c])). cbn [negb]. lia.
Qed.
