(* ===== verification/Cgroup.v ===== *)
(** * docker/cgroup.c: control groups

    Preparing, applying and cleaning up the control group of a container, and
    reading its members.  [cgroup_state] records the ownership of one group;
    the model of the second half watches which groups exist because of this
    process and what was written where. *)
From S2P Require Import Prelude CString Safety CgroupParse Sys Resources Process Fs.
From Stdlib Require Import Lia.

(** [TINYDOCKER_CGROUP_PARENT] of core/config.h. *)
Definition cgroup_base : cstr := lit "/sys/fs/cgroup/system.slice".
Definition CGROUP_ROOT : cstr := lit "/sys/fs/cgroup".
Definition TINYDOCKER_PREFIX : cstr := lit "tinydocker".
Definition TINYDOCKER_MAX_CONTAINER_NAME : Z := 127.
Definition PATH_MAX : Z := 4096.

Record cgroup_config := CgroupConfig {
  cc_cpu : Z;
  cc_memory : Z;
  cc_cpuset : option cstr;
}.
Record cgroup_state := CgroupState {
  cs_path : cstr;
  cs_created : Z;
}.

(** ** Files of the hierarchy *)

(** The loop of [write_file]: [rest] is what is left to write; [true] is
    [write_failed]. *)
Definition write_turn (fd : nat) (rest : cstr) : prog (cstr + bool) :=
  if nonempty rest then
    written ← sys_write fd rest;
    Ret (match written with
         | SErr e => if e =? EINTR then inl rest else inr true
         | SOk n => if n <=? 0 then inr true else inl (drop (Z.to_nat n) rest)
         end)
  else Ret (inr false).

Definition write_file (path value : cstr) : prog Z :=
  opened ← call (Open path [O_WRONLY; O_TRUNC] 0);
  match opened with
  | SErr _ => Ret (-1)
  | SOk fd =>
      write_failed ← iter (write_turn fd) value;
      closed ← call (Close fd);
      Ret (if s_ok closed then (if write_failed : bool then -1 else 0) else -1)
  end.

Definition cgroup_path_text (container_name : cstr) : cstr :=
  cgroup_base ++ lit "/" ++ TINYDOCKER_PREFIX ++ lit "-" ++ container_name.

Definition get_container_cgroup_path (container_name : option cstr) (size : Z) : option cstr :=
  match td_validate_name container_name TINYDOCKER_MAX_CONTAINER_NAME with
  | Err _ => None
  | Ok _ =>
      let text := cgroup_path_text (default [] container_name) in
      if truncated text size then None else Some text
  end.

Definition get_container_cgroup_file_path (container_name file_name : cstr) (size : Z) : option cstr :=
  let text := cgroup_path_text container_name ++ lit "/" ++ file_name in
  if truncated text size then None else Some text.

Definition write_pid_to_cgroup_procs (pid : Z) (cgroup_procs_path : option cstr) : prog Z :=
  match cgroup_procs_path with
  | None => Ret (-1)
  | Some path =>
      if pid <=? 0 then Ret (-1)
      else if truncated (fmt_d pid ++ [LF]) 100 then Ret (-1)
      else write_file path (fmt_d pid ++ [LF])
  end.

(** ** The group of a container *)

Definition init_cgroup (container_name : cstr) : prog Z :=
  controllers ← path_exist (lit "/sys/fs/cgroup/cgroup.controllers");
  if negb controllers then Ret (-1)
  else
    parent ← path_exist cgroup_base;
    if negb parent then Ret (-1)
    else
      match get_container_cgroup_path (Some container_name) 1024 with
      | None => Ret (-1)
      | Some path => made ← call (Mkdir path S_IRWXU); Ret (if s_ok made then 0 else -1)
      end.

Definition remove_cgroup (container_name : cstr) : prog Z :=
  match get_container_cgroup_path (Some container_name) 1024 with
  | None => Ret (-1)
  | Some path =>
      removed ← call (Rmdir path);
      Ret (if s_ok removed || failed_with removed ENOENT then 0 else -1)
  end.

Definition set_mem_limit (container_name : cstr) (mem_max : Z) : prog Z :=
  if mem_max <=? 0 then Ret (-1)
  else
    match get_container_cgroup_file_path container_name (lit "memory.max") 256 with
    | None => Ret (-1)
    | Some memory =>
        if truncated (fmt_d mem_max) 100 then Ret (-1) else write_file memory (fmt_d mem_max)
    end.

Definition cpu_text (cpu_time : Z) : cstr := fmt_d cpu_time ++ lit " " ++ fmt_d 100000.
Definition set_cpu_limit (container_name : cstr) (cpu_time : Z) : prog Z :=
  if cpu_time <? 1000 then Ret (-1)
  else
    match get_container_cgroup_file_path container_name (lit "cpu.max") 256 with
    | None => Ret (-1)
    | Some cpu =>
        if truncated (cpu_text cpu_time) 100 then Ret (-1) else write_file cpu (cpu_text cpu_time)
    end.

Definition set_cpuset_limit (container_name : cstr) (cpus : option cstr) : prog Z :=
  match cpus with
  | None => Ret (-1)
  | Some cpus =>
      match get_container_cgroup_file_path container_name (lit "cpuset.cpus") 256 with
      | None => Ret (-1)
      | Some cpuset_cpus => write_file cpuset_cpus cpus
      end
  end.

Definition apply_cgroup_limit_to_pid (container_name : cstr) (pid : Z) : prog Z :=
  match get_container_cgroup_file_path container_name (lit "cgroup.procs") 256 with
  | None => Ret (-1)
  | Some procs => write_pid_to_cgroup_procs pid (Some procs)
  end.

Definition set_cgroup_limits (container_name : cstr) (cpu memory : Z) (cpuset : option cstr) : prog Z :=
  m ← (if 0 <? memory then set_mem_limit container_name memory else Ret 0);
  if negb (m =? 0) then Ret (-1)
  else
    c ← (if 1000 <=? cpu then set_cpu_limit container_name cpu else Ret 0);
    if negb (c =? 0) then Ret (-1)
    else
      s ← (match cpuset with Some _ => set_cpuset_limit container_name cpuset | None => Ret 0 end);
      Ret (if negb (s =? 0) then -1 else 0).

(** ** The life cycle of an owned group *)

Definition cgroup_cleanup (state : option cgroup_state) : prog (Z * option cgroup_state) :=
  match state with
  | None => Ret (-1, None)
  | Some st =>
      if cs_created st =? 0 then Ret (0, state)
      else if negb (nonempty (cs_path st)) then Ret (-1, state)
      else
        removed ← call (Rmdir (cs_path st));
        Ret (if s_ok removed || failed_with removed ENOENT
             then (0, Some (CgroupState [] 0)) else (-1, state))
  end.

(** A failing [cgroup_prepare] leaves the path it could build in the state. *)
Definition cgroup_prepare (container_name : option cstr) (config : option cgroup_config)
    (state : option cgroup_state) : prog (Z * option cgroup_state) :=
  match container_name, config, state with
  | Some name, Some config, Some st =>
      if negb (cs_created st =? 0) then Ret (-1, state)
      else
        match get_container_cgroup_path (Some name) PATH_MAX with
        | None => Ret (-1, Some (CgroupState [] 0))
        | Some path =>
            made ← init_cgroup name;
            if negb (made =? 0) then Ret (-1, Some (CgroupState path 0))
            else
              limits ← set_cgroup_limits name (cc_cpu config) (cc_memory config) (cc_cpuset config);
              if limits =? 0 then Ret (0, Some (CgroupState path 1))
              else
                '(_, st') ← cgroup_cleanup (Some (CgroupState path 1));
                Ret (-1, st')
        end
  | _, _, _ => Ret (-1, state)
  end.

Definition cgroup_apply (state : option cgroup_state) (pid : Z) : prog Z :=
  match state with
  | None => Ret (-1)
  | Some st =>
      if (cs_created st =? 0) || negb (nonempty (cs_path st)) || (pid <=? 0) then Ret (-1)
      else
        let procs_path := cs_path st ++ lit "/cgroup.procs" in
        if truncated procs_path PATH_MAX then Ret (-1)
        else write_pid_to_cgroup_procs pid (Some procs_path)
  end.

(** ** Members *)

Definition SIZE_MAX : Z := 2 ^ 64 - 1.

(** [None] is -1; [Some pids] is the count and the filled part of
    [pid_list]. *)
Definition get_container_processes_id (container_name : cstr) (capacity : Z) : prog (option (list Z)) :=
  match get_container_cgroup_file_path container_name (lit "cgroup.procs") 1024 with
  | None => Ret None
  | Some path =>
      e ← path_exist path;
      if negb e then Ret None
      else
        opened ← call (Fopen path);
        match opened with
        | SErr _ => Ret None
        | SOk file =>
            if (capacity =? 0) || ((SIZE_MAX - 1) / 32 <? capacity) then
              _ ← call (Fclose file); Ret None
            else
              let buffer_size := capacity * 32 + 1 in
              room ← call (Malloc buffer_size);
              if negb room then _ ← call (Fclose file); Ret None
              else
                '(data, (feof, ferror)) ← call (Fread file (buffer_size - 1));
                let contents := take (Z.to_nat (buffer_size - 1)) data in
                if ferror || (negb feof && (strlen contents =? buffer_size - 1)) then
                  _ ← call (Fclose file); Ret None
                else
                  _ ← call (Fclose file);
                  match td_parse_cgroup_pid_list (Some (until_nul contents)) capacity with
                  | Err _ => Ret None
                  | Ok pids => Ret (if INT_MAX <? Z.of_nat (length pids) then None else Some pids)
                  end
        end
  end.

(** One line of /proc/<pid>/cgroup: the path it stands for, when it has
    exactly two colons. *)
Definition cgroup_file_of_line (line : cstr) : option cstr :=
  match split_on (λ c, bool_decide (c = ":"%char)) line with
  | [_; subsystem; path] =>
      Some ((span (λ c, negb (bool_decide (c = LF)))
        (if nonempty subsystem then CGROUP_ROOT ++ lit "/" ++ subsystem ++ path
         else CGROUP_ROOT ++ path)).1)
  | _ => None
  end.

(** The loop reads a line before it compares the count with the limit. *)
Definition cgroup_files_turn (file : nat) (limit : Z) (files : list cstr)
    : prog (list cstr + list cstr) :=
  line ← call (Fgets file 1024);
  match line with
  | SErr _ => Ret (inr files)
  | SOk line =>
      if limit <=? Z.of_nat (length files) then Ret (inr files)
      else
        match cgroup_file_of_line (until_nul (take 1023 line)) with
        | None => Ret (inl files)
        | Some cgroup_file =>
            room ← call (Malloc (strlen cgroup_file + 16));
            Ret (if room : bool then inl (files ++ [cgroup_file]) else inr files)
        end
  end.
Definition get_cgroup_files (pid limit : Z) : prog (option (list cstr)) :=
  opened ← call (Fopen (lit "/proc/" ++ fmt_d pid ++ lit "/cgroup"));
  match opened with
  | SErr _ => Ret None
  | SOk file =>
      files ← iter (cgroup_files_turn file limit) [];
      _ ← call (Fclose file);
      Ret (Some files)
  end.

(** ** Descriptors *)

Lemma balanced_write_file path value : balanced (write_file path value).
Proof.
  intros w. unfold write_file. held_step. held_step; [|done].
  apply wp_bind. apply (wp_iter resources (λ _ w', w' = take_fd a0 w)); [done|].
  intros rest w' ->. unfold write_turn. destruct (nonempty rest).
  - held_step. apply wp_ret. destruct r as [n|e].
    + destruct (n <=? 0); [|done]. held_step. by autorewrite with held.
    + destruct (e =? EINTR); [done|]. held_step. by autorewrite with held.
  - apply wp_ret. held_step. by autorewrite with held.
Qed.
#[export] Hint Resolve balanced_write_file : balanced.

Lemma balanced_write_pid pid path : balanced (write_pid_to_cgroup_procs pid path).
Proof. unfold write_pid_to_cgroup_procs. balanced_auto. Qed.
#[export] Hint Resolve balanced_write_pid : balanced.
Lemma balanced_set_cgroup_limits name cpu memory cpuset :
  balanced (set_cgroup_limits name cpu memory cpuset).
Proof. unfold set_cgroup_limits, set_mem_limit, set_cpu_limit, set_cpuset_limit. balanced_auto. Qed.
Lemma balanced_init_cgroup name : balanced (init_cgroup name).
Proof. unfold init_cgroup. balanced_auto. Qed.
Lemma balanced_cgroup_cleanup st : balanced (cgroup_cleanup st).
Proof. unfold cgroup_cleanup. balanced_auto. Qed.
#[export] Hint Resolve balanced_set_cgroup_limits balanced_init_cgroup balanced_cgroup_cleanup : balanced.
Lemma balanced_cgroup_prepare name config st : balanced (cgroup_prepare name config st).
Proof. unfold cgroup_prepare. balanced_auto. Qed.
Lemma balanced_cgroup_apply st pid : balanced (cgroup_apply st pid).
Proof. unfold cgroup_apply. balanced_auto. Qed.
Lemma balanced_remove_cgroup name : balanced (remove_cgroup name).
Proof. unfold remove_cgroup. balanced_auto. Qed.
#[export] Hint Resolve balanced_cgroup_prepare balanced_cgroup_apply balanced_remove_cgroup : balanced.

Lemma balanced_processes_id name capacity : balanced (get_container_processes_id name capacity).
Proof.
  intros w. unfold get_container_processes_id. destruct (get_container_cgroup_file_path _ _ _); [|done].
  cbv zeta. held_auto.
Qed.
#[export] Hint Resolve balanced_processes_id : balanced.

(** ** Ownership *)

(** The groups that exist because of this process; the files opened for writing
    with the bytes written, the newest first; the groups whose removal was tried
    and refused. *)
Record groups := Groups { g_dirs : list cstr; g_files : list (cstr * cstr); g_kept : list cstr }.

(** A directory is removed only if this process made it; a file is written
    only inside such a directory. *)
Definition groups_ok (w : groups) (c : syscall) : Prop :=
  match c with
  | Rmdir path => path ∈ g_dirs w
  | Open path _ _ => ∃ dir file, path = dir ++ lit "/" ++ file ∧ dir ∈ g_dirs w
  | _ => True
  end.
Definition groups_step (w : groups) (c : syscall) : ans c → groups :=
  match c with
  | Mkdir path _ => λ r : sysret unit,
      match r with SOk _ => Groups (path :: g_dirs w) (g_files w) (g_kept w) | SErr _ => w end
  | Rmdir path => λ r : sysret unit,
      if s_ok r || failed_with r ENOENT
      then Groups (List.filter (λ d, negb (bool_decide (d = path))) (g_dirs w)) (g_files w) (g_kept w)
      else Groups (g_dirs w) (g_files w) (path :: g_kept w)
  | Open path _ _ => λ r : sysret nat,
      match r with SOk _ => Groups (g_dirs w) ((path, []) :: g_files w) (g_kept w) | SErr _ => w end
  | Write _ data => λ r : sysret Z,
      match r, g_files w with
      | SOk n, (path, before) :: files =>
          Groups (g_dirs w) ((path, before ++ take (Z.to_nat (Z.min n (strlen data))) data) :: files) (g_kept w)
      | _, _ => w
      end
  | _ => λ _, w
  end.
Definition grouped : model groups := observer groups_ok groups_step.

Lemma wp_grouped {A} c (f : ans c → prog A) Q w :
  groups_ok w c → (∀ a, wp grouped (f a) Q (groups_step w c a)) → wp grouped (call c ≫= f) Q w.
Proof. intros Hok H. apply wp_bind. by apply wp_observe. Qed.

Lemma write_file_spec path value w :
  groups_ok w (Open path [] 0) →
  wp grouped (write_file path value) (λ r w', g_dirs w' = g_dirs w ∧
    (r = 0 → g_files w' = (path, value) :: g_files w)) w.
Proof.
  intros Hok. unfold write_file. apply wp_grouped; [done|].
  intros [fd|e]; cbn [groups_step]; [|by apply wp_ret].
  apply wp_bind. apply (wp_iter grouped (λ rest w', ∃ before,
    w' = Groups (g_dirs w) ((path, before) :: g_files w) (g_kept w) ∧ before ++ rest = value)).
  { by exists []. }
  intros rest w' (before & -> & Hv). unfold write_turn. destruct rest as [|c rest]; cbn [nonempty].
  { apply wp_ret. rewrite app_nil_r in Hv. subst. apply wp_grouped; [done|]. intros a.
    apply wp_ret. split; [done|]. by destruct (s_ok a). }
  apply wp_bind. unfold sys_write. apply wp_grouped; [done|].
  intros [n|e]; apply wp_ret; apply wp_ret; cbn [groups_step g_files g_dirs].
  - destruct (Z.leb_spec (Z.min n (strlen (c :: rest))) 0).
    + apply wp_grouped; [done|]. intros a. apply wp_ret. split; [done|]. by destruct (s_ok a).
    + eexists. split; [done|]. by rewrite <-app_assoc, take_drop.
  - destruct (e =? EINTR); [by exists before|].
    apply wp_grouped; [done|]. intros a. apply wp_ret. split; [done|]. by destruct (s_ok a).
Qed.

Definition group_file (container_name file : cstr) : cstr :=
  cgroup_path_text container_name ++ lit "/" ++ file.

(** The limits of a configuration: the files and what goes into them. *)
Definition limit_files (container_name : cstr) (config : cgroup_config) : list (cstr * cstr) :=
  (if 0 <? cc_memory config then [(group_file container_name (lit "memory.max"), fmt_d (cc_memory config))]
   else []) ++
  (if 1000 <=? cc_cpu config then [(group_file container_name (lit "cpu.max"), cpu_text (cc_cpu config))]
   else []) ++
  (match cc_cpuset config with
   | Some cpus => [(group_file container_name (lit "cpuset.cpus"), cpus)]
   | None => [] end).

(** The shape all three setters share. *)
Lemma set_limit_spec name file text w :
  cgroup_path_text name ∈ g_dirs w →
  wp grouped (match get_container_cgroup_file_path name file 256 with
              | None => Ret (-1)
              | Some path => write_file path text end)
    (λ r w', g_dirs w' = g_dirs w ∧ (r = 0 → g_files w' = (group_file name file, text) :: g_files w)) w.
Proof.
  intros Hin. unfold get_container_cgroup_file_path. cbv zeta. destruct (truncated _ _); [by apply wp_ret|].
  apply write_file_spec. by exists (cgroup_path_text name), file.
Qed.

Lemma set_cgroup_limits_spec name config w :
  cgroup_path_text name ∈ g_dirs w →
  wp grouped (set_cgroup_limits name (cc_cpu config) (cc_memory config) (cc_cpuset config))
    (λ r w', g_dirs w' = g_dirs w ∧
       (r = 0 → g_files w' = rev (limit_files name config) ++ g_files w)) w.
Proof.
  intros Hin. unfold set_cgroup_limits, limit_files.
  assert (Hm : wp grouped (if 0 <? cc_memory config then set_mem_limit name (cc_memory config) else Ret 0)
    (λ r w', g_dirs w' = g_dirs w ∧ (r = 0 → g_files w' = (if 0 <? cc_memory config then
       [(group_file name (lit "memory.max"), fmt_d (cc_memory config))] else []) ++ g_files w)) w).
  { case Z.ltb_spec; intros Hm; [|by apply wp_ret]. unfold set_mem_limit.
    destruct (Z.leb_spec (cc_memory config) 0); [lia|].
    pose proof (set_limit_spec name (lit "memory.max") (fmt_d (cc_memory config)) w Hin) as Hset.
    destruct (get_container_cgroup_file_path _ _ _); [|done].
    by destruct (truncated _ _); [apply wp_ret|]. }
  apply wp_bind. eapply wp_mono; [|exact Hm]. cbv beta. intros m w1 [Hd1 Hf1].
  destruct (Z.eqb_spec m 0) as [->|]; cbn [negb]; [|by apply wp_ret]. specialize (Hf1 eq_refl).
  assert (Hc : wp grouped (if 1000 <=? cc_cpu config then set_cpu_limit name (cc_cpu config) else Ret 0)
    (λ r w', g_dirs w' = g_dirs w ∧ (r = 0 → g_files w' = (if 1000 <=? cc_cpu config then
       [(group_file name (lit "cpu.max"), cpu_text (cc_cpu config))] else []) ++ g_files w1)) w1).
  { case Z.leb_spec; intros Hc; [|by apply wp_ret]. unfold set_cpu_limit.
    destruct (Z.ltb_spec (cc_cpu config) 1000); [lia|]. rewrite <-Hd1 in Hin |- *.
    pose proof (set_limit_spec name (lit "cpu.max") (cpu_text (cc_cpu config)) w1 Hin) as Hset.
    destruct (get_container_cgroup_file_path _ _ _); [|by apply wp_ret].
    by destruct (truncated _ _); [apply wp_ret|]. }
  apply wp_bind. eapply wp_mono; [|exact Hc]. cbv beta. intros r w2 [Hd2 Hf2].
  destruct (Z.eqb_spec r 0) as [->|]; cbn [negb]; [|by apply wp_ret]. specialize (Hf2 eq_refl).
  apply wp_bind. destruct (cc_cpuset config) as [cpus|].
  - unfold set_cpuset_limit. rewrite <-Hd2 in Hin.
    eapply wp_mono; [|by apply set_limit_spec]. cbv beta. intros s w3 [Hd3 Hf3]. apply wp_ret.
    split; [congruence|]. destruct (Z.eqb_spec s 0) as [->|]; [|done]. intros _.
    rewrite (Hf3 eq_refl), Hf2, Hf1, !rev_app_distr, <-!app_assoc.
    by destruct (1000 <=? _), (0 <? _).
  - apply wp_ret, wp_ret. split; [done|]. intros _.
    rewrite Hf2, Hf1, !rev_app_distr, <-!app_assoc. by destruct (1000 <=? _), (0 <? _).
Qed.

(** A state owns exactly the group it names, or nothing. *)
Definition owns (s : cgroup_state) (w : groups) : Prop :=
  if cs_created s =? 0 then g_dirs w = [] else g_dirs w = [cs_path s] ∧ cs_path s ≠ [].

Lemma filter_self path : List.filter (λ d : cstr, negb (bool_decide (d = path))) [path] = [].
Proof. cbn. by rewrite bool_decide_eq_true_2. Qed.

Lemma cgroup_cleanup_spec s w :
  owns s w →
  wp grouped (cgroup_cleanup (Some s))
    (λ r w', ∃ s', r.2 = Some s' ∧ owns s' w' ∧
       (r.1 = 0 ∧ g_dirs w' = [] ∨ r.1 = -1 ∧ s' = s ∧ cs_created s ≠ 0 ∧ (cs_path s = [] ∨ cs_path s ∈ g_kept w'))) w.
Proof.
  unfold cgroup_cleanup, owns. destruct (Z.eqb_spec (cs_created s) 0) as [E|E].
  { intros Hd. apply wp_ret. exists s. rewrite (proj2 (Z.eqb_eq _ _)) by done. cbn. auto. }
  intros [Hd Hne]. destruct (cs_path s) as [|c p] eqn:Ep; [done|]. cbn [nonempty negb]. rewrite <-Ep in *.
  apply wp_grouped; [cbn; rewrite Hd; by left|]. intros a. apply wp_ret. cbn [groups_step].
  destruct (s_ok a || failed_with a ENOENT); cbn [fst snd].
  - eexists. split; [done|]. cbn [cs_created g_dirs]. rewrite Hd, filter_self. cbn. auto.
  - exists s. rewrite (proj2 (Z.eqb_neq _ _)) by done. cbn [g_dirs g_kept]. split_and!; [done|done|done|].
    right. split_and!; [done|done|done|]. right. by left.
Qed.

Lemma get_container_cgroup_path_Some name size path :
  get_container_cgroup_path (Some name) size = Some path → path = cgroup_path_text name.
Proof.
  unfold get_container_cgroup_path. destruct (td_validate_name _ _); [|done]. cbv zeta.
  destruct (truncated _ _); [done|]. by intros [= <-].
Qed.

Lemma init_cgroup_spec name w :
  wp grouped (init_cgroup name)
    (λ r w', w' = if r =? 0 then Groups (cgroup_path_text name :: g_dirs w) (g_files w) (g_kept w) else w) w.
Proof.
  unfold init_cgroup, path_exist. apply wp_grouped; [done|]. intros [|]; cbn [negb groups_step]; [|by apply wp_ret].
  apply wp_grouped; [done|]. intros [|]; cbn [negb groups_step]; [|by apply wp_ret].
  destruct (get_container_cgroup_path _ _) as [path|] eqn:E; [|by apply wp_ret].
  apply get_container_cgroup_path_Some in E as ->.
  apply wp_grouped; [done|]. intros a. apply wp_ret. by destruct a.
Qed.

(** C34: preparing the control group of a container returns 0 only when its
    directory was created and every configured limit written, in order, inside
    it, and the state then records the directory as created.  Otherwise it
    returns -1, and the state records nothing as created, because nothing this
    process created is left, unless removing the directory again was tried and
    refused by the kernel; only then the state still names it, so that it can be
    removed later.  Only a directory this process created is ever removed and no
    file outside it is written. *)
Theorem cgroup_prepare_ownership name config st :
  wp grouped (cgroup_prepare (Some name) (Some config) (Some (CgroupState st 0)))
    (λ r w, ∃ s, r.2 = Some s ∧ owns s w ∧
       (r.1 = 0 ∧ s = CgroupState (cgroup_path_text name) 1 ∧ g_files w = rev (limit_files name config)
        ∨ r.1 = -1 ∧ cs_created s = 0
        ∨ r.1 = -1 ∧ s = CgroupState (cgroup_path_text name) 1 ∧ cgroup_path_text name ∈ g_kept w)) (Groups [] [] []).
Proof.
  unfold cgroup_prepare. cbn [cs_created Z.eqb negb].
  destruct (get_container_cgroup_path _ _) as [path|] eqn:E.
  2:{ apply wp_ret. eexists. split; [done|]. split; [done|by right; left]. }
  apply get_container_cgroup_path_Some in E as ->.
  apply wp_bind. eapply wp_mono; [|apply init_cgroup_spec]. cbv beta. intros m w ->.
  destruct (m =? 0) eqn:Em; cbn [negb].
  2:{ apply wp_ret. eexists. split; [done|]. split; [done|by right; left]. }
  cbn [g_dirs g_files]. apply wp_bind. eapply wp_mono; [|apply set_cgroup_limits_spec; by left].
  cbv beta. intros l w [Hd Hf]. cbn [g_dirs g_files] in Hd, Hf.
  destruct (Z.eqb_spec l 0) as [->|].
  - apply wp_ret. eexists. split; [done|]. split; [by split|]. left. rewrite (Hf eq_refl), app_nil_r. auto.
  - apply wp_bind. eapply wp_mono; [|apply cgroup_cleanup_spec; by split].
    cbv beta. intros [r st'] w' (s & Hs & Ho & Hr). cbn [fst snd] in *. subst st'. apply wp_ret. eexists. split; [done|].
    split; [done|]. right. unfold owns in Ho. destruct Hr as [[_ Hn]|(_ & -> & _ & [|Hk])]; [|done|by right].
    left. split; [done|]. destruct (Z.eqb_spec (cs_created s) 0); [done|]. by destruct Ho as [Ho _]; rewrite Hn in Ho.
Qed.

(** Applying a prepared group writes the pid, and only the pid, to the
    owned group's cgroup.procs and keeps the ownership; cleaning up removes the
    owned directory or keeps the state for a retry, and a state that owns
    nothing is cleaned up without a call. *)
Theorem cgroup_apply_cleanup s w pid :
  owns s w →
  wp grouped (cgroup_apply (Some s) pid)
    (λ r w', g_dirs w' = g_dirs w ∧
       (r = 0 → cs_created s ≠ 0 ∧ 0 < pid ∧
          g_files w' = (cs_path s ++ lit "/cgroup.procs", fmt_d pid ++ [LF]) :: g_files w)) w ∧
  wp grouped (cgroup_cleanup (Some s))
    (λ r w', ∃ s', r.2 = Some s' ∧ owns s' w' ∧
       (r.1 = 0 ∧ g_dirs w' = [] ∨ r.1 = -1 ∧ s' = s ∧ cs_created s ≠ 0 ∧ (cs_path s = [] ∨ cs_path s ∈ g_kept w'))) w.
Proof.
  intros Ho. split; [|by apply cgroup_cleanup_spec].
  unfold cgroup_apply. destruct (_ || _) eqn:Eg; [by apply wp_ret|]. cbv zeta. bools.
  destruct (truncated _ _); [by apply wp_ret|]. unfold write_pid_to_cgroup_procs.
  destruct (Z.leb_spec pid 0); [by apply wp_ret|]. destruct (truncated _ _); [by apply wp_ret|].
  unfold owns in Ho. rewrite (proj2 (Z.eqb_neq _ _)) in Ho by done. destruct Ho as [Hd Hne].
  eapply wp_mono; [|apply write_file_spec].
  - cbv beta. intros r w' [Hd' Hf]. split; [done|]. intros Hr. auto.
  - exists (cs_path s), (lit "cgroup.procs"). split; [done|]. rewrite Hd. by left.
Qed.

Lemma cgroup_apply_cleanup_witness :
  let s := CgroupState (cgroup_path_text (lit "demo")) 1 in
  let w := Groups [cs_path s] [] [] in
  wp grouped (cgroup_apply (Some s) 42)
    (λ r w', g_dirs w' = g_dirs w ∧
       (r = 0 → cs_created s ≠ 0 ∧ 0 < 42 ∧
          g_files w' = (cs_path s ++ lit "/cgroup.procs", fmt_d 42 ++ [LF]) :: g_files w)) w.
Proof. apply cgroup_apply_cleanup. split; [reflexivity|discriminate]. Defined.
