(* ===== verification/NetworkStore.v ===== *)
(** * docker/network.c, first part: the network state file

    Loading, locking and atomically replacing the file of network records, and
    the operations on it: adding, finding and deleting a network, allocating
    and releasing addresses. *)
From S2P Require Import Prelude CString Paths Safety NetworkState Sys Resources Equiv.
From Stdlib Require Import Lia FinFun.

(** core/config.h *)
Definition TINYDOCKER_RUNTIME_DIR : cstr := lit "/home/xanarry/tinydocker_runtime".
Definition CONTAINER_NETWORKS_FILE : cstr := TINYDOCKER_RUNTIME_DIR ++ lit "/networks".

(** ** Addresses *)

(** 0 for a text that is not an address. *)
Definition str_ip_to_int (ip : cstr) : Z := default 0 (inet_pton ip).

(** What is left in a zeroed buffer of [size] bytes. *)
Definition int_to_str_ip (int_ip size : Z) : cstr :=
  let text := inet_ntop int_ip in if truncated text size then [] else text.

(** [(minimum, maximum, prefix)] *)
Definition get_cidr_range (cidr : cstr) : option (Z * Z * Z) :=
  match td_parse_ipv4_cidr (Some cidr) with
  | Err _ => None
  | Ok (network, parsed_prefix) => Some (network, cidr_broadcast network parsed_prefix, parsed_prefix)
  end.

Definition get_first_cidr_host_ip (cidr_network : cstr) (size : Z) : cstr :=
  match get_cidr_range cidr_network with
  | None => []
  | Some (minimum, _, prefix) =>
      let host := int_to_str_ip (u32 (minimum + 1)) size in
      set_error size (host ++ lit "/" ++ fmt_u prefix)
  end.

(** ** The text of the file *)

(** One turn of the loop of [load_network_records]. *)
Definition load_line (capacity : Z) (records : list td_network_record) (line : cstr)
    : result (list td_network_record) :=
  _ ← reject_if ((strlen line =? 0) || (4096 <=? strlen line) || contains line CR)
        (lit "network state contains an invalid record boundary");
  _ ← reject_if (capacity <=? Z.of_nat (length records)) (lit "record capacity exceeded");
  record ← td_parse_network_record (Some line);
  Ok (records ++ [record]).

(** The loop, over the fields between line feeds; it stops at the end of the
    data, so an empty last field is not looked at. *)
Fixpoint load_lines (capacity : Z) (records : list td_network_record) (lines : list cstr)
    : result (list td_network_record) :=
  match lines with
  | [] => Ok records
  | [line] => if nonempty line then load_line capacity records line else Ok records
  | line :: rest =>
      records' ← load_line capacity records line;
      load_lines capacity records' rest
  end.

Definition is_newline (c : ascii) : bool := bool_decide (c = LF).
Definition parse_network_state (capacity : Z) (data : cstr) : result (list td_network_record) :=
  _ ← reject_if (contains data NUL) (lit "network state contains a NUL byte");
  records ← load_lines capacity [] (split_on is_newline data);
  _ ← td_network_record_names_are_unique records;
  Ok records.

(** ** Loading *)

Definition MAX_NETWORK_STATE_SIZE : Z := 1024 * 1024.

(** [while (offset < size) { read ... }]: [None] for a failing or short read. *)
Definition read_turn (fd : nat) (size : Z) (data : cstr) : prog (cstr + option cstr) :=
  if strlen data <? size then
    bytes_read ← sys_read fd (size - strlen data);
    Ret (match bytes_read with
         | SErr e => if e =? EINTR then inl data else inr None
         | SOk d => if nonempty d then inl (data ++ d) else inr None
         end)
  else Ret (inr (Some data)).
Definition read_exactly (fd : nat) (size : Z) : prog (option cstr) := iter (read_turn fd size) [].

Definition safe_size (maximum : Z) (status : sysret file_status) : option Z :=
  match status with
  | SErr _ => None
  | SOk st =>
      if bool_decide (fs_kind st = Regular) && (0 <=? fs_size st) && (fs_size st <=? maximum)
      then Some (fs_size st) else None
  end.

Definition load_network_records (capacity : Z) : prog (option (list td_network_record)) :=
  opened ← call (Open CONTAINER_NETWORKS_FILE [O_RDONLY; O_CLOEXEC; O_NOFOLLOW] 0);
  match opened with
  | SErr e => Ret (if e =? ENOENT then Some [] else None)
  | SOk state_fd =>
      status ← call (Fstat state_fd);
      match safe_size MAX_NETWORK_STATE_SIZE status with
      | None => _ ← call (Close state_fd); Ret None
      | Some size =>
          room ← call (Malloc (size + 1));
          if negb room then _ ← call (Close state_fd); Ret None
          else
            data ← read_exactly state_fd size;
            closed ← call (Close state_fd);
            match data with
            | None => Ret None
            | Some data =>
                if negb (s_ok closed) then Ret None
                else match parse_network_state capacity data with
                     | Ok records => Ret (Some records)
                     | Err _ => Ret None
                     end
            end
      end
  end.

(** ** Locking *)

Definition lock_path : cstr := CONTAINER_NETWORKS_FILE ++ lit ".lock".
Definition lock_network_state : prog (option nat) :=
  opened ← call (Open lock_path [O_RDWR; O_CREAT; O_CLOEXEC; O_NOFOLLOW] 384);
  match opened with
  | SErr _ => Ret None
  | SOk lock_fd =>
      locked ← retry_intr (call (Flock lock_fd));
      if s_ok locked then Ret (Some lock_fd)
      else _ ← call (Close lock_fd); Ret None
  end.

(** The frame shared by the operations that change the file. *)
Definition with_lock {A} (failed : A) (body : prog A) : prog A :=
  locked ← lock_network_state;
  match locked with
  | None => Ret failed
  | Some lock_fd =>
      result ← body;
      _ ← call (Close lock_fd);
      Ret result
  end.

(** ** Replacing the file *)

Definition temporary_text (pid : Z) (attempt : nat) : cstr :=
  CONTAINER_NETWORKS_FILE ++ lit ".tmp." ++ fmt_d pid ++ lit "." ++ fmt_u (Z.of_nat attempt).

(** The 100 attempts to create a temporary file. *)
Fixpoint open_temporary (attempts : list nat) : prog (option (nat * cstr)) :=
  match attempts with
  | [] => Ret None
  | attempt :: attempts' =>
      pid ← call Getpid;
      let temporary_path := temporary_text pid attempt in
      if truncated temporary_path 1024 then Ret None
      else
        opened ← call (Open temporary_path [O_WRONLY; O_CREAT; O_EXCL; O_CLOEXEC; O_NOFOLLOW] 384);
        match opened with
        | SOk fd => Ret (Some (fd, temporary_path))
        | SErr e => if e =? EEXIST then open_temporary attempts' else Ret None
        end
  end.

Fixpoint write_records (file : nat) (records : list td_network_record) : prog bool :=
  match records with
  | [] => Ret true
  | record :: records' =>
      match td_format_network_record (Some record) 4096 with
      | Err _ => Ret false
      | Ok serialized =>
          printed ← call (Fputs file (serialized ++ [LF]));
          if s_ok printed then write_records file records' else Ret false
      end
  end.

Definition sync_runtime_dir : prog unit :=
  directory ← call (Open TINYDOCKER_RUNTIME_DIR [O_RDONLY; O_DIRECTORY; O_CLOEXEC; O_NOFOLLOW] 0);
  match directory with
  | SErr _ => Ret tt
  | SOk directory_fd =>
      _ ← call (Fsync directory_fd);
      discard (call (Close directory_fd))
  end.

Definition write_network_records (records : list td_network_record) : prog Z :=
  temporary ← open_temporary (seq 0 100);
  match temporary with
  | None => Ret (-1)
  | Some (fd, temporary_path) =>
      stream ← call (Fdopen fd);
      if negb (s_ok stream) then
        _ ← call (Close fd); _ ← call (Unlink temporary_path); Ret (-1)
      else
        written ← write_records fd records;
        flushed ← (if written : bool then call (Fflush fd) else Ret (SErr 0));
        synced ← (if s_ok flushed then call (Fsync fd) else Ret (SErr 0));
        if negb (s_ok synced) then
          _ ← call (Fclose fd); _ ← call (Unlink temporary_path); Ret (-1)
        else
          closed ← call (Fclose fd);
          if negb (s_ok closed) then _ ← call (Unlink temporary_path); Ret (-1)
          else
            renamed ← call (Rename temporary_path CONTAINER_NETWORKS_FILE);
            if negb (s_ok renamed) then _ ← call (Unlink temporary_path); Ret (-1)
            else _ ← sync_runtime_dir; Ret 0
  end.

(** ** Operations on the records *)

Definition named (name : cstr) (record : td_network_record) : bool := bool_decide (nr_name record = name).
Definition find_record (name : cstr) (records : list td_network_record) : option td_network_record :=
  List.find (named name) records.

Definition set_used_ips (ips : list Z) (r : td_network_record) : td_network_record :=
  NetworkRecord (nr_name r) (nr_driver r) (nr_cidr r) ips.

(** The loop over the candidates.  One more candidate than there are used
    addresses is enough. *)
Fixpoint first_free (fuel : nat) (candidate maximum : Z) (used : list Z) : option Z :=
  match fuel with
  | O => None
  | S fuel' =>
      if candidate <? maximum then
        if existsb (Z.eqb candidate) used then first_free fuel' (candidate + 1) maximum used
        else Some candidate
      else None
  end.

Definition allocate_in (network : td_network_record) : option (td_network_record * Z) :=
  if TD_NETWORK_MAX_USED_IPS <=? used_ip_count network then None
  else
    match get_cidr_range (nr_cidr network) with
    | None => None
    | Some (minimum, maximum, _) =>
        if maximum <=? u32 (minimum + 2) then None
        else
          match first_free (S (length (nr_used_ips network))) (u32 (minimum + 2)) maximum
                  (nr_used_ips network) with
          | None => None
          | Some allocated =>
              if allocated =? 0 then None
              else Some (set_used_ips (nr_used_ips network ++ [allocated]) network, allocated)
          end
    end.

(** The first network of that name, and only that one, is changed. *)
Fixpoint allocate_records (name : cstr) (records : list td_network_record)
    : option (list td_network_record * Z) :=
  match records with
  | [] => None
  | r :: rest =>
      if named name r then
        match allocate_in r with
        | None => None
        | Some (r', ip) => Some (r' :: rest, ip)
        end
      else
        match allocate_records name rest with
        | None => None
        | Some (rest', ip) => Some (r :: rest', ip)
        end
  end.

Definition release_in (address : Z) (network : td_network_record) : td_network_record :=
  set_used_ips (List.filter (λ ip, negb (ip =? address)) (nr_used_ips network)) network.
Fixpoint release_records (name : cstr) (address : Z) (records : list td_network_record)
    : option (list td_network_record) :=
  match records with
  | [] => None
  | r :: rest =>
      if named name r then Some (release_in address r :: rest)
      else
        match release_records name address rest with
        | None => None
        | Some rest' => Some (r :: rest')
        end
  end.

(** ** Operations on the file *)

Definition add_network_info (network : td_network_record) : prog Z :=
  with_lock (-1)
    (loaded ← load_network_records TD_NETWORK_MAX_RECORDS;
     match loaded with
     | None => Ret (-1)
     | Some records =>
         if TD_NETWORK_MAX_RECORDS <=? Z.of_nat (length records) then Ret (-1)
         else if existsb (named (nr_name network)) records then Ret (-1)
         else write_network_records (records ++ [network])
     end).

Definition read_network_info (name : cstr) : prog (option td_network_record) :=
  loaded ← load_network_records TD_NETWORK_MAX_RECORDS;
  Ret (match loaded with None => None | Some records => find_record name records end).

(** -1, 0 or 1. *)
Definition network_info_exists (name : cstr) : prog Z :=
  loaded ← load_network_records TD_NETWORK_MAX_RECORDS;
  Ret (match loaded with
       | None => -1
       | Some records => if existsb (named name) records then 1 else 0
       end).

Definition delete_network_info (name : cstr) : prog Z :=
  with_lock (-1)
    (loaded ← load_network_records TD_NETWORK_MAX_RECORDS;
     match loaded with
     | None => Ret (-1)
     | Some records => write_network_records (List.filter (λ r, negb (named name r)) records)
     end).

(** The allocated address (0 for a failure) and its text. *)
Definition alloc_new_ip (name : cstr) (buf_size : Z) : prog (Z * cstr) :=
  if buf_size <=? 0 then Ret (0, [])
  else
    with_lock (0, [])
      (loaded ← load_network_records TD_NETWORK_MAX_RECORDS;
       match loaded with
       | None => Ret (0, [])
       | Some records =>
           match allocate_records name records with
           | None => Ret (0, [])
           | Some (records', allocated) =>
               written ← write_network_records records';
               Ret (if written =? 0 then (allocated, int_to_str_ip allocated buf_size) else (0, []))
           end
       end).

Definition release_used_ip (name ip : cstr) : prog Z :=
  let address := str_ip_to_int ip in
  if address =? 0 then Ret (-1)
  else
    with_lock (-1)
      (loaded ← load_network_records TD_NETWORK_MAX_RECORDS;
       match loaded with
       | None => Ret (-1)
       | Some records =>
           match release_records name address records with
           | None => Ret (-1)
           | Some records' => write_network_records records'
           end
       end).

(** The table [list_network] prints; a network whose addresses overflow the
    4096-byte line ends it after the head of its row. *)
Definition append_ip_text (ips : result cstr) (ip : Z) : result cstr :=
  used ← ips;
  let text := int_to_str_ip ip 64 ++ lit "," in
  _ ← reject_if (truncated text (4096 - strlen used)) [];
  Ok (used ++ text).
Definition pad_right (width : nat) (s : cstr) : cstr := s ++ replicate (width - length s) SP.
Definition row_head (name driver cidr : cstr) : cstr :=
  pad_right 10 name ++ [TAB] ++ driver ++ [TAB] ++ pad_right 18 cidr ++ [TAB].
Fixpoint print_networks (records : list td_network_record) : prog Z :=
  match records with
  | [] => Ret 0
  | r :: rest =>
      _ ← call (Print (row_head (nr_name r) (nr_driver r) (nr_cidr r)));
      match fold_left append_ip_text (nr_used_ips r) (Ok []) with
      | Err _ => Ret (-1)
      | Ok ips =>
          _ ← call (Print ((if nonempty ips then ips else lit "NULL") ++ [LF]));
          print_networks rest
      end
  end.
Definition list_network : prog Z :=
  loaded ← load_network_records TD_NETWORK_MAX_RECORDS;
  match loaded with
  | None => Ret (-1)
  | Some networks =>
      _ ← call (Print (row_head (lit "NAME") (lit "DRIVER") (lit "CIDR") ++ lit "ALLOC_IPS" ++ [LF]));
      print_networks networks
  end.

#[global] Arguments load_network_records : simpl never.
#[global] Arguments write_network_records : simpl never.
#[global] Arguments allocate_in : simpl never.

(** ** Descriptors *)

Lemma balanced_load capacity : balanced (load_network_records capacity).
Proof.
  intros w. unfold load_network_records. held_step. held_step; [|done].
  held_step. held_step; [|held_step; autorewrite with held; done].
  held_step. held_step; [held_step; autorewrite with held; done|].
  apply wp_bind. apply (wp_iter resources (λ _ w', w' = take_fd a0 w)); [done|].
  intros data w' ->. unfold read_turn. destruct (strlen data <? _).
  - held_step. apply wp_ret. destruct r as [d|e]; [destruct (nonempty d)|destruct (e =? EINTR)]; try done;
      held_step; autorewrite with held; done.
  - apply wp_ret. held_auto.
Qed.
#[export] Hint Resolve balanced_load : balanced.

Lemma balanced_flock fd w : fd ∈ h_fds w →
  wp resources (retry_intr (call (Flock fd))) (λ _ w', w' = w) w.
Proof.
  intros Hfd. apply (wp_retry resources (λ w', w' = w)); [done|]. intros w' ->.
  apply wp_observe; [done|]. intros a. by destruct (failed_with a EINTR).
Qed.

Lemma balanced_with_lock {A} (failed : A) (body : prog A) :
  balanced body → balanced (with_lock failed body).
Proof.
  intros Hb w. unfold with_lock. apply wp_bind. unfold lock_network_state.
  held_step. held_step; [|done]. apply wp_bind. eapply wp_mono; [|apply balanced_flock; auto with held].
  cbv beta. intros locked w' ->. destruct (s_ok locked).
  - apply wp_ret. held_step. held_step. by autorewrite with held.
  - held_step. by autorewrite with held.
Qed.
#[export] Hint Resolve balanced_with_lock : balanced.

Lemma balanced_write_network records : balanced (write_network_records records).
Proof.
  intros w. unfold write_network_records.
  assert (Ho : ∀ l, wp resources (open_temporary l)
    (λ r w', w' = match r with Some (fd, _) => take_fd fd w | None => w end) w).
  { induction l as [|n l IH]; cbn [open_temporary]; [done|]. held_step. cbv zeta. held_step; [done|].
    held_step. held_step; [done|]. held_step; [apply IH|done]. }
  assert (Hw : ∀ fd l, wp resources (write_records fd l) (λ _ w', w' = take_fd fd w) (take_fd fd w)).
  { intros fd l. induction l as [|r l IH]; cbn [write_records]; [done|].
    destruct (td_format_network_record _ _); [|done]. held_step. held_step; [apply IH|done]. }
  apply wp_bind. eapply wp_mono; [|apply Ho]. cbv beta. intros [[fd path]|] w' ->; [|done].
  held_step. held_step.
  { held_step. held_step. by autorewrite with held. }
  apply wp_bind. eapply wp_mono; [|apply Hw]. cbv beta. intros ok w' ->.
  assert (Hd : balanced sync_runtime_dir).
  { intros w'. unfold sync_runtime_dir, discard. held_auto. }
  apply wp_bind. assert (Hf : ∀ b : bool, wp resources (if b then call (Fflush fd) else Ret (SErr 0))
    (λ _ w', w' = take_fd fd w) (take_fd fd w)).
  { intros [|]; [apply wp_observe; auto with held|done]. }
  eapply wp_mono; [|apply Hf]. cbv beta. intros flushed w' ->. apply wp_bind.
  assert (Hs : ∀ b : bool, wp resources (if b then call (Fsync fd) else Ret (SErr 0))
    (λ _ w', w' = take_fd fd w) (take_fd fd w)).
  { intros [|]; [apply wp_observe; auto with held|done]. }
  eapply wp_mono; [|apply Hs]. cbv beta. intros synced w' ->. held_auto.
Qed.
#[export] Hint Resolve balanced_write_network : balanced.

Lemma balanced_store name ip network size :
  balanced (add_network_info network) ∧ balanced (read_network_info name) ∧
  balanced (network_info_exists name) ∧ balanced (delete_network_info name) ∧
  balanced (alloc_new_ip name size) ∧ balanced (release_used_ip name ip).
Proof.
  unfold add_network_info, read_network_info, network_info_exists, delete_network_info, alloc_new_ip,
    release_used_ip. cbv zeta. split_and!; balanced_auto; apply balanced_with_lock; balanced_auto.
Qed.
Lemma balanced_add network : balanced (add_network_info network).
Proof. apply (balanced_store [] [] network 0). Qed.
Lemma balanced_read_info name : balanced (read_network_info name).
Proof. apply (balanced_store name [] demo_network 0). Qed.
Lemma balanced_exists name : balanced (network_info_exists name).
Proof. apply (balanced_store name [] demo_network 0). Qed.
Lemma balanced_delete name : balanced (delete_network_info name).
Proof. apply (balanced_store name [] demo_network 0). Qed.
Lemma balanced_alloc name size : balanced (alloc_new_ip name size).
Proof. apply (balanced_store name [] demo_network size). Qed.
Lemma balanced_release name ip : balanced (release_used_ip name ip).
Proof. apply (balanced_store name ip demo_network 0). Qed.
#[export] Hint Resolve balanced_add balanced_read_info balanced_exists balanced_delete balanced_alloc
  balanced_release : balanced.

(** Every operation on the network state gives back every descriptor it
    takes (state file, lock, temporary file, directory), on every path, and
    never closes one twice. *)
Theorem network_store_balanced name ip network size :
  balanced (add_network_info network) ∧ balanced (read_network_info name) ∧
  balanced (network_info_exists name) ∧ balanced (delete_network_info name) ∧
  balanced (alloc_new_ip name size) ∧ balanced (release_used_ip name ip).
Proof. apply balanced_store. Qed.

(** ** The state file as data *)

Record store_ok (records : list td_network_record) : Prop := {
  st_records : Forall record_ok records;
  st_names : NoDup (map nr_name records);
  st_count : Z.of_nat (length records) ≤ TD_NETWORK_MAX_RECORDS;
}.

Definition state_text (records : list td_network_record) : cstr := lines_text (map record_text records).

Lemma state_text_nul records : Forall record_ok records → NUL ∉ state_text records.
Proof.
  unfold state_text, lines_text. induction 1 as [|r records Hr _ IH]; cbn [map concat].
  { apply not_elem_of_nil. }
  rewrite !elem_of_app, list_elem_of_singleton. intros [[Hin|[=]]|]; [|done].
  revert Hin. apply record_text_plain; auto.
Qed.

Lemma record_text_nonempty r : record_ok r → 0 < strlen (record_text r).
Proof.
  intros _. unfold record_text, record_header. autorewrite with strlen.
  change (strlen (lit ":")) with 1. pose proof (strlen_nonneg (nr_name r)).
  pose proof (strlen_nonneg (nr_driver r)). pose proof (strlen_nonneg (nr_cidr r)).
  pose proof (strlen_nonneg (concat (map ip_text (nr_used_ips r)))). lia.
Qed.

Lemma load_record_text capacity previous r :
  record_ok r → Z.of_nat (length previous) < capacity →
  load_line capacity previous (record_text r) = Ok (previous ++ [r]).
Proof.
  intros Hr Hc. unfold load_line. pose proof (record_text_length r Hr). pose proof (record_text_nonempty r Hr).
  rewrite reject_if_false.
  - rewrite reject_if_false by (apply Z.leb_gt; lia). by rewrite td_parse_record_text.
  - rewrite !orb_false_iff, contains_false, Z.eqb_neq, Z.leb_gt.
    split_and!; [lia|lia|]. apply record_text_plain; auto.
Qed.

Lemma split_state_text records :
  Forall record_ok records →
  split_on is_newline (state_text records) = map record_text records ++ [[]].
Proof.
  unfold state_text, lines_text. induction 1 as [|r records Hr _ IH]; cbn [map concat app]; [done|].
  rewrite <-app_assoc. cbn [app]. rewrite split_on_app, IH by done. rewrite split_on_none; [done|].
  apply Forall_forall. intros c Hc. apply bool_decide_eq_false. intros ->. revert Hc.
  apply record_text_plain; auto.
Qed.

Lemma load_lines_texts capacity records : ∀ previous,
  Forall record_ok records → Z.of_nat (length (previous ++ records)) ≤ capacity →
  load_lines capacity previous (map record_text records ++ [[]]) = Ok (previous ++ records).
Proof.
  induction records as [|r records IH]; intros previous Hr Hl.
  { cbn. by rewrite app_nil_r. }
  apply Forall_cons in Hr as [Hr Hrs]. cbn [map app load_lines].
  assert (E : load_line capacity previous (record_text r) = Ok (previous ++ [r])).
  { apply load_record_text; [done|]. rewrite length_app in Hl. cbn in Hl. lia. }
  destruct (map record_text records ++ [[]]) eqn:Em; [by destruct records|].
  rewrite E. cbn [mbind result_bind]. rewrite IH, <-app_assoc; [done|done|]. by rewrite <-app_assoc.
Qed.

Lemma parse_state_text records :
  store_ok records → parse_network_state TD_NETWORK_MAX_RECORDS (state_text records) = Ok records.
Proof.
  intros [Hr Hn Hc]. unfold parse_network_state.
  rewrite reject_if_false by (by apply contains_false, state_text_nul).
  rewrite split_state_text, load_lines_texts by done. cbn [mbind result_bind app].
  replace (td_network_record_names_are_unique records) with (@Ok unit tt); [done|].
  symmetry. by apply names_are_unique_Ok.
Qed.

Lemma load_lines_sound capacity lines : ∀ previous records,
  load_lines capacity previous lines = Ok records → Forall record_ok previous → Forall record_ok records.
Proof.
  assert (G : ∀ previous line records, load_line capacity previous line = Ok records →
    Forall record_ok previous → Forall record_ok records).
  { intros previous line records. unfold load_line. rewrite !reject_bind_Ok, bind_Ok.
    intros (_ & _ & r & Hr%td_parse_network_record_sound & [= <-]) Hp.
    apply Forall_app; split; [done|by constructor]. }
  induction lines as [|line lines IH]; intros previous records; [by intros [= <-]|].
  destruct lines as [|next lines].
  - cbn [load_lines]. destruct (nonempty line); [apply G|by intros [= <-]].
  - cbn [load_lines]. rewrite bind_Ok. intros (r & Hr & Hl) Hp. eapply IH; [exact Hl|]. by eapply G.
Qed.

Lemma parse_state_sound data records :
  parse_network_state TD_NETWORK_MAX_RECORDS data = Ok records → store_ok records.
Proof.
  unfold parse_network_state. rewrite reject_bind_Ok, bind_Ok.
  intros (_ & r & Hl & H). rewrite bind_Ok in H. destruct H as ([] & Hu & [= ->]).
  apply names_are_unique_Ok in Hu as [??]. constructor; [|done|done].
  by eapply load_lines_sound.
Qed.

(** C29: the file written for a list of well-formed, uniquely named records is
    loaded as that list, and whatever a file holds it is loaded only as such a
    list: loading and saving are inverse on the states the program keeps. *)
Theorem network_state_roundtrip records data :
  (store_ok records → parse_network_state TD_NETWORK_MAX_RECORDS (state_text records) = Ok records) ∧
  (parse_network_state TD_NETWORK_MAX_RECORDS data = Ok records →
     store_ok records ∧ parse_network_state TD_NETWORK_MAX_RECORDS (state_text records) = Ok records).
Proof.
  split; [apply parse_state_text|]. intros H%parse_state_sound. split; [done|by apply parse_state_text].
Qed.

Lemma demo_store_ok : store_ok [demo_network].
Proof.
  constructor; [constructor; [exact demo_network_ok|constructor]| |vm_compute; discriminate].
  cbn. constructor; [apply not_elem_of_nil|constructor].
Defined.

Lemma network_state_roundtrip_witness :
  parse_network_state TD_NETWORK_MAX_RECORDS (state_text [demo_network]) = Ok [demo_network].
Proof. exact (proj1 (network_state_roundtrip [demo_network] []) demo_store_ok). Defined.

(** ** Allocation *)

Lemma first_free_Some fuel maximum used : ∀ candidate c,
  first_free fuel candidate maximum used = Some c →
  candidate ≤ c < maximum ∧ (c ∉ used) ∧ ∀ x, candidate ≤ x < c → x ∈ used.
Proof.
  induction fuel as [|fuel IH]; intros candidate c; cbn [first_free]; [done|].
  case Z.ltb_spec; intros Hlt; [|done]. destruct (existsb _ used) eqn:E.
  - intros (Hc & Hn & Hall)%IH. split_and!; [lia|lia|done|]. intros x Hx.
    destruct (decide (x = candidate)) as [->|]; [|apply Hall; lia].
    apply existsb_exists in E as (y & Hy & ->%Z.eqb_eq). by apply list_elem_of_In.
  - intros [= <-]. apply existsb_eqb in E. split_and!; [lia|lia|done|]. lia.
Qed.

(** [n] consecutive addresses that are all used are at most as many as the used
    ones. *)
Lemma consecutive_used n candidate (used : list Z) :
  (∀ x, candidate ≤ x < candidate + Z.of_nat n → x ∈ used) → (n ≤ length used)%nat.
Proof.
  intros H. set (l := map (λ k, candidate + Z.of_nat k) (seq 0 n)).
  assert (Hl : length l = n) by (unfold l; by rewrite length_map, length_seq).
  rewrite <-Hl. apply List.NoDup_incl_length.
  - apply Injective_map_NoDup; [intros ???; lia|apply seq_NoDup].
  - intros x. unfold l. rewrite in_map_iff. intros (k & <- & Hk). apply in_seq in Hk.
    apply list_elem_of_In, H. lia.
Qed.

Lemma first_free_None fuel maximum used : ∀ candidate,
  (length used < fuel)%nat → first_free fuel candidate maximum used = None →
  ∀ x, candidate ≤ x < maximum → x ∈ used.
Proof.
  assert (G : ∀ fuel candidate, first_free fuel candidate maximum used = None →
    (∀ x, candidate ≤ x < maximum → x ∈ used) ∨
    (∀ x, candidate ≤ x < candidate + Z.of_nat fuel → x ∈ used)).
  { induction fuel0 as [|n IH]; intros candidate; cbn [first_free]; [right; lia|].
    case Z.ltb_spec; intros Hlt; [|intros _; left; lia]. destruct (existsb _ used) eqn:E; [|done].
    apply existsb_exists in E as (y & Hy%list_elem_of_In & ->%Z.eqb_eq).
    intros [H|H]%IH; [left|right]; intros x Hx;
      (destruct (decide (x = y)) as [->|]; [done|apply H; lia]). }
  intros candidate Hf [H|H]%G; [done|]. apply consecutive_used in H. lia.
Qed.

Lemma allocate_in_ok r n p :
  record_ok r → cidr_ok (nr_cidr r) n p →
  match allocate_in r with
  | Some (r', ip) =>
      r' = set_used_ips (nr_used_ips r ++ [ip]) r ∧ allocatable n p ip ∧ (ip ∉ nr_used_ips r) ∧
      (∀ x, allocatable n p x → x < ip → x ∈ nr_used_ips r) ∧ record_ok r'
  | None => used_ip_count r = TD_NETWORK_MAX_USED_IPS ∨ ∀ x, allocatable n p x → x ∈ nr_used_ips r
  end.
Proof.
  intros Hr Hc. pose proof (cidr_ok_bounds _ _ _ Hc) as (Hn & Hp & Hm & Hb).
  assert (H4 : 4 ≤ 2 ^ (32 - p)) by (change 4 with (2 ^ 2); apply Z.pow_le_mono_r; lia).
  pose proof Hr as [_ _ _ _ (n' & p' & Hc' & Hnd & Hall) Hcnt].
  assert (n' = n ∧ p' = p) as [-> ->].
  { destruct Hc as (E & _), Hc' as (E' & _). rewrite E in E'. by injection E'. }
  unfold allocate_in. case Z.leb_spec; intros Hfull; [left; lia|].
  unfold get_cidr_range. destruct Hc as (Ec & _). rewrite Ec, cidr_broadcast_eq by (done || lia).
  unfold u32. rewrite Z.mod_small by lia. case Z.leb_spec; intros Hsmall; [lia|].
  destruct (first_free _ _ _ _) as [ip|] eqn:E.
  - apply first_free_Some in E as (Hrange & Hfree & Hlow). unfold allocatable.
    destruct (Z.eqb_spec ip 0) as [->|_]; [lia|].
    split_and!; [done|lia|lia|done|intros x Hx ?; apply Hlow; lia|].
    assert (Ha : allocatable n p ip) by (unfold allocatable; lia).
    destruct Hr as [? ? ? ? _ _]. constructor; cbn [nr_name nr_driver nr_cidr nr_used_ips set_used_ips]; try done.
    + exists n, p. split_and!; [done| |by apply Forall_app; split; [|constructor]].
      apply NoDup_app. split_and!; [done| |by apply NoDup_singleton].
      by intros x Hx ->%list_elem_of_singleton.
    + unfold used_ip_count in *. cbn [nr_used_ips set_used_ips]. rewrite length_app. cbn. lia.
  - right. intros x Hx. eapply first_free_None; [|exact E|unfold allocatable in Hx; lia]. lia.
Qed.

(** C32: a network hands out its lowest free address: above the gateway, below
    the broadcast address, not allocated, with every lower usable address
    taken; the record with the address added is well formed again.  None is
    handed out only when 128 are taken or no usable address is free. *)
Theorem allocate_lowest_free r n p :
  record_ok r → cidr_ok (nr_cidr r) n p →
  match allocate_in r with
  | Some (r', ip) =>
      r' = set_used_ips (nr_used_ips r ++ [ip]) r ∧ allocatable n p ip ∧ (ip ∉ nr_used_ips r) ∧
      (∀ x, allocatable n p x → x < ip → x ∈ nr_used_ips r) ∧ record_ok r'
  | None => used_ip_count r = TD_NETWORK_MAX_USED_IPS ∨ ∀ x, allocatable n p x → x ∈ nr_used_ips r
  end.
Proof. apply allocate_in_ok. Qed.

Lemma allocate_lowest_free_witness :
  ∃ r, allocate_in demo_network = Some (r, 2886404868) ∧ record_ok r.
Proof.
  assert (E : allocate_in demo_network = Some (set_used_ips [2886404866; 2886404867; 2886404868] demo_network, 2886404868))
    by (vm_compute; reflexivity).
  pose proof (allocate_lowest_free demo_network 2886404864 24 demo_network_ok) as H.
  rewrite E in H. eexists. split; [exact E|]. apply H.
  split; [vm_compute; reflexivity|]. split; [vm_compute; discriminate|].
  eexists _, _. split; vm_compute; reflexivity.
Defined.

Lemma allocate_records_ok name records records' ip :
  store_ok records → allocate_records name records = Some (records', ip) →
  store_ok records' ∧ ip ≠ 0 ∧
  ∃ before r r' after, records = before ++ r :: after ∧ records' = before ++ r' :: after ∧
    nr_name r = name ∧ allocate_in r = Some (r', ip).
Proof.
  intros [Hr Hn Hc].
  assert (G : ∀ records records', Forall record_ok records → allocate_records name records = Some (records', ip) →
    Forall record_ok records' ∧ map nr_name records' = map nr_name records ∧ ip ≠ 0 ∧
    ∃ before r r' after, records = before ++ r :: after ∧ records' = before ++ r' :: after ∧
      nr_name r = name ∧ allocate_in r = Some (r', ip)).
  { clear. induction records as [|r records IH]; intros records' Hr; cbn [allocate_records]; [done|].
    apply Forall_cons in Hr as [Hr Hrs]. destruct (named name r) eqn:Hn.
    - destruct (allocate_in r) as [[r' i]|] eqn:E; [|done]. intros [= <- <-].
      apply bool_decide_eq_true in Hn. pose proof Hr as [_ _ _ _ (n & p & Hc & _) _].
      pose proof (allocate_in_ok r n p Hr Hc) as H. rewrite E in H.
      pose proof (cidr_ok_bounds _ _ _ Hc). destruct H as (Hr' & Ha & _ & _ & Hok). unfold allocatable in Ha.
      split_and!; [by constructor|by rewrite Hr'|lia|]. by exists [], r, r', records.
    - destruct (allocate_records name records) as [[rest i]|] eqn:E; [|done]. intros [= <- <-].
      destruct (IH rest Hrs eq_refl) as (H1 & H2 & H3 & before & r1 & r2 & after & -> & -> & H4 & H5).
      split_and!; [by constructor|cbn; by rewrite H2|done|]. by exists (r :: before), r1, r2, after. }
  intros H. destruct (G _ _ Hr H) as (H1 & H2 & H3 & H4). split_and!; [|done|done].
  constructor; [done|by rewrite H2|]. destruct H4 as (b & r & r' & a & -> & -> & _).
  rewrite !length_app in *. cbn in *. lia.
Qed.

Lemma allocated_address name records records' ip :
  store_ok records → allocate_records name records = Some (records', ip) → 0 ≤ ip ≤ UINT32_MAX.
Proof.
  intros Hs H. pose proof (allocate_records_ok _ _ _ _ Hs H) as (_ & _ & before & r & r' & after & -> & _ & _ & E).
  destruct Hs as [Hr _ _]. apply Forall_app in Hr as [_ Hr]. apply Forall_cons in Hr as [Hr _].
  pose proof Hr as [_ _ _ _ (n & p & Hc & _) _]. pose proof (allocate_in_ok r n p Hr Hc) as G. rewrite E in G.
  destruct G as (_ & Ha & _). pose proof (cidr_ok_bounds _ _ _ Hc). unfold allocatable, UINT32_MAX in *. lia.
Qed.

Lemma str_ip_back ip size : 0 ≤ ip ≤ UINT32_MAX → 16 ≤ size → str_ip_to_int (int_to_str_ip ip size) = ip.
Proof.
  intros Hip Hs. pose proof (inet_ntop_length ip). unfold int_to_str_ip, truncated.
  rewrite (proj2 (Z.leb_gt _ _)) by lia. unfold str_ip_to_int. by rewrite inet_pton_ntop.
Qed.

Lemma release_records_at name address before r after :
  NoDup (map nr_name (before ++ r :: after)) → nr_name r = name →
  release_records name address (before ++ r :: after) = Some (before ++ release_in address r :: after).
Proof.
  intros Hn Hr. induction before as [|b before IH]; cbn [app map release_records] in *.
  - unfold named. by rewrite bool_decide_eq_true_2.
  - apply NoDup_cons in Hn as [Hb Hn]. unfold named at 1. rewrite bool_decide_eq_false_2, IH; [done..|].
    intros E. apply Hb. rewrite map_app, elem_of_app. right. apply elem_of_cons. left. congruence.
Qed.

Lemma release_in_undoes r ip :
  (ip ∉ nr_used_ips r) → release_in ip (set_used_ips (nr_used_ips r ++ [ip]) r) = r.
Proof.
  intros Hip. unfold release_in, set_used_ips. cbn [nr_name nr_driver nr_cidr nr_used_ips].
  rewrite List.filter_app. cbn [List.filter]. rewrite Z.eqb_refl. cbn [negb]. rewrite app_nil_r.
  rewrite forallb_filter_id; [by destruct r|]. apply forallb_forall. intros x Hx%list_elem_of_In.
  apply negb_true_iff, Z.eqb_neq. by intros ->.
Qed.

(** C28: releasing undoes allocating: the address a container was given, kept as
    text in any buffer that holds an address, is read back as the same address,
    and releasing it gives exactly the records of before, the order of the
    networks and of their other addresses included. *)
Theorem release_undoes_allocate name records records' ip size :
  store_ok records → allocate_records name records = Some (records', ip) → 16 ≤ size →
  release_records name (str_ip_to_int (int_to_str_ip ip size)) records' = Some records.
Proof.
  intros Hs H Hsize. rewrite str_ip_back by (done || by eapply allocated_address).
  pose proof (allocate_records_ok _ _ _ _ Hs H) as ([_ Hn' _] & _ & before & r & r' & after & -> & -> & Hname & E).
  destruct Hs as [Hr _ _]. apply Forall_app in Hr as [_ Hr]. apply Forall_cons in Hr as [Hr _].
  pose proof Hr as [_ _ _ _ (n & p & Hc & _) _]. pose proof (allocate_in_ok r n p Hr Hc) as G. rewrite E in G.
  destruct G as (-> & _ & Hip & _). rewrite release_records_at by done. by rewrite release_in_undoes.
Qed.

Lemma release_undoes_allocate_witness :
  ∃ records', allocate_records (nr_name demo_network) [demo_network] = Some (records', 2886404868) ∧
    release_records (nr_name demo_network) (str_ip_to_int (int_to_str_ip 2886404868 64)) records' = Some [demo_network].
Proof.
  eexists. split; [vm_compute; reflexivity|].
  apply (release_undoes_allocate (nr_name demo_network) [demo_network] _ 2886404868 64); [|vm_compute; reflexivity|vm_compute; discriminate].
  split; [by constructor; [apply demo_network_ok|constructor]|apply NoDup_singleton|vm_compute; discriminate].
Defined.

(** ** The file as a shared object *)

(** What a process knows of the state file: its open descriptors, the one that
    holds the lock, the one the state file is read from, what was read of it
    (since the lock was taken), the temporary file it is writing (path, stream
    and text) and the text it last put in the place of the state file. *)
Record store := Store {
  so_open : list nat;
  so_lock : option nat;
  so_file : option nat;
  so_loaded : option cstr;
  so_temp : option (cstr * nat * cstr);
  so_published : option cstr;
}.

(** The state file is replaced only under the lock, after it was read under the
    lock, and only by the temporary file; nothing but the temporary file is
    unlinked. *)
Definition store_ok_call (w : store) (c : syscall) : Prop :=
  match c with
  | Rename old new =>
      new = CONTAINER_NETWORKS_FILE ∧ is_Some (so_lock w) ∧ is_Some (so_loaded w) ∧
      ∃ fd text, so_temp w = Some (old, fd, text)
  | Unlink path => ∃ fd text, so_temp w = Some (path, fd, text)
  | Renameat _ _ _ _ | Unlinkat _ _ | Rmdir _ | Nftw _ => False
  | _ => True
  end.

Definition opened (w : store) (path : cstr) (flags : list oflag) (fd : nat) : store :=
  let w' := Store (fd :: so_open w) (so_lock w) (so_file w) (so_loaded w) (so_temp w) (so_published w) in
  if bool_decide (O_EXCL ∈ flags) then
    Store (so_open w') (so_lock w') (so_file w') (so_loaded w') (Some (path, fd, [])) (so_published w')
  else if bool_decide (path = CONTAINER_NETWORKS_FILE) then
    Store (so_open w') (so_lock w') (Some fd) (Some []) (so_temp w') (so_published w')
  else w'.
Definition closed (w : store) (fd : nat) : store :=
  Store (remove1 fd (so_open w))
    (if bool_decide (so_lock w = Some fd) then None else so_lock w)
    (if bool_decide (so_file w = Some fd) then None else so_file w)
    (so_loaded w) (so_temp w) (so_published w).

Definition store_step (w : store) (c : syscall) : ans c → store :=
  match c with
  | Open path flags _ => λ r : sysret nat,
      match r with
      | SOk fd => opened w path flags fd
      | SErr e =>
          if bool_decide (path = CONTAINER_NETWORKS_FILE) && (e =? ENOENT) then
            Store (so_open w) (so_lock w) (so_file w) (Some []) (so_temp w) (so_published w)
          else w
      end
  | Read fd count => λ r : sysret cstr,
      match r, so_loaded w with
      | SOk d, Some text =>
          if bool_decide (so_file w = Some fd) then
            Store (so_open w) (so_lock w) (so_file w) (Some (text ++ take (Z.to_nat count) d))
              (so_temp w) (so_published w)
          else w
      | _, _ => w
      end
  | Flock fd => λ r : sysret unit,
      if s_ok r then Store (so_open w) (Some fd) (so_file w) None (so_temp w) (so_published w) else w
  | Close fd | Fclose fd => λ _, closed w fd
  | Fputs fd t => λ r : sysret unit,
      match so_temp w with
      | Some (path, tfd, text) =>
          if s_ok r && (tfd =? fd)%nat then
            Store (so_open w) (so_lock w) (so_file w) (so_loaded w) (Some (path, tfd, text ++ t))
              (so_published w)
          else w
      | None => w
      end
  | Rename _ _ => λ r : sysret unit,
      match so_temp w with
      | Some (_, _, text) =>
          if s_ok r then
            Store (so_open w) (so_lock w) (so_file w) (so_loaded w) None (Some text)
          else w
      | None => w
      end
  | Unlink _ => λ _, Store (so_open w) (so_lock w) (so_file w) (so_loaded w) None (so_published w)
  | _ => λ _, w
  end.

(** [open] returns a descriptor that is not open. *)
Definition fresh_answer (w : store) (c : syscall) : ans c → Prop :=
  match c with
  | Open _ _ _ => λ r : sysret nat, match r with SOk fd => fd ∉ so_open w | SErr _ => True end
  | _ => λ _, True
  end.
Definition storing : model store :=
  Model store_ok_call (λ w c a w', fresh_answer w c a ∧ w' = store_step w c a).

Lemma wp_store {A} c (f : ans c → prog A) Q w :
  store_ok_call w c →
  (∀ a, fresh_answer w c a → wp storing (f a) Q (store_step w c a)) →
  wp storing (call c ≫= f) Q w.
Proof. intros Hok H. apply wp_bind. split; [done|]. intros a w' [Ha ->]. by apply H. Qed.

(** Everything but what is being read is as before. *)
Definition framed (w w' : store) : Prop :=
  so_open w' = so_open w ∧ so_lock w' = so_lock w ∧ so_temp w' = so_temp w ∧
  so_published w' = so_published w.

Definition lock_held (w : store) : Prop := match so_lock w with Some fd => fd ∈ so_open w | None => True end.

Lemma closed_framed w fd o l f loaded t p :
  fd ∉ o → match l with Some x => x ∈ o | None => True end → w = Store (fd :: o) l f loaded t p →
  so_open (closed w fd) = o ∧ so_lock (closed w fd) = l ∧ so_temp (closed w fd) = t ∧
  so_published (closed w fd) = p ∧ so_loaded (closed w fd) = loaded.
Proof.
  intros Hfd Hl ->. unfold closed. cbn [so_open so_lock so_temp so_published so_loaded].
  rewrite remove1_head. split_and!; try done. case_bool_decide as E; [|done]. by subst l.
Qed.

Lemma opened_state w fd :
  opened w CONTAINER_NETWORKS_FILE [O_RDONLY; O_CLOEXEC; O_NOFOLLOW] fd =
  Store (fd :: so_open w) (so_lock w) (Some fd) (Some []) (so_temp w) (so_published w).
Proof. reflexivity. Qed.
Lemma opened_other w path flags fd :
  bool_decide (O_EXCL ∈ flags) = false → bool_decide (path = CONTAINER_NETWORKS_FILE) = false →
  opened w path flags fd =
  Store (fd :: so_open w) (so_lock w) (so_file w) (so_loaded w) (so_temp w) (so_published w).
Proof. intros E1 E2. unfold opened. by rewrite E1, E2. Qed.
Lemma opened_temporary w path fd :
  opened w path [O_WRONLY; O_CREAT; O_EXCL; O_CLOEXEC; O_NOFOLLOW] fd =
  Store (fd :: so_open w) (so_lock w) (so_file w) (so_loaded w) (Some (path, fd, [])) (so_published w).
Proof. reflexivity. Qed.

Lemma wp_close_framed {A} (x : A) fd o l f loaded t p w0 (R : A → option cstr → Prop) :
  fd ∉ o → match l with Some x => x ∈ o | None => True end →
  framed w0 (Store o l f loaded t p) → R x loaded →
  wp storing (_ ← call (Close fd); Ret x) (λ r w', framed w0 w' ∧ R r (so_loaded w'))
    (Store (fd :: o) l f loaded t p).
Proof.
  intros Hfd Hl Hw HR. apply wp_store; [done|]. intros a _. apply wp_ret. cbn [store_step].
  pose proof (closed_framed _ fd o l f loaded t p Hfd Hl eq_refl) as (H1 & H2 & H3 & H4 & H5).
  unfold framed in *. rewrite H1, H2, H3, H4, H5. done.
Qed.

Lemma load_spec w :
  lock_held w →
  wp storing (load_network_records TD_NETWORK_MAX_RECORDS)
    (λ r w', framed w w' ∧ ∀ records, r = Some records → ∃ data,
       so_loaded w' = Some data ∧ parse_network_state TD_NETWORK_MAX_RECORDS data = Ok records) w.
Proof.
  destruct w as [o l f loaded t p]. unfold lock_held. cbn [so_lock so_open]. intros Hl.
  set (R := λ (r : option (list td_network_record)) (loaded : option cstr), ∀ records, r = Some records →
    ∃ data, loaded = Some data ∧ parse_network_state TD_NETWORK_MAX_RECORDS data = Ok records).
  unfold load_network_records. apply wp_store; [done|]. intros [fd|e] Hfresh; cbn [store_step].
  2:{ rewrite bool_decide_eq_true_2 by done. cbn [andb]. destruct (e =? ENOENT); apply wp_ret; (split; [done|]).
      - intros r [= <-]. by exists [].
      - done. }
  cbn [fresh_answer so_open] in Hfresh. rewrite opened_state. cbn [so_open so_lock so_temp so_published].
  apply wp_store; [done|]. intros st _. cbn [store_step]. destruct (safe_size _ st) as [size|].
  2:{ by apply (wp_close_framed None fd o l (Some fd) (Some []) t p _ R). }
  apply wp_store; [done|]. intros [|] _; cbn [store_step negb].
  2:{ by apply (wp_close_framed None fd o l (Some fd) (Some []) t p _ R). }
  apply wp_bind. apply (wp_iter storing (λ data w', w' = Store (fd :: o) l (Some fd) (Some data) t p)); [done|].
  intros data w ->. unfold read_turn. destruct (strlen data <? size).
  - apply wp_bind. unfold sys_read. apply wp_store; [done|]. intros r _. apply wp_ret, wp_ret.
    cbn [store_step so_loaded so_file]. rewrite bool_decide_eq_true_2 by done.
    destruct r as [d|e].
    + cbn [so_open so_lock so_temp so_published so_file]. destruct (take _ d) eqn:Ed; cbn [nonempty]; [|by rewrite <-Ed].
      apply wp_store; [done|]. intros a _. apply wp_ret.
      pose proof (closed_framed _ fd o l (Some fd) (Some (data ++ [])) t p Hfresh Hl eq_refl) as (H1 & H2 & H3 & H4 & _).
      cbn [store_step]. unfold framed. rewrite H1, H2, H3, H4. done.
    + destruct (e =? EINTR); [done|]. apply wp_store; [done|]. intros a _. apply wp_ret.
      pose proof (closed_framed _ fd o l (Some fd) (Some data) t p Hfresh Hl eq_refl) as (H1 & H2 & H3 & H4 & _).
      cbn [store_step]. unfold framed. rewrite H1, H2, H3, H4. done.
  - apply wp_ret. apply wp_store; [done|]. intros a _. cbn [store_step].
    pose proof (closed_framed _ fd o l (Some fd) (Some data) t p Hfresh Hl eq_refl) as (H1 & H2 & H3 & H4 & H5).
    destruct (negb (s_ok a)); [|destruct (parse_network_state _ _) eqn:E]; apply wp_ret; unfold framed;
      rewrite H1, H2, H3, H4, H5; (split; [done|]); try done.
    intros records [= <-]. by exists data.
Qed.

Lemma open_temporary_spec o lk f loaded p l :
  wp storing (open_temporary l)
    (λ r w', match r with
       | Some (fd, path) => (fd ∉ o) ∧ w' = Store (fd :: o) lk f loaded (Some (path, fd, [])) p
       | None => w' = Store o lk f loaded None p
       end) (Store o lk f loaded None p).
Proof.
  induction l as [|n l IH]; cbn [open_temporary]; [done|].
  apply wp_store; [done|]. intros pid _. cbn [store_step]. cbv zeta. destruct (truncated _ _); [done|].
  apply wp_store; [done|]. intros [fd|e] Hfresh; cbn [store_step].
  - apply wp_ret. rewrite opened_temporary. done.
  - assert (Hn : bool_decide (temporary_text pid n = CONTAINER_NETWORKS_FILE) = false).
    { apply bool_decide_eq_false_2. intros E. apply (f_equal strlen) in E. unfold temporary_text in E.
      rewrite !strlen_app in E. change (strlen (lit ".tmp.")) with 5 in E.
      pose proof (strlen_nonneg (fmt_d pid)). pose proof (strlen_nonneg (fmt_u (Z.of_nat n))).
      pose proof (strlen_nonneg (lit ".")). lia. }
    rewrite Hn. cbn [andb]. by destruct (e =? EEXIST).
Qed.

Lemma write_records_spec path fd o lk f loaded p records : ∀ text,
  Forall record_ok records →
  wp storing (write_records fd records)
    (λ b w', ∃ text', w' = Store o lk f loaded (Some (path, fd, text')) p ∧
       (b = true → text' = text ++ state_text records))
    (Store o lk f loaded (Some (path, fd, text)) p).
Proof.
  induction records as [|r records IH]; intros text Hr; cbn [write_records].
  { apply wp_ret. exists text. split; [done|]. intros _. by rewrite app_nil_r. }
  apply Forall_cons in Hr as [Hr Hrs]. pose proof (record_text_length r Hr).
  rewrite td_format_network_record_Ok by (done || lia).
  apply wp_store; [done|]. intros a _. cbn [store_step so_temp]. rewrite Nat.eqb_refl, andb_true_r.
  destruct (s_ok a); cbn [so_open so_lock so_file so_loaded so_published].
  - eapply wp_mono; [|by apply IH]. cbv beta. intros b w' (text' & -> & Ht). exists text'.
    split; [done|]. intros Hb. rewrite (Ht Hb), <-app_assoc. done.
  - apply wp_ret. by exists text.
Qed.

(** Unlinking the temporary file ends a failed replacement. *)
Lemma wp_give_up path fd text o lk f loaded p (Q : Z → store → Prop) :
  Q (-1) (Store o lk f loaded None p) →
  wp storing (_ ← call (Unlink path); Ret (-1)) Q (Store o lk f loaded (Some (path, fd, text)) p).
Proof. intros H. apply wp_store; [by exists fd, text|]. intros a _. by apply wp_ret. Qed.

Lemma closed_eq fd o lk f loaded t p :
  match lk with Some x => x ∈ o | None => True end → fd ∉ o →
  ∃ f', closed (Store (fd :: o) lk f loaded t p) fd = Store o lk f' loaded t p.
Proof.
  intros Hl Hfd. unfold closed. cbn [so_open so_lock so_file so_loaded so_temp so_published].
  rewrite remove1_head, (bool_decide_eq_false_2 (lk = Some fd)); [by eexists|]. by intros ->.
Qed.

Lemma sync_runtime_dir_spec o lk f loaded t p :
  match lk with Some x => x ∈ o | None => True end →
  wp storing sync_runtime_dir (λ _ w', ∃ f', w' = Store o lk f' loaded t p) (Store o lk f loaded t p).
Proof.
  intros Hl. unfold sync_runtime_dir, discard. apply wp_store; [done|].
  intros [fd|e] Hfresh; cbn [store_step].
  - rewrite opened_other by reflexivity. cbn [fresh_answer so_open so_lock so_file so_loaded so_temp so_published] in *.
    apply wp_store; [done|]. intros s _. cbn [store_step]. apply wp_store; [done|]. intros c _.
    apply wp_ret. cbn [store_step]. by apply closed_eq.
  - change (bool_decide (TINYDOCKER_RUNTIME_DIR = CONTAINER_NETWORKS_FILE)) with false. cbn [andb].
    apply wp_ret. by exists f.
Qed.

Lemma write_network_spec records o lk f data p :
  Forall record_ok records → lk ∈ o →
  wp storing (write_network_records records)
    (λ r w', ∃ f', r = 0 ∧ w' = Store o (Some lk) f' (Some data) None (Some (state_text records)) ∨
                   r = -1 ∧ w' = Store o (Some lk) f' (Some data) None p)
    (Store o (Some lk) f (Some data) None p).
Proof.
  intros Hr Hl. unfold write_network_records. apply wp_bind.
  eapply wp_mono; [|apply open_temporary_spec]. cbv beta.
  intros [[fd path]|] w'; [|intros ->; apply wp_ret; exists f; auto]. intros [Hfd ->].
  assert (Hfail : ∀ f' text, wp storing (_ ← call (Unlink path); Ret (-1))
    (λ r w', ∃ f', r = 0 ∧ w' = Store o (Some lk) f' (Some data) None (Some (state_text records)) ∨
                   r = -1 ∧ w' = Store o (Some lk) f' (Some data) None p)
    (Store o (Some lk) f' (Some data) (Some (path, fd, text)) p)).
  { intros f' text. apply wp_give_up. exists f'. auto. }
  assert (Hclose : ∀ text, ∃ f', closed (Store (fd :: o) (Some lk) f (Some data) (Some (path, fd, text)) p) fd =
    Store o (Some lk) f' (Some data) (Some (path, fd, text)) p).
  { intros text. by apply closed_eq. }
  apply wp_store; [done|]. intros s _. cbn [store_step]. destruct (negb (s_ok s)).
  { apply wp_store; [done|]. intros c _. cbn [store_step]. destruct (Hclose []) as (f' & ->). apply Hfail. }
  apply wp_bind. eapply wp_mono; [|by apply write_records_spec]. cbv beta.
  intros b w' (text & -> & Ht). set (w := Store (fd :: o) _ _ _ _ _).
  apply wp_bind. apply (wp_mono _ _ (λ r w', w' = w ∧ (s_ok r = true → b = true))).
  2:{ destruct b; [|by apply wp_ret]. split; [done|]. intros a w'' [_ ->]. done. }
  intros flushed w' [-> Hb]. apply wp_bind.
  apply (wp_mono _ _ (λ r w', w' = w ∧ (s_ok r = true → s_ok flushed = true))).
  2:{ destruct (s_ok flushed); [|by apply wp_ret]. split; [done|]. intros a w'' [_ ->]. done. }
  intros synced w' [-> Hf]. destruct (s_ok synced); cbn [negb].
  2:{ apply wp_store; [done|]. intros c _. cbn [store_step]. unfold w. destruct (Hclose text) as (f' & ->). apply Hfail. }
  specialize (Ht (Hb (Hf eq_refl))). cbn [app] in Ht. subst text.
  apply wp_store; [done|]. intros c _. cbn [store_step]. unfold w.
  destruct (Hclose (state_text records)) as (f' & ->). destruct (negb (s_ok c)); [apply Hfail|].
  apply wp_store; [split_and!; [done|by eexists|by eexists|by eexists _, _]|]. intros r _.
  cbn [store_step so_temp]. destruct (s_ok r); cbn [negb so_open so_lock so_file so_loaded so_published]; [|apply Hfail].
  apply wp_bind. eapply wp_mono; [|by apply sync_runtime_dir_spec]. cbv beta.
  intros _ w' (f'' & ->). apply wp_ret. exists f''. auto.
Qed.

(** A process that has touched nothing, and one that is done: no descriptor, no
    lock, no temporary file, and what it published. *)
Definition idle : store := Store [] None None None None None.
Definition done_with (w : store) (published : option cstr) : Prop :=
  so_open w = [] ∧ so_lock w = None ∧ so_temp w = None ∧ so_published w = published.

(** The state a locked body starts from. *)
Definition locked_state (fd : nat) : store := Store [fd] (Some fd) None None None None.

Lemma wp_with_lock {A} (failed : A) (body : prog A) (Q : A → store → Prop) :
  (∀ w, done_with w None → Q failed w) →
  (∀ fd, wp storing body (λ r w', so_open w' = [fd] ∧ so_lock w' = Some fd ∧ so_temp w' = None ∧
     ∀ w'', done_with w'' (so_published w') → so_loaded w'' = so_loaded w' → Q r w'') (locked_state fd)) →
  wp storing (with_lock failed body) Q idle.
Proof.
  intros Hf Hb. unfold with_lock, lock_network_state. apply wp_bind.
  apply wp_store; [done|]. intros [fd|e] _; cbn [store_step].
  2:{ change (bool_decide (lock_path = CONTAINER_NETWORKS_FILE)) with false. cbn [andb].
      apply wp_ret, wp_ret. by apply Hf. }
  rewrite opened_other by reflexivity. cbn [so_open so_lock so_file so_loaded so_temp so_published idle].
  apply wp_bind. apply (wp_retry storing (λ w, w = Store [fd] None None None None None)); [done|].
  intros w ->. split; [done|]. intros r w' [_ ->]. apply wp_ret. cbn [store_step].
  destruct r as [u|e]; cbn [s_ok failed_with so_open so_file so_temp so_published].
  - apply wp_ret. fold (locked_state fd). apply wp_bind. eapply wp_mono; [|apply Hb].
    cbv beta. intros r w' (Ho & Hl & Ht & HQ). apply wp_store; [done|]. intros c _. apply wp_ret. apply HQ.
    + cbn [store_step]. unfold closed, done_with. cbn [so_open so_lock so_temp so_published].
      rewrite Ho, Hl, remove1_head, bool_decide_eq_true_2 by done. done.
    + done.
  - destruct (e =? EINTR); [done|]. apply wp_store; [done|]. intros c _. apply wp_ret, wp_ret. apply Hf.
    cbn [store_step]. unfold closed. cbn [so_open]. by rewrite remove1_head.
Qed.

(** What a transaction that reads the records and publishes new ones does. *)
Definition replaced (w : store) (change : list td_network_record → list td_network_record → Prop) : Prop :=
  ∃ data records records', so_loaded w = Some data ∧
    parse_network_state TD_NETWORK_MAX_RECORDS data = Ok records ∧ change records records' ∧
    store_ok records' ∧ done_with w (Some (state_text records')).

(** Loading in a locked state. *)
Lemma wp_load_locked {A} fd (k : option (list td_network_record) → prog A) (Q : A → store → Prop) :
  (∀ w, so_open w = [fd] → so_lock w = Some fd → so_temp w = None → so_published w = None →
     wp storing (k None) Q w) →
  (∀ f data records, parse_network_state TD_NETWORK_MAX_RECORDS data = Ok records → store_ok records →
     wp storing (k (Some records)) Q (Store [fd] (Some fd) f (Some data) None None)) →
  wp storing (load_network_records TD_NETWORK_MAX_RECORDS ≫= k) Q (locked_state fd).
Proof.
  intros Hn Hs. apply wp_bind. eapply wp_mono; [|apply load_spec; by left]. cbv beta.
  intros [records|] [o lk f loaded t p] [(Ho & Hl & Ht & Hp) H]; cbn in Ho, Hl, Ht, Hp; subst.
  - destruct (H records eq_refl) as (data & Hd & Hparse). cbn in Hd. subst loaded. apply Hs; [done|].
    by eapply parse_state_sound.
  - by apply Hn.
Qed.

(** *** From the buffer of the stream to the disk *)

(** The stream the new state is printed to: its descriptor, whether it buffers
    text that was not flushed, whether all of it was synchronised since, and
    whether the stream was closed without an error. *)
Record printing := Printing { pr_fd : nat; pr_buffered : bool; pr_synced : bool; pr_closed : bool }.

Definition durable_ok (w : option printing) (c : syscall) : Prop :=
  match c with Rename _ _ => ∃ fd, w = Some (Printing fd false true true) | _ => True end.
Definition durable_step (w : option printing) (c : syscall) : ans c → option printing :=
  let on fd (f : printing → printing) :=
    match w with Some p => if (pr_fd p =? fd)%nat then Some (f p) else w | None => w end in
  match c with
  | Fdopen fd => λ r : sysret unit, if s_ok r then Some (Printing fd false false false) else w
  | Fputs fd _ => λ _, on fd (λ p, Printing fd true false (pr_closed p))
  | Fflush fd => λ r : sysret unit,
      on fd (λ p, if s_ok r then Printing fd false (pr_synced p) (pr_closed p) else p)
  | Fsync fd => λ r : sysret unit,
      on fd (λ p, if s_ok r && negb (pr_buffered p) then Printing fd false true (pr_closed p) else p)
  | Fclose fd => λ r : sysret unit,
      on fd (λ p, if s_ok r then Printing fd (pr_buffered p) (pr_synced p) true else p)
  | _ => λ _, w
  end.
Definition durable : model (option printing) := observer durable_ok durable_step.

Definition durably {A} (p : prog A) : Prop := ∀ w, wp durable p (λ _ _, True) w.
Definition no_rename (c : syscall) : bool := match c with Rename _ _ => false | _ => true end.

Lemma durably_only {A} (p : prog A) : only no_rename p → durably p.
Proof. intros Hp w. by apply (only_sound _ no_rename (λ _, True)); [intros w' [] _| | |]. Qed.
Lemma durably_bind {A B} (p : prog A) (f : A → prog B) : durably p → (∀ a, durably (f a)) → durably (p ≫= f).
Proof. intros Hp Hf w. apply wp_bind. eapply wp_mono; [|apply Hp]. intros a w' _. apply Hf. Qed.

Lemma write_records_durable fd l : ∀ p, pr_fd p = fd → pr_closed p = false →
  wp durable (write_records fd l) (λ r w, ∃ p', w = Some p' ∧ pr_fd p' = fd ∧ pr_closed p' = false) (Some p).
Proof.
  induction l as [|r l IH]; intros p Hp Hc; cbn [write_records]; [apply wp_ret; by exists p|].
  destruct (td_format_network_record _ _); [|apply wp_ret; by exists p].
  apply wp_bind, wp_observe; [done|]. intros printed. cbn [durable_step]. rewrite Hp, Nat.eqb_refl.
  destruct (s_ok printed); [by apply IH|]. apply wp_ret. by eexists.
Qed.

(** The temporary file takes the place of the state file only when all that was
    printed is flushed, synchronised, and the stream closed. *)
Lemma write_network_durable records : durably (write_network_records records).
Proof.
  assert (Ho : ∀ l, only no_rename (open_temporary l)) by (induction l as [|n l IH]; cbn [open_temporary]; only_auto).
  unfold write_network_records. apply durably_bind; [by apply durably_only|]. intros [[fd path]|]; [|done].
  intros w. apply wp_bind, wp_observe; [done|]. intros [u|e]; cbn [durable_step s_ok negb].
  2:{ apply durably_only. only_auto. }
  apply wp_bind. eapply wp_mono; [|by apply write_records_durable]. intros written w1 ([f b s c] & -> & Hf & Hc).
  cbn in Hf, Hc. subst f c.
  apply wp_bind. apply (wp_mono _ _ (λ r w, s_ok r = true → w = Some (Printing fd false s false))).
  2:{ destruct written; [|by apply wp_ret]. apply wp_observe; [done|]. intros [u'|e]; cbn [durable_step s_ok pr_fd]; [|done].
      by rewrite Nat.eqb_refl. }
  intros flushed w2 H2. apply wp_bind.
  apply (wp_mono _ _ (λ r w, s_ok r = true → w = Some (Printing fd false true false))).
  2:{ destruct (s_ok flushed); [|by apply wp_ret]. rewrite H2 by done. apply wp_observe; [done|].
      intros [u'|e]; cbn [durable_step s_ok pr_fd pr_buffered negb andb]; [|done]. by rewrite Nat.eqb_refl. }
  intros synced w3 H3. destruct (s_ok synced); cbn [negb]; [|apply durably_only; only_auto].
  rewrite H3 by done. apply wp_bind, wp_observe; [done|]. intros [u'|e]; cbn [s_ok negb]; [|apply durably_only; only_auto].
  cbn [durable_step pr_fd s_ok]. rewrite Nat.eqb_refl. cbn [pr_buffered pr_synced].
  apply wp_bind, wp_observe; [by exists fd|]. intros renamed. apply durably_only.
  unfold sync_runtime_dir, discard. destruct (negb (s_ok renamed)); only_auto.
Qed.

Lemma load_durable : durably (load_network_records TD_NETWORK_MAX_RECORDS).
Proof. apply durably_only. unfold load_network_records, read_exactly, read_turn, sys_read. only_auto. Qed.
Lemma with_lock_durable {A} (failed : A) body : durably body → durably (with_lock failed body).
Proof.
  intros Hb. unfold with_lock. apply durably_bind; [apply durably_only; unfold lock_network_state; only_auto|].
  intros [fd|]; [|done]. apply durably_bind; [done|]. intros r. apply durably_only. only_auto.
Qed.

Lemma wp_durable {A} (p : prog A) (Q : A → store → Prop) w :
  durably p → wp storing p Q w → wp (beside storing durable) p (λ r w, Q r w.1) (w, None).
Proof. intros Hp H. eapply wp_mono; [|apply wp_beside; [exact H|apply Hp]]. by intros a w' [? _]. Qed.

(** C18: an allocation returns an address only after it has, under the lock on
    the state, read the records, chosen the lowest free address of the network
    and put in the place of the file the records with that address added, which
    load back as such and were flushed, synchronised and closed before; otherwise it returns 0 and has published nothing.  The
    lock is released and no temporary file is left in either case. *)
Theorem alloc_new_ip_refines name size :
  wp (beside storing durable) (alloc_new_ip name size)
    (λ r w, r = (0, []) ∧ done_with w.1 None ∨
       r.1 ≠ 0 ∧ r.2 = int_to_str_ip r.1 size ∧
       replaced w.1 (λ records records', allocate_records name records = Some (records', r.1))) (idle, None).
Proof.
  apply (wp_durable _ (λ r w, r = (0, []) ∧ done_with w None ∨
    r.1 ≠ 0 ∧ r.2 = int_to_str_ip r.1 size ∧
    replaced w (λ records records', allocate_records name records = Some (records', r.1)))).
  { unfold alloc_new_ip. destruct (size <=? 0); [done|]. apply with_lock_durable, durably_bind; [apply load_durable|].
    intros [records|]; [|done]. destruct (allocate_records name records) as [[records' ip]|]; [|done].
    apply durably_bind; [apply write_network_durable|done]. }
  unfold alloc_new_ip. destruct (size <=? 0); [by left|]. apply wp_with_lock; [auto|]. intros fd.
  apply wp_load_locked.
  { intros w Ho Hl Ht Hp. apply wp_ret. split_and!; [done|done|done|]. rewrite Hp. auto. }
  intros f data records Hparse Hok. destruct (allocate_records name records) as [[records' ip]|] eqn:E.
  2:{ apply wp_ret. split_and!; [done|done|done|]. auto. }
  destruct (allocate_records_ok _ _ _ _ Hok E) as (Hok' & Hip & _).
  apply wp_bind. eapply wp_mono; [|apply write_network_spec; [by destruct Hok'|by left]].
  cbv beta. intros r w (f' & [[-> ->]|[-> ->]]); apply wp_ret; (split_and!; [done|done|done|]).
  - intros w' Hd Hl. right. cbn [fst snd Z.eqb]. split_and!; [done|done|]. by exists data, records, records'.
  - auto.
Qed.

(** *** Releasing, adding and deleting *)

Lemma release_in_ok address r : record_ok r → record_ok (release_in address r).
Proof.
  intros [? ? ? ? (n & p & Hc & Hnd & Hf) Hcnt]. unfold release_in.
  constructor; cbn [nr_name nr_driver nr_cidr nr_used_ips set_used_ips]; try done.
  - exists n, p. split_and!; [done| |].
    + apply NoDup_ListNoDup, List.NoDup_filter. by apply NoDup_ListNoDup.
    + rewrite Forall_forall in Hf. apply Forall_forall. intros x [Hx _]%list_elem_of_In%List.filter_In.
      by apply Hf, list_elem_of_In.
  - unfold used_ip_count in *. cbn [nr_used_ips set_used_ips].
    pose proof (List.filter_length_le (λ ip, negb (ip =? address)) (nr_used_ips r)). lia.
Qed.

Lemma release_records_ok name address records records' :
  store_ok records → release_records name address records = Some records' →
  store_ok records' ∧ ∃ before r after, records = before ++ r :: after ∧ nr_name r = name ∧
    records' = before ++ release_in address r :: after.
Proof.
  intros [Hr Hn Hc] H.
  assert (G : ∃ before r after, records = before ++ r :: after ∧ nr_name r = name ∧
    records' = before ++ release_in address r :: after).
  { clear Hr Hn Hc. revert records' H. induction records as [|r records IH]; intros records'; cbn; [done|].
    destruct (named name r) eqn:E.
    - intros [= <-]. apply bool_decide_eq_true in E. by exists [], r, records.
    - destruct (release_records name address records) as [rest|]; [|done]. intros [= <-].
      destruct (IH rest eq_refl) as (b & x & a & -> & ? & ->). by exists (r :: b), x, a. }
  split; [|done]. destruct G as (b & r & a & -> & _ & ->).
  constructor.
  - rewrite Forall_app, Forall_cons in *. destruct Hr as (? & ? & ?). split_and!; auto using release_in_ok.
  - by rewrite map_app, map_cons in *.
  - rewrite length_app in *. done.
Qed.

Lemma filter_store_ok f records : store_ok records → store_ok (List.filter f records).
Proof.
  intros [Hr Hn Hc]. constructor.
  - rewrite Forall_forall in *. intros r [Hin _]%list_elem_of_In%List.filter_In. by apply Hr, list_elem_of_In.
  - clear Hr Hc. induction records as [|r records IH]; cbn [List.filter map]; [done|].
    apply NoDup_cons in Hn as [Hni Hn]. destruct (f r); [|auto]. cbn [map]. apply NoDup_cons. split; [|auto].
    intros Hin. apply Hni. apply list_elem_of_fmap in Hin as (x & Hx & Hin).
    apply list_elem_of_fmap. exists x. split; [done|].
    apply list_elem_of_In in Hin. apply List.filter_In in Hin as [Hin _]. by apply list_elem_of_In.
  - pose proof (List.filter_length_le f records). lia.
Qed.

Lemma existsb_named name records : existsb (named name) records = false ↔ name ∉ map nr_name records.
Proof.
  rewrite <-not_true_iff_false, existsb_exists, list_elem_of_fmap. unfold named.
  setoid_rewrite bool_decide_eq_true. setoid_rewrite list_elem_of_In. naive_solver.
Qed.

(** The end of a transaction: the new records are written and the lock given
    back. *)
Lemma wp_publish fd f data records records' change :
  parse_network_state TD_NETWORK_MAX_RECORDS data = Ok records → store_ok records' →
  change records records' →
  wp storing (write_network_records records')
    (λ r w', so_open w' = [fd] ∧ so_lock w' = Some fd ∧ so_temp w' = None ∧
       ∀ w'', done_with w'' (so_published w') → so_loaded w'' = so_loaded w' →
         r = -1 ∧ done_with w'' None ∨ r = 0 ∧ replaced w'' change)
    (Store [fd] (Some fd) f (Some data) None None).
Proof.
  intros Hparse Hok Hch. eapply wp_mono; [|apply write_network_spec; [by destruct Hok|by left]].
  cbv beta. intros r w (f' & [[-> ->]|[-> ->]]); (split_and!; [done|done|done|]); [|auto].
  intros w' Hd Hl. right. split; [done|]. by exists data, records, records'.
Qed.

Lemma release_durable name ip : durably (release_used_ip name ip).
Proof.
  unfold release_used_ip. cbv zeta. destruct (_ =? 0); [done|]. apply with_lock_durable, durably_bind; [apply load_durable|].
  intros [records|]; [|done]. destruct (release_records _ _ _); [apply write_network_durable|done].
Qed.
Lemma add_durable network : durably (add_network_info network).
Proof.
  unfold add_network_info. apply with_lock_durable, durably_bind; [apply load_durable|]. intros [records|]; [|done].
  destruct (_ <=? _); [done|]. destruct (existsb _ _); [done|apply write_network_durable].
Qed.
Lemma delete_durable name : durably (delete_network_info name).
Proof.
  unfold delete_network_info. apply with_lock_durable, durably_bind; [apply load_durable|]. intros [records|]; [|done].
  apply write_network_durable.
Qed.

(** C17: releasing an address, adding a network and deleting one are each one
    transaction: under the lock the records are read and either nothing is
    published and -1 returned, or 0 is returned and the file is replaced by
    the records with, respectively, that address filtered out of the named
    network, the new network (of a name that was free) appended, or the networks
    of that name left out; the new file loads back as those records, and all
    of it was flushed, synchronised and closed before it took its place. *)
Theorem network_updates_refine name ip network :
  record_ok network →
  wp (beside storing durable) (release_used_ip name ip)
    (λ r w, r = -1 ∧ (w.1 = idle ∨ done_with w.1 None) ∨
       r = 0 ∧ replaced w.1 (λ rs rs', release_records name (str_ip_to_int ip) rs = Some rs')) (idle, None) ∧
  wp (beside storing durable) (add_network_info network)
    (λ r w, r = -1 ∧ done_with w.1 None ∨
       r = 0 ∧ replaced w.1 (λ rs rs', (nr_name network ∉ map nr_name rs) ∧ rs' = rs ++ [network])) (idle, None) ∧
  wp (beside storing durable) (delete_network_info name)
    (λ r w, r = -1 ∧ done_with w.1 None ∨
       r = 0 ∧ replaced w.1 (λ rs rs', rs' = List.filter (λ r, negb (named name r)) rs)) (idle, None).
Proof.
  intros Hnet. split_and!.
  - apply (wp_durable _ (λ r w, r = -1 ∧ (w = idle ∨ done_with w None) ∨
      r = 0 ∧ replaced w (λ rs rs', release_records name (str_ip_to_int ip) rs = Some rs'))); [apply release_durable|].
    unfold release_used_ip. cbv zeta. destruct (_ =? 0); [left; auto|].
    apply wp_with_lock; [auto|]. intros fd. apply wp_load_locked.
    { intros w Ho Hl Ht Hp. apply wp_ret. split_and!; [done|done|done|]. rewrite Hp. auto. }
    intros f data records Hparse Hok. destruct (release_records _ _ _) as [records'|] eqn:E.
    2:{ apply wp_ret. split_and!; [done|done|done|]. auto. }
    destruct (release_records_ok _ _ _ _ Hok E) as [Hok' _].
    eapply wp_mono; [|by apply (wp_publish fd f data records records' (λ rs rs', release_records name (str_ip_to_int ip) rs = Some rs'))].
    cbv beta. naive_solver.
  - apply (wp_durable _ (λ r w, r = -1 ∧ done_with w None ∨
      r = 0 ∧ replaced w (λ rs rs', (nr_name network ∉ map nr_name rs) ∧ rs' = rs ++ [network]))); [apply add_durable|].
    unfold add_network_info. apply wp_with_lock; [auto|]. intros fd. apply wp_load_locked.
    { intros w Ho Hl Ht Hp. apply wp_ret. split_and!; [done|done|done|]. rewrite Hp. auto. }
    intros f data records Hparse Hok. case Z.leb_spec; intros Hc.
    { apply wp_ret. split_and!; [done|done|done|]. auto. }
    destruct (existsb _ _) eqn:E.
    { apply wp_ret. split_and!; [done|done|done|]. auto. }
    apply existsb_named in E. apply (wp_publish fd f data records); [done| |done].
    destruct Hok as [Hr Hn _]. constructor.
    + apply Forall_app; split; [done|by constructor].
    + rewrite map_app. apply NoDup_app. split_and!; [done| |apply NoDup_singleton].
      by intros x Hx ->%list_elem_of_singleton.
    + rewrite length_app. cbn. lia.
  - apply (wp_durable _ (λ r w, r = -1 ∧ done_with w None ∨
      r = 0 ∧ replaced w (λ rs rs', rs' = List.filter (λ r, negb (named name r)) rs))); [apply delete_durable|].
    unfold delete_network_info. apply wp_with_lock; [auto|]. intros fd. apply wp_load_locked.
    { intros w Ho Hl Ht Hp. apply wp_ret. split_and!; [done|done|done|]. rewrite Hp. auto. }
    intros f data records Hparse Hok. apply (wp_publish fd f data records); [done| |done].
    by apply filter_store_ok.
Qed.

Lemma network_updates_refine_witness :
  wp (beside storing durable) (add_network_info demo_network)
    (λ r w, r = -1 ∧ done_with w.1 None ∨
       r = 0 ∧ replaced w.1 (λ rs rs', (nr_name demo_network ∉ map nr_name rs) ∧ rs' = rs ++ [demo_network])) (idle, None).
Proof. exact (proj1 (proj2 (network_updates_refine [] [] demo_network demo_network_ok))). Defined.

(** *** Termination *)

Lemma terminates_read_exactly fd size : terminates (read_exactly fd size).
Proof.
  apply (terminates_iter (λ _, True) (λ data : cstr, Z.to_nat (size - strlen data))); [done|].
  intros data n _. unfold read_turn. case Z.ltb_spec; intros Hlt; [|done].
  apply twp_bind. unfold sys_read. apply twp_call_bind. intros r n'. cbn [answered patient interrupted].
  destruct r as [d|e]; cbn [failed_with]; unfold twp.
  - intros ->. set (t := take _ d). destruct t eqn:Et; cbn [nonempty]; [done|]. rewrite <-Et.
    assert (0 < strlen t) by (rewrite Et, strlen_cons; pose proof (strlen_nonneg l); lia).
    rewrite strlen_app. split; [done|]. lia.
  - destruct (e =? EINTR); intros ->; [|done]. split; [done|]. lia.
Qed.
#[export] Hint Resolve terminates_read_exactly : terminates.

Lemma terminates_load capacity : terminates (load_network_records capacity).
Proof. unfold load_network_records. terminates_auto. Qed.
Lemma terminates_open_temporary l : terminates (open_temporary l).
Proof. induction l as [|n l IH]; cbn [open_temporary]; [done|]. terminates_auto. Qed.
Lemma terminates_write_records fd l : terminates (write_records fd l).
Proof. induction l as [|n l IH]; cbn [write_records]; [done|]. terminates_auto. Qed.
#[export] Hint Resolve terminates_load terminates_open_temporary terminates_write_records : terminates.
Lemma terminates_write_network records : terminates (write_network_records records).
Proof. unfold write_network_records, sync_runtime_dir, discard. terminates_auto. Qed.
Lemma terminates_with_lock {A} (failed : A) body : terminates body → terminates (with_lock failed body).
Proof. intros H. unfold with_lock, lock_network_state. terminates_auto. Qed.
#[export] Hint Resolve terminates_write_network terminates_with_lock : terminates.

(** Every operation on the network state returns under every kernel that
    interrupts it finitely often. *)
Theorem network_store_terminates name ip network size :
  terminates (alloc_new_ip name size) ∧ terminates (release_used_ip name ip) ∧
  terminates (add_network_info network) ∧ terminates (delete_network_info name) ∧
  terminates (read_network_info name) ∧ terminates (network_info_exists name).
Proof.
  unfold alloc_new_ip, release_used_ip, add_network_info, delete_network_info, read_network_info,
    network_info_exists. cbv zeta. split_and!; terminates_auto; apply terminates_with_lock; terminates_auto.
Qed.
