(* ===== verification/Config.v ===== *)
(** * cmdparser/cmdparser.h: the argument records of the commands, and
    parse_volume_config

    Counted arrays are lists; the counts are their lengths.  [char *] fields
    that may be NULL are options. *)
From S2P Require Import Prelude CString Paths Safety.

Inductive docker_command_type :=
  | DOCKER_RUN | DOCKER_COMMIT | DOCKER_PS | DOCKER_TOP | DOCKER_EXEC | DOCKER_STOP | DOCKER_RM
  | DOCKER_NETWORK_CREATE | DOCKER_NETWORK_LIST | DOCKER_NETWORK_RM | DOCKER_NETWORK_CONNECT
  | DOCKER_NETWORK_DISCONNECT | DOCKER_INSPECT | DOCKER_STATS.

Record key_val_pair := KeyVal { kv_key : option cstr; kv_val : option cstr }.
Record port_map := PortMap { pm_host_port : Z; pm_container_port : Z }.
Record volume_config := VolumeConfig { vc_host : cstr; vc_container : cstr; vc_ro : Z }.

Record docker_run_arguments := RunArguments {
  run_volumes : list volume_config;
  run_interactive : Z;
  run_detach : Z;
  run_cpu : Z;
  run_memory : Z;
  run_image : option cstr;
  run_name : cstr;
  run_env : list key_val_pair;
  run_argv : list cstr;
  run_port_mapping : list port_map;
}.
Record docker_commit_arguments := CommitArguments { commit_name : cstr; commit_tar : option cstr }.
Record docker_ps_arguments := PsArguments { ps_list_all : Z }.
Record docker_top_arguments := TopArguments { top_name : cstr }.
Record docker_inspect_arguments := InspectArguments { inspect_name : cstr }.
Record docker_stats_arguments := StatsArguments { stats_name : cstr }.
Record docker_exec_arguments := ExecArguments {
  exec_detach : Z;
  exec_interactive : Z;
  exec_tty : Z;
  exec_env : list key_val_pair;
  exec_name : cstr;
  exec_argv : list cstr;
}.
Record docker_stop_arguments := StopArguments { stop_time : Z; stop_names : list cstr }.
Record docker_rm_arguments := RmArguments { rm_containers : list cstr }.
Record docker_network_create := NetworkCreate { nc_name : cstr; nc_cider : cstr }.
Record docker_network_rm := NetworkRm { nrm_argv : list cstr }.

(** [ro] is -1 for a text that is no volume. *)
Definition parse_volume_config (input : option cstr) : volume_config :=
  match td_parse_volume_spec input 1024 1024 with
  | Ok (host, container, read_only) => VolumeConfig host container read_only
  | Err _ => VolumeConfig [] [] (-1)
  end.
