(* ===== verification/Network.v ===== *)
(** * docker/network.c, second part: bridges, veth pairs and port mappings

    Creating and deleting interfaces the program owns (by an alias on the
    interface), connecting a container and its port mappings. *)
From S2P Require Import Prelude CString Paths Safety NetworkState Sys Resources Process Config Cgroup NetworkStore.
From Stdlib Require Import Lia.

Definition TINYDOCKER_DEFAULT_NETWORK_NAME : cstr := lit "tinydocker-0".
Definition TINYDOCKER_DEFAULT_NETWORK_CIDR : cstr := lit "172.11.11.0/24".
Definition TINYDOCKER_DEFAULT_GATEWAY : cstr := lit "172.11.11.1".

(** ** Interfaces *)

(** The index of an interface, 0 when there is none. *)
Definition if_nametoindex (name : cstr) : prog N := call (If_nametoindex name).
Definition net_has_exist (brname : cstr) : prog bool :=
  index ← if_nametoindex brname; Ret (negb (index =? 0)%N).

Definition build_interface_alias (kind name : cstr) (alias_size : Z) : option cstr :=
  let text := lit "tinydocker-" ++ kind ++ lit ":" ++ name in
  if (alias_size =? 0) || truncated text alias_size then None else Some text.

(** [while (used + 1U < alias_size)] *)
Definition alias_turn (fd : nat) (alias_size : Z) (alias : cstr) : prog (cstr + option cstr) :=
  if strlen alias + 1 <? alias_size then
    count ← sys_read fd (alias_size - strlen alias - 1);
    Ret (match count with
         | SErr e => if e =? EINTR then inl alias else inr None
         | SOk data => if nonempty data then inl (alias ++ data) else inr (Some alias)
         end)
  else Ret (inr (Some alias)).

(** The text up to the first CR or LF. *)
Definition first_line (text : cstr) : cstr :=
  (span (λ c, negb (bool_decide (c = CR) || bool_decide (c = LF))) text).1.

Definition read_interface_alias (interface_name : cstr) (alias_size : Z) : prog (option cstr) :=
  let path := lit "/sys/class/net/" ++ interface_name ++ lit "/ifalias" in
  if (alias_size <? 2) || truncated path PATH_MAX then Ret None
  else
    opened ← call (Open path [O_RDONLY; O_CLOEXEC; O_NOFOLLOW] 0);
    match opened with
    | SErr _ => Ret None
    | SOk fd =>
        alias ← iter (alias_turn fd alias_size) [];
        match alias with
        | None => _ ← call (Close fd); Ret None
        | Some alias =>
            extra ← (if strlen alias + 1 =? alias_size then
                       count ← retry_intr (sys_read fd 1);
                       Ret (match count with SOk [] => false | _ => true end)
                     else Ret false);
            if extra : bool then _ ← call (Close fd); Ret None
            else
              closed ← call (Close fd);
              Ret (if s_ok closed then Some (first_line (until_nul alias)) else None)
        end
    end.

(** 0: no such interface; 1: ours; -1: not ours. *)
Definition verify_interface_ownership (interface_name expected_alias : cstr) (require_bridge : bool)
    : prog Z :=
  index ← if_nametoindex interface_name;
  if (index =? 0)%N then Ret 0
  else
    bridge ← (if require_bridge then
                let bridge_path := lit "/sys/class/net/" ++ interface_name ++ lit "/bridge" in
                if truncated bridge_path PATH_MAX then Ret false
                else
                  status ← call (Stat bridge_path);
                  Ret (match status with
                       | SOk st => bool_decide (fs_kind st = Directory)
                       | SErr _ => false end)
              else Ret true);
    if negb bridge then Ret (-1)
    else
      actual_alias ← read_interface_alias interface_name 256;
      Ret (if bool_decide (actual_alias = Some expected_alias) then 1 else -1).

Definition set_down (name : cstr) : list cstr :=
  [lit "ip"; lit "link"; lit "set"; lit "dev"; name; lit "down"].
Definition delete_bridge (name : cstr) : list cstr := [lit "brctl"; lit "delbr"; name].
Definition delete_veth (name : cstr) : list cstr := [lit "ip"; lit "link"; lit "delete"; name].

Definition delete_owned_bridge (name expected_alias : cstr) : prog Z :=
  original_index ← if_nametoindex name;
  if (original_index =? 0)%N then Ret 0
  else
    owned ← verify_interface_ownership name expected_alias true;
    if negb (owned =? 1) then Ret (-1)
    else
      _ ← td_run_command (set_down name);
      index ← if_nametoindex name;
      same ← (if negb (index =? original_index)%N then Ret (-1)
              else verify_interface_ownership name expected_alias true);
      if negb (same =? 1) then Ret (-1)
      else
        deleted ← td_run_command (delete_bridge name);
        Ret (if deleted =? 0 then 0 else -1).

Definition delete_owned_veth (name expected_alias : cstr) : prog Z :=
  original_index ← if_nametoindex name;
  if (original_index =? 0)%N then Ret 0
  else
    owned ← verify_interface_ownership name expected_alias false;
    index ← (if owned =? 1 then if_nametoindex name else Ret 0%N);
    if negb (owned =? 1) || negb (index =? original_index)%N then Ret (-1)
    else
      deleted ← td_run_command (delete_veth name);
      Ret (if deleted =? 0 then 0 else -1).

(** ** Networks *)

Definition add_bridge (name : cstr) : list cstr := [lit "brctl"; lit "addbr"; name].
Definition set_alias (name alias : cstr) : list cstr :=
  [lit "ip"; lit "link"; lit "set"; lit "dev"; name; lit "alias"; alias].
Definition add_address (address name : cstr) : list cstr :=
  [lit "ip"; lit "addr"; lit "add"; address; lit "dev"; name].
Definition set_up (name : cstr) : list cstr := [lit "ip"; lit "link"; lit "set"; name; lit "up"].

(** [c1 != 0 || c2 != 0 || ...]: whether every command returned 0. *)
Fixpoint run_all (commands : list (list cstr)) : prog bool :=
  match commands with
  | [] => Ret true
  | c :: rest =>
      r ← td_run_command c;
      if r =? 0 then run_all rest else Ret false
  end.

(** Deletes what was just created, while it is still the same interface. *)
Definition delete_created (name : cstr) (created_index : N) (command : list cstr) : prog unit :=
  if (created_index =? 0)%N then Ret tt
  else
    index ← if_nametoindex name;
    if (index =? created_index)%N then discard (td_run_command command) else Ret tt.

(** The part of [create_network] after the checks. *)
Definition create_bridge (record : td_network_record) (expected_alias : cstr) : prog Z :=
  let name := nr_name record in
  added ← td_run_command (add_bridge name);
  if negb (added =? 0) then Ret (-1)
  else
    created_index ← if_nametoindex name;
    marked ← (if (created_index =? 0)%N then Ret (-1) else td_run_command (set_alias name expected_alias));
    if negb (marked =? 0) then
      _ ← delete_created name created_index (delete_bridge name);
      Ret (-1)
    else
      saved ← add_network_info record;
      if saved =? -1 then
        _ ← delete_owned_bridge name expected_alias;
        Ret (-1)
      else
        let first_cidr_ip := get_first_cidr_host_ip (nr_cidr record) 32 in
        configured ← run_all [add_address first_cidr_ip name; set_up name];
        if configured : bool then Ret 0
        else
          deleted ← delete_owned_bridge name expected_alias;
          _ ← when (deleted =? 0) (discard (delete_network_info name));
          Ret (-1).

Definition create_network (name cidr_network driver : cstr) : prog Z :=
  let record := NetworkRecord name driver cidr_network [] in
  match build_interface_alias (lit "network") name 256 with
  | None => Ret (-1)
  | Some expected_alias =>
      if truncated name TD_NETWORK_NAME_SIZE || truncated driver TD_NETWORK_DRIVER_SIZE
         || truncated cidr_network TD_NETWORK_CIDR_SIZE
         || negb (is_Ok (td_format_network_record (Some record) 4096))
      then Ret (-1)
      else
        metadata_exists ← network_info_exists name;
        if negb (metadata_exists =? 0) then Ret (-1)
        else
          exists_ ← net_has_exist name;
          if exists_ : bool then Ret (-1) else create_bridge record expected_alias
  end.

Definition create_default_bridge : prog Z :=
  exists_ ← net_has_exist TINYDOCKER_DEFAULT_NETWORK_NAME;
  ready ← (if negb exists_ then
             created ← create_network TINYDOCKER_DEFAULT_NETWORK_NAME TINYDOCKER_DEFAULT_NETWORK_CIDR
                         (lit "bridge");
             Ret (created =? 0)
           else
             existing ← read_network_info TINYDOCKER_DEFAULT_NETWORK_NAME;
             match existing, build_interface_alias (lit "network") TINYDOCKER_DEFAULT_NETWORK_NAME 256 with
             | Some record, Some expected_alias =>
                 if bool_decide (nr_driver record = lit "bridge")
                    && bool_decide (nr_cidr record = TINYDOCKER_DEFAULT_NETWORK_CIDR)
                 then
                   owned ← verify_interface_ownership TINYDOCKER_DEFAULT_NETWORK_NAME expected_alias true;
                   Ret (owned =? 1)
                 else Ret false
             | _, _ => Ret false
             end);
  if negb ready then Ret (-1)
  else
    up ← td_run_command (set_up TINYDOCKER_DEFAULT_NETWORK_NAME);
    Ret (if up =? 0 then 0 else -1).

Definition delte_network (name : cstr) : prog Z :=
  owned_network ← read_network_info name;
  match owned_network, build_interface_alias (lit "network") name 256 with
  | Some _, Some expected_alias =>
      deleted ← delete_owned_bridge name expected_alias;
      if negb (deleted =? 0) then Ret (-1) else delete_network_info name
  | _, _ => Ret (-1)
  end.

Fixpoint remove_networks (names : list cstr) (result : Z) : prog Z :=
  match names with
  | [] => Ret result
  | name :: rest =>
      r ← delte_network name;
      remove_networks rest (if r =? 0 then result else -1)
  end.
Definition remove_docker_network (cmd : docker_network_rm) : prog Z := remove_networks (nrm_argv cmd) 0.

(** ** Containers *)

Section Connect.
Context (network veth_host veth_peer pid_text container_address : cstr).
Definition nsenter : list cstr := [lit "nsenter"; lit "-t"; pid_text; lit "-n"].
Definition add_veth : list cstr :=
  [lit "ip"; lit "link"; lit "add"; veth_peer; lit "type"; lit "veth"; lit "peer"; lit "name"; veth_host].
Definition add_to_bridge : list cstr := [lit "brctl"; lit "addif"; network; veth_host].
Definition move_peer : list cstr :=
  [lit "ip"; lit "link"; lit "set"; lit "dev"; veth_peer; lit "netns"; pid_text].
Definition rename_peer : list cstr :=
  nsenter ++ [lit "ip"; lit "link"; lit "set"; veth_peer; lit "name"; lit "eth0"].
Definition add_loopback : list cstr :=
  nsenter ++ [lit "ip"; lit "addr"; lit "add"; lit "127.0.0.1/8"; lit "dev"; lit "lo"].
Definition loopback_up : list cstr := nsenter ++ [lit "ip"; lit "link"; lit "set"; lit "lo"; lit "up"].
Definition add_container_address : list cstr :=
  nsenter ++ [lit "ip"; lit "addr"; lit "add"; container_address; lit "dev"; lit "eth0"].
Definition container_up : list cstr := nsenter ++ [lit "ip"; lit "link"; lit "set"; lit "eth0"; lit "up"].
Definition add_route : list cstr :=
  nsenter ++ [lit "ip"; lit "route"; lit "add"; lit "default"; lit "via"; TINYDOCKER_DEFAULT_GATEWAY;
              lit "dev"; lit "eth0"].
Definition configure_commands : list (list cstr) :=
  [add_to_bridge; set_up veth_host; move_peer; rename_peer; add_loopback; loopback_up;
   add_container_address; container_up; add_route].
End Connect.

(** The part of [connect_container] after an address is allocated; [false] is
    a failure, after which the caller releases the address. *)
Definition attach_container (container_name network str_ip : cstr) : prog bool :=
  pids ← get_container_processes_id container_name 4096;
  match pids with
  | None | Some [] => Ret false
  | Some (one_pid :: _) =>
      match td_make_veth_name (Some container_name) 16, td_make_veth_peer_name (Some container_name) 16,
            build_interface_alias (lit "container") container_name 256 with
      | Some veth_host, Some veth_peer, Some expected_alias =>
          let pid_text := fmt_d one_pid in
          let container_address := set_error 64 (str_ip ++ lit "/24") in
          host_index ← if_nametoindex veth_host;
          taken ← (if negb (host_index =? 0)%N then Ret true
                   else peer_index ← if_nametoindex veth_peer; Ret (negb (peer_index =? 0)%N));
          if taken : bool then Ret false
          else
            added ← td_run_command (add_veth veth_host veth_peer);
            if negb (added =? 0) then Ret false
            else
              created_host_index ← if_nametoindex veth_host;
              marked ← (if (created_host_index =? 0)%N then Ret (-1)
                        else td_run_command (set_alias veth_host expected_alias));
              if negb (marked =? 0) then
                _ ← delete_created veth_host created_host_index (delete_veth veth_host);
                Ret false
              else
                configured ← run_all (configure_commands network veth_host veth_peer pid_text container_address);
                if configured : bool then Ret true
                else
                  _ ← delete_owned_veth veth_host expected_alias;
                  Ret false
      | _, _, _ => Ret false
      end
  end.

(** The return value and what is put in [ip_addr]. *)
Definition connect_container (container_name network : cstr) : prog (Z * cstr) :=
  '(allocated, str_ip) ← alloc_new_ip network 64;
  if allocated =? 0 then Ret (-1, [])
  else
    attached ← attach_container container_name network str_ip;
    if attached : bool then Ret (0, set_error 20 str_ip)
    else
      _ ← release_used_ip network str_ip;
      Ret (-1, []).

Definition remove_from_bridge (network veth_host : cstr) : list cstr :=
  [lit "brctl"; lit "delif"; network; veth_host].
Definition disconnect_container (container_name network : cstr) : prog Z :=
  match td_make_veth_name (Some container_name) 16,
        build_interface_alias (lit "container") container_name 256 with
  | Some veth_host, Some expected_alias =>
      index ← if_nametoindex veth_host;
      if (index =? 0)%N then Ret 0
      else
        owned ← verify_interface_ownership veth_host expected_alias false;
        if negb (owned =? 1) then Ret (-1)
        else
          _ ← td_run_command (remove_from_bridge network veth_host);
          delete_owned_veth veth_host expected_alias
  | _, _ => Ret (-1)
  end.

(** ** Port mappings *)

Definition dnat_output (op host_port destination : cstr) : list cstr :=
  [lit "iptables"; lit "-t"; lit "nat"; op; lit "OUTPUT"; lit "-p"; lit "tcp"; lit "--dport"; host_port;
   lit "-j"; lit "DNAT"; lit "--to-destination"; destination].
Definition dnat_prerouting (host_port destination : cstr) : list cstr :=
  [lit "iptables"; lit "-t"; lit "nat"; lit "-A"; lit "PREROUTING"; lit "-p"; lit "tcp"; lit "-m"; lit "tcp";
   lit "--dport"; host_port; lit "-j"; lit "DNAT"; lit "--to-destination"; destination].

Definition host_port_text (m : port_map) : cstr := set_error 8 (fmt_d (pm_host_port m)).
Definition destination_text (container_ip : cstr) (m : port_map) : cstr :=
  set_error 64 (container_ip ++ lit ":" ++ fmt_d (pm_container_port m)).

Fixpoint map_ports (container_ip : cstr) (port_maps : list port_map) : prog Z :=
  match port_maps with
  | [] => Ret 0
  | m :: rest =>
      let host_port := host_port_text m in
      let destination := destination_text container_ip m in
      output ← td_run_command (dnat_output (lit "-A") host_port destination);
      if negb (output =? 0) then Ret (-1)
      else
        prerouting ← td_run_command (dnat_prerouting host_port destination);
        if negb (prerouting =? 0) then
          _ ← td_run_command (dnat_output (lit "-D") host_port destination);
          Ret (-1)
        else map_ports container_ip rest
  end.
Definition set_container_port_map (container_ip : cstr) (port_maps : list port_map) : prog Z :=
  match inet_pton container_ip with
  | None => Ret (-1)
  | Some _ => map_ports container_ip port_maps
  end.

(** The rule of one line of [iptables -S]: its first 32 tokens. *)
Definition rule_tokens (line : cstr) : list cstr := take 32 (strtok [SP; TAB] line).

Fixpoint matches_destination (destination_prefix : cstr) (tokens : list cstr) : bool :=
  match tokens with
  | option_ :: ((value :: _) as rest) =>
      (bool_decide (option_ = lit "--to-destination") && starts_with destination_prefix value)
      || matches_destination destination_prefix rest
  | _ => false
  end.

Definition rule_matches (chain destination_prefix : cstr) (tokens : list cstr) : bool :=
  matches_destination destination_prefix tokens &&
  match tokens with
  | op :: rule_chain :: _ => bool_decide (op = lit "-A") && bool_decide (rule_chain = chain)
  | _ => false
  end.

Definition delete_rule (chain : cstr) (tokens : list cstr) : list cstr :=
  [lit "iptables"; lit "-t"; lit "nat"; lit "-D"; chain] ++ take 30 (drop 2 tokens).

(** The loop over the lines of the listing. *)
Fixpoint delete_matching (chain destination_prefix : cstr) (lines : list cstr) (result : Z) : prog Z :=
  match lines with
  | [] => Ret result
  | line :: rest =>
      let tokens := rule_tokens line in
      if rule_matches chain destination_prefix tokens then
        let delete_arguments := delete_rule chain tokens in
        r ← (if (length delete_arguments =? length tokens + 3)%nat then td_run_command delete_arguments
             else Ret (-1));
        delete_matching chain destination_prefix rest (if r =? 0 then result else -1)
      else delete_matching chain destination_prefix rest result
  end.

Definition delete_dnat_rules_for_chain (chain container_ip : cstr) : prog Z :=
  let destination_prefix := set_error 64 (container_ip ++ lit ":") in
  '(code, output) ← td_capture_command [lit "iptables"; lit "-t"; lit "nat"; lit "-S"; chain];
  match output with
  | Some output =>
      if negb (code =? 0) then Ret (-1)
      else delete_matching chain destination_prefix (strtok [LF] (until_nul output)) 0
  | None => Ret (-1)
  end.

Definition unset_container_port_map (container_ip : cstr) : prog Z :=
  if negb (nonempty container_ip) then Ret 0
  else
    match inet_pton container_ip with
    | None => Ret (-1)
    | Some _ =>
        output_result ← delete_dnat_rules_for_chain (lit "OUTPUT") container_ip;
        prerouting_result ← delete_dnat_rules_for_chain (lit "PREROUTING") container_ip;
        Ret (if (output_result =? 0) && (prerouting_result =? 0) then 0 else -1)
    end.

#[global] Arguments create_network : simpl never.
#[global] Arguments connect_container : simpl never.
#[global] Arguments disconnect_container : simpl never.

(** ** Descriptors *)

Lemma balanced_if_nametoindex name : balanced (if_nametoindex name).
Proof. apply balanced_call. done. Qed.
Lemma balanced_net_has_exist name : balanced (net_has_exist name).
Proof. unfold net_has_exist. apply balanced_bind; [apply balanced_if_nametoindex|auto with balanced]. Qed.
#[export] Hint Resolve balanced_if_nametoindex balanced_net_has_exist : balanced.

Lemma balanced_read_alias name size : balanced (read_interface_alias name size).
Proof.
  intros w. unfold read_interface_alias. cbv zeta. held_step; [done|]. held_step. held_step; [|done].
  apply wp_bind. apply (wp_iter resources (λ _ w', w' = take_fd a0 w)); [done|].
  intros alias w' ->. unfold alias_turn.
  assert (Hend : ∀ o : option cstr, wp resources (match o with
      | None => _ ← call (Close a0); Ret None
      | Some alias =>
          extra ← (if strlen alias + 1 =? size then
                     count ← retry_intr (sys_read a0 1);
                     Ret (match count with SOk [] => false | _ => true end)
                   else Ret false);
          if extra : bool then _ ← call (Close a0); Ret None
          else
            closed ← call (Close a0);
            Ret (if s_ok closed then Some (first_line (until_nul alias)) else None)
      end) (λ _ w', w' = w) (take_fd a0 w)).
  { intros [al|]; [|held_auto]. apply wp_bind.
    apply (wp_mono _ _ (λ _ w', w' = take_fd a0 w)).
    - intros extra w' ->. held_auto.
    - destruct (_ =? size); [|done]. apply wp_bind.
      apply (wp_retry resources (λ w', w' = take_fd a0 w)); [done|]. intros w' ->.
      unfold sys_read. held_step. apply wp_ret. by destruct (failed_with _ _). }
  destruct (_ <? size); [|apply wp_ret; exact (Hend (Some alias))]. held_step. apply wp_ret.
  destruct r as [d|e]; [destruct (nonempty d)|destruct (e =? EINTR)]; try done;
    [exact (Hend (Some alias))|exact (Hend None)].
Qed.
#[export] Hint Resolve balanced_read_alias : balanced.

Lemma balanced_verify name alias b : balanced (verify_interface_ownership name alias b).
Proof. unfold verify_interface_ownership. balanced_auto. Qed.
#[export] Hint Resolve balanced_verify : balanced.
Lemma balanced_delete_owned_bridge name alias : balanced (delete_owned_bridge name alias).
Proof. unfold delete_owned_bridge. balanced_auto. Qed.
Lemma balanced_delete_owned_veth name alias : balanced (delete_owned_veth name alias).
Proof. unfold delete_owned_veth. balanced_auto. Qed.
Lemma balanced_run_all l : balanced (run_all l).
Proof. induction l as [|c l IH]; cbn [run_all]; balanced_auto. Qed.
Lemma balanced_delete_created name i c : balanced (delete_created name i c).
Proof. unfold delete_created, discard. balanced_auto. Qed.
#[export] Hint Resolve balanced_delete_owned_bridge balanced_delete_owned_veth balanced_run_all
  balanced_delete_created : balanced.

Lemma balanced_create_bridge r alias : balanced (create_bridge r alias).
Proof. unfold create_bridge, when, discard. cbv zeta. balanced_auto. Qed.
#[export] Hint Resolve balanced_create_bridge : balanced.
Lemma balanced_create_network name cidr driver : balanced (create_network name cidr driver).
Proof. unfold create_network. cbv zeta. balanced_auto. Qed.
#[export] Hint Resolve balanced_create_network : balanced.
Lemma balanced_create_default_bridge : balanced create_default_bridge.
Proof. unfold create_default_bridge. balanced_auto. Qed.
Lemma balanced_delte_network name : balanced (delte_network name).
Proof. unfold delte_network. balanced_auto. Qed.
Lemma balanced_attach c n ip : balanced (attach_container c n ip).
Proof. unfold attach_container. cbv zeta. balanced_auto. Qed.
#[export] Hint Resolve balanced_create_default_bridge balanced_delte_network balanced_attach : balanced.
Lemma balanced_connect c n : balanced (connect_container c n).
Proof. unfold connect_container. balanced_auto. Qed.
Lemma balanced_disconnect c n : balanced (disconnect_container c n).
Proof. unfold disconnect_container. balanced_auto. Qed.
Lemma balanced_map_ports ip l : balanced (map_ports ip l).
Proof. induction l as [|m l IH]; cbn [map_ports]; cbv zeta; balanced_auto. Qed.
#[export] Hint Resolve balanced_map_ports : balanced.
Lemma balanced_set_port_map ip l : balanced (set_container_port_map ip l).
Proof. unfold set_container_port_map. balanced_auto. Qed.
Lemma balanced_delete_matching chain d lines : ∀ r, balanced (delete_matching chain d lines r).
Proof. induction lines as [|l lines IH]; intros r; cbn [delete_matching]; cbv zeta; balanced_auto. Qed.
#[export] Hint Resolve balanced_connect balanced_disconnect balanced_set_port_map balanced_delete_matching : balanced.
Lemma balanced_unset_port_map ip : balanced (unset_container_port_map ip).
Proof. unfold unset_container_port_map, delete_dnat_rules_for_chain. cbv zeta. balanced_auto. Qed.
#[export] Hint Resolve balanced_unset_port_map : balanced.

(** ** Port mappings, by the commands that succeed *)

(** The commands that returned 0, in order, and the one that is running. *)
Definition command_log : Type := list (list cstr) * option (list cstr).
Definition command_step (w : command_log) (c : syscall) : ans c → command_log :=
  match c with
  | Fork (ChildExec argv) => λ r : sysret positive, (w.1, if s_ok r then Some argv else None)
  | Waitpid _ => λ r : sysret wait_status,
      match r, w.2 with
      | SOk (Exited 0), Some argv => (w.1 ++ [argv], None)
      | SErr e, _ => if e =? EINTR then w else (w.1, None)
      | _, _ => (w.1, None)
      end
  | _ => λ _, w
  end.
Definition logged : model command_log := free command_step.

Lemma run_command_logged argv log :
  wp logged (td_run_command argv) (λ r w, w = (if r =? 0 then log ++ [argv] else log, None)) (log, None).
Proof.
  unfold td_run_command. destruct argv as [|[|c s] l]; [done|done|].
  apply wp_bind. apply wp_observe; [done|]. intros [child|e]; [|done]. cbn [command_step s_ok fst].
  unfold wait_for_child. apply wp_bind.
  apply (wp_retry logged (λ w, w = (log, Some ((c :: s) :: l)))); [done|].
  intros w ->. apply wp_observe; [done|]. intros [[[|z|z]|sig]|e]; cbn [command_step failed_with fst snd].
  1-4: by apply wp_ret. destruct (e =? EINTR); [done|]. by apply wp_ret.
Qed.

Lemma wp_logged {A} argv (f : Z → prog A) Q log :
  (∀ r, wp logged (f r) Q (if r =? 0 then log ++ [argv] else log, None)) →
  wp logged (td_run_command argv ≫= f) Q (log, None).
Proof.
  intros H. apply wp_bind. eapply wp_mono; [|apply run_command_logged]. cbv beta. intros r w ->. apply H.
Qed.

Definition port_rules (container_ip : cstr) (m : port_map) : list (list cstr) :=
  [dnat_output (lit "-A") (host_port_text m) (destination_text container_ip m);
   dnat_prerouting (host_port_text m) (destination_text container_ip m)].

(** What is left of a mapping that could not be made. *)
Definition half_mapped (container_ip : cstr) (m : port_map) (log : list (list cstr)) : Prop :=
  log = [] ∨
  log = [dnat_output (lit "-A") (host_port_text m) (destination_text container_ip m);
         dnat_output (lit "-D") (host_port_text m) (destination_text container_ip m)] ∨
  log = [dnat_output (lit "-A") (host_port_text m) (destination_text container_ip m)].

Lemma map_ports_logged ip maps : ∀ log,
  wp logged (map_ports ip maps)
    (λ r w, r = 0 ∧ w.1 = log ++ concat (map (port_rules ip) maps) ∨
       r = -1 ∧ ∃ done m rest last, maps = done ++ m :: rest ∧
         w.1 = log ++ concat (map (port_rules ip) done) ++ last ∧ half_mapped ip m last) (log, None).
Proof.
  induction maps as [|m maps IH]; intros log; cbn [map_ports].
  { apply wp_ret. left. cbn. by rewrite app_nil_r. }
  cbv zeta. apply wp_logged. intros r. destruct (Z.eqb_spec r 0) as [->|]; cbn [negb].
  2:{ apply wp_ret. right. split; [done|]. exists [], m, maps, []. cbn. rewrite app_nil_r. unfold half_mapped. auto. }
  apply wp_logged. intros r. destruct (Z.eqb_spec r 0) as [->|]; cbn [negb].
  - eapply wp_mono; [|apply IH]. cbv beta. intros r w [[-> Hw]|[-> (dn & m' & rest & last & -> & Hw & Hh)]].
    + left. split; [done|]. rewrite Hw. cbn [map concat]. unfold port_rules at 2.
      by rewrite <-!app_assoc.
    + right. split; [done|]. exists (m :: dn), m', rest, last. split_and!; [done| |done].
      rewrite Hw. cbn [map concat]. unfold port_rules at 2. by rewrite <-!app_assoc.
  - apply wp_logged. intros r'. apply wp_ret. right. split; [done|].
    destruct (r' =? 0); cbn [fst]; eexists [], m, maps, _; (split_and!; [done| |]); cbn [map concat app].
    + by rewrite <-app_assoc.
    + unfold half_mapped. auto.
    + done.
    + unfold half_mapped. auto.
Qed.

(** Setting the port mappings of a container either adds exactly the two
    DNAT rules of every mapping, in order, or stops at a mapping that fails,
    with the rules of the mappings before it complete and nothing of the
    failing one left, unless removing its first rule failed too. *)
Theorem set_container_port_map_rules ip maps :
  wp logged (set_container_port_map ip maps)
    (λ r w, r = 0 ∧ w.1 = concat (map (port_rules ip) maps) ∨
       r = -1 ∧ (w.1 = [] ∨ ∃ done m rest last, maps = done ++ m :: rest ∧
         w.1 = concat (map (port_rules ip) done) ++ last ∧ half_mapped ip m last)) ([], None).
Proof.
  unfold set_container_port_map. destruct (inet_pton ip); [|by apply wp_ret; auto].
  eapply wp_mono; [|apply map_ports_logged]. cbv beta. naive_solver.
Qed.

(** ** Removing port mappings *)

(** A rule of the listing that sends to the container's address. *)
Definition own_rule (chain container_ip : cstr) (tokens rest : list cstr) : Prop :=
  tokens = lit "-A" :: chain :: rest ∧
  ∃ before port after, tokens = before ++ lit "--to-destination" :: (container_ip ++ ":"%char :: port) :: after.

(** [iptables -D] may only be run with the rest of a rule of the listing that
    is the container's own. *)
Definition dnat_ok (chain container_ip : cstr) (w : cstr * bool) (c : syscall) : Prop :=
  match c with
  | Fork (ChildExec argv) => ∃ line rest,
      line ∈ strtok [LF] (until_nul w.1) ∧ own_rule chain container_ip (rule_tokens line) rest ∧
      argv = [lit "iptables"; lit "-t"; lit "nat"; lit "-D"; chain] ++ rest
  | _ => True
  end.

Lemma starts_with_spec p s : starts_with p s = true → ∃ t, s = p ++ t.
Proof.
  intros H%bool_decide_eq_true. exists (drop (length p) s). rewrite <-H at 1. by rewrite take_drop.
Qed.

Lemma matches_destination_spec prefix tokens :
  matches_destination prefix tokens = true →
  ∃ before value after, tokens = before ++ lit "--to-destination" :: value :: after ∧
    starts_with prefix value = true.
Proof.
  induction tokens as [|t tokens IH]; cbn [matches_destination]; [done|].
  destruct tokens as [|value rest]; [done|]. intros [H|H]%orb_true_iff.
  - apply andb_true_iff in H as [->%bool_decide_eq_true H]. by exists [], value, rest.
  - destruct (IH H) as (b & v & a & E & Hv). exists (t :: b), v, a. rewrite E. done.
Qed.

Lemma rule_tokens_length line : (length (rule_tokens line) ≤ 32)%nat.
Proof. unfold rule_tokens. rewrite length_take. lia. Qed.

Lemma rule_matches_own chain ip line :
  strlen ip < 63 → rule_matches chain (set_error 64 (ip ++ lit ":")) (rule_tokens line) = true →
  ∃ rest, own_rule chain ip (rule_tokens line) rest ∧
    delete_rule chain (rule_tokens line) = [lit "iptables"; lit "-t"; lit "nat"; lit "-D"; chain] ++ rest.
Proof.
  intros Hip H. pose proof (rule_tokens_length line) as Hl.
  apply andb_true_iff in H as [Hm Hc]. unfold set_error in Hm.
  rewrite take_ge in Hm.
  2:{ unfold strlen in Hip. rewrite length_app. change (length (lit ":")) with 1%nat. lia. }
  destruct (rule_tokens line) as [|op [|ch rest]] eqn:E; [done|done|]. bools. subst.
  exists rest. split.
  - split; [done|]. apply matches_destination_spec in Hm as (b & v & a & Et & Hv).
    apply starts_with_spec in Hv as (port & ->). exists b, port, a. by rewrite Et, <-app_assoc.
  - unfold delete_rule. cbn [drop]. rewrite take_ge; [done|].
    cbn [length] in Hl. change (length rest ≤ 30)%nat. lia.
Qed.

Lemma delete_matching_own chain ip listing eof : strlen ip < 63 → ∀ lines r,
  (∀ l, l ∈ lines → l ∈ strtok [LF] (until_nul listing)) →
  wp (delivered (dnat_ok chain ip)) (delete_matching chain (set_error 64 (ip ++ lit ":")) lines r)
    (λ _ _, True) (listing, eof).
Proof.
  intros Hip. induction lines as [|line lines IH]; intros r Hin; cbn [delete_matching]; [done|]. cbv zeta.
  destruct (rule_matches _ _ _) eqn:E; [|apply IH; set_solver].
  apply rule_matches_own in E as (rest & Hown & Hargv); [|done].
  apply wp_bind. apply (wp_mono _ _ (λ _ w, w = (listing, eof))).
  { intros x w ->. apply IH. set_solver. }
  destruct (_ =? _)%nat; [|done]. unfold td_run_command. rewrite Hargv. cbn [app].
  apply wp_bind. apply wp_observe; [by exists line, rest; split; [apply Hin; left|]|].
  intros [child|e]; [|done]. cbn [delivered_step]. apply silent_wait.
  intros w c Hc. destruct c; try done. destruct what; try done. by destruct (Hc argv).
Qed.

(** C33: cleaning up the port mappings of a container deletes only rules that
    the listing of that chain shows and whose destination is exactly the
    container's address followed by a colon and a port: rules of another
    container, even one whose address has this one as a prefix, are never
    deleted. *)
Theorem delete_dnat_rules_own chain ip :
  strlen ip < 63 →
  wp (observer (dnat_ok chain ip) delivered_step) (delete_dnat_rules_for_chain chain ip)
    (λ _ _, True) ([], false).
Proof.
  intros Hip. unfold delete_dnat_rules_for_chain. cbv zeta. apply wp_bind.
  eapply wp_mono; [|apply (capture_output (dnat_ok chain ip))].
  2:{ intros w c H. destruct c; try done. destruct what; try done. by destruct (H argv). }
  cbv beta. intros [code [output|]] w; [|done]. intros [-> _]. destruct (negb _); [done|].
  by apply delete_matching_own.
Qed.

Lemma delete_dnat_rules_own_witness :
  wp (observer (dnat_ok (lit "OUTPUT") (lit "172.11.11.2")) delivered_step)
    (delete_dnat_rules_for_chain (lit "OUTPUT") (lit "172.11.11.2")) (λ _ _, True) ([], false).
Proof. apply delete_dnat_rules_own. reflexivity. Defined.

(** ** Deleting interfaces *)

(** What a watcher of one interface has seen: the index of its name the first
    time it was looked up; and since the last command the indices of the name,
    whether it is a bridge, and the bytes of its alias. *)
Record sightings := Sightings {
  sg_first : option N;
  sg_now : list N;
  sg_bridge : bool;
  sg_alias : cstr;
  sg_log : command_log;
}.
Definition unseen : sightings := Sightings None [] false [] ([], None).

Section Ownership.
Context (name expected_alias : cstr) (require_bridge : bool) (deletion : list cstr).

Definition alias_path : cstr := lit "/sys/class/net/" ++ name ++ lit "/ifalias".
Definition bridge_path : cstr := lit "/sys/class/net/" ++ name ++ lit "/bridge".

Definition sight (w : sightings) (c : syscall) : ans c → sightings :=
  match c as c return ans c → sightings with
  | If_nametoindex n => λ index,
      if bool_decide (n = name)
      then Sightings (Some (default index (sg_first w))) (index :: sg_now w) (sg_bridge w) (sg_alias w) (sg_log w)
      else w
  | Stat path => λ r : sysret file_status,
      Sightings (sg_first w) (sg_now w)
        (sg_bridge w || bool_decide (path = bridge_path) &&
           match r with SOk st => bool_decide (fs_kind st = Directory) | SErr _ => false end)
        (sg_alias w) (sg_log w)
  | Open path _ _ => λ _, Sightings (sg_first w) (sg_now w) (sg_bridge w) [] (sg_log w)
  | Read _ n => λ r : sysret cstr,
      Sightings (sg_first w) (sg_now w) (sg_bridge w)
        (sg_alias w ++ match r with SOk data => take (Z.to_nat n) data | SErr _ => [] end) (sg_log w)
  | Fork what => λ r, Sightings (sg_first w) [] false [] (command_step (sg_log w) (Fork what) r)
  | Waitpid pid => λ r,
      Sightings (sg_first w) (sg_now w) (sg_bridge w) (sg_alias w) (command_step (sg_log w) (Waitpid pid) r)
  | _ => λ _, w
  end.

(** The interface seen since the last command is the one that was there first,
    and it carries the alias. *)
Definition confirmed (w : sightings) : Prop :=
  (∃ index, sg_first w = Some index ∧ index ≠ 0%N ∧ index ∈ sg_now w) ∧
  first_line (until_nul (sg_alias w)) = expected_alias ∧
  (require_bridge = true → sg_bridge w = true).

(** Commands are run only on a confirmed interface; no file but its alias is
    read. *)
Definition ownership_ok (w : sightings) (c : syscall) : Prop :=
  match c with
  | Fork (ChildExec argv) => (argv = set_down name ∨ argv = deletion) ∧ confirmed w
  | Fork _ | Clone _ => False
  | Open path _ _ => path = alias_path
  | _ => True
  end.
Definition ownership : model sightings := observer ownership_ok sight.

(** What a look at the interface leaves as it was. *)
Definition kept (w w' : sightings) : Prop :=
  sg_first w' = sg_first w ∧ sg_log w' = sg_log w ∧ (∀ i, i ∈ sg_now w → i ∈ sg_now w').

(** The function returns 0 just when there was no interface or the deletion
    succeeded. *)
Definition deletion_result (r : Z) (w : sightings) : Prop :=
  r = 0 ∧ (sg_first w = Some 0%N ∨ deletion ∈ (sg_log w).1) ∨
  r = -1 ∧ deletion ∉ (sg_log w).1.
End Ownership.

Lemma kept_refl w : kept w w.
Proof. done. Qed.
Lemma kept_trans w w' w'' : kept w w' → kept w' w'' → kept w w''.
Proof. unfold kept. naive_solver congruence. Qed.

Lemma read_alias_seen name expected b deletion w :
  wp (ownership name expected b deletion) (read_interface_alias name 256)
    (λ r w', kept w w' ∧ sg_bridge w' = sg_bridge w ∧
       ∀ a, r = Some a → first_line (until_nul (sg_alias w')) = a) w.
Proof.
  unfold read_interface_alias. cbv zeta. destruct (_ || _); [done|].
  set (M := ownership _ _ _ _). set (w0 := Sightings (sg_first w) (sg_now w) (sg_bridge w) [] (sg_log w)).
  pose (I := λ a w', kept w w' ∧ sg_bridge w' = sg_bridge w ∧ sg_alias w' = a).
  apply wp_bind. apply wp_observe; [done|]. intros r. cbn [sight]. fold w0. destruct r as [fd|e]; [|done].
  apply wp_bind.
  apply (wp_iter M I); [done|].
  intros alias w' Hw. unfold alias_turn.
  assert (Hend : ∀ (o : option cstr) w1, (∀ a, o = Some a → I a w1) → kept w w1 → sg_bridge w1 = sg_bridge w →
     wp M (match o with
      | None => _ ← call (Close fd); Ret None
      | Some alias =>
          extra ← (if strlen alias + 1 =? 256 then
                     count ← retry_intr (sys_read fd 1);
                     Ret (match count with SOk [] => false | _ => true end)
                   else Ret false);
          if extra : bool then _ ← call (Close fd); Ret None
          else
            closed ← call (Close fd);
            Ret (if s_ok closed then Some (first_line (until_nul alias)) else None)
      end) (λ r w', kept w w' ∧ sg_bridge w' = sg_bridge w ∧
       ∀ a, r = Some a → first_line (until_nul (sg_alias w')) = a) w1).
  { intros [al|] w1 Ha Hk Hb.
    2:{ apply wp_bind. apply wp_observe; [done|]. intros r. by apply wp_ret. }
    apply wp_bind. apply (wp_mono _ _ (λ (x : bool) w2, kept w w2 ∧ sg_bridge w2 = sg_bridge w ∧ (x = false → sg_alias w2 = al))).
    - intros [|] w2 (Hk2 & Hb2 & Ha2); (apply wp_bind; apply wp_observe; [done|]; intros r; apply wp_ret; split_and!; try done).
      cbn [sight]. intros a. destruct (s_ok r); [|done]. intros [= <-]. by rewrite Ha2.
    - pose proof (Ha _ eq_refl) as (_ & _ & Hal).
      destruct (_ =? 256); [|by apply wp_ret]. apply wp_bind. apply (wp_retry M (I al)); [by apply Ha|].
      intros w2 (Hk2 & Hb2 & Ha2). unfold sys_read. apply wp_bind. apply wp_observe; [done|].
      intros [d|e]; cbn [sight]; apply wp_ret; cbn [failed_with].
      + apply wp_ret. split_and!; [done|done|]. cbn [sg_alias]. destruct (take _ d); [|done]. by rewrite app_nil_r.
      + destruct (e =? EINTR); [split_and!; [done|done|]; cbn; by rewrite app_nil_r|by apply wp_ret]. }
  destruct Hw as (Hk & Hb & Ha). destruct (_ <? 256).
  2:{ apply wp_ret. apply (Hend (Some alias)); try done. by intros a [= <-]. }
  unfold sys_read. apply wp_bind, wp_bind. apply wp_observe; [done|]. intros [d|e]; cbn [sight]; apply wp_ret.
  - destruct (take _ d) eqn:Ed; cbn [nonempty]; apply wp_ret.
    + apply (Hend (Some alias)); try done. intros a [= <-]. split_and!; [done..|]. cbn. by rewrite app_nil_r.
    + split_and!; [done..|]. cbn. by rewrite Ha.
  - destruct (e =? EINTR); apply wp_ret.
    + split_and!; [done..|]. cbn. by rewrite app_nil_r.
    + by apply (Hend None).
Qed.

Lemma verify_seen name expected b deletion w index :
  sg_first w = Some index →
  wp (ownership name expected b deletion) (verify_interface_ownership name expected b)
    (λ r w', kept w w' ∧
       (r = 1 → first_line (until_nul (sg_alias w')) = expected ∧ (b = true → sg_bridge w' = true))) w.
Proof.
  intros Hf. unfold verify_interface_ownership. set (M := ownership _ _ _ _).
  apply wp_bind. apply wp_observe; [done|]. intros i. cbn [sight]. rewrite bool_decide_eq_true_2 by done.
  set (w1 := Sightings _ _ _ _ _).
  assert (Hk1 : kept w w1) by (unfold kept, w1; cbn; rewrite Hf; set_solver).
  destruct (_ =? _)%N; [by apply wp_ret|].
  apply wp_bind. apply (wp_mono _ _ (λ (x : bool) w2, kept w w2 ∧ (x = true → b = true → sg_bridge w2 = true))).
  - intros [|] w2 [Hk2 Hb2]; cbn [negb]; [|by apply wp_ret].
    apply wp_bind. eapply wp_mono; [|apply read_alias_seen]. cbv beta. intros a w3 (Hk3 & Hb3 & Ha).
    apply wp_ret. split; [by eapply kept_trans|]. case_bool_decide as E; [|done]. intros _.
    split; [by apply Ha|]. rewrite Hb3. auto.
  - destruct b; [|by apply wp_ret]. cbv zeta. destruct (truncated _ _); [by apply wp_ret|].
    apply wp_bind. apply wp_observe; [done|]. intros r. cbn [sight].
    rewrite (bool_decide_eq_true_2 (_ ++ _ = bridge_path name)) by done. apply wp_ret. split; [done|].
    intros Hr _. cbn [sg_bridge]. destruct r as [st|]; [|done]. rewrite Hr. cbn. by rewrite orb_true_r.
Qed.

(** A command run on a confirmed interface: its result and the new log. *)
Lemma run_confirmed {A} name expected b deletion w c s l (f : Z → prog A) Q :
  ((c :: s) :: l = set_down name ∨ (c :: s) :: l = deletion) → confirmed expected b w → (sg_log w).2 = None →
  (∀ r, wp (ownership name expected b deletion) (f r) Q
     (Sightings (sg_first w) [] false []
       (if r =? 0 then (sg_log w).1 ++ [(c :: s) :: l] else (sg_log w).1, None))) →
  wp (ownership name expected b deletion) (td_run_command ((c :: s) :: l) ≫= f) Q w.
Proof.
  intros Hargv Hc Hlog H. set (argv := (c :: s) :: l) in *. unfold td_run_command. apply wp_bind, wp_bind.
  apply wp_observe; [done|]. intros [child|e]; cbn [sight command_step s_ok]; [|apply (H (-1))].
  unfold wait_for_child. apply wp_bind.
  set (w1 := Sightings _ _ _ _ _).
  apply (wp_retry _ (λ w, w = w1)); [done|].
  intros w2 ->. apply wp_observe; [done|].
  intros [[[|z|z]|sig]|e]; cbn [sight command_step failed_with w1 sg_first sg_now sg_bridge sg_alias sg_log fst snd].
  - apply wp_ret. apply (H 0).
  - apply wp_ret. apply (H (Z.pos z)).
  - apply wp_ret. apply (H (Z.neg z)).
  - apply wp_ret. apply (H (-1)).
  - destruct (e =? EINTR); [done|]. apply wp_ret. apply (H (-1)).
Qed.

Lemma confirmed_intro w w' index expected b :
  kept w w' → sg_first w = Some index → index ≠ 0%N → index ∈ sg_now w →
  first_line (until_nul (sg_alias w')) = expected ∧ (b = true → sg_bridge w' = true) →
  confirmed expected b w'.
Proof. intros (Hf & _ & Hn) Hi H0 Hin [Ha Hb]. split; [|done]. exists index. rewrite Hf. auto. Qed.

Lemma look_up name expected b deletion w (Q : N → sightings → Prop) :
  (∀ i, Q i (Sightings (Some (default i (sg_first w))) (i :: sg_now w) (sg_bridge w) (sg_alias w) (sg_log w))) →
  wp (ownership name expected b deletion) (if_nametoindex name) Q w.
Proof.
  intros H. apply wp_observe; [done|]. intros i. cbn [sight].
  rewrite (bool_decide_eq_true_2 (name = name)) by done. apply H.
Qed.

(** The deletion itself, on a confirmed interface. *)
Lemma delete_confirmed name expected b deletion w c s l :
  deletion = (c :: s) :: l → confirmed expected b w → (sg_log w).2 = None → deletion ∉ (sg_log w).1 →
  wp (ownership name expected b deletion)
    (deleted ← td_run_command deletion; Ret (if deleted =? 0 then 0 else -1)) (deletion_result deletion) w.
Proof.
  intros -> Hc Hlog Hn. apply run_confirmed; [by right|done|done|]. intros r. apply wp_ret.
  unfold deletion_result. cbn [sg_first sg_log fst]. destruct (r =? 0); [left|by right].
  split; [done|]. right. set_solver.
Qed.

(** Both deletions start by looking the interface up. *)
Definition first_sight (index : N) : sightings := Sightings (Some index) [index] false [] ([], None).

Lemma delete_bridge_owned name expected :
  wp (ownership name expected true (delete_bridge name)) (delete_owned_bridge name expected)
    (deletion_result (delete_bridge name)) unseen.
Proof.
  unfold delete_owned_bridge. apply wp_bind, look_up. intros i. fold (first_sight i).
  destruct (N.eqb_spec i 0) as [->|Hi]; [by apply wp_ret; left; auto|].
  apply wp_bind. eapply wp_mono; [|by apply (verify_seen _ _ _ _ _ i)].
  cbv beta. intros r w [Hk Hr]. pose proof Hk as (Hf & Hl & Hn). cbn in Hf, Hl.
  destruct (Z.eqb_spec r 1); cbn [negb].
  2:{ apply wp_ret. right. rewrite Hl. by split; [|apply not_elem_of_nil]. }
  apply run_confirmed; [by left| |by rewrite Hl|].
  { apply (confirmed_intro (first_sight i) w i); auto. by left. }
  intros r1. rewrite Hf, Hl. cbn [fst]. set (log := if _ =? 0 then _ else _).
  assert (Hlog : delete_bridge name ∉ log).
  { unfold log. destruct (r1 =? 0); [|apply not_elem_of_nil]. by intros E%list_elem_of_singleton. }
  apply wp_bind, look_up. intros i2. cbn [default sg_first sg_now sg_bridge sg_alias sg_log].
  destruct (N.eqb_spec i2 i) as [->|]; cbn [negb].
  2:{ apply wp_bind, wp_ret, wp_ret. by right. }
  apply wp_bind. set (w1 := Sightings _ _ _ _ _).
  eapply wp_mono; [|by apply (verify_seen _ _ _ _ w1 i)]. cbv beta.
  intros r2 w2 [Hk2 Hr2]. pose proof Hk2 as (Hf2 & Hl2 & Hn2). cbn in Hl2.
  destruct (Z.eqb_spec r2 1); cbn [negb].
  2:{ apply wp_ret. right. by rewrite Hl2. }
  eapply delete_confirmed; [done| |by rewrite Hl2|by rewrite Hl2].
  apply (confirmed_intro w1 w2 i); auto. by left.
Qed.

Lemma delete_veth_owned name expected :
  wp (ownership name expected false (delete_veth name)) (delete_owned_veth name expected)
    (deletion_result (delete_veth name)) unseen.
Proof.
  unfold delete_owned_veth. apply wp_bind, look_up. intros i. fold (first_sight i).
  destruct (N.eqb_spec i 0) as [->|Hi]; [by apply wp_ret; left; auto|].
  apply wp_bind. eapply wp_mono; [|by apply (verify_seen _ _ _ _ _ i)].
  cbv beta. intros r w [Hk Hr]. pose proof Hk as (Hf & Hl & Hn). cbn in Hf, Hl.
  destruct (Z.eqb_spec r 1); cbn [negb orb].
  2:{ apply wp_bind, wp_ret, wp_ret. right. rewrite Hl. by split; [|apply not_elem_of_nil]. }
  apply wp_bind, look_up. intros i2. rewrite Hf, Hl. cbn [default].
  destruct (N.eqb_spec i2 i) as [->|]; cbn [negb].
  2:{ apply wp_ret. right. by split; [|apply not_elem_of_nil]. }
  eapply delete_confirmed; [done| |done|by apply not_elem_of_nil].
  split; [|by apply Hr]. exists i. cbn. split_and!; [done|done|by left].
Qed.

(** C24: an interface is only ever deleted, or set down on the way, after its
    alias has been read to be the one the program gives its own (and, for a
    bridge, the name has been seen to be a bridge), and the name has been seen,
    since the last command, to carry the index it carried at first: an
    interface of another owner, or one put under the name meanwhile, is left
    alone.  The functions report success just when there was no interface at
    first or the deletion succeeded. *)
Theorem delete_owned_interfaces name expected_alias :
  wp (ownership name expected_alias true (delete_bridge name)) (delete_owned_bridge name expected_alias)
    (deletion_result (delete_bridge name)) unseen ∧
  wp (ownership name expected_alias false (delete_veth name)) (delete_owned_veth name expected_alias)
    (deletion_result (delete_veth name)) unseen.
Proof. split; [apply delete_bridge_owned|apply delete_veth_owned]. Qed.
