(* ===== verification/StatusInfo.v ===== *)
(** * docker/status_info.c: the status files of the containers

    Creating the record of a container, publishing and reading its status
    file, and checking that a container recorded as running still runs. *)
From S2P Require Import Prelude CString Paths Safety StatusCodec Sys Resources Process Fs Config Cgroup NetworkStore.
From Stdlib Require Import Lia.

Definition CONTAINER_STATUS_INFO_DIR : cstr := TINYDOCKER_RUNTIME_DIR ++ lit "/container_info".

Definition str_status (status : container_status) : cstr :=
  match status with
  | CONTAINER_RUNNING => lit "RUNNING"
  | CONTAINER_STOPPED => lit "STOPPED"
  | CONTAINER_EXITED => lit "EXITED"
  end.

(** ** The record of a new container *)

(** [None] is -1. *)
Definition copy_string_field (dst_size : Z) (src : option cstr) : option cstr :=
  if dst_size =? 0 then None
  else if truncated (default [] src) dst_size then None else Some (default [] src).
Definition append_string_field (dst : cstr) (dst_size : Z) (src : option cstr) : option cstr :=
  if (dst_size =? 0) || (dst_size <=? strlen dst) then None
  else if truncated (default [] src) (dst_size - strlen dst) then None else Some (dst ++ default [] src).

(** The value, or [errno]. *)
Definition read_process_start_time (pid : Z) : prog (sysret Z) :=
  if pid <=? 0 then Ret (SErr EINVAL)
  else
    let path := lit "/proc/" ++ fmt_d pid ++ lit "/stat" in
    if truncated path 64 then Ret (SErr ENAMETOOLONG)
    else
      opened ← call (Fopen path);
      match opened with
      | SErr e => Ret (SErr e)
      | SOk file =>
          line ← call (Fgets file 4096);
          closed ← call (Fclose file);
          match line with
          | SErr e => Ret (SErr (if e =? 0 then EIO else e))
          | SOk stat_line =>
              match closed with
              | SErr e => Ret (SErr e)
              | SOk _ =>
                  Ret (match td_parse_proc_stat_start_time (Some (until_nul (take 4095 stat_line))) with
                       | Ok start_time => SOk start_time
                       | Err _ => SErr EINVAL
                       end)
              end
          end
      end.

(** The rest of the command line, each word after a blank. *)
Fixpoint append_arguments (command : cstr) (argv : list cstr) : option cstr :=
  match argv with
  | [] => Some command
  | a :: rest =>
      match append_string_field command COMMAND_SIZE (Some [SP]) with
      | None => None
      | Some command =>
          match append_string_field command COMMAND_SIZE (Some a) with
          | None => None
          | Some command => append_arguments command rest
          end
      end
  end.

Definition volume_text (v : volume_config) : cstr :=
  vc_host v ++ lit ":" ++ vc_container v ++ lit ":" ++ (if vc_ro v =? 1 then lit "ro" else lit "rw").

(** The entries of [info->volumes] that are written. *)
Fixpoint volume_texts (volumes : list volume_config) : option (list cstr) :=
  match volumes with
  | [] => Some []
  | v :: rest =>
      if negb (nonempty (vc_host v)) || negb (nonempty (vc_container v)) then None
      else if truncated (volume_text v) VOLUME_SIZE then None
      else
        match volume_texts rest with
        | None => None
        | Some texts => Some (volume_text v :: texts)
        end
  end.

(** The fields set before the time of creation is formatted: container id,
    image and command line. *)
Definition first_fields (created_timestamp : Z) (image argv0 : cstr) (arguments : list cstr)
    : option (cstr * cstr * cstr) :=
  let container_id := fmt_d created_timestamp in
  if truncated container_id ID_SIZE then None
  else
    match copy_string_field IMAGE_SIZE (Some image), copy_string_field COMMAND_SIZE (Some argv0) with
    | Some image, Some command =>
        match append_arguments command arguments with
        | Some command => Some (container_id, image, command)
        | None => None
        end
    | _, _ => None
    end.

(** The fields set after it. *)
Definition last_fields (args : docker_run_arguments) (status : container_status) (ip_addr : option cstr)
    (created : cstr) : option (cstr * cstr * cstr * list cstr) :=
  if negb (strlen created =? CREATED_SIZE - 1) then None
  else
    match copy_string_field STATUS_SIZE (Some (str_status status)), copy_string_field IP_SIZE ip_addr,
          copy_string_field NAME_SIZE (Some (run_name args)),
          volume_texts (take MAX_VOLUMES (run_volumes args)) with
    | Some status, Some ip, Some name, Some texts => Some (status, ip, name, texts)
    | _, _, _, _ => None
    end.

(** [strftime] with [%Y-%m-%d %H:%M:%S] into a buffer of 20 bytes. *)
Definition timestamp_to_string (timestamp buffer_size : Z) : prog cstr :=
  text ← call (Strftime timestamp);
  Ret (take (Z.to_nat (buffer_size - 1)) (until_nul text)).

Definition create_container_info (args : docker_run_arguments) (pid : Z) (status : container_status)
    (ip_addr : option cstr) (created_timestamp : Z) : prog (option container_info) :=
  match run_image args, run_argv args with
  | Some image, argv0 :: arguments =>
      started ← read_process_start_time pid;
      match started with
      | SErr _ => Ret None
      | SOk start_time =>
          match first_fields created_timestamp image argv0 arguments with
          | None => Ret None
          | Some (container_id, image, command) =>
              created ← timestamp_to_string created_timestamp CREATED_SIZE;
              Ret (match last_fields args status ip_addr created with
                   | None => None
                   | Some (status, ip, name, texts) =>
                       Some (ContainerInfo pid start_time (run_detach args) container_id image command created
                               status name ip (Z.of_nat (length texts))
                               (texts ++ replicate (MAX_VOLUMES - length texts) []))
                   end)
          end
      end
  | _, _ => Ret None
  end.

(** ** Publishing a status file *)

(** [td_write_container_info] as it writes to a stream. *)
Fixpoint put_volumes (stream : nat) (volumes : list cstr) : prog bool :=
  match volumes with
  | [] => Ret true
  | v :: rest =>
      if contains_record_separator v then Ret false
      else
        printed ← call (Fputs stream (LF :: v));
        if s_ok printed then put_volumes stream rest else Ret false
  end.
Definition put_container_info (stream : nat) (info : container_info) : prog bool :=
  if (ci_pid info <=? 0) || (ci_volume_cnt info <? 0) || (Z.of_nat MAX_VOLUMES <? ci_volume_cnt info)
     || negb (valid_status (ci_status info)) || contains_record_separator (ci_image info)
     || contains_record_separator (ci_command info) || contains_record_separator (ci_name info)
  then Ret false
  else
    header ← call (Fputs stream (header_text info));
    if negb (s_ok header) then Ret false
    else
      volumes ← put_volumes stream (take (Z.to_nat (ci_volume_cnt info)) (ci_volumes info));
      if volumes : bool then
        finished ← call (Fputs stream [LF]);
        Ret (s_ok finished)
      else Ret false.

Definition temporary_info_name (container_name : cstr) (pid : Z) (attempt : nat) : cstr :=
  lit "." ++ container_name ++ lit ".tmp." ++ fmt_d pid ++ lit "." ++ fmt_u (Z.of_nat attempt).

(** The 100 attempts; the descriptor, if any, and what [temporary_name] holds
    afterwards. *)
Fixpoint open_temporary_info (directory_fd : nat) (container_name : cstr) (attempts : list nat)
    (temporary_name : cstr) : prog (option nat * cstr) :=
  match attempts with
  | [] => Ret (None, temporary_name)
  | attempt :: attempts' =>
      pid ← call Getpid;
      let text := temporary_info_name container_name pid attempt in
      if truncated text 256 then Ret (None, set_error 256 text)
      else
        opened ← call (Openat directory_fd text [O_WRONLY; O_CREAT; O_EXCL; O_CLOEXEC; O_NOFOLLOW] 384);
        match opened with
        | SOk fd => Ret (Some fd, text)
        | SErr e =>
            if e =? EEXIST then open_temporary_info directory_fd container_name attempts' text
            else Ret (None, text)
        end
  end.

(** From the temporary file to the published one. *)
Definition publish_info (directory_fd metadata_fd : nat) (temporary_name container_name : cstr)
    (info : container_info) : prog bool :=
  stream ← call (Fdopen metadata_fd);
  if negb (s_ok stream) then _ ← call (Close metadata_fd); Ret false
  else
    written ← put_container_info metadata_fd info;
    flushed ← (if written : bool then call (Fflush metadata_fd) else Ret (SErr 0));
    synced ← (if s_ok flushed then call (Fsync metadata_fd) else Ret (SErr 0));
    if negb (s_ok synced) then _ ← call (Fclose metadata_fd); Ret false
    else
      closed ← call (Fclose metadata_fd);
      if negb (s_ok closed) then Ret false
      else
        renamed ← call (Renameat directory_fd temporary_name directory_fd container_name);
        Ret (s_ok renamed).

(** [!path_exist(dir) && make_path(dir) != 0] is [false]. *)
Definition directory_ready (dir : cstr) : prog bool :=
  exists_ ← path_exist dir;
  if exists_ : bool then Ret true
  else
    made ← make_path dir;
    Ret (made =? 0).

Definition write_container_info (container_name : cstr) (info : container_info) : prog Z :=
  if negb (is_Ok (td_validate_name (Some container_name) TINYDOCKER_MAX_CONTAINER_NAME))
     || negb (bool_decide (container_name = ci_name info))
  then Ret (-1)
  else
    ready ← directory_ready CONTAINER_STATUS_INFO_DIR;
    if negb ready then Ret (-1)
    else
      directory ← call (Open CONTAINER_STATUS_INFO_DIR directory_flags 0);
      match directory with
      | SErr _ => Ret (-1)
      | SOk directory_fd =>
          '(metadata, temporary_name) ← open_temporary_info directory_fd container_name (seq 0 100) [];
          published ← (match metadata with
                       | None => Ret false
                       | Some fd => publish_info directory_fd fd temporary_name container_name info
                       end);
          _ ← when (negb published && nonempty temporary_name)
                (discard (call (Unlinkat directory_fd temporary_name)));
          _ ← call (Close directory_fd);
          Ret (if published : bool then 0 else -1)
      end.

(** ** Reading *)

Definition MAX_METADATA_SIZE : Z := 1024 * 1024.

(** The text of an open status file. *)
Definition load_metadata (metadata_fd : nat) : prog (option cstr) :=
  status ← call (Fstat metadata_fd);
  match safe_size MAX_METADATA_SIZE status with
  | None => Ret None
  | Some size =>
      room ← call (Malloc (size + 1));
      if room : bool then read_exactly metadata_fd size else Ret None
  end.

Definition read_container_info (container_name : cstr) : prog (option container_info) :=
  if negb (is_Ok (td_validate_name (Some container_name) TINYDOCKER_MAX_CONTAINER_NAME)) then Ret None
  else
    directory ← call (Open CONTAINER_STATUS_INFO_DIR directory_flags 0);
    match directory with
    | SErr _ => Ret None
    | SOk directory_fd =>
        metadata ← call (Openat directory_fd container_name [O_RDONLY; O_CLOEXEC; O_NOFOLLOW] 0);
        match metadata with
        | SErr _ => _ ← call (Close directory_fd); Ret None
        | SOk metadata_fd =>
            data ← load_metadata metadata_fd;
            _ ← call (Close metadata_fd);
            _ ← call (Close directory_fd);
            Ret (match data with
                 | None => None
                 | Some data =>
                     match td_parse_container_info (Some data) (Some container_name) with
                     | Ok info => Some info
                     | Err _ => None
                     end
                 end)
        end
    end.

(** ** Updating *)

Definition update_container_status (container_name : cstr) (status : container_status) : prog Z :=
  read ← read_container_info container_name;
  match read with
  | None => Ret (-1)
  | Some info =>
      write_container_info container_name (set_status (set_error STATUS_SIZE (str_status status)) info)
  end.

(** Whether the process of a running container is the one recorded: [None]
    when that cannot be told. *)
Definition process_identity (info : container_info) : prog (option bool) :=
  started ← read_process_start_time (ci_pid info);
  Ret (match started with
       | SOk current_start_time =>
           Some ((ci_pid_start_time info =? 0) || (current_start_time =? ci_pid_start_time info))
       | SErr e => if (e =? ENOENT) || (e =? ESRCH) then Some false else None
       end).

(** The return value and the record afterwards. *)
Definition refresh_container_status_if_needed (container_name : cstr) (info : container_info)
    : prog (Z * container_info) :=
  if negb (nonempty container_name) then Ret (-1, info)
  else if negb (bool_decide (ci_status info = lit "RUNNING")) then Ret (0, info)
  else if ci_pid info <=? 0 then Ret (0, info)
  else
    same ← process_identity info;
    match same with
    | None => Ret (-1, info)
    | Some true => Ret (0, info)
    | Some false =>
        let exited := set_status (set_error STATUS_SIZE (str_status CONTAINER_EXITED)) info in
        written ← write_container_info container_name exited;
        Ret (if written =? 0 then 1 else -1, exited)
    end.

(** One entry of the directory: the record to add, if any. *)
Definition list_entry (name : cstr) : prog (option container_info) :=
  read ← read_container_info name;
  match read with
  | None => Ret None
  | Some info =>
      '(_, info) ← refresh_container_status_if_needed name info;
      Ret (Some info)
  end.

(** One turn of the loop over the entries. *)
Definition list_turn (dir : nat) (capacity : Z) (infos : list container_info)
    : prog (list container_info + list container_info) :=
  entry ← call (Readdir dir);
  match entry with
  | None => Ret (inr infos)
  | Some name =>
      if bool_decide (name = lit ".") || bool_decide (name = lit "..") then Ret (inl infos)
      else if negb (is_Ok (td_validate_name (Some name) TINYDOCKER_MAX_CONTAINER_NAME)) then Ret (inl infos)
      else
        let file_path := CONTAINER_STATUS_INFO_DIR ++ lit "/" ++ name in
        if truncated file_path PATH_MAX then Ret (inl infos)
        else
          file_stat ← call (Lstat file_path);
          match file_stat with
          | SErr _ => Ret (inl infos)
          | SOk st =>
              if negb (bool_decide (fs_kind st = Regular)) then Ret (inl infos)
              else if capacity <=? Z.of_nat (length infos) then Ret (inr infos)
              else
                loaded ← list_entry name;
                Ret (inl (infos ++ match loaded with Some info => [info] | None => [] end))
          end
  end.

Definition list_containers_info (capacity : Z) : prog (option (list container_info)) :=
  if capacity =? 0 then Ret None
  else
    opened ← call (Opendir CONTAINER_STATUS_INFO_DIR);
    match opened with
    | SErr _ => Ret None
    | SOk dir =>
        infos ← iter (list_turn dir capacity) [];
        _ ← call (Closedir dir);
        Ret (Some infos)
    end.

Definition remove_status_info (container_name : cstr) : prog Z :=
  if negb (is_Ok (td_validate_name (Some container_name) TINYDOCKER_MAX_CONTAINER_NAME)) then Ret (-1)
  else
    directory ← call (Open CONTAINER_STATUS_INFO_DIR directory_flags 0);
    match directory with
    | SErr e => Ret (if e =? ENOENT then 0 else -1)
    | SOk directory_fd =>
        result ← call (Unlinkat directory_fd container_name);
        _ ← call (Close directory_fd);
        Ret (match result with SOk _ => 0 | SErr e => if e =? ENOENT then 0 else -1 end)
    end.

#[global] Arguments read_process_start_time : simpl never.
#[global] Arguments write_container_info : simpl never.
#[global] Arguments read_container_info : simpl never.
#[global] Arguments process_identity : simpl never.

(** ** Descriptors *)

Lemma balanced_start_time pid : balanced (read_process_start_time pid).
Proof. intros w. unfold read_process_start_time. cbv zeta. held_auto. Qed.
Lemma balanced_timestamp t n : balanced (timestamp_to_string t n).
Proof. unfold timestamp_to_string. balanced_auto. Qed.
#[export] Hint Resolve balanced_start_time balanced_timestamp : balanced.

Lemma balanced_create_info args pid status ip t : balanced (create_container_info args pid status ip t).
Proof. unfold create_container_info. balanced_auto. Qed.

Lemma wp_put_info fd info w : fd ∈ h_fds w →
  wp resources (put_container_info fd info) (λ _ w', w' = w) w.
Proof.
  intros Hfd.
  assert (Hv : ∀ l, wp resources (put_volumes fd l) (λ _ w', w' = w) w).
  { induction l as [|v l IH]; cbn [put_volumes]; [done|]. held_step; [done|]. held_step. held_step; [apply IH|done]. }
  unfold put_container_info. held_step; [done|]. held_step. held_step; [done|].
  apply wp_bind. eapply wp_mono; [|apply Hv]. cbv beta. intros [|] w' ->; [|done]. held_auto.
Qed.

Lemma wp_publish_info dfd fd tmp name info w : dfd ∈ h_fds w →
  wp resources (publish_info dfd fd tmp name info) (λ _ w', w' = w) (take_fd fd w).
Proof.
  intros Hd. unfold publish_info. held_step. held_step; [held_auto|].
  apply wp_bind. eapply wp_mono; [|apply wp_put_info; auto with held]. cbv beta. intros ok w' ->.
  apply wp_bind. apply (wp_mono _ _ (λ _ w', w' = take_fd fd w)).
  2:{ destruct ok; [apply wp_observe; auto with held|done]. }
  intros flushed w' ->. apply wp_bind. apply (wp_mono _ _ (λ _ w', w' = take_fd fd w)).
  2:{ destruct (s_ok flushed); [apply wp_observe; auto with held|done]. }
  intros synced w' ->. held_auto.
Qed.

Lemma balanced_ready dir : balanced (directory_ready dir).
Proof. unfold directory_ready. balanced_auto. Qed.
#[export] Hint Resolve balanced_ready : balanced.

Lemma balanced_write_info name info : balanced (write_container_info name info).
Proof.
  intros w. unfold write_container_info. held_step; [done|]. held_step. held_step; [done|]. held_step. held_step; [|done].
  rename a1 into dfd.
  assert (Ho : ∀ l t, wp resources (open_temporary_info dfd name l t)
    (λ r w', w' = match r.1 with Some fd => take_fd fd (take_fd dfd w) | None => take_fd dfd w end) (take_fd dfd w)).
  { induction l as [|n l IH]; intros t; cbn [open_temporary_info]; [done|]. held_step. cbv zeta.
    held_step; [done|]. held_step. held_step; [done|]. held_step; [apply IH|done]. }
  apply wp_bind. eapply wp_mono; [|apply Ho]. cbv beta. intros [md tmp] w' ->. cbn [fst].
  apply wp_bind. apply (wp_mono _ _ (λ _ w', w' = take_fd dfd w)).
  2:{ destruct md; [apply wp_publish_info; auto with held|done]. }
  intros p w' ->. unfold when, discard. apply wp_bind.
  apply (wp_mono _ _ (λ _ w', w' = take_fd dfd w)); [|destruct (_ && _); held_auto].
  intros [] w' ->. held_auto.
Qed.

Lemma balanced_read_info_file name : balanced (read_container_info name).
Proof.
  intros w. unfold read_container_info. held_step; [done|]. held_step. held_step; [|done]. held_step. held_step; [|held_auto].
  apply wp_bind. apply (wp_mono _ _ (λ _ w', w' = take_fd a2 (take_fd a0 w))); [intros data w' ->; held_auto|].
  unfold load_metadata. held_step. held_step; [|done]. held_step. held_step; [|done].
  apply (wp_iter resources (λ _ w', w' = take_fd a2 (take_fd a0 w))); [done|].
  intros d w' ->. unfold read_turn. destruct (strlen d <? _); [|done].
  held_step. apply wp_ret. destruct r as [d'|e]; [by destruct (nonempty d')|by destruct (e =? EINTR)].
Qed.
#[export] Hint Resolve balanced_create_info balanced_write_info balanced_read_info_file : balanced.

Lemma balanced_update name status : balanced (update_container_status name status).
Proof. unfold update_container_status. balanced_auto. Qed.
Lemma balanced_identity info : balanced (process_identity info).
Proof. unfold process_identity. balanced_auto. Qed.
#[export] Hint Resolve balanced_identity : balanced.
Lemma balanced_refresh name info : balanced (refresh_container_status_if_needed name info).
Proof. unfold refresh_container_status_if_needed. cbv zeta. balanced_auto. Qed.
Lemma balanced_remove_info name : balanced (remove_status_info name).
Proof. intros w. unfold remove_status_info. held_auto. Qed.
#[export] Hint Resolve balanced_update balanced_refresh balanced_remove_info : balanced.

Lemma balanced_list_entry name : balanced (list_entry name).
Proof. unfold list_entry. balanced_auto. Qed.
#[export] Hint Resolve balanced_list_entry : balanced.

Lemma balanced_list capacity : balanced (list_containers_info capacity).
Proof.
  intros w. unfold list_containers_info. held_step; [done|]. held_step. held_step; [|done].
  apply wp_bind. apply (wp_iter resources (λ _ w', w' = take_fd a0 w)); [done|].
  intros infos w' ->. unfold list_turn. held_auto.
Qed.
#[export] Hint Resolve balanced_list : balanced.

(** ** What a process learns and publishes *)

(** The temporary file being written, as long as no call on it has failed: its
    name, the stream it is written through (none once that was closed), what is
    still in the buffer of the stream, what is in the file and what of it was
    synchronized. *)
Record temporary := Temporary {
  tp_name : cstr;
  tp_stream : option nat;
  tp_buffer : cstr;
  tp_file : cstr;
  tp_synced : cstr;
}.

(** The stream last opened by a path, and the first line read from it. *)
Record stream := Stream { sm_fd : nat; sm_path : cstr; sm_line : option (sysret cstr) }.

(** [vw_file] is the descriptor of the status file being read and [vw_text]
    what was read of it; [vw_temp] the temporary file and [vw_published] the
    name and the content of the file last renamed into place; [vw_stat] the path
    and the first line of the last stream that was read by lines and closed, or
    the error that opening, reading or closing it gave; [vw_stream] the stream
    that is open; [vw_members] the path and the content of the member list last
    read (empty when it does not exist). *)
Record view := View {
  vw_file : option nat;
  vw_text : cstr;
  vw_temp : option temporary;
  vw_published : option (cstr * cstr);
  vw_stat : option (cstr * sysret cstr);
  vw_stream : option stream;
  vw_members : option (cstr * cstr);
}.

Definition under_sys (path : cstr) : bool := starts_with (lit "/sys/") path.
Definition creates (flags : list oflag) : bool := bool_decide (O_CREAT ∈ flags) && bool_decide (O_EXCL ∈ flags).

(** A call on the stream of the temporary file: [g] when it succeeds. *)
Definition on_temp (fd : nat) (ok : bool) (g : temporary → temporary) (tm : option temporary) : option temporary :=
  match tm with
  | Some x =>
      match tp_stream x with
      | Some fd' => if (fd' =? fd)%nat then (if ok then Some (g x) else None) else tm
      | None => tm
      end
  | None => None
  end.
Definition flushed (stream : option nat) (x : temporary) : temporary :=
  Temporary (tp_name x) stream [] (tp_file x ++ tp_buffer x) (tp_synced x).

Definition ended (fd : nat) (a : option stream) : option stream :=
  match a with Some (Stream fd' _ _) => if (fd' =? fd)%nat then None else a | None => None end.
(** What closing a stream leaves known of its line. *)
Definition line_seen (fd : nat) (closed : sysret unit) (a : option stream) (s : option (cstr * sysret cstr))
    : option (cstr * sysret cstr) :=
  match a with
  | Some (Stream fd' path (Some line)) =>
      if (fd' =? fd)%nat
      then Some (path, match line, closed with SOk _, SErr e => SErr e | _, _ => line end)
      else s
  | _ => s
  end.

Definition view_step (w : view) (c : syscall) : ans c → view :=
  let '(View f t tm p s a m) := w in
  let without fd := if bool_decide (f = Some fd) then None else f in
  match c with
  | Openat _ name flags _ => λ r : sysret nat,
      match r with
      | SOk fd => if creates flags then View f t (Some (Temporary name (Some fd) [] [] [])) p s a m
                  else View (Some fd) [] tm p s a m
      | SErr _ => w
      end
  | Read fd n => λ r : sysret cstr,
      match r with
      | SOk d => if bool_decide (f = Some fd) then View f (t ++ take (Z.to_nat n) d) tm p s a m else w
      | SErr _ => w
      end
  | Close fd => λ _, View (without fd) t (on_temp fd false id tm) p s (ended fd a) m
  | Fclose fd => λ r : sysret unit,
      View (without fd) t (on_temp fd (s_ok r) (flushed None) tm) p (line_seen fd r a s) (ended fd a) m
  | Fopen path => λ r : sysret nat,
      match r with
      | SErr e => if under_sys path then w else View f t tm p (Some (path, SErr e)) a m
      | SOk fd => View f t tm p s (Some (Stream fd path None)) None
      end
  | Fgets fd n => λ r : sysret cstr,
      match a with
      | Some (Stream fd' path None) =>
          if (fd' =? fd)%nat then
            View f t tm p s (Some (Stream fd path
              (Some (match r with SOk l => SOk (until_nul (take (Z.to_nat (n - 1)) l)) | SErr e => SErr e end)))) m
          else w
      | _ => w
      end
  | Access path => λ r : bool,
      if under_sys path then View f t tm p s a (if r then None else Some (path, [])) else w
  | Fread fd n => λ r : cstr * (bool * bool),
      match a with
      | Some (Stream fd' path None) =>
          let content := take (Z.to_nat n) r.1 in
          if (fd' =? fd)%nat && negb r.2.2 && (r.2.1 || negb (strlen content =? n))
          then View f t tm p s a (Some (path, until_nul content)) else View f t tm p s a None
      | _ => w
      end
  | Fputs fd line => λ r : sysret unit,
      View f t (on_temp fd (s_ok r)
        (λ x, Temporary (tp_name x) (Some fd) (tp_buffer x ++ line) (tp_file x) (tp_synced x)) tm) p s a m
  | Fflush fd => λ r : sysret unit, View f t (on_temp fd (s_ok r) (flushed (Some fd)) tm) p s a m
  | Fsync fd => λ r : sysret unit,
      View f t (on_temp fd (s_ok r)
        (λ x, Temporary (tp_name x) (Some fd) (tp_buffer x) (tp_file x) (tp_file x)) tm) p s a m
  | Renameat _ old _ new => λ r : sysret unit,
      if s_ok r then
        View f t None match tm with
                      | Some x => if bool_decide (tp_name x = old) then Some (new, tp_file x) else None
                      | None => None
                      end s a m
      else w
  | Unlinkat _ name => λ _, View f t None p s a m
  | _ => λ _, w
  end.

(** [fclose] does not report that a file or process does not exist, and a
    process has a positive id that fits an [int]. *)
Definition documented (c : syscall) : ans c → Prop :=
  match c with
  | Fclose _ => λ r : sysret unit, failed_with r ENOENT = false ∧ failed_with r ESRCH = false
  | Getpid => λ pid : Z, 1 ≤ pid ≤ INT_MAX
  | _ => λ _, True
  end.

Definition read_flags (flags : list oflag) : bool :=
  forallb (λ f, negb (bool_decide (f ∈ [O_WRONLY; O_RDWR; O_CREAT; O_TRUNC]))) flags.

(** Calls that destroy nothing, publish nothing and start nothing: nothing is
    opened for writing by a name, and nothing is made but the directory of the
    status files. *)
Definition harmless (c : syscall) : bool :=
  match c with
  | Malloc _ | Close _ | Read _ _ | Fsync _ | Fstat _ | Stat _ | Lstat _ | Access _ | Fopen _ | Fdopen _
  | Fputs _ _ | Fgets _ _ | Fread _ _ | Fflush _ | Fclose _ | Opendir _ | Readdir _ | Closedir _ | Realpath _
  | Waitpid _ | Getpid | Nanosleep _ | If_nametoindex _ | Time | Strftime _ | Print _ => true
  | Open _ flags _ | Openat _ _ flags _ => read_flags flags
  | Mkdir path _ => starts_with path CONTAINER_STATUS_INFO_DIR
  | _ => false
  end.

(** A temporary name of the status file of [name], made by the process [pid]. *)
Definition temporary_of (name x : cstr) : Prop :=
  ∃ pid attempt, 1 ≤ pid ≤ INT_MAX ∧ (attempt < 100)%nat ∧
    x = "."%char :: name ++ lit ".tmp." ++ fmt_d pid ++ "."%char :: fmt_u (Z.of_nat attempt).

(** What is done to such files: they are created, never opened when they exist
    already, and unlinked. *)
Definition on_temporary (name : cstr) (c : syscall) : Prop :=
  match c with
  | Openat _ x flags _ => temporary_of name x ∧ creates flags = true
  | Unlinkat _ x => temporary_of name x
  | _ => False
  end.

(** The temporary file holds [text], all of it flushed, synchronized and
    closed. *)
Definition written (old text : cstr) (w : view) : Prop := vw_temp w = Some (Temporary old None [] text text).

(** The entry of the process [pid] in /proc. *)
Definition proc_stat (pid : Z) : cstr := lit "/proc/" ++ fmt_d pid ++ lit "/stat".

(** What /proc has shown of the process recorded in [info]: that it is there
    (a record without a start time is believed), that it is gone, or neither. *)
Definition verdict (info : container_info) (w : view) : option bool :=
  match vw_stat w with
  | Some (path, seen) =>
      if bool_decide (path = proc_stat (ci_pid info)) then
        match seen with
        | SErr e => if (e =? ENOENT) || (e =? ESRCH) then Some false else None
        | SOk line =>
            match td_parse_proc_stat_start_time (Some line) with
            | Ok t => Some ((ci_pid_start_time info =? 0) || (t =? ci_pid_start_time info))
            | Err _ => None
            end
        end
      else None
  | None => None
  end.
Definition gone (info : container_info) (w : view) : Prop := verdict info w = Some false.
Definition alive (info : container_info) (w : view) : Prop := verdict info w = Some true.
(** The entry was looked at. *)
Definition looked (info : container_info) (w : view) : Prop := ∃ seen, vw_stat w = Some (proc_stat (ci_pid info), seen).

Section Viewed.
Context (ok : view → syscall → Prop) (Hok : ∀ w c, harmless c = true → ok w c).

Definition viewing : model view := Model ok (λ w c a w', documented c a ∧ w' = view_step w c a).

Lemma wp_view {A} c (k : ans c → prog A) Q w :
  ok w c → (∀ a, documented c a → wp viewing (k a) Q (view_step w c a)) → wp viewing (call c ≫= k) Q w.
Proof. intros Hc H. apply wp_bind. split; [done|]. intros a w' [Ha ->]. by apply H. Qed.

Lemma none_fd (fd : nat) : @bool_decide (None = Some fd) (decide_rel (=) None (Some fd)) = false.
Proof. done. Qed.
Lemma same_fd (fd : nat) {A} (x y : A) : (if bool_decide (Some fd = Some fd) then x else y) = x.
Proof. by rewrite bool_decide_eq_true_2. Qed.
Lemma if_none (b : bool) : (if b then None else None) = @None nat.
Proof. by destruct b. Qed.

(** A step of a program: a harmless call. *)
Ltac view_step_ :=
  apply wp_view; [by apply Hok|]; let H := fresh "Hdoc" in intros ? H;
  cbn [view_step documented on_temp line_seen ended tp_stream tp_name tp_buffer tp_file tp_synced] in *; rewrite ?none_fd, ?if_none, ?Nat.eqb_refl; cbv iota.

(** The end of a program that has learnt nothing. *)
Ltac view_stop := try apply wp_ret; eexists; split; [reflexivity|]; try done; try (by intros [|]).

(** Reading an open status file to the size it has. *)
Lemma load_metadata_view fd p s m :
  wp viewing (load_metadata fd)
    (λ r w, ∃ t, w = View (Some fd) t None p s None m ∧ ∀ d, r = Some d → d = t) (View (Some fd) [] None p s None m).
Proof.
  unfold load_metadata. view_step_. destruct (safe_size _ _); [|view_stop].
  view_step_. destruct a0; [|view_stop].
  apply (wp_iter viewing (λ d w, w = View (Some fd) d None p s None m)); [done|].
  intros d w ->. unfold read_turn. destruct (_ <? _).
  2:{ apply wp_ret. exists d. split; [done|]. by intros ? [= ->]. }
  apply wp_bind. unfold sys_read. view_step_. apply wp_ret, wp_ret. destruct a0 as [x|e].
  - rewrite bool_decide_eq_true_2 by done. destruct (take _ x) eqn:E; cbn [nonempty]; [|done].
    view_stop.
  - destruct (e =? EINTR); [done|]. view_stop.
Qed.

Lemma read_info_view name t p s m :
  wp viewing (read_container_info name)
    (λ r w, ∃ t', w = View None t' None p s None m ∧
       ∀ info, r = Some info → td_parse_container_info (Some t') (Some name) = Ok info)
    (View None t None p s None m).
Proof.
  unfold read_container_info. destruct (negb _); [view_stop|].
  view_step_. destruct a as [dfd|e]; [|view_stop].
  view_step_. change (creates [O_RDONLY; O_CLOEXEC; O_NOFOLLOW]) with false. cbv iota.
  destruct a as [mfd|e].
  2:{ view_step_. view_stop. }
  apply wp_bind. eapply wp_mono; [|apply load_metadata_view]. cbv beta. intros data w (t' & -> & Hd).
  view_step_. rewrite same_fd. view_step_. apply wp_ret. exists t'. split; [done|].
  intros info Hi. destruct data as [d|]; [|done]. rewrite <-(Hd d eq_refl).
  destruct (td_parse_container_info _ _) eqn:E; [|done]. by injection Hi as ->.
Qed.

Lemma proc_stat_fits pid : 0 < pid → truncated (proc_stat pid) 64 = true → INT_MAX < pid.
Proof.
  intros Hp Ht%Z.leb_le. destruct (Z.lt_ge_cases INT_MAX pid) as [|Hl]; [done|]. exfalso. unfold proc_stat in Ht.
  rewrite !strlen_app in Ht. change (strlen (lit "/proc/")) with 6 in Ht. change (strlen (lit "/stat")) with 5 in Ht.
  assert (strlen (fmt_d pid) ≤ 10); [|lia]. unfold fmt_d. case Z.ltb_spec; [lia|]. intros _.
  apply (fmt_u_length pid 10); unfold INT_MAX in *; lia.
Qed.

(** What is found out about the recorded process is what its entry in /proc
    shows, and the entry is looked at. *)
Lemma process_identity_view info t p s m :
  0 < ci_pid info →
  wp viewing (process_identity info)
    (λ r w, ∃ s' m', w = View None t None p s' None m' ∧
       (r = verdict info w ∧ looked info w ∨ r = None ∧ INT_MAX < ci_pid info))
    (View None t None p s None m).
Proof.
  intros Hp. unfold process_identity, read_process_start_time. apply wp_bind.
  apply (wp_mono _ _ (λ r w, ∃ s' m', w = View None t None p s' None m' ∧
    (INT_MAX < ci_pid info ∧ r = SErr ENAMETOOLONG ∨
     ∃ seen, s' = Some (proc_stat (ci_pid info), seen) ∧
       match seen with
       | SErr e => r = SErr e ∨ e = 0 ∧ r = SErr EIO
       | SOk line => r = match td_parse_proc_stat_start_time (Some line) with Ok v => SOk v | Err _ => SErr EINVAL end
       end))).
  { intros r w (s' & m' & -> & [[Hb ->]|(seen & -> & H)]); apply wp_ret; eexists _, _; (split; [reflexivity|]).
    { by right. }
    left. split; [|by exists seen]. unfold verdict. cbn [vw_stat]. rewrite bool_decide_eq_true_2 by done.
    destruct seen as [line|e].
    - subst r. by destruct (td_parse_proc_stat_start_time _).
    - by destruct H as [->|[-> ->]]. }
  rewrite (proj2 (Z.leb_gt _ _)) by done. cbv zeta. fold (proc_stat (ci_pid info)).
  destruct (truncated _ _) eqn:Et.
  { apply wp_ret. exists s, m. split; [done|]. left. split; [by apply proc_stat_fits|done]. }
  assert (Hu : under_sys (proc_stat (ci_pid info)) = false) by reflexivity.
  view_step_. rewrite Hu. destruct a as [fd|e].
  2:{ apply wp_ret. eexists _, _. split; [done|]. right. eexists. split; [done|]. by left. }
  view_step_. view_step_. apply (wp_mono _ _ (λ r w, ∃ s' m', w = View None t None p s' None m' ∧
     ∃ seen, s' = Some (proc_stat (ci_pid info), seen) ∧
       match seen with
       | SErr e => r = SErr e ∨ e = 0 ∧ r = SErr EIO
       | SOk line => r = match td_parse_proc_stat_start_time (Some line) with Ok v => SOk v | Err _ => SErr EINVAL end
       end)).
  { intros r w (s' & m' & -> & H). exists s', m'. split; [done|]. by right. }
  destruct a as [line|e].
  - destruct a0 as [u|e]; apply wp_ret; eexists _, _; (split; [done|]); eexists; (split; [done|]); [done|by left].
  - apply wp_ret. eexists _, _. split; [done|]. eexists. split; [done|].
    destruct (Z.eqb_spec e 0) as [->|]; [by right|by left].
Qed.

(** *** Writing *)

(** The stream [fd] of the temporary file [name] holds [text] in its buffer. *)
Abbreviation writing name fd text := (Some (Temporary name (Some fd) text [] [])).

Lemma put_info_view info name fd t p s m :
  wp viewing (put_container_info fd info)
    (λ b w, ∃ tm, w = View None t tm p s None m ∧
       (b = true → ∃ text, tm = writing name fd text ∧ td_write_container_info (Some info) = Ok text))
    (View None t (writing name fd []) p s None m).
Proof.
  unfold put_container_info, td_write_container_info.
  destruct (_ || _); [view_stop|]. rewrite reject_if_false by done.
  view_step_. destruct (s_ok a); cbn [negb]; [|view_stop].
  assert (Hv : ∀ l text, wp viewing (put_volumes fd l)
    (λ b w, ∃ tm, w = View None t tm p s None m ∧
       (b = true → ∃ text', tm = writing name fd text' ∧ mfold write_volume text l = Ok text'))
    (View None t (writing name fd text) p s None m)).
  { induction l as [|v l IH]; intros text; cbn [put_volumes]; [view_stop; intros _; by exists text|].
    rewrite mfold_cons. unfold write_volume at 2. destruct (contains_record_separator v); [view_stop|].
    rewrite reject_if_false by done. view_step_. destruct (s_ok a0); [apply IH|view_stop]. }
  apply wp_bind. eapply wp_mono; [|apply Hv]. cbv beta. intros [|] w (tm & -> & Ht); [|view_stop].
  destruct (Ht eq_refl) as (text & -> & Hw). view_step_. apply wp_ret.
  destruct (s_ok a0); (eexists; split; [reflexivity|]); [|done].
  intros _. eexists. split; [reflexivity|]. cbn [app] in Hw. by rewrite Hw.
Qed.

Lemma temporary_name_fits name pid n :
  td_validate_name (Some name) 127 = Ok tt → 1 ≤ pid ≤ INT_MAX → (n < 100)%nat →
  truncated (temporary_info_name name pid n) 256 = false ∧ temporary_of name (temporary_info_name name pid n).
Proof.
  intros Hn Hp Hl. apply td_validate_name_Ok in Hn as (_ & Hn & _). split; [|by exists pid, n].
  apply Z.leb_gt. unfold temporary_info_name. rewrite !strlen_app.
  change (strlen (lit ".")) with 1. change (strlen (lit ".tmp.")) with 5.
  assert (strlen (fmt_d pid) ≤ 10).
  { unfold fmt_d. case Z.ltb_spec; [lia|]. intros _. apply (fmt_u_length pid 10); unfold INT_MAX in *; lia. }
  assert (strlen (fmt_u (Z.of_nat n)) ≤ 3) by (apply (fmt_u_length _ 3); lia). lia.
Qed.

(** What is done to temporary files is allowed, and renaming the complete text
    of [info] onto [name]. *)
Definition writes_allowed (name : cstr) (info : container_info) (t : cstr) (p : option (cstr * cstr))
    (s : option (cstr * sysret cstr)) (m : option (cstr * cstr)) : Prop :=
  (∀ w c, on_temporary name c → ok w c) ∧
  (∀ dfd tmp text, td_write_container_info (Some info) = Ok text →
     ok (View None t (Some (Temporary tmp None [] text text)) p s None m) (Renameat dfd tmp dfd name)).

Lemma open_temporary_info_view dfd name l t p s m :
  td_validate_name (Some name) 127 = Ok tt → (∀ w c, on_temporary name c → ok w c) →
  Forall (λ n, n < 100)%nat l →
  ∀ last, wp viewing (open_temporary_info dfd name l last)
    (λ r w, match r with
       | (Some fd, tmp) => w = View None t (writing tmp fd []) p s None m
       | (None, tmp) => w = View None t None p s None m
       end ∧ (l = [] ∧ r.2 = last ∨ temporary_of name r.2))
    (View None t None p s None m).
Proof.
  intros Hname Hok'. induction 1 as [|n l Hn _ IH]; intros last; cbn [open_temporary_info]; [apply wp_ret; auto|].
  view_step_. rename a into pid. destruct (temporary_name_fits name pid n Hname Hdoc Hn) as [Hfit Htmp]. cbv zeta. rewrite Hfit.
  apply wp_view; [by apply Hok'|]. intros r _. cbn [view_step].
  change (creates [O_WRONLY; O_CREAT; O_EXCL; O_CLOEXEC; O_NOFOLLOW]) with true. cbv iota.
  destruct r as [fd|e]; [apply wp_ret; split; [done|by right]|].
  destruct (e =? EEXIST); [|apply wp_ret; split; [done|by right]].
  eapply wp_mono; [|apply IH]. cbv beta. intros [r tmp] w [Hw [[_ ->]|Hx]]; (split; [exact Hw|]); by right.
Qed.

(** The outcome of an attempt to publish [info]. *)
Definition published_or_not (name : cstr) (info : container_info) (t : cstr) (p : option (cstr * cstr))
    (s : option (cstr * sysret cstr)) (m : option (cstr * cstr)) (done_ : bool) (w : view) : Prop :=
  if done_ then ∃ text, td_write_container_info (Some info) = Ok text ∧ w = View None t None (Some (name, text)) s None m
  else w = View None t None p s None m.

Lemma publish_info_view dfd fd tmp name info t p s m :
  writes_allowed name info t p s m →
  wp viewing (publish_info dfd fd tmp name info)
    (λ b w, if b then published_or_not name info t p s m true w else ∃ tm, w = View None t tm p s None m)
    (View None t (writing tmp fd []) p s None m).
Proof.
  intros [_ Hren]. unfold publish_info. view_step_. destruct (negb (s_ok a)).
  { view_step_. apply wp_ret. by eexists. }
  apply wp_bind. eapply wp_mono; [|by apply put_info_view]. cbv beta. intros b w (tm & -> & Ht).
  apply wp_bind. apply (wp_mono _ _ (λ r w, ∃ tm, w = View None t tm p s None m ∧ (s_ok r = true →
    ∃ text, tm = Some (Temporary tmp (Some fd) [] text []) ∧ td_write_container_info (Some info) = Ok text))).
  2:{ destruct b; [|by apply wp_ret; eexists]. destruct (Ht eq_refl) as (text & -> & Hw). split; [by apply Hok|].
      intros r w' [_ ->]. cbn [view_step on_temp tp_stream]. rewrite Nat.eqb_refl. eexists. split; [reflexivity|].
      intros ->. by exists text. }
  clear b tm Ht. intros flushed_ w (tm & -> & Ht). apply wp_bind.
  apply (wp_mono _ _ (λ r w, ∃ tm, w = View None t tm p s None m ∧ (s_ok r = true →
    ∃ text, tm = Some (Temporary tmp (Some fd) [] text text) ∧ td_write_container_info (Some info) = Ok text))).
  2:{ destruct (s_ok flushed_); [|by apply wp_ret; eexists]. destruct (Ht eq_refl) as (text & -> & Hw).
      split; [by apply Hok|]. intros r w' [_ ->]. cbn [view_step on_temp tp_stream]. rewrite Nat.eqb_refl.
      eexists. split; [reflexivity|]. intros ->. by exists text. }
  clear tm flushed_ Ht. intros synced w (tm & -> & Ht). destruct (s_ok synced); cbn [negb].
  2:{ view_step_. apply wp_ret. by eexists. }
  destruct (Ht eq_refl) as (text & -> & Hw). view_step_. destruct (s_ok a0) eqn:Ec; cbn [negb]; [|apply wp_ret; by eexists].
  unfold flushed. cbn [tp_name tp_file tp_buffer tp_synced]. rewrite app_nil_r.
  apply wp_view; [by apply Hren|]. intros r _. cbn [view_step tp_name tp_file]. apply wp_ret.
  destruct (s_ok r); [|by eexists]. rewrite bool_decide_eq_true_2 by done. by exists text.
Qed.

Lemma under_sys_prefix q : q `prefix_of` CONTAINER_STATUS_INFO_DIR → under_sys q = false.
Proof.
  intros [k Hk]. unfold under_sys. destruct (starts_with _ q) eqn:E; [|done].
  apply bool_decide_eq_true in E. destruct q as [|c1 [|c2 q]]; [done|done|].
  cbn in Hk, E. by injection Hk as <- <- _.
Qed.

Lemma starts_with_prefix q l : q `prefix_of` l → starts_with q l = true.
Proof. intros [k ->]. apply bool_decide_eq_true_2. by rewrite take_app_length. Qed.

Lemma make_prefixes_view w : ∀ rest before,
  before ++ rest = CONTAINER_STATUS_INFO_DIR → wp viewing (make_prefixes before rest) (λ _ w', w' = w) w.
Proof.
  induction rest as [|c rest IH]; intros before Hq; cbn [make_prefixes]; [done|].
  assert (Hq' : (before ++ [c]) ++ rest = CONTAINER_STATUS_INFO_DIR) by (by rewrite <-app_assoc).
  assert (Hp : before `prefix_of` CONTAINER_STATUS_INFO_DIR) by (rewrite <-Hq; by eexists).
  destruct w as [f t tm p s a m]. destruct (is_slash c); [|by apply IH].
  unfold path_exist. view_step_. rewrite under_sys_prefix by done.
  destruct a0; [by apply IH|]. apply wp_view; [by apply Hok, starts_with_prefix|]. intros r _. cbn [view_step].
  destruct (s_ok r); [by apply IH|done].
Qed.

Lemma directory_ready_view w : wp viewing (directory_ready CONTAINER_STATUS_INFO_DIR) (λ _ w', w' = w) w.
Proof.
  destruct w as [f t tm p s a m]. unfold directory_ready, path_exist. view_step_.
  rewrite under_sys_prefix by done. destruct a0; [done|]. apply wp_bind. apply (wp_mono _ _ (λ _ w', w' = View f t tm p s a m)).
  { by intros r w' ->. }
  unfold make_path. destruct (_ || _); [done|]. cbv zeta.
  change (ends_with_slash CONTAINER_STATUS_INFO_DIR) with false. cbv iota.
  apply wp_bind. eapply wp_mono; [|apply make_prefixes_view].
  2:{ by rewrite take_drop. }
  cbv beta. intros [|] w' ->; [|done]. unfold path_exist. view_step_. rewrite under_sys_prefix by done.
  destruct a0; [done|]. view_step_. done.
Qed.

Lemma write_info_view name info t p s m :
  writes_allowed name info t p s m →
  wp viewing (write_container_info name info)
    (λ r w, r = 0 ∧ published_or_not name info t p s m true w ∨
            r = -1 ∧ published_or_not name info t p s m false w)
    (View None t None p s None m).
Proof.
  intros Hw. unfold write_container_info. destruct (negb (is_Ok _) || _) eqn:Eg; [by right|].
  assert (Hname : td_validate_name (Some name) 127 = Ok tt).
  { apply orb_false_iff in Eg as [Hv%negb_false_iff _]. change TINYDOCKER_MAX_CONTAINER_NAME with 127 in Hv.
    by destruct (td_validate_name _ _) as [[]|]. }
  apply wp_bind. eapply wp_mono; [|apply directory_ready_view]. cbv beta. intros [|] w ->; [|by right].
  cbn [negb]. view_step_. destruct a as [dfd|e]; [|by right].
  apply wp_bind. eapply wp_mono; [|apply open_temporary_info_view; [done|by apply Hw|]].
  2:{ apply Forall_forall. intros n Hn%list_elem_of_In%in_seq. lia. }
  cbv beta. intros [md tmp] w [Hst Htmp].
  destruct Htmp as [[? _]|Htmp]; [done|]. cbn [snd] in Htmp.
  apply wp_bind. apply (wp_mono _ _ (λ (b : bool) w, if b then published_or_not name info t p s m true w
     else ∃ tm0, w = View None t tm0 p s None m)).
  2:{ destruct md as [fd|]; [|by apply wp_ret; eexists]. subst w. by apply publish_info_view. }
  clear w Hst. intros b w Hb. apply wp_bind.
  apply (wp_mono _ _ (λ (_ : unit) w, published_or_not name info t p s m b w)).
  2:{ destruct b; cbn [negb andb when nonempty]; [by apply wp_ret|].
      assert (Hne : nonempty tmp = true) by (by destruct Htmp as (? & ? & _ & _ & ->)). rewrite Hne. cbn [when]. unfold discard.
      apply wp_view; [by apply Hw|]. intros r _. apply wp_ret. by destruct Hb as [tm ->]. }
  intros [] w' Hp. destruct b; cbn [published_or_not] in Hp.
  - destruct Hp as (text & Ht & ->). view_step_. apply wp_ret. left. split; [done|]. by exists text.
  - subst w'. view_step_. apply wp_ret. by right.
Qed.

(** *** Refreshing *)

Definition exited (info : container_info) : container_info :=
  set_status (set_error STATUS_SIZE (str_status CONTAINER_EXITED)) info.

(** The record does not say that a process runs. *)
Definition not_recorded (info : container_info) : Prop := ci_status info ≠ lit "RUNNING" ∨ ci_pid info ≤ 0.
(** Nothing could be found out. *)
Definition unclear (name : cstr) (info : container_info) (w : view) : Prop :=
  name = [] ∨ INT_MAX < ci_pid info ∨ looked info w ∧ verdict info w = None.

Ltac view_kept := apply wp_ret; eexists _, _; left; split_and!; [done|done|].

(** The record is left as it is, or found to be of a process that is gone and
    marked. *)
Lemma refresh_view name info t p s m :
  (∀ s' m', ci_status info = lit "RUNNING" → gone info (View None t None p s' None m') →
     writes_allowed name (exited info) t p s' m') →
  wp viewing (refresh_container_status_if_needed name info)
    (λ r w, ∃ s' m',
       r.2 = info ∧ w = View None t None p s' None m' ∧
         (r.1 = -1 ∧ unclear name info w ∨ r.1 = 0 ∧ (not_recorded info ∨ alive info w)) ∨
       r.2 = exited info ∧ ci_status info = lit "RUNNING" ∧ 0 < ci_pid info ∧ gone info (View None t None p s' None m') ∧
         (r.1 = 1 ∧ published_or_not name (exited info) t p s' m' true w ∨
          r.1 = -1 ∧ published_or_not name (exited info) t p s' m' false w))
    (View None t None p s None m).
Proof.
  intros Hw. unfold refresh_container_status_if_needed.
  destruct name as [|c name]; cbn [nonempty negb]; [view_kept; by left; split; [|left]|].
  case_bool_decide as Hs; cbn [negb]; [|view_kept; right; split; [done|]; left; by left].
  case Z.leb_spec; intros Hpid; [view_kept; right; split; [done|]; left; by right|].
  apply wp_bind. eapply wp_mono; [|by apply process_identity_view]. cbv beta.
  intros r w (s' & m' & -> & [[-> Hl]|[-> Hb]]).
  2:{ view_kept. left. split; [done|]. right; by left. }
  destruct (verdict info _) as [[|]|] eqn:Ev.
  - view_kept. right. split; [done|]. by right.
  - cbv zeta. fold (exited info). apply wp_bind. eapply wp_mono; [|by apply write_info_view, Hw].
    cbv beta. intros r w [[-> Hp]|[-> Hp]]; apply wp_ret; exists s', m'; right; (split_and!; [done|done|done|done|]); auto.
  - view_kept. left. split; [done|]. right; right. by split.
Qed.
End Viewed.

(** ** Publishing is atomic *)

Definition unviewed : view := View None [] None None None None None.

(** Renaming is allowed of the temporary file when it holds, on the disk, the
    whole text of [info], onto the container's name and within the directory;
    creating and unlinking of temporary names of this container only. *)
Definition publishing (name : cstr) (info : container_info) (w : view) (c : syscall) : Prop :=
  match c with
  | Renameat olddir old newdir new =>
      olddir = newdir ∧ new = name ∧ ∃ text, td_write_container_info (Some info) = Ok text ∧ written old text w
  | _ => harmless c = true ∨ on_temporary name c
  end.

Lemma publishing_harmless name info w c : harmless c = true → publishing name info w c.
Proof. destruct c; try (by left); done. Qed.
Lemma publishing_temporary name info w c : on_temporary name c → publishing name info w c.
Proof. destruct c; try (by right); done. Qed.

Lemma publishing_allowed name info t p s m :
  writes_allowed (publishing name info) name info t p s m.
Proof.
  split; [intros w c; apply publishing_temporary|]. intros dfd tmp text Ht. split_and!; [done|done|]. by exists text.
Qed.

Lemma written_back name info text :
  td_validate_name (Some name) 127 = Ok tt → td_write_container_info (Some info) = Ok text →
  storable true info → td_parse_container_info (Some text) (Some (ci_name info)) = Ok info.
Proof. intros _ Ht Hs. rewrite write_storable in Ht by done. injection Ht as <-. by apply parse_written. Qed.

(** C8: writing the status file of a container either renames a complete new
    file over it and returns 0, or publishes nothing and returns -1: the file
    that is renamed was written, flushed, synchronized and closed without an
    error and holds exactly the text of the record (which reads back as that
    record when it is storable).  No existing file is ever opened for writing,
    and only names of the form ".name.tmp.pid.n" are created and unlinked. *)
Theorem write_container_info_atomic name info :
  wp (viewing (publishing name info)) (write_container_info name info)
    (λ r w, r = -1 ∧ vw_published w = None ∨
       r = 0 ∧ ∃ text, vw_published w = Some (name, text) ∧ td_write_container_info (Some info) = Ok text ∧
         (storable true info → td_parse_container_info (Some text) (Some (ci_name info)) = Ok info)) unviewed.
Proof.
  eapply wp_mono; [|apply write_info_view; [apply publishing_harmless|apply publishing_allowed]]. cbv beta.
  intros r w [[-> (text & Ht & ->)]|[-> ->]]; [right|by left]. split; [done|]. exists text. split_and!; [done|done|].
  intros Hs. eapply written_back; [apply Hs|done|done].
Qed.

(** ** Refreshing *)

(** Replacing a status file is allowed once its process has been found gone. *)
Definition refreshing (name : cstr) (info : container_info) (w : view) (c : syscall) : Prop :=
  match c with
  | Renameat _ _ _ _ => ci_status info = lit "RUNNING" ∧ gone info w ∧ publishing name (exited info) w c
  | _ => publishing name (exited info) w c
  end.

(** C21: a container is marked EXITED exactly when it is RUNNING and the entry
    of its process in /proc shows that the process is gone: there is no such
    entry, or one with another start time.  The mark is published, or -1 is
    returned.  In every other case the record comes back unchanged and the file
    is not touched: 0 is returned when the record names no running process or
    the entry shows that it is alive, and -1 when the entry was looked at and
    shows neither (or there is no name, or no pid that fits an [int]). *)
Theorem refresh_marks_only_gone name info :
  wp (viewing (refreshing name info)) (refresh_container_status_if_needed name info)
    (λ r w, r.2 = info ∧ vw_published w = None ∧
         (r.1 = -1 ∧ unclear name info w ∨ r.1 = 0 ∧ (not_recorded info ∨ alive info w)) ∨
       r.2 = exited info ∧ ci_status info = lit "RUNNING" ∧ 0 < ci_pid info ∧ gone info w ∧
         (r.1 = -1 ∧ vw_published w = None ∨
          r.1 = 1 ∧ ∃ text, vw_published w = Some (name, text) ∧
            td_write_container_info (Some (exited info)) = Ok text)) unviewed.
Proof.
  eapply wp_mono; [|apply refresh_view].
  2:{ intros w c Hc. pose proof (publishing_harmless name (exited info) w c Hc). by destruct c. }
  2:{ intros s' m' Hs Hg. split.
      - intros w c Hc. pose proof (publishing_temporary name (exited info) w c Hc). by destruct c.
      - intros dfd tmp text Ht. split_and!; [done|exact Hg|]. by apply publishing_allowed. }
  cbv beta. intros r w (s' & m' & [(Hr & -> & H)|(Hr & Hs & Hp & Hg & [[H (text & Ht & ->)]|[H ->]])]); [by left|right..].
  - split_and!; [done|done|done|exact Hg|]. right. split; [done|]. by exists text.
  - split_and!; [done|done|done|exact Hg|]. by left.
Qed.

(** ** New records *)

Lemma text_ok_app a b : text_ok true a → text_ok true b → text_ok true (a ++ b).
Proof.
  intros (A1 & A2 & A3) (B1 & B2 & B3). split_and!; [set_solver..|]. intros _.
  specialize (A3 eq_refl). specialize (B3 eq_refl). set_solver.
Qed.
Lemma text_ok_plain s : negb (contains s LF) && negb (contains s NUL) && negb (contains s CR) = true → text_ok true s.
Proof. unfold contains. intros H. bools. by split_and!. Qed.
Lemma text_ok_join ws : Forall (text_ok true) ws → text_ok true (join SP ws).
Proof.
  induction ws as [|w [|v ws] IH]; intros H; [apply text_ok_nil|by inversion H|].
  apply Forall_cons in H as [Hw H]. change (join SP (w :: v :: ws)) with (w ++ [SP] ++ join SP (v :: ws)).
  apply text_ok_app; [done|]. apply text_ok_app; [by apply text_ok_plain|by apply IH].
Qed.

Lemma copy_string_Some size s t : copy_string_field size (Some s) = Some t → t = s ∧ strlen s < size.
Proof.
  unfold copy_string_field, truncated. change (default [] (Some s)) with s. destruct (size =? 0); [done|].
  case Z.leb_spec; [done|]. by intros ? [= <-].
Qed.

Lemma append_string_Some dst size s t :
  append_string_field dst size (Some s) = Some t → t = dst ++ s ∧ strlen t < size.
Proof.
  unfold append_string_field, truncated. change (default [] (Some s)) with s. destruct (_ || _); [done|].
  case Z.leb_spec; [done|]. intros ? [= <-]. rewrite strlen_app. split; [done|lia].
Qed.

Lemma append_arguments_Some argv : ∀ command c,
  strlen command < COMMAND_SIZE → append_arguments command argv = Some c →
  c = command ++ concat (map (cons SP) argv) ∧ strlen c < COMMAND_SIZE.
Proof.
  induction argv as [|a argv IH]; intros command c Hlen; cbn [append_arguments map concat].
  { intros [= <-]. by rewrite app_nil_r. }
  destruct (append_string_field command _ _) as [c1|] eqn:E1; [|done].
  destruct (append_string_field c1 _ _) as [c2|] eqn:E2; [|done].
  apply append_string_Some in E1 as [-> _]. apply append_string_Some in E2 as [-> Hl].
  intros [-> ?]%IH; [|done]. split; [|done]. by rewrite <-!app_assoc.
Qed.

Lemma volume_texts_Some vs : ∀ texts, volume_texts vs = Some texts →
  texts = map volume_text vs ∧ Forall (λ t, strlen t < VOLUME_SIZE) texts.
Proof.
  induction vs as [|v vs IH]; intros texts; cbn [volume_texts]; [by intros [= <-]|].
  destruct (_ || _); [done|]. destruct (truncated _ _) eqn:E; [done|].
  destruct (volume_texts vs) as [ts|]; [|done]. intros [= <-]. destruct (IH _ eq_refl) as [-> Hf].
  split; [done|]. constructor; [|done]. by apply Z.leb_gt in E.
Qed.

Lemma volume_text_ok v :
  text_ok true (vc_host v) → text_ok true (vc_container v) → text_ok true (volume_text v).
Proof.
  intros. unfold volume_text. repeat apply text_ok_app; try done; try (by apply text_ok_plain).
  destruct (_ =? 1); by apply text_ok_plain.
Qed.

(** Arguments that can be recorded: what the command parser lets through, less
    line breaks. *)
Record recordable (args : docker_run_arguments) : Prop := {
  rec_name : td_validate_name (Some (run_name args)) 127 = Ok tt;
  rec_image : ∀ image, run_image args = Some image → text_ok true image;
  rec_argv : Forall (text_ok true) (run_argv args);
  rec_volumes : Forall (λ v, text_ok true (vc_host v) ∧ text_ok true (vc_container v)) (run_volumes args);
  rec_detach : 0 ≤ run_detach args ≤ 1
}.

(** What is recorded of a container. *)
Definition record_of (args : docker_run_arguments) (pid : Z) (status : container_status) (ip : cstr)
    (info : container_info) : Prop :=
  ci_pid info = pid ∧ ci_detach info = run_detach args ∧ Some (ci_image info) = run_image args ∧
  ci_command info = join SP (run_argv args) ∧ ci_status info = str_status status ∧
  ci_name info = run_name args ∧ ci_ip_addr info = ip ∧
  take (Z.to_nat (ci_volume_cnt info)) (ci_volumes info) = map volume_text (take MAX_VOLUMES (run_volumes args)).

Lemma fields_storable args pid st status ip ts image argv0 arguments created id command0 status0 ip0 name0 texts :
  recordable args → run_image args = Some image → run_argv args = argv0 :: arguments →
  1 ≤ pid ≤ INT_MAX → 0 ≤ ts ≤ LONG_MAX → 0 ≤ st ≤ ULLONG_MAX → text_ok true ip → text_ok true created →
  first_fields ts image argv0 arguments = Some (id, image, command0) →
  last_fields args status (Some ip) created = Some (status0, ip0, name0, texts) →
  ∀ info, info = ContainerInfo pid st (run_detach args) id image command0 created status0 name0 ip0
    (Z.of_nat (length texts)) (texts ++ replicate (MAX_VOLUMES - length texts) []) →
  storable true info ∧ record_of args pid status ip info.
Proof.
  intros [Hn Hi Ha Hv Hd] Himg Hargv Hpid Hts Hst Hip Hcr. unfold first_fields, last_fields.
  destruct (truncated _ _) eqn:Eid; [done|]. apply Z.leb_gt in Eid.
  destruct (copy_string_field IMAGE_SIZE _) as [x1|] eqn:E1; [|done].
  destruct (copy_string_field COMMAND_SIZE _) as [x2|] eqn:E2; [|done].
  destruct (append_arguments x2 _) as [x3|] eqn:E3; [|done]. intros [= <- -> ->].
  destruct (strlen created =? _) eqn:Ec; cbn [negb]; [|done]. apply Z.eqb_eq in Ec.
  destruct (copy_string_field STATUS_SIZE _) as [x4|] eqn:E4; [|done].
  destruct (copy_string_field IP_SIZE _) as [x5|] eqn:E5; [|done].
  destruct (copy_string_field NAME_SIZE _) as [x6|] eqn:E6; [|done].
  destruct (volume_texts _) as [x7|] eqn:E7; [|done]. intros [= -> -> -> ->] info ->.
  apply copy_string_Some in E1 as [_ H1], E2 as [-> H2], E4 as [-> H4], E5 as [-> H5], E6 as [-> H6].
  apply append_arguments_Some in E3 as [-> H3]; [|done]. apply volume_texts_Some in E7 as [-> H7].
  assert (Hc : argv0 ++ concat (map (cons SP) arguments) = join SP (run_argv args)).
  { rewrite Hargv. change (argv0 :: arguments) with ([argv0] ++ arguments). by rewrite join_app. }
  assert (Hlen : (length (map volume_text (take MAX_VOLUMES (run_volumes args))) ≤ MAX_VOLUMES)%nat).
  { rewrite length_map, length_take. lia. }
  assert (Hvs : valid_status (str_status status) = true) by (by destruct status).
  split.
  - constructor; [|exact Hn|].
    + constructor; cbn [ci_pid ci_pid_start_time ci_detach ci_container_id ci_image ci_command ci_created
        ci_status ci_name ci_ip_addr ci_volume_cnt]; try done.
      * split; [done|]. apply number_text_ok. unfold LONG_MAX, ULLONG_MAX in *. lia.
      * split; [done|]. by apply Hi.
      * split; [done|]. rewrite Hc. by apply text_ok_join.
      * split; [|done]. lia.
      * split; [done|]. split_and!; [eapply valid_name_excludes; [exact Hn|done]..|].
        intros _. by eapply valid_name_excludes.
      * unfold MAX_VOLUMES in *. lia.
    + exists (map volume_text (take MAX_VOLUMES (run_volumes args))). cbn [ci_volume_cnt ci_volumes].
      rewrite Nat2Z.id. split_and!; [done|done|done|].
      apply Forall_forall. intros t Ht. pose proof (proj1 (Forall_forall _ _) H7 t Ht) as Hl.
      apply list_elem_of_fmap in Ht as (v & -> & Hin). apply elem_of_take in Hin as (k & Hk & _).
      pose proof (proj1 (Forall_forall _ _) Hv v (list_elem_of_lookup_2 _ _ _ Hk)) as [Hh Hco].
      split_and!; [done|by apply volume_text_ok|]. intros _. unfold volume_text. by destruct (vc_host v).
  - unfold record_of. cbn [ci_pid ci_detach ci_image ci_command ci_status ci_name ci_ip_addr ci_volume_cnt
      ci_volumes]. split_and!; try done. by rewrite Nat2Z.id, take_app_length.
Qed.

(** A kernel and C library whose formatted dates hold no control characters. *)
Definition clocked : model unit :=
  Model (λ _ _, True) (λ _ c a _, match c as c return ans c → Prop with
    | Strftime _ => λ text, text_ok true text | _ => λ _, True end a).

Lemma text_ok_take n s : text_ok true s → text_ok true (take n s).
Proof. rewrite <-(take_drop n s) at 1. apply text_ok_prefix. Qed.
Lemma span_prefix p s : ∃ t, s = (span p s).1 ++ t.
Proof.
  induction s as [|c s [t Ht]]; cbn [span]; [by exists []|]. destruct (p c); [|by exists (c :: s)].
  destruct (span p s) as [a b]. cbn [fst] in *. exists t. by rewrite Ht.
Qed.

Lemma start_time_range line t : td_parse_proc_stat_start_time (Some line) = Ok t → 0 ≤ t ≤ ULLONG_MAX.
Proof.
  unfold td_parse_proc_stat_start_time.
  destruct (strchr _ _) as [[? ?]|]; [|done]. destruct (strrchr _ _) as [[? [|sp rest]]|]; [done| |done].
  rewrite reject_bind_Ok. intros [_ H]. destruct (_ !! 19%nat) as [token|]; [|done]. cbv zeta in H.
  apply reject_bind_Ok in H as [_ [= <-]]. apply strtoull_range.
Qed.

Lemma start_time_clocked pid :
  wp clocked (read_process_start_time pid)
    (λ r _, match r with SOk t => 1 ≤ pid ∧ 0 ≤ t ≤ ULLONG_MAX | SErr _ => True end) tt.
Proof.
  unfold read_process_start_time. case Z.leb_spec; intros Hp; [done|]. cbv zeta. destruct (truncated _ _); [done|].
  apply wp_bind. split; [done|]. intros [fd|e] [] _; [|done].
  apply wp_bind. split; [done|]. intros line [] _. apply wp_bind. split; [done|]. intros c [] _.
  destruct line as [l|e]; [|done]. destruct c as [u|e]; [|done]. apply wp_ret.
  destruct (td_parse_proc_stat_start_time _) eqn:E; [|done]. split; [lia|]. by eapply start_time_range.
Qed.

(** C23: the record created for a container can always be written and read
    back: from arguments without line breaks, [create_container_info] fails or
    returns a storable record that holds the arguments: the words of the
    command line joined by blanks, the first 32 volumes in the form the
    cleanup parses, and the given pid, status and address. *)
Theorem create_container_info_storable args pid status ip ts :
  recordable args → pid ≤ INT_MAX → 0 ≤ ts ≤ LONG_MAX → text_ok true ip →
  wp clocked (create_container_info args pid status (Some ip) ts)
    (λ r _, ∀ info, r = Some info → storable true info ∧ record_of args pid status ip info) tt.
Proof.
  intros Hrec Hpid Hts Hip. unfold create_container_info. destruct (run_image args) as [image|] eqn:Ei; [|done].
  destruct (run_argv args) as [|argv0 arguments] eqn:Ea; [done|].
  apply wp_bind. eapply wp_mono; [|apply start_time_clocked]. cbv beta. intros [st|e] [] Hst; [|done].
  destruct (first_fields _ _ _ _) as [[[id image'] command]|] eqn:E1; [|done].
  assert (image' = image) as ->.
  { unfold first_fields in E1. destruct (truncated _ _); [done|].
    destruct (copy_string_field IMAGE_SIZE _) as [x|] eqn:Ex; [|done]. apply copy_string_Some in Ex as [-> _].
    destruct (copy_string_field COMMAND_SIZE _); [|done]. destruct (append_arguments _ _); [|done]. congruence. }
  unfold timestamp_to_string. apply wp_bind, wp_bind. split; [done|]. intros text [] Htext.
  apply wp_ret, wp_ret. intros info. set (created := take _ _).
  assert (Hcr : text_ok true created).
  { apply text_ok_take. unfold until_nul. destruct (span_prefix (λ c, negb (bool_decide (c = NUL))) text) as [t Ht].
    eapply text_ok_prefix. rewrite <-Ht. exact Htext. }
  destruct (last_fields _ _ _ _) as [[[[s1 i1] n1] texts]|] eqn:E2; [|done]. intros [= <-].
  eapply fields_storable; [done|exact Ei|exact Ea|lia|exact Hts|apply Hst|done|exact Hcr|exact E1|exact E2|done].
Qed.

Definition demo_run : docker_run_arguments :=
  RunArguments [VolumeConfig (lit "/tmp/data") (lit "/data") 1] 0 1 1000 65536 (Some (lit "busybox.tar.xz"))
    (lit "demo-1") [] [lit "/bin/sh"; lit "-c"; lit "date"] [].

Lemma demo_recordable : recordable demo_run.
Proof.
  constructor.
  - reflexivity.
  - intros image [= <-]. by apply text_ok_plain.
  - cbn [run_argv demo_run]. rewrite !Forall_cons, Forall_nil. split_and!; try done; by apply text_ok_plain.
  - cbn [run_volumes demo_run]. rewrite Forall_cons, Forall_nil. split_and!; try done; by apply text_ok_plain.
  - cbn. lia.
Qed.

Lemma create_container_info_storable_witness :
  wp clocked (create_container_info demo_run 4242 CONTAINER_RUNNING (Some (lit "172.11.11.2")) 1700000000)
    (λ r _, ∀ info, r = Some info → storable true info ∧
       record_of demo_run 4242 CONTAINER_RUNNING (lit "172.11.11.2") info) tt.
Proof.
  apply create_container_info_storable;
    [exact demo_recordable|vm_compute; discriminate|vm_compute; split; discriminate|by apply text_ok_plain].
Defined.
