(* ===== verification/Volumes.v ===== *)
(** * docker/volumes.c: bind mounts of a container's volumes *)
From S2P Require Import Prelude CString Paths Safety Sys Resources Process Fs Config.
From Stdlib Require Import Lia.

(** The check of the sources. *)
Fixpoint sources_ready (vols : list volume_config) : prog bool :=
  match vols with
  | [] => Ret true
  | v :: rest =>
      if negb (starts_with (lit "/") (vc_host v)) then Ret false
      else
        resolved_host ← call (Realpath (vc_host v));
        match resolved_host with
        | None => Ret false
        | Some resolved_host =>
            status ← call (Stat resolved_host);
            match status with
            | SOk st => if bool_decide (fs_kind st = Directory) then sources_ready rest else Ret false
            | SErr _ => Ret false
            end
        end
  end.

(** Unmounts what is mounted already, last first. *)
Fixpoint rollback (mountpoint : cstr) (mounted : list volume_config) : prog unit :=
  match mounted with
  | [] => Ret tt
  | v :: rest =>
      match td_join_rootfs_path (Some mountpoint) (Some (vc_container v)) 1024 with
      | Ok mounted_path =>
          _ ← call (Umount mounted_path);
          rollback mountpoint rest
      | Err _ => rollback mountpoint rest
      end
  end.

(** Mounts one volume; [false] means roll back. *)
Definition mount_one (mountpoint : cstr) (vol : volume_config) : prog bool :=
  resolved_host ← call (Realpath (vc_host vol));
  match resolved_host with
  | None => Ret false
  | Some resolved_host =>
      ensured ← td_ensure_directory_beneath (Some mountpoint) (Some (vc_container vol)) 1024;
      match ensured with
      | None => Ret false
      | Some container_dir =>
          bound ← call (Mount (Some resolved_host) container_dir None [MS_BIND] None);
          if negb (s_ok bound) then Ret false
          else if vc_ro vol =? 1 then
            readonly ← call (Mount (Some container_dir) container_dir None [MS_REMOUNT; MS_BIND; MS_RDONLY] None);
            if s_ok readonly then Ret true
            else
              _ ← call (Umount container_dir);
              Ret false
          else Ret true
      end
  end.

(** [mounted] holds the volumes before [vols], last first. *)
Fixpoint mount_each (mountpoint : cstr) (mounted vols : list volume_config) : prog Z :=
  match vols with
  | [] => Ret 0
  | v :: rest =>
      ok ← mount_one mountpoint v;
      if ok : bool then mount_each mountpoint (v :: mounted) rest
      else
        _ ← rollback mountpoint mounted;
        Ret (-1)
  end.

Definition mount_volumes (mountpoint : cstr) (vols : list volume_config) : prog Z :=
  ready ← sources_ready vols;
  if ready : bool then mount_each mountpoint [] vols else Ret (-1).

(** Whether an error of [umount] means that nothing was mounted there. *)
Definition not_mounted (e : Z) : bool := (e =? EINVAL) || (e =? ENOENT).

Fixpoint umount_each (mountpoint : cstr) (vols : list volume_config) (result : Z) : prog Z :=
  match vols with
  | [] => Ret result
  | v :: rest =>
      match td_join_rootfs_path (Some mountpoint) (Some (vc_container v)) 1024 with
      | Err _ => umount_each mountpoint rest (-1)
      | Ok container_dir =>
          r ← call (Umount container_dir);
          umount_each mountpoint rest
            (match r with SErr e => if not_mounted e then result else -1 | SOk _ => result end)
      end
  end.
(** From the last volume to the first. *)
Definition umount_volumes (mountpoint : cstr) (vols : list volume_config) : prog Z :=
  umount_each mountpoint (rev vols) 0.

#[global] Arguments mount_volumes : simpl never.

(** ** Descriptors *)

Lemma balanced_mount_volumes m vols : balanced (mount_volumes m vols).
Proof.
  assert (Hr : ∀ l, balanced (rollback m l)) by (induction l as [|v l IH]; cbn [rollback]; balanced_auto).
  assert (Hs : ∀ l, balanced (sources_ready l)) by (induction l as [|v l IH]; cbn [sources_ready]; balanced_auto).
  assert (He : ∀ l d, balanced (mount_each m d l)).
  { induction l as [|v l IH]; intros d; cbn [mount_each]; [auto with balanced|].
    apply balanced_bind; [unfold mount_one; balanced_auto|]. intros [|]; balanced_auto. }
  unfold mount_volumes. balanced_auto.
Qed.
Lemma balanced_umount_volumes m vols : balanced (umount_volumes m vols).
Proof.
  unfold umount_volumes. generalize (rev vols) 0. induction l as [|v l IH]; intros r; cbn [umount_each]; balanced_auto.
Qed.
#[export] Hint Resolve balanced_mount_volumes balanced_umount_volumes : balanced.

(** ** The mount table

    The targets mounted so far, last first, each with whether it was made
    read-only, and whether an unmounting failed. *)
Record mount_table := MountTable { mt_list : list (cstr * bool); mt_stuck : bool }.

Fixpoint remove_target (target : cstr) (l : list (cstr * bool)) : list (cstr * bool) :=
  match l with
  | [] => []
  | (t, ro) :: rest => if bool_decide (t = target) then rest else (t, ro) :: remove_target target rest
  end.
Fixpoint make_readonly (target : cstr) (l : list (cstr * bool)) : list (cstr * bool) :=
  match l with
  | [] => []
  | (t, ro) :: rest => if bool_decide (t = target) then (t, true) :: rest else (t, ro) :: make_readonly target rest
  end.

Definition mount_step (w : mount_table) (c : syscall) : ans c → mount_table :=
  match c with
  | Mount _ target _ flags _ => λ r : sysret unit,
      if s_ok r then
        MountTable (if bool_decide (MS_REMOUNT ∈ flags) then make_readonly target (mt_list w)
                    else (target, false) :: mt_list w) (mt_stuck w)
      else w
  | Umount target => λ r : sysret unit,
      match r with
      | SOk _ => MountTable (remove_target target (mt_list w)) (mt_stuck w)
      | SErr e => if not_mounted e then MountTable (remove_target target (mt_list w)) (mt_stuck w)
                  else MountTable (mt_list w) true
      end
  | _ => λ _, w
  end.
Definition mounting : model mount_table := free mount_step.

Lemma ensure_directory_mounting root path size w :
  wp mounting (td_ensure_directory_beneath (Some root) (Some path) size)
    (λ r w', w' = w ∧ ∀ o, r = Some o → td_join_rootfs_path (Some root) (Some path) size = Ok o) w.
Proof.
  unfold td_ensure_directory_beneath. destruct (td_join_rootfs_path _ _ _) as [o|]; [|done].
  apply wp_bind, wp_observe; [done|]. intros [fd|e]; [|done]. apply wp_bind, wp_observe; [done|]. intros [|].
  2:{ apply wp_bind, wp_observe; [done|]. by intros r. }
  assert (Hc : ∀ l fd, wp mounting (ensure_components fd l) (λ _ w', w' = w) w).
  { clear fd. induction l as [|x l IH]; intros fd; cbn [ensure_components].
    - apply wp_bind, wp_observe; [done|]. by intros r.
    - apply wp_bind, wp_observe; [done|]. intros r. cbn [mount_step]. destruct (_ && _).
      + apply wp_bind, wp_observe; [done|]. by intros c.
      + apply wp_bind, wp_observe; [done|]. intros [next|e]; cbn [mount_step].
        * apply wp_bind, wp_observe; [done|]. intros c. apply IH.
        * apply wp_bind, wp_observe; [done|]. by intros c. }
  apply wp_bind. eapply wp_mono; [|apply Hc]. cbv beta. intros r w' ->. apply wp_ret. split; [done|].
  intros o'. destruct (r =? 0); [|done]. by intros [= ->].
Qed.

Definition volume_target (mountpoint : cstr) (v : volume_config) : result cstr :=
  td_join_rootfs_path (Some mountpoint) (Some (vc_container v)) 1024.
(** What a mounted volume is in the table. *)
Definition volume_entry (mountpoint : cstr) (v : volume_config) : cstr * bool :=
  (match volume_target mountpoint v with Ok t => t | Err _ => [] end, vc_ro v =? 1).
Definition has_target (mountpoint : cstr) (v : volume_config) : Prop :=
  ∃ t, volume_target mountpoint v = Ok t.

(** What is left of mounts that had to be given up: nothing, unless one could
    not be unmounted. *)
Definition given_up (w : mount_table) : Prop := mt_list w = [] ∨ mt_stuck w = true.

Lemma remove_head t ro l : remove_target t ((t, ro) :: l) = l.
Proof. cbn. by rewrite bool_decide_eq_true_2. Qed.

(** Unmounting keeps a table stuck, or takes the first volume off it. *)
Lemma umount_step_cases m v t rest r w :
  volume_target m v = Ok t → mt_stuck w = true ∨ mt_list w = volume_entry m v :: rest →
  let w' := mount_step w (Umount t) r in
  mt_stuck w' = true ∨ (mt_list w' = rest ∧ match r with SOk _ => True | SErr e => not_mounted e = true end).
Proof.
  unfold volume_entry. intros ->. intros [Hs|Hl]; cbn [mount_step].
  - left. destruct r as [u|e]; [done|]. by destruct (not_mounted e).
  - rewrite Hl, remove_head. destruct r as [u|e]; [by right|]. destruct (not_mounted e) eqn:E; [right|left]; by rewrite ?E.
Qed.

Lemma rollback_spec m mounted : ∀ w,
  Forall (has_target m) mounted → mt_stuck w = true ∨ mt_list w = map (volume_entry m) mounted →
  wp mounting (rollback m mounted) (λ _ w', given_up w') w.
Proof.
  induction mounted as [|v l IH]; intros w Hf Hw; cbn [rollback].
  { apply wp_ret. destruct Hw; [by right|by left]. }
  apply Forall_cons in Hf as [[t Ht] Hf]. fold (volume_target m v). rewrite Ht. apply wp_bind, wp_observe; [done|].
  intros r. apply IH; [done|]. destruct (umount_step_cases m v t _ r w Ht Hw) as [?|[? _]]; auto.
Qed.

Lemma mount_one_spec m v w :
  wp mounting (mount_one m v)
    (λ b w', if b then has_target m v ∧ w' = MountTable (volume_entry m v :: mt_list w) (mt_stuck w)
             else mt_list w' = mt_list w ∧ (mt_stuck w = true → mt_stuck w' = true) ∨ mt_stuck w' = true) w.
Proof.
  unfold mount_one. apply wp_bind, wp_observe; [done|]. intros [host|]; cbn [mount_step]; [|by left].
  apply wp_bind. eapply wp_mono; [|apply ensure_directory_mounting]. cbv beta.
  intros [dir|] w' [-> Hj]; [|by left]. specialize (Hj _ eq_refl).
  assert (He : volume_entry m v = (dir, vc_ro v =? 1)) by (unfold volume_entry, volume_target; by rewrite Hj).
  apply wp_bind, wp_observe; [done|]. intros [u|e]; cbn [mount_step s_ok negb]; [|by left].
  change (bool_decide (MS_REMOUNT ∈ [MS_BIND])) with false. rewrite He.
  destruct (vc_ro v =? 1).
  2:{ apply wp_ret. split; [by exists dir|done]. }
  apply wp_bind, wp_observe; [done|]. intros [u'|e]; cbn [mount_step s_ok mt_list mt_stuck].
  - change (bool_decide (MS_REMOUNT ∈ [MS_REMOUNT; MS_BIND; MS_RDONLY])) with true. cbn [make_readonly].
    rewrite bool_decide_eq_true_2 by done. apply wp_ret. split; [by exists dir|done].
  - apply wp_bind, wp_observe; [done|]. intros r. apply wp_ret. cbn [mount_step mt_list mt_stuck].
    rewrite remove_head. destruct r as [u2|e2]; [by left|]. destruct (not_mounted e2); [by left|by right].
Qed.

Lemma mount_each_spec m vols : ∀ mounted w,
  Forall (has_target m) mounted → w = MountTable (map (volume_entry m) mounted) false →
  wp mounting (mount_each m mounted vols)
    (λ r w', r = 0 ∧ Forall (has_target m) vols ∧
         w' = MountTable (rev (map (volume_entry m) vols) ++ map (volume_entry m) mounted) false ∨
       r = -1 ∧ given_up w') w.
Proof.
  induction vols as [|v vols IH]; intros mounted w Hf ->; cbn [mount_each].
  { left. by repeat split. }
  apply wp_bind. eapply wp_mono; [|apply mount_one_spec]. cbv beta. intros [|] w' Hw.
  - destruct Hw as [Ht ->]. eapply wp_mono; [|apply (IH (v :: mounted)); [by constructor|done]]. cbv beta.
    intros r w' [(-> & Hv & ->)|H]; [left|by right]. split_and!; [done|by constructor|].
    cbn [map rev]. by rewrite <-app_assoc.
  - apply wp_bind. eapply wp_mono; [|apply rollback_spec; [exact Hf|]].
    + intros [] w'' H. apply wp_ret. by right.
    + destruct Hw as [[Hl ?]|Hs]; [by right|by left].
Qed.

Lemma sources_ready_mounting vols w : wp mounting (sources_ready vols) (λ _ w', w' = w) w.
Proof.
  induction vols as [|v l IH]; cbn [sources_ready]; [done|]. destruct (negb _); [done|].
  apply wp_bind, wp_observe; [done|]. intros [h|]; [|done]. apply wp_bind, wp_observe; [done|].
  intros [st|e]; [|done]. cbn [mount_step]. by destruct (bool_decide _).
Qed.

Lemma umount_each_spec m vols : ∀ result w,
  Forall (has_target m) vols → mt_stuck w = true ∧ result = -1 ∨ mt_list w = map (volume_entry m) vols ∧ result = 0 →
  wp mounting (umount_each m vols result)
    (λ r w', mt_list w' = [] ∧ r = 0 ∨ mt_stuck w' = true ∧ r = -1) w.
Proof.
  induction vols as [|v l IH]; intros result w Hf Hw; cbn [umount_each].
  { apply wp_ret. destruct Hw as [[? ?]|[? ?]]; auto. }
  apply Forall_cons in Hf as [[t Ht] Hf]. fold (volume_target m v). rewrite Ht. apply wp_bind, wp_observe; [done|].
  intros r. apply IH; [done|]. destruct Hw as [[Hs ->]|[Hl ->]].
  - left. cbn [mount_step]. destruct r as [u|e]; [done|]. by destruct (not_mounted e).
  - unfold volume_entry in Hl. cbn [map] in Hl. rewrite Ht in Hl. cbn [mount_step].
    rewrite Hl, remove_head. destruct r as [u|e]; [by right|]. destruct (not_mounted e); [by right|by left].
Qed.

