(* ===== verification/Workspace.v ===== *)
(** * docker/workspace.c and calculate_sha256 of util/utils.c

    The layers of a container's root file system, the overlay mount, and the
    change of root inside the container.  The digest is OpenSSL's: an interface
    of the model. *)
From S2P Require Import Prelude CString Paths Safety Sys Resources Process Fs Config Cgroup NetworkStore.
From Stdlib Require Import Lia.

(** ** The hash of an image *)

(** [EVP_MD_CTX_new] with [EVP_DigestInit_ex], [EVP_DigestUpdate] and
    [EVP_DigestFinal_ex]; [None] is a failure. *)
Class Digest := {
  digest_context : Type;
  digest_start : option digest_context;
  digest_update : digest_context → cstr → option digest_context;
  digest_final : digest_context → option cstr;
}.

Definition BUFFER_SIZE : Z := 1024.

(** "%02x" of every byte. *)
Definition hex_text (bytes : cstr) : cstr := concat (map (λ c, fmt_hex 2 (code c)) bytes).

Section Image.
Context {D : Digest}.

Definition hash_turn (file : nat) (context : digest_context)
    : prog (digest_context + option digest_context) :=
  '(data, _) ← call (Fread file BUFFER_SIZE);
  let buffer := take (Z.to_nat BUFFER_SIZE) data in
  Ret (if nonempty buffer then
         match digest_update context buffer with
         | Some context' => inl context'
         | None => inr None
         end
       else inr (Some context)).

Definition calculate_sha256 (file_path : cstr) : prog (option cstr) :=
  opened ← call (Fopen file_path);
  match opened with
  | SErr _ => Ret None
  | SOk file =>
      match digest_start with
      | None => _ ← call (Fclose file); Ret None
      | Some context =>
          hashed ← iter (hash_turn file) context;
          _ ← call (Fclose file);
          match hashed with
          | None => Ret None
          | Some context =>
              match digest_final context with
              | None => Ret None
              | Some sha256_hash =>
                  room ← call (Malloc (strlen sha256_hash * 2 + 1));
                  Ret (if room : bool then Some (hex_text sha256_hash) else None)
              end
          end
      end
  end.

(** ** Layers *)

Definition image_path (image_hash : cstr) : cstr := TINYDOCKER_RUNTIME_DIR ++ lit "/images/" ++ image_hash.
Definition temporary_image_path (readonly_dir : cstr) (pid : Z) : cstr := readonly_dir ++ lit ".tmp." ++ fmt_d pid.

(** Unpacks an archive beside its place and renames it into place. *)
Definition unpack_image (image readonly_dir temporary_dir : cstr) : prog bool :=
  removed ← remove_dir temporary_dir;
  prepared ← (if removed =? 0 then make_path temporary_dir else Ret (-1));
  if negb (prepared =? 0) then Ret false
  else
    extracted ← extract_tar image temporary_dir;
    if negb (extracted =? 0) then
      _ ← remove_dir temporary_dir;
      Ret false
    else
      renamed ← call (Rename temporary_dir readonly_dir);
      match renamed with
      | SOk _ => Ret true
      | SErr e =>
          there ← (if e =? EEXIST then path_exist readonly_dir else Ret false);
          _ ← remove_dir temporary_dir;
          Ret there
      end.

(** [Some readonly_dir] for 0. *)
Definition create_readonly_layer (image : cstr) (readonly_size : Z) : prog (option cstr) :=
  folder ← is_folder image;
  if folder : bool then call (Realpath image)
  else
    hashed ← calculate_sha256 image;
    match hashed with
    | None => Ret None
    | Some image_hash =>
        let readonly_dir := image_path image_hash in
        if truncated readonly_dir readonly_size then Ret None
        else
          unpacked ← path_exist readonly_dir;
          if unpacked : bool then Ret (Some readonly_dir)
          else
            pid ← call Getpid;
            let temporary_dir := temporary_image_path readonly_dir pid in
            if truncated temporary_dir PATH_MAX then Ret None
            else
              ok ← unpack_image image readonly_dir temporary_dir;
              Ret (if ok : bool then Some readonly_dir else None)
    end.

(** A path below the directory of the container. *)
Definition container_subdir (container_name suffix : cstr) (size : Z) : option cstr :=
  match td_build_named_path (Some TINYDOCKER_RUNTIME_DIR) (Some (lit "containers")) (Some container_name) PATH_MAX with
  | Err _ => None
  | Ok container_dir =>
      let path := container_dir ++ suffix in
      if truncated path size then None else Some path
  end.

(** [Some readwrite_dir] for 0. *)
Definition create_readwrite_layer (container_name : cstr) (readwrite_size : Z) : prog (option cstr) :=
  match container_subdir container_name (lit "/upperdir") readwrite_size with
  | None => Ret None
  | Some readwrite_dir =>
      made ← make_path readwrite_dir;
      Ret (if made =? 0 then Some readwrite_dir else None)
  end.

Definition overlay_data (lowerdir upperdir workdir : cstr) : cstr :=
  lit "lowerdir=" ++ lowerdir ++ lit ",upperdir=" ++ upperdir ++ lit ",workdir=" ++ workdir.

Definition create_workspace_mount_point (container_name lowerdir upperdir mountpoint : cstr) : prog Z :=
  match container_subdir container_name (lit "/workdir") PATH_MAX with
  | None => Ret (-1)
  | Some workdir =>
      made ← make_path workdir;
      if negb (made =? 0) then Ret (-1)
      else
        let data_size := strlen lowerdir + strlen upperdir + strlen workdir + 40 in
        room ← call (Malloc data_size);
        if negb room then Ret (-1)
        else
          let data := overlay_data lowerdir upperdir workdir in
          if truncated data data_size then Ret (-1)
          else
            mounted ← call (Mount (Some (lit "overlay")) mountpoint (Some (lit "overlay")) [MS_REC] (Some data));
            Ret (if s_ok mounted then 0 else -1)
  end.

(** The part of [init_container_workerspace] after the layers exist; the
    return value and what [mountpoint] holds. *)
Definition mount_workspace (name readonly_dir readwrite_dir : cstr) : prog (Z * cstr) :=
  match td_build_named_path (Some TINYDOCKER_RUNTIME_DIR) (Some (lit "containers")) (Some name) PATH_MAX with
  | Err _ => Ret (-1, [])
  | Ok container_dir =>
      let mountpoint := container_dir ++ lit "/mountpoint" in
      if truncated mountpoint PATH_MAX then Ret (-1, set_error PATH_MAX mountpoint)
      else
        made ← make_path mountpoint;
        if negb (made =? 0) then Ret (-1, mountpoint)
        else
          result ← create_workspace_mount_point name readonly_dir readwrite_dir mountpoint;
          Ret (result, mountpoint)
  end.

Definition init_container_workerspace (args : docker_run_arguments) : prog (Z * cstr) :=
  readonly_room ← call (Malloc PATH_MAX);
  readwrite_room ← call (Malloc PATH_MAX);
  if negb readonly_room || negb readwrite_room then Ret (-1, [])
  else
    readonly ← create_readonly_layer (default [] (run_image args)) PATH_MAX;
    match readonly with
    | None => Ret (-1, [])
    | Some readonly_dir =>
        readwrite ← create_readwrite_layer (run_name args) PATH_MAX;
        match readwrite with
        | None => Ret (-1, [])
        | Some readwrite_dir => mount_workspace (run_name args) readonly_dir readwrite_dir
        end
    end.
End Image.

(** ** The root of a container *)

(** /proc exists as a directory, or is made. *)
Definition ensure_proc : prog bool :=
  proc_status ← call (Lstat (lit "/proc"));
  match proc_status with
  | SErr e =>
      if e =? ENOENT then made ← call (Mkdir (lit "/proc") 365); Ret (s_ok made) else Ret false
  | SOk st => Ret (bool_decide (fs_kind st = Directory))
  end.

(** What follows [pivot_root], inside the new root. *)
Definition leave_old_root : prog Z :=
  entered ← call (Chdir (lit "/"));
  if negb (s_ok entered) then Ret (-1)
  else
    detached ← call (Umount2 (lit "/old_root"));
    if negb (s_ok detached) then Ret (-1)
    else
      removed ← remove_dir (lit "/old_root");
      if removed =? -1 then Ret (-1)
      else
        proc_ready ← ensure_proc;
        if negb proc_ready then Ret (-1)
        else
          mounted ← call (Mount (Some (lit "proc")) (lit "/proc") (Some (lit "proc"))
                            [MS_NOEXEC; MS_NOSUID; MS_NODEV] None);
          Ret (if s_ok mounted then 0 else -1).

Definition init_and_set_new_root (new_root : option cstr) : prog Z :=
  match new_root with
  | None => Ret (-1)
  | Some new_root =>
      resolved ← call (Realpath new_root);
      match resolved with
      | None => Ret (-1)
      | Some normalized_root =>
          if negb (starts_with (lit "/") normalized_root) then Ret (-1)
          else
            private ← call (Mount None (lit "/") None [MS_REC; MS_PRIVATE] None);
            if negb (s_ok private) then Ret (-1)
            else
              bound ← call (Mount (Some normalized_root) normalized_root None [MS_REC; MS_BIND] None);
              if negb (s_ok bound) then Ret (-1)
              else
                let old_root := normalized_root ++ lit "/old_root" in
                if truncated old_root PATH_MAX then Ret (-1)
                else
                  verified ← td_ensure_directory_beneath (Some normalized_root) (Some (lit "/old_root")) PATH_MAX;
                  if negb (bool_decide (verified = Some old_root)) then Ret (-1)
                  else
                    pivoted ← call (PivotRoot normalized_root old_root);
                    if negb (s_ok pivoted) then Ret (-1) else leave_old_root
      end
  end.

#[global] Arguments init_container_workerspace {_} : simpl never.
#[global] Arguments init_and_set_new_root : simpl never.

(** ** Descriptors *)

Section Balanced.
Context {D : Digest}.

Lemma balanced_sha256 path : balanced (calculate_sha256 path).
Proof.
  intros w. unfold calculate_sha256. held_step. held_step; [|done]. held_step; [|held_auto].
  apply wp_bind. apply (wp_iter resources (λ _ w', w' = take_fd a0 w)); [done|].
  intros ctx w' ->. unfold hash_turn. held_step. destruct a1 as [data flags]. apply wp_ret.
  destruct (nonempty _); [destruct (digest_update _ _); [done|]|]; held_auto.
Qed.
Lemma balanced_is_folder p : balanced (is_folder p).
Proof. unfold is_folder. balanced_auto. Qed.
Lemma balanced_extract a b : balanced (extract_tar a b).
Proof. unfold extract_tar. balanced_auto. Qed.
#[local] Hint Resolve balanced_sha256 balanced_is_folder balanced_extract : balanced.
Lemma balanced_readonly image size : balanced (create_readonly_layer image size).
Proof. unfold create_readonly_layer, unpack_image. balanced_auto. Qed.
Lemma balanced_readwrite name size : balanced (create_readwrite_layer name size).
Proof. unfold create_readwrite_layer. balanced_auto. Qed.
Lemma balanced_mount_workspace n a b : balanced (mount_workspace n a b).
Proof. unfold mount_workspace, create_workspace_mount_point. balanced_auto. Qed.
#[local] Hint Resolve balanced_readonly balanced_readwrite balanced_mount_workspace : balanced.
Lemma balanced_workspace args : balanced (init_container_workerspace args).
Proof. unfold init_container_workerspace. balanced_auto. Qed.
End Balanced.
#[export] Hint Resolve balanced_workspace : balanced.

(** ** Changing the root

    How far the change has come: mount propagation cut, the new root a mount
    point, the root exchanged, the working directory inside, the old root
    detached, /proc mounted.  Only the directories the program names may be
    touched, and each only when it is the container's: in particular nothing is
    removed before the old root is detached, when "/old_root" still shows the
    host. *)
Record rooting := Rooting {
  rt_private : bool; rt_bound : option cstr; rt_pivoted : bool; rt_inside : bool; rt_detached : bool; rt_proc : bool
}.

Definition rooting_ok (w : rooting) (c : syscall) : Prop :=
  match c with
  | PivotRoot root old => rt_private w = true ∧ rt_bound w = Some root ∧ old = root ++ lit "/old_root"
  | Umount2 path => path = lit "/old_root" ∧ rt_inside w = true
  | Nftw path => path = lit "/old_root" ∧ rt_detached w = true
  | Mount (Some source) target _ flags _ =>
      rt_private w = true ∧
      (target = source ∧ rt_pivoted w = false ∧ MS_BIND ∈ flags ∨ target = lit "/proc" ∧ rt_detached w = true)
  | Mount None target _ flags _ => target = lit "/" ∧ MS_PRIVATE ∈ flags ∧ MS_REC ∈ flags
  | Mkdir _ _ => rt_detached w = true
  | Rmdir _ | Unlink _ | Unlinkat _ _ | Umount _ | Rename _ _ | Renameat _ _ _ _
  | Fork _ | Clone _ | Execvp _ | Execve _ _ _ => False
  | _ => True
  end.

Definition rooting_step (w : rooting) (c : syscall) : ans c → rooting :=
  let '(Rooting p b v i d m) := w in
  match c with
  | Mount None _ _ _ _ => λ r : sysret unit, if s_ok r then Rooting true b v i d m else w
  | Mount (Some _) target _ flags _ => λ r : sysret unit,
      if s_ok r then
        if bool_decide (MS_BIND ∈ flags) then Rooting p (Some target) v i d m else Rooting p b v i d true
      else w
  | PivotRoot _ _ => λ r : sysret unit, if s_ok r then Rooting p b true i d m else w
  | Chdir _ => λ r : sysret unit, if s_ok r then Rooting p b v v d m else w
  | Umount2 _ => λ r : sysret unit, if s_ok r then Rooting p b v i true m else w
  | _ => λ _, w
  end.
Definition rooted : model rooting := observer rooting_ok rooting_step.

Lemma ensure_directory_rooted root path size w :
  wp rooted (td_ensure_directory_beneath root path size) (λ _ w', w' = w) w.
Proof.
  destruct w as [p b v i d m]. unfold td_ensure_directory_beneath. destruct (td_join_rootfs_path _ _ _); [|done].
  apply wp_bind, wp_observe; [done|]. intros [fd|e]; [|done]. apply wp_bind, wp_observe; [done|]. intros [|].
  2:{ apply wp_bind, wp_observe; [done|]. by intros r. }
  assert (Hc : ∀ l fd, wp rooted (ensure_components fd l) (λ _ w', w' = Rooting p b v i d m) (Rooting p b v i d m)).
  { clear fd. induction l as [|x l IH]; intros fd; cbn [ensure_components].
    - apply wp_bind, wp_observe; [done|]. by intros r.
    - apply wp_bind, wp_observe; [done|]. intros r. cbn [rooting_step]. destruct (_ && _).
      + apply wp_bind, wp_observe; [done|]. by intros c.
      + apply wp_bind, wp_observe; [done|]. intros [next|e]; cbn [rooting_step].
        * apply wp_bind, wp_observe; [done|]. intros c. apply IH.
        * apply wp_bind, wp_observe; [done|]. by intros c. }
  apply wp_bind. eapply wp_mono; [|apply Hc]. cbv beta. by intros r w ->.
Qed.

Ltac rooted_step := apply wp_bind, wp_observe; [|intros ?; cbn [rooting_step]].

Lemma leave_old_root_rooted root :
  wp rooted leave_old_root (λ r w, r = 0 ∧ w = Rooting true (Some root) true true true true ∨ r = -1)
    (Rooting true (Some root) true false false false).
Proof.
  unfold leave_old_root. rooted_step; [done|]. destruct (s_ok a); cbn [negb]; [|by right].
  rooted_step; [done|]. destruct (s_ok a0); cbn [negb]; [|by right].
  set (w := Rooting true (Some root) true true true false).
  apply wp_bind. apply (wp_mono _ _ (λ _ w', w' = w)).
  2:{ unfold w, remove_dir, td_remove_tree. destruct (_ || _); [done|]. rooted_step; [done|].
      destruct a1 as [st|e]; [|done]. by apply wp_observe. }
  intros removed w' ->. destruct (removed =? -1); [by right|].
  apply wp_bind. apply (wp_mono _ _ (λ _ w', w' = w)).
  2:{ unfold w, ensure_proc. rooted_step; [done|]. destruct a1 as [st|e]; [done|]. destruct (e =? ENOENT); [|done].
      rooted_step; [done|]. by apply wp_ret. }
  intros [|] w' ->; cbn [negb]; [|by right]. rooted_step.
  { split; [done|]. right. done. }
  apply wp_ret. unfold w. cbn [rooting_step]. destruct (s_ok a1); [left|by right]. split; [done|].
  change (bool_decide (MS_BIND ∈ [MS_NOEXEC; MS_NOSUID; MS_NODEV])) with false. done.
Qed.

Lemma new_root_rooted new_root :
  wp rooted (init_and_set_new_root new_root)
    (λ r w, r = -1 ∨ r = 0 ∧ ∃ root, w = Rooting true (Some root) true true true true)
    (Rooting false None false false false false).
Proof.
  unfold init_and_set_new_root. destruct new_root as [new_root|]; [|by left].
  rooted_step; [done|]. destruct a as [root|]; [|by left]. destruct (negb _); [by left|].
  rooted_step. { split_and!; [done|right; by left|by left]. }
  destruct (s_ok a); cbn [negb]; [|by left].
  rooted_step. { split; [done|]. left. split_and!; [done|done|right; by left]. }
  change (bool_decide (MS_BIND ∈ [MS_REC; MS_BIND])) with true.
  destruct (s_ok a0); cbn [negb]; [|by left]. cbv zeta. destruct (truncated _ _); [by left|].
  apply wp_bind. eapply wp_mono; [|apply ensure_directory_rooted]. cbv beta. intros verified w ->.
  destruct (negb _); [by left|]. rooted_step; [done|].
  destruct (s_ok a1); cbn [negb]; [|by left].
  eapply wp_mono; [|apply leave_old_root_rooted]. cbv beta. intros r w [[-> ->]| ->]; [right|by left].
  split; [done|]. by exists root.
Qed.


(** ** The hash of an image is the digest of its content *)

(** What OpenSSL documents of EVP: the digest of a context is that of the
    concatenation of what it was updated with.  [absorbed c data] says that [c]
    was started and then updated with [data] in pieces. *)
Class DigestLaws {D : Digest} (absorbed : digest_context → cstr → Prop) (digest : cstr → cstr) : Prop := {
  start_absorbed c : digest_start = Some c → absorbed c [];
  update_absorbed c c' before data :
    absorbed c before → digest_update c data = Some c' → absorbed c' (before ++ data);
  final_digest c data hash : absorbed c data → digest_final c = Some hash → hash = digest data;
}.

(** What the reads of the file have delivered, and whether the last delivered
    nothing. *)
Definition delivery_step (w : cstr * bool) (c : syscall) : ans c → cstr * bool :=
  match c with
  | Fopen _ => λ _, ([], false)
  | Fread _ n => λ r : cstr * (bool * bool), (w.1 ++ take (Z.to_nat n) r.1, negb (nonempty (take (Z.to_nat n) r.1)))
  | _ => λ _, w
  end.
Definition delivering : model (cstr * bool) := free delivery_step.

(** C7: the name of an image is the digest of its content: reading the file in
    pieces of 1024 bytes, of whatever sizes they arrive, gives the hexadecimal
    text of the digest of all bytes delivered up to the first read that
    delivers none, the same as hashing them at once. *)
Theorem calculate_sha256_one_shot {D : Digest} absorbed digest `{!DigestLaws absorbed digest} file_path w :
  wp delivering (calculate_sha256 file_path)
    (λ r w', ∀ text, r = Some text → ∃ content, w' = (content, true) ∧ text = hex_text (digest content)) w.
Proof.
  unfold calculate_sha256. apply wp_bind, wp_observe; [done|]. intros [file|e]; [|done]. cbn [delivery_step].
  destruct digest_start as [context|] eqn:Es; [|apply wp_bind, wp_observe; [done|]; intros a; by apply wp_ret].
  apply wp_bind. apply (wp_iter _ (λ c w, absorbed c w.1)); [by apply start_absorbed|].
  assert (Hend : ∀ hashed w, (∀ c, hashed = Some c → absorbed c w.1 ∧ w.2 = true) →
    wp delivering (_ ← call (Fclose file);
      match hashed with
      | None => Ret None
      | Some context =>
          match digest_final context with
          | None => Ret None
          | Some sha256_hash =>
              room ← call (Malloc (strlen sha256_hash * 2 + 1));
              Ret (if room : bool then Some (hex_text sha256_hash) else None)
          end
      end)
      (λ r w', ∀ text, r = Some text → ∃ content, w' = (content, true) ∧ text = hex_text (digest content)) w).
  { intros hashed w' Hc. apply wp_bind, wp_observe; [done|]. intros closed. cbn [delivery_step].
    destruct hashed as [c|]; [|by apply wp_ret]. destruct (Hc c eq_refl) as [Ha He].
    destruct (digest_final c) as [hash|] eqn:Ef; [|by apply wp_ret]. apply wp_bind, wp_observe; [done|]. intros room.
    apply wp_ret. intros text. destruct room; [|done]. intros [= <-]. cbn [delivery_step]. exists w'.1.
    split; [by destruct w'; cbn in He |- *; subst|]. f_equal. by eapply final_digest. }
  intros c [before ended] Ha. unfold hash_turn. apply wp_bind, wp_observe; [done|]. intros [data eof].
  cbn [delivery_step fst] in *. cbv zeta. apply wp_ret. destruct (nonempty (take _ data)) eqn:En.
  - destruct (digest_update c _) as [c'|] eqn:Eu; [by eapply update_absorbed|]. by apply (Hend None).
  - apply (Hend (Some c)). intros c' [= <-]. cbn [fst snd]. split; [|done].
    destruct (take _ data); [by rewrite app_nil_r|done].
Qed.

(** A digest that is the data itself. *)
#[local] Instance plain_digest : Digest := {
  digest_context := cstr;
  digest_start := Some [];
  digest_update c data := Some (c ++ data);
  digest_final c := Some c;
}.
#[local] Instance plain_laws : DigestLaws (D := plain_digest) eq id.
Proof. split; cbn; congruence. Qed.
Lemma calculate_sha256_one_shot_witness :
  wp delivering (calculate_sha256 (D := plain_digest) (lit "busybox.tar"))
    (λ r w', ∀ text, r = Some text → ∃ content, w' = (content, true) ∧ text = hex_text (id content)) ([], false).
Proof. apply (calculate_sha256_one_shot (D := plain_digest) eq id). Defined.
