(* ===== verification/Container.v ===== *)
(** * docker/container.c, first part: starting, stopping and removing

    [docker_run] acquires the parts of a container in stages and gives them
    back when a stage fails; [docker_stop] and [docker_rm] change the status
    and clean up. *)
From S2P Require Import Prelude CString Paths Safety StatusCodec NetworkState CgroupParse Sys Resources Process Fs Config Cgroup.
From S2P Require Import NetworkStore Network StatusInfo Volumes Workspace.
From Stdlib Require Import Lia.

(** ** Stages and state *)

Inductive container_stage :=
  | CONTAINER_STAGE_CONFIG_PREPARE | CONTAINER_STAGE_EXISTENCE_CHECK | CONTAINER_STAGE_FILESYSTEM_PREPARE
  | CONTAINER_STAGE_VOLUME_MOUNT | CONTAINER_STAGE_CGROUP_PREPARE | CONTAINER_STAGE_SYNC_PIPE_CREATE
  | CONTAINER_STAGE_PROCESS_CREATE | CONTAINER_STAGE_CGROUP_APPLY | CONTAINER_STAGE_NETWORK_PREPARE
  | CONTAINER_STAGE_PORT_MAPPING | CONTAINER_STAGE_METADATA_WRITE | CONTAINER_STAGE_CHILD_RELEASE
  | CONTAINER_STAGE_PROCESS_WAIT | CONTAINER_STAGE_CLEANUP | CONTAINER_STAGE_COMPLETE.

Record container_runtime_state := RuntimeState {
  rs_stage : container_stage;
  rs_cgroup : cgroup_state;
}.

(** The locals of [docker_run] that the cleanup needs; the pipe is [None] while
    [pipe_created] is 0. *)
Record run_locals := RunLocals {
  rl_state : container_runtime_state;
  rl_mountpoint : cstr;
  rl_ip_addr : cstr;
  rl_child : option positive;
  rl_pipe : option (nat * nat);
}.

(** ** Paths *)

Definition CONTAINER_LOG_DIR : cstr := TINYDOCKER_RUNTIME_DIR ++ lit "/logs".

(** The directory of a container, its mount point and its status file. *)
Definition build_container_runtime_paths (container_name : cstr) (container_dir_size mountpoint_size status_path_size : Z)
    : option (cstr * cstr * cstr) :=
  let base := Some TINYDOCKER_RUNTIME_DIR in
  match td_build_named_path base (Some (lit "containers")) (Some container_name) container_dir_size,
        td_build_named_path base (Some (lit "container_info")) (Some container_name) status_path_size with
  | Ok container_dir, Ok status_path =>
      let mountpoint := container_dir ++ lit "/mountpoint" in
      if truncated mountpoint mountpoint_size then None else Some (container_dir, mountpoint, status_path)
  | _, _ => None
  end.

Definition container_exists (container_name : cstr) : prog bool :=
  match build_container_runtime_paths container_name PATH_MAX PATH_MAX PATH_MAX,
        get_container_cgroup_path (Some container_name) 1024 with
  | Some (container_dir, _, status_path), Some cgroup_path =>
      e ← path_exist cgroup_path;
      if e : bool then Ret true
      else
        e ← path_exist status_path;
        if e : bool then Ret true else path_exist container_dir
  | _, _ => Ret true
  end.

(** ** Cleaning up a stopped container *)

(** [volumes], or [None] for corrupt metadata. *)
Fixpoint recorded_volumes (texts : list cstr) : option (list volume_config) :=
  match texts with
  | [] => Some []
  | t :: rest =>
      let v := parse_volume_config (Some t) in
      if vc_ro v <? 0 then None
      else
        match recorded_volumes rest with
        | None => None
        | Some vs => Some (v :: vs)
        end
  end.

(** The array of volumes of a record: allocated and parsed when there are any. *)
Definition load_volumes (info : container_info) : prog (option (list volume_config)) :=
  if 0 <? ci_volume_cnt info then
    room ← call (Malloc (ci_volume_cnt info));
    Ret (if room : bool then recorded_volumes (take (Z.to_nat (ci_volume_cnt info)) (ci_volumes info)) else None)
  else Ret (Some []).

(** [true] when nothing is left mounted there. *)
Definition umount_root (mountpoint : cstr) : prog bool :=
  r ← call (Umount mountpoint);
  Ret (match r with SOk _ => true | SErr e => not_mounted e end).

(** The network of a container: port mappings, interface and address;
    [true] when all could be given back. *)
Definition release_network (container_name ip_addr : cstr) : prog bool :=
  unset ← unset_container_port_map ip_addr;
  if negb (unset =? 0) then Ret false
  else
    disconnected ← disconnect_container container_name TINYDOCKER_DEFAULT_NETWORK_NAME;
    if negb (disconnected =? 0) then Ret false
    else
      released ← release_used_ip TINYDOCKER_DEFAULT_NETWORK_NAME ip_addr;
      Ret (released =? 0).

Definition clean_container_runtime (container_name : cstr) (info : container_info) : prog Z :=
  match build_container_runtime_paths container_name PATH_MAX PATH_MAX PATH_MAX with
  | None => Ret (-1)
  | Some (container_dir, mountpoint, _) =>
      loaded ← load_volumes info;
      match loaded with
      | None => Ret (-1)
      | Some volumes =>
          unmounted ← umount_volumes mountpoint volumes;
          root ← umount_root mountpoint;
          let mounts_gone := (unmounted =? 0) && root in
          network ← (if nonempty (ci_ip_addr info) then release_network container_name (ci_ip_addr info)
                     else Ret true);
          workspace ← (if mounts_gone then removed ← remove_dir container_dir; Ret (removed =? 0)
                       else Ret false);
          group ← remove_cgroup container_name;
          let clean := mounts_gone && network && workspace && (group =? 0) in
          forgotten ← (if clean then remove_status_info container_name else Ret 0);
          Ret (if clean && (forgotten =? 0) then 0 else -1)
      end
  end.

(** ** Giving back what a failed start has acquired *)

Definition close_both (pipe : option (nat * nat)) : prog unit :=
  match pipe with
  | None => Ret tt
  | Some (r, w) => _ ← call (Close r); discard (call (Close w))
  end.

Definition kill_child (child : option positive) : prog unit :=
  match child with
  | None => Ret tt
  | Some pid =>
      _ ← call (Kill (Zpos pid) SIGKILL);
      discard (retry_intr (call (Waitpid (Zpos pid))))
  end.

(** [true] when the mounts of the attempt are gone. *)
Definition unmount_attempt (mountpoint : cstr) (volumes : list volume_config) : prog bool :=
  if nonempty mountpoint then
    unmounted ← (match volumes with [] => Ret 0 | _ => umount_volumes mountpoint volumes end);
    root ← umount_root mountpoint;
    Ret ((unmounted =? 0) && root)
  else Ret true.

Definition release_attempt (name ip_addr : cstr) : prog unit :=
  if nonempty ip_addr then
    _ ← unset_container_port_map ip_addr;
    _ ← disconnect_container name TINYDOCKER_DEFAULT_NETWORK_NAME;
    discard (release_used_ip TINYDOCKER_DEFAULT_NETWORK_NAME ip_addr)
  else Ret tt.

Definition cleanup_run_failure (args : docker_run_arguments) (l : run_locals) : prog unit :=
  _ ← kill_child (rl_child l);
  _ ← close_both (rl_pipe l);
  _ ← release_attempt (run_name args) (rl_ip_addr l);
  mounts_gone ← unmount_attempt (rl_mountpoint l) (run_volumes args);
  _ ← (match build_container_runtime_paths (run_name args) PATH_MAX PATH_MAX PATH_MAX with
       | Some (container_dir, _, _) => when mounts_gone (discard (remove_dir container_dir))
       | None => Ret tt
       end);
  _ ← cgroup_cleanup (Some (rs_cgroup (rl_state l)));
  when mounts_gone (discard (remove_status_info (run_name args))).

(** ** Starting a container *)

Section Run.
Context {D : Digest}.

Definition no_cgroup : cgroup_state := CgroupState [] 0.

(** The stages up to the mounted root file system and the control group; each
    result is the locals with the stage reached, and whether it succeeded. *)
Definition prepare_files (args : docker_run_arguments) : prog (bool * run_locals) :=
  '(workspace, mountpoint) ← init_container_workerspace args;
  let at_ stage cgroup := RunLocals (RuntimeState stage cgroup) mountpoint [] None None in
  if workspace =? -1 then Ret (false, at_ CONTAINER_STAGE_FILESYSTEM_PREPARE no_cgroup)
  else
    mounted ← mount_volumes mountpoint (run_volumes args);
    if mounted =? -1 then Ret (false, at_ CONTAINER_STAGE_VOLUME_MOUNT no_cgroup)
    else
      '(prepared, group) ← cgroup_prepare (Some (run_name args))
        (Some (CgroupConfig (run_cpu args) (run_memory args) None)) (Some no_cgroup);
      Ret (prepared =? 0, at_ CONTAINER_STAGE_CGROUP_PREPARE (default no_cgroup group)).

(** The stages with the child blocked on the pipe: process, control group,
    network, ports and metadata.  [l] has the mount point and the group. *)
Definition set_up_child (args : docker_run_arguments) (l : run_locals) : prog (bool * run_locals) :=
  let group := rs_cgroup (rl_state l) in
  let at_ stage ip child pipe := RunLocals (RuntimeState stage group) (rl_mountpoint l) ip child pipe in
  piped ← call Pipe;
  match piped with
  | SErr _ => Ret (false, at_ CONTAINER_STAGE_SYNC_PIPE_CREATE [] None None)
  | SOk pipe =>
      cloned ← call (Clone ChildContainer);
      match cloned with
      | SErr _ => Ret (false, at_ CONTAINER_STAGE_PROCESS_CREATE [] None (Some pipe))
      | SOk pid =>
          let at_ stage ip := at_ stage ip (Some pid) (Some pipe) in
          applied ← cgroup_apply (Some group) (Zpos pid);
          if negb (applied =? 0) then Ret (false, at_ CONTAINER_STAGE_CGROUP_APPLY [])
          else
            '(connected, ip) ← connect_container (run_name args) TINYDOCKER_DEFAULT_NETWORK_NAME;
            if connected =? -1 then Ret (false, at_ CONTAINER_STAGE_NETWORK_PREPARE ip)
            else
              mapped ← set_container_port_map ip (run_port_mapping args);
              if negb (mapped =? 0) then Ret (false, at_ CONTAINER_STAGE_PORT_MAPPING ip)
              else
                start_time ← call Time;
                created ← create_container_info args (Zpos pid) CONTAINER_RUNNING (Some ip) start_time;
                match created with
                | None => Ret (false, at_ CONTAINER_STAGE_METADATA_WRITE ip)
                | Some info =>
                    written ← write_container_info (run_name args) info;
                    Ret (written =? 0, at_ CONTAINER_STAGE_METADATA_WRITE ip)
                end
      end
  end.

(** Lets the child run its command; afterwards both ends of the pipe are
    closed or recorded in the locals. *)
Definition release_child (l : run_locals) : prog (bool * run_locals) :=
  match rl_pipe l with
  | None => Ret (false, l)
  | Some (read_end, write_end) =>
      _ ← call (Close read_end);
      write_count ← retry_intr (sys_write write_end (lit "1"));
      _ ← call (Close write_end);
      Ret (match write_count with SOk n => n =? 1 | SErr _ => false end,
           RunLocals (RuntimeState CONTAINER_STAGE_CHILD_RELEASE (rs_cgroup (rl_state l)))
             (rl_mountpoint l) (rl_ip_addr l) (rl_child l) None)
  end.

(** SIGINT, SIGTERM and SIGHUP. *)
Definition forwarded_signals : list Z := [2; 15; 1].
(** Installs the forwarding; the signals for which it was installed. *)
Fixpoint install_forwarding (signals : list Z) : prog (list Z) :=
  match signals with
  | [] => Ret []
  | signal :: rest =>
      r ← call (Sigaction signal);
      installed ← install_forwarding rest;
      Ret (if s_ok r then signal :: installed else installed)
  end.

(** The foreground half: waits for the container and records its end. *)
Definition wait_for_container (args : docker_run_arguments) (pid : positive) : prog Z :=
  installed ← install_forwarding forwarded_signals;
  waited ← retry_intr (call (Waitpid (Zpos pid)));
  _ ← for_each installed (λ signal, discard (call (Sigaction signal)));
  match waited with
  | SErr _ => Ret (-1)
  | SOk exit_status =>
      _ ← (match exit_status with
           | Signaled signal =>
               call (Print (lit "container was killed by signal " ++ fmt_d signal ++ [LF]))
           | Exited _ => Ret tt
           end);
      _ ← update_container_status (run_name args) CONTAINER_EXITED;
      Ret (match exit_status with Exited status => status | Signaled signal => 128 + signal end)
  end.

Definition docker_run (args : docker_run_arguments) : prog Z :=
  exists_ ← container_exists (run_name args);
  if exists_ : bool then Ret (-1)
  else
    room ← call (Malloc PATH_MAX);
    if negb room then Ret (-1)
    else
      '(ok, l) ← prepare_files args;
      '(ok, l) ← (if ok : bool then set_up_child args l else Ret (false, l));
      '(ok, l) ← (if ok : bool then release_child l else Ret (false, l));
      if negb ok then
        _ ← cleanup_run_failure args l;
        Ret (-1)
      else if run_detach args =? 1 then Ret 0
      else
        match rl_child l with
        | Some pid => wait_for_container args pid
        | None => Ret (-1)
        end.
End Run.

(** ** The child *)

Section Child.
Context (environ : list cstr).

Definition MAX_ENV_COUNT : nat := 256.
Definition MAX_ENV_BYTES : Z := 1024 * 1024.

(** One turn of the loop that reads the environment of a process: the contents
    and the capacity; it leaves with the contents, or with [None]. *)
Definition environ_turn (fd : nat) (st : cstr * Z) : prog ((cstr * Z) + option cstr) :=
  let '(contents, capacity) := st in
  let used := strlen contents in
  let next_capacity := capacity * 2 in
  grown ← (if used =? capacity then
             if MAX_ENV_BYTES <? next_capacity then Ret None
             else larger ← call (Malloc next_capacity); Ret (if larger : bool then Some next_capacity else None)
           else Ret (Some capacity));
  match grown with
  | None => Ret (inr None)
  | Some capacity =>
      count ← sys_read fd (capacity - used);
      Ret (match count with
           | SErr e => if e =? EINTR then inl (contents, capacity) else inr None
           | SOk data => if nonempty data then inl (contents ++ data, capacity) else inr (Some contents)
           end)
  end.

(** The entries between NUL bytes; the empty ones are skipped. *)
Definition environ_entries (contents : cstr) : list cstr :=
  List.filter nonempty (split_on (λ c, bool_decide (c = NUL)) contents).

(** Copies entries while there is room; [None] when memory runs out. *)
Fixpoint copy_entries (envs entries : list cstr) : prog (option (list cstr)) :=
  match entries with
  | [] => Ret (Some envs)
  | entry :: rest =>
      if (MAX_ENV_COUNT <=? length envs)%nat then Ret (Some envs)
      else
        room ← call (Malloc (strlen entry + 1));
        if room : bool then copy_entries (envs ++ [entry]) rest else Ret None
  end.

Definition process_environ (pid : Z) : prog (option (list cstr)) :=
  let path := lit "/proc/" ++ fmt_d pid ++ lit "/environ" in
  if truncated path 256 then Ret None
  else
    opened ← call (Open path [O_RDONLY; O_CLOEXEC; O_NOFOLLOW] 0);
    match opened with
    | SErr _ => Ret None
    | SOk fd =>
        room ← call (Malloc 4096);
        if negb room then _ ← call (Close fd); Ret None
        else
          contents ← iter (environ_turn fd) ([], 4096);
          _ ← call (Close fd);
          match contents with
          | None => Ret None
          | Some contents => copy_entries [] (environ_entries contents)
          end
    end.

(** The variables of the command line, after those of the process. *)
Fixpoint add_user_envs (envs : list cstr) (user_envs : list key_val_pair) : prog (option (list cstr)) :=
  match user_envs with
  | [] => Ret (Some envs)
  | pair_ :: rest =>
      if (MAX_ENV_COUNT <=? length envs)%nat then Ret (Some envs)
      else
        match kv_key pair_, kv_val pair_ with
        | Some key, Some val =>
            room ← call (Malloc (strlen key + strlen val + 2));
            if room : bool then add_user_envs (envs ++ [key ++ lit "=" ++ val]) rest else Ret None
        | _, _ => Ret None
        end
  end.

Definition load_process_env (pid : Z) (user_envs : list key_val_pair) : prog (option (list cstr)) :=
  room ← call (Malloc 257);
  if negb room then Ret None
  else
    self ← call Getpid;
    inherited ← (if self =? pid then Ret (Some (take MAX_ENV_COUNT environ)) else process_environ pid);
    match inherited with
    | None => Ret None
    | Some envs => add_user_envs envs user_envs
    end.

(** The output of a container in the background goes to its log file;
    [false] ends the child. *)
Definition redirect_output (name : cstr) : prog bool :=
  let log_file_path := CONTAINER_LOG_DIR ++ lit "/" ++ name in
  if truncated log_file_path PATH_MAX then Ret false
  else
    opened ← call (Open log_file_path [O_WRONLY; O_CREAT; O_TRUNC; O_CLOEXEC; O_NOFOLLOW] 384);
    match opened with
    | SErr _ => Ret false
    | SOk fd =>
        out ← call (Dup2 fd 1);
        err ← (if s_ok out then call (Dup2 fd 2) else Ret (SErr 0));
        _ ← call (Close fd);
        Ret (s_ok err)
    end.

(** The child made by [clone]; it has copies of both ends of the pipe. *)
Definition child_fn (args : docker_run_arguments) (mountpoint : cstr) (read_end write_end : nat) : prog unit :=
  logged ← (if negb (run_detach args =? 0) then redirect_output (run_name args) else Ret true);
  if negb logged then call (Exit 126)
  else
    self ← call Getpid;
    loaded ← load_process_env self (run_env args);
    match loaded with
    | None => call (Exit 126)
    | Some envs =>
        rooted ← init_and_set_new_root (Some mountpoint);
        if negb (rooted =? 0) then call (Exit 126)
        else
          _ ← call (Close write_end);
          read_count ← retry_intr (sys_read read_end 1);
          _ ← call (Close read_end);
          match read_count with
          | SOk start_message =>
              if bool_decide (start_message = lit "1") then
                _ ← call (Execve (default [] (head (run_argv args))) (run_argv args) envs);
                call (Exit 127)
              else call (Exit 125)
          | SErr _ => call (Exit 125)
          end
    end.
End Child.

(** ** Stopping *)

(** [None] is -1, [Some pids] a count and the pids. *)
Definition container_process_count (container_name : cstr) (capacity : Z) : prog (option (list Z)) :=
  match get_container_cgroup_path (Some container_name) PATH_MAX with
  | None => Ret None
  | Some cgroup_path =>
      let procs_path := cgroup_path ++ lit "/cgroup.procs" in
      if truncated procs_path PATH_MAX then Ret None
      else
        there ← path_exist procs_path;
        if there : bool then get_container_processes_id container_name capacity else Ret (Some [])
  end.

Fixpoint signal_each (signal_number : Z) (pids : list Z) (result : Z) : prog Z :=
  match pids with
  | [] => Ret result
  | pid :: rest =>
      if pid <=? 0 then signal_each signal_number rest (-1)
      else
        sent ← call (Kill pid signal_number);
        signal_each signal_number rest (if s_ok sent || failed_with sent ESRCH then result else -1)
  end.

Definition signal_container_processes (container_name : cstr) (signal_number : Z) : prog Z :=
  members ← container_process_count container_name 1024;
  match members with
  | None => Ret (-1)
  | Some pids => signal_each signal_number pids 0
  end.

Definition count_of (members : option (list Z)) : Z :=
  match members with None => -1 | Some pids => Z.of_nat (length pids) end.

(** A tenth of a second. *)
Definition poll_interval : Z := 100000000.

(** [for (poll = 0; pid_count > 0 && poll < limit; poll++)], with the polls
    that are left. *)
Fixpoint poll_members (polls : nat) (container_name : cstr) (pid_count : Z) : prog Z :=
  match polls with
  | O => Ret pid_count
  | S polls' =>
      if 0 <? pid_count then
        _ ← call (Nanosleep poll_interval);
        members ← container_process_count container_name 1024;
        poll_members polls' container_name (count_of members)
      else Ret pid_count
  end.

(** SIGKILL and the second wait: the count, or [None] when signalling failed. *)
Definition kill_remaining (container_name : cstr) (pid_count : Z) : prog (option Z) :=
  if 0 <? pid_count then
    killed ← signal_container_processes container_name SIGKILL;
    if negb (killed =? 0) then Ret None
    else
      pid_count ← poll_members 20 container_name pid_count;
      Ret (Some pid_count)
  else Ret (Some pid_count).

(** [args->time * 10] in [int]. *)
Definition poll_limit (time : Z) : nat := Z.to_nat (time * 10).

(** One container; [true] leaves [overall_result] as it is. *)
Definition stop_one (time : Z) (container_name : cstr) : prog bool :=
  read ← read_container_info container_name;
  match read with
  | None => Ret false
  | Some info =>
      '(refreshed, info) ← refresh_container_status_if_needed container_name info;
      if refreshed <? 0 then Ret false
      else if negb (bool_decide (ci_status info = lit "RUNNING")) then Ret true
      else
        signalled ← signal_container_processes container_name SIGTERM;
        if negb (signalled =? 0) then Ret false
        else
          members ← container_process_count container_name 1024;
          pid_count ← poll_members (poll_limit time) container_name (count_of members);
          remaining ← kill_remaining container_name pid_count;
          match remaining with
          | None => Ret false
          | Some pid_count =>
              if negb (pid_count =? 0) then Ret false
              else
                updated ← update_container_status container_name CONTAINER_STOPPED;
                Ret (updated =? 0)
          end
  end.

Fixpoint stop_each (time : Z) (names : list cstr) (overall_result : Z) : prog Z :=
  match names with
  | [] => Ret overall_result
  | name :: rest =>
      ok ← stop_one time name;
      stop_each time rest (if ok : bool then overall_result else -1)
  end.
Definition docker_stop (args : docker_stop_arguments) : prog Z := stop_each (stop_time args) (stop_names args) 0.

(** ** Removing *)

Definition rm_one (container_name : cstr) : prog bool :=
  exists_ ← container_exists container_name;
  if negb exists_ then Ret true
  else
    read ← read_container_info container_name;
    match read with
    | None => Ret false
    | Some info =>
        '(refreshed, info) ← refresh_container_status_if_needed container_name info;
        if refreshed <? 0 then Ret false
        else if bool_decide (ci_status info = lit "RUNNING") then Ret false
        else
          cleaned ← clean_container_runtime container_name info;
          Ret (cleaned =? 0)
    end.

Fixpoint rm_each (names : list cstr) (overall_result : Z) : prog Z :=
  match names with
  | [] => Ret overall_result
  | name :: rest =>
      ok ← rm_one name;
      rm_each rest (if ok : bool then overall_result else -1)
  end.
Definition docker_rm (args : docker_rm_arguments) : prog Z := rm_each (rm_containers args) 0.

#[global] Arguments docker_run {_} : simpl never.
#[global] Arguments stop_one : simpl never.
#[global] Arguments rm_one : simpl never.
#[global] Arguments clean_container_runtime : simpl never.

(** ** Descriptors and children *)

Lemma balanced_container_exists name : balanced (container_exists name).
Proof. unfold container_exists. balanced_auto. Qed.
Lemma balanced_umount_root m : balanced (umount_root m).
Proof. unfold umount_root. balanced_auto. Qed.
Lemma balanced_release_network name ip : balanced (release_network name ip).
Proof. unfold release_network. balanced_auto. Qed.
#[export] Hint Resolve balanced_container_exists balanced_umount_root balanced_release_network : balanced.
Lemma balanced_clean name info : balanced (clean_container_runtime name info).
Proof. unfold clean_container_runtime, load_volumes. balanced_auto. Qed.
#[export] Hint Resolve balanced_clean : balanced.

Lemma balanced_count name n : balanced (container_process_count name n).
Proof. unfold container_process_count. balanced_auto. Qed.
#[export] Hint Resolve balanced_count : balanced.
Lemma balanced_signal name s : balanced (signal_container_processes name s).
Proof.
  assert (H : ∀ l r, balanced (signal_each s l r)) by (induction l as [|p l IH]; intros r; cbn [signal_each]; balanced_auto).
  unfold signal_container_processes. balanced_auto.
Qed.
Lemma balanced_poll name n : ∀ c, balanced (poll_members n name c).
Proof. induction n as [|n IH]; intros c; cbn [poll_members]; balanced_auto. Qed.
#[export] Hint Resolve balanced_signal balanced_poll : balanced.
Lemma balanced_stop_one t name : balanced (stop_one t name).
Proof. unfold stop_one, kill_remaining. balanced_auto. Qed.
Lemma balanced_rm_one name : balanced (rm_one name).
Proof. unfold rm_one. balanced_auto. Qed.
#[export] Hint Resolve balanced_stop_one balanced_rm_one : balanced.

Lemma balanced_stop args : balanced (docker_stop args).
Proof.
  unfold docker_stop. generalize 0. induction (stop_names args) as [|n l IH]; intros r; cbn [stop_each]; balanced_auto.
Qed.
Lemma balanced_rm args : balanced (docker_rm args).
Proof.
  unfold docker_rm. generalize 0. induction (rm_containers args) as [|n l IH]; intros r; cbn [rm_each]; balanced_auto.
Qed.

(** What the locals of a start hold on top of [w]. *)
Definition holding (l : run_locals) (w : held) : held :=
  let piped := match rl_pipe l with Some (r, e) => take_fd r (take_fd e w) | None => w end in
  match rl_child l with Some pid => add_child (Zpos pid) piped | None => piped end.

Lemma wp_waitpid {A} pid (f : sysret wait_status → prog A) Q w :
  (∀ r, wp resources (f r) Q w) →
  wp resources (retry_intr (call (Waitpid pid)) ≫= f) Q (add_child pid w).
Proof.
  intros H. apply wp_bind. apply (wp_retry resources (λ w', w' = add_child pid w)); [done|].
  intros w' ->. apply wp_observe; [by left|]. intros r. cbn [res_step].
  destruct (failed_with r EINTR); [done|]. by rewrite reap_add.
Qed.

Lemma cleanup_gives_back args l w : wp resources (cleanup_run_failure args l) (λ _ w', w' = w) (holding l w).
Proof.
  unfold cleanup_run_failure. set (piped := holding (RunLocals (rl_state l) (rl_mountpoint l) (rl_ip_addr l) None (rl_pipe l)) w).
  apply wp_bind. apply (wp_mono _ _ (λ _ w', w' = piped)).
  2:{ unfold kill_child, holding. destruct (rl_child l) as [pid|]; [|done]. held_step. unfold discard.
      apply wp_waitpid. intros r. by apply wp_ret. }
  intros [] w' ->. apply wp_bind. apply (wp_mono _ _ (λ _ w', w' = w)).
  2:{ unfold close_both, piped, holding. cbn [rl_pipe rl_child]. destruct (rl_pipe l) as [[r e]|]; [|done].
      unfold discard. held_auto. }
  intros [] w' ->. apply wp_balanced; [unfold release_attempt, discard; balanced_auto|]. intros _.
  apply wp_balanced; [unfold unmount_attempt; balanced_auto|]. intros gone.
  apply wp_balanced; [unfold when, discard; balanced_auto|]. intros _.
  apply wp_balanced; [auto with balanced|]. intros _.
  apply wp_balanced_end; [unfold when, discard; balanced_auto|done].
Qed.

Section RunResources.
Context {D : Digest}.

Lemma prepare_holds args w :
  wp resources (prepare_files args) (λ r w', w' = w ∧ holding r.2 w = w) w.
Proof.
  unfold prepare_files. cbv zeta. apply wp_balanced; [auto with balanced|]. intros [workspace mountpoint].
  destruct (workspace =? -1); [done|]. apply wp_balanced; [auto with balanced|]. intros mounted.
  destruct (mounted =? -1); [done|]. apply wp_balanced; [auto with balanced|]. by intros [prepared group].
Qed.

Lemma set_up_child_holds args l w :
  wp resources (set_up_child args l)
    (λ r w', w' = holding r.2 w ∧ (r.1 = true → is_Some (rl_child r.2) ∧ is_Some (rl_pipe r.2))) w.
Proof.
  unfold set_up_child. cbv zeta. held_step. held_step; [|done]. destruct a0 as [rd wr].
  held_step. held_step; [|done]. set (w' := add_child _ _).
  apply wp_balanced; [auto with balanced|]. intros applied. destruct (negb _); [done|].
  apply wp_balanced; [auto with balanced|]. intros [connected ip]. destruct (connected =? -1); [done|].
  apply wp_balanced; [auto with balanced|]. intros mapped. destruct (negb _); [done|].
  apply wp_balanced; [auto with balanced|]. intros t. apply wp_balanced; [auto with balanced|]. intros [info|]; [|done].
  apply wp_balanced; [auto with balanced|]. intros written. apply wp_ret. split; [done|]. intros _.
  by split; eexists.
Qed.

Lemma release_child_holds l w :
  is_Some (rl_child l) → is_Some (rl_pipe l) →
  wp resources (release_child l)
    (λ r w', w' = holding r.2 w ∧ rl_child r.2 = rl_child l ∧ rl_pipe r.2 = None) (holding l w).
Proof.
  intros [pid Hc] [[rd wr] Hp]. unfold release_child, holding at 2. rewrite Hp, Hc.
  held_step. autorewrite with held. apply wp_bind.
  apply (wp_retry resources (λ w', w' = add_child (Zpos pid) (take_fd wr w))); [done|].
  intros w' ->. unfold sys_write. held_step. apply wp_ret.
  match goal with |- if ?b then _ else _ => destruct b; [done|] end.
  held_step. apply wp_ret. autorewrite with held. unfold holding. cbn [snd rl_child rl_pipe]. done.
Qed.

(** Starting a container leaks nothing: when it fails, at whatever stage,
    the child has been waited for and both ends of the synchronisation pipe,
    and every other descriptor, are closed; the same holds when it returns from
    the foreground; a start in the background returns 0 with nothing but the
    running child left.  Stopping and removing containers leave nothing. *)
Theorem docker_run_resources args stop rm w :
  wp resources (docker_run args)
    (λ r w', w' = w ∨ r = 0 ∧ run_detach args = 1 ∧ ∃ pid, w' = add_child (Zpos pid) w) w ∧
  balanced (docker_stop stop) ∧ balanced (docker_rm rm).
Proof.
  split; [|split; [apply balanced_stop|apply balanced_rm]].
  unfold docker_run. apply wp_balanced; [auto with balanced|]. intros [|]; [by left|].
  held_step. destruct (negb a); [by left|].
  apply wp_bind. eapply wp_mono; [|apply prepare_holds]. cbv beta. intros [ok l0] w' [-> H0]. cbn [snd] in H0.
  apply wp_bind. apply (wp_mono _ _ (λ r w', w' = holding r.2 w ∧
    (r.1 = true → is_Some (rl_child r.2) ∧ is_Some (rl_pipe r.2)))).
  2:{ destruct ok; [apply set_up_child_holds|]. apply wp_ret. split; [by cbn [snd]; rewrite H0|done]. }
  intros [ok1 l1] w' [-> H1]. cbn [fst snd] in H1.
  apply wp_bind. apply (wp_mono _ _ (λ r w', w' = holding r.2 w ∧
    (r.1 = true → is_Some (rl_child r.2) ∧ rl_pipe r.2 = None))).
  2:{ destruct ok1; [|by apply wp_ret]. destruct (H1 eq_refl) as [Hc Hp].
      eapply wp_mono; [|by apply release_child_holds]. cbv beta. intros r w' (-> & E1 & E2).
      split; [done|]. intros _. by rewrite E1. }
  intros [ok2 l2] w' [-> H2]. cbn [fst snd] in H2. destruct ok2; cbn [negb].
  2:{ apply wp_bind. eapply wp_mono; [|apply cleanup_gives_back]. intros [] w' ->. apply wp_ret. by left. }
  destruct (H2 eq_refl) as [[pid Hc] Hp]. unfold holding. cbn [snd]. rewrite Hc, Hp.
  destruct (Z.eqb_spec (run_detach args) 1); [apply wp_ret; right; by eauto|].
  unfold wait_for_container.
  assert (Hi : ∀ l, balanced (install_forwarding l)) by (induction l as [|x l IH]; cbn [install_forwarding]; balanced_auto).
  apply wp_balanced; [apply Hi|]. intros installed. apply wp_waitpid. intros waited.
  apply wp_balanced; [apply balanced_for_each; intros x; unfold discard; balanced_auto|]. intros _.
  apply wp_balanced_end; [|by left]. balanced_auto.
Qed.
End RunResources.

(** ** The child runs its command only when it may *)

(** Whether the last thing the child read is the start message on its end of
    the pipe. *)
Definition child_view : Type := rooting * bool.
Definition isolated (w : rooting) : Prop := ∃ root, w = Rooting true (Some root) true true true true.

Definition child_ok (w : child_view) (c : syscall) : Prop :=
  match c with
  | Execve _ _ _ => isolated w.1 ∧ w.2 = true
  | _ => rooting_ok w.1 c
  end.
Definition child_step (read_end : nat) (w : child_view) (c : syscall) : ans c → child_view :=
  match c as c return ans c → child_view with
  | Read fd n => λ r : sysret cstr,
      (w.1, (fd =? read_end)%nat && match r with SOk d => bool_decide (take (Z.to_nat n) d = lit "1") | SErr _ => false end)
  | c => λ a, (rooting_step w.1 c a, w.2)
  end.
Definition started (read_end : nat) : model child_view := observer child_ok (child_step read_end).

Lemma child_step_fst read_end w c a : (child_step read_end w c a).1 = rooting_step w.1 c a.
Proof. destruct w as [[p b v i d m] g]. by destruct c. Qed.

(** What holds of the change of root holds for the child. *)
Lemma wp_rooted_started read_end {A} (p : prog A) : ∀ Q w g,
  wp rooted p Q w → wp (started read_end) p (λ r w', Q r w'.1) (w, g).
Proof.
  induction p as [A a|A c k IH|A S B body IHb s k IHk]; intros Q w g.
  - done.
  - intros [Hok H]. split.
    + cbn. destruct c; cbn in *; done.
    + intros a [w' g'] E. assert (w' = rooting_step w c a) as ->.
      { apply (f_equal fst) in E. rewrite child_step_fst in E. exact E. }
      apply IH. by apply H.
  - intros (I & HI & H). exists (λ s w', I s w'.1). split; [done|]. intros s' [w' g'] Hs.
    eapply wp_mono; [|apply IHb, H, Hs]. cbv beta. intros [s''|b] [w'' g'']; [done|]. apply IHk.
Qed.

Ltac started_step := apply wp_bind, wp_observe; [done|intros ?; cbn [child_step rooting_step fst snd]].

Lemma load_env_started environ read_end pid user w g :
  wp (started read_end) (load_process_env environ pid user) (λ _ w', w'.1 = w) (w, g).
Proof.
  destruct w as [p b v i d m].
  assert (Hu : ∀ l envs g, wp (started read_end) (add_user_envs envs l) (λ _ w', w'.1 = Rooting p b v i d m)
    (Rooting p b v i d m, g)).
  { induction l as [|[k x] l IH]; intros envs g'; cbn [add_user_envs]; [done|]. destruct (_ <=? _)%nat; [done|].
    cbn [kv_key kv_val]. destruct k, x; try done. started_step. destruct a; [apply IH|done]. }
  assert (Hc : ∀ l envs g, wp (started read_end) (copy_entries envs l) (λ _ w', w'.1 = Rooting p b v i d m)
    (Rooting p b v i d m, g)).
  { induction l as [|x l IH]; intros envs g'; cbn [copy_entries]; [done|]. destruct (_ <=? _)%nat; [done|].
    started_step. destruct a; [apply IH|done]. }
  unfold load_process_env. started_step. destruct (negb a); [done|]. started_step.
  apply wp_bind. apply (wp_mono _ _ (λ _ w', w'.1 = Rooting p b v i d m)).
  { intros [envs|] [w' g'] E; cbn in E; subst w'; [apply Hu|done]. }
  destruct (_ =? pid); [done|]. unfold process_environ. cbv zeta. destruct (truncated _ _); [done|].
  started_step. destruct a1 as [fd|e]; [|done]. started_step. destruct (negb a1); [by started_step|].
  apply wp_bind. apply (wp_iter _ (λ _ w', w'.1 = Rooting p b v i d m)); [done|].
  intros [contents capacity] [w' g'] E. cbn in E. subst w'. unfold environ_turn.
  assert (Hend : ∀ (o : option cstr) g, wp (started read_end) (_ ← call (Close fd);
     match o with Some contents => copy_entries [] (environ_entries contents) | None => Ret None end)
     (λ _ w', w'.1 = Rooting p b v i d m) (Rooting p b v i d m, g)).
  { intros o g2. started_step. destruct o; [apply Hc|done]. }
  apply wp_bind. apply (wp_mono _ _ (λ _ w', w'.1 = Rooting p b v i d m)).
  - intros [cap|] [w' g2] E; cbn in E; subst w'; [|apply (Hend None)]. unfold sys_read.
    apply wp_bind, wp_bind, wp_observe; [done|]. intros r. cbn [child_step fst snd]. apply wp_ret, wp_ret.
    destruct r as [x|e]; [destruct (nonempty _); [done|apply (Hend (Some contents))]|].
    destruct (e =? EINTR); [done|apply (Hend None)].
  - destruct (_ =? capacity); [|done]. destruct (_ <? _); [done|]. started_step. by destruct a2.
Qed.

(** C10: the child of a container executes the command of the container only
    after its root has been exchanged and the host's detached, and after the
    one byte '1' was read from the pipe: when the parent goes away or closes the
    pipe without releasing it, or when any step of the change of root fails, no
    command is run. *)
Theorem child_fn_gated environ args mountpoint read_end write_end :
  wp (started read_end) (child_fn environ args mountpoint read_end write_end) (λ _ _, True)
    (Rooting false None false false false false, false).
Proof.
  unfold child_fn. set (w0 := Rooting false None false false false false).
  apply wp_bind. apply (wp_mono _ _ (λ _ w, w.1 = w0)).
  2:{ destruct (negb (run_detach args =? 0)); [|done]. unfold redirect_output. cbv zeta. destruct (truncated _ _); [done|].
      started_step. destruct a as [fd|e]; [|done]. started_step.
      apply wp_bind. apply (wp_mono _ _ (λ _ w, w.1 = w0)).
      { intros r [w g] E. cbn in E. subst w. by started_step. }
      destruct (s_ok a); [|done]. by apply wp_observe. }
  intros logged [w g] E. cbn in E. subst w. destruct (negb logged); [by apply wp_observe|].
  started_step. apply wp_bind. eapply wp_mono; [|apply load_env_started]. cbv beta.
  intros [envs|] [w g'] E; cbn in E; subst w; [|by apply wp_observe].
  apply wp_bind. eapply wp_mono; [|apply wp_rooted_started, new_root_rooted]. cbv beta.
  intros r [w g2] H. cbn in H. destruct (Z.eqb_spec r 0) as [->|]; cbn [negb]; [|by apply wp_observe].
  destruct H as [?|[_ [root ->]]]; [done|]. started_step.
  set (w1 := Rooting true (Some root) true true true true).
  apply wp_bind. apply (wp_retry _ (λ w, w.1 = w1)); [done|]. intros [w g3] E. cbn in E. subst w.
  unfold sys_read. apply wp_bind, wp_observe; [done|]. intros [x|e]; cbn [child_step fst snd]; apply wp_ret; cbn [failed_with].
  - rewrite andb_comm. started_step. case_bool_decide as Hx; [|by apply wp_observe].
    apply wp_bind, wp_observe.
    + split; [by exists root|]. cbn [snd]. by rewrite Nat.eqb_refl.
    + intros z. by apply wp_observe.
  - destruct (e =? EINTR); [done|]. started_step. by apply wp_observe.
Qed.

(** ** Removing *)

(** Calls that teach nothing about a container or its process. *)
Definition tame (c : syscall) : bool :=
  match c with Openat _ _ _ _ | Renameat _ _ _ _ | Fopen _ | Fgets _ _ | Clone _ => false | _ => true end.

(** Those that do not concern mounts, directories or status files either. *)
Definition aside (c : syscall) : bool :=
  match c with
  | Mount _ _ _ _ _ | Umount _ | Umount2 _ | Nftw _ | Lstat _ | Rmdir _ | Renameat _ _ _ _ | Unlinkat _ _ => false
  | _ => tame c
  end.
Lemma aside_tame {A} (p : prog A) : only aside p → only tame p.
Proof. apply only_mono. by intros []. Qed.

Lemma aside_wait child : only aside (wait_for_child child).
Proof. unfold wait_for_child. only_auto. Qed.
#[export] Hint Resolve aside_wait : only.
Lemma aside_run argv : only aside (td_run_command argv).
Proof. unfold td_run_command. only_auto. Qed.
Lemma aside_capture argv : only aside (td_capture_command argv).
Proof. unfold td_capture_command, capture_turn, capture_grow, sys_read. only_auto. Qed.
Lemma aside_if_index n : only aside (if_nametoindex n).
Proof. unfold if_nametoindex. only_auto. Qed.
Lemma aside_path_exist p : only aside (path_exist p).
Proof. unfold path_exist. only_auto. Qed.
#[export] Hint Resolve aside_run aside_capture aside_if_index aside_path_exist : only.

Lemma aside_load : only aside (load_network_records TD_NETWORK_MAX_RECORDS).
Proof. unfold load_network_records, read_exactly, read_turn, sys_read. only_auto. Qed.
Lemma aside_write_network records : only aside (write_network_records records).
Proof.
  assert (Ho : ∀ l, only aside (open_temporary l)) by (induction l as [|n l IH]; cbn [open_temporary]; only_auto).
  assert (Hw : ∀ fd l, only aside (write_records fd l)) by (intros fd l; induction l as [|n l IH]; cbn [write_records]; only_auto).
  unfold write_network_records, sync_runtime_dir, discard. only_auto.
Qed.
#[export] Hint Resolve aside_load aside_write_network : only.
Lemma aside_release_ip n ip : only aside (release_used_ip n ip).
Proof. unfold release_used_ip, with_lock, lock_network_state. only_auto. Qed.
Lemma aside_verify n a b : only aside (verify_interface_ownership n a b).
Proof. unfold verify_interface_ownership, read_interface_alias, alias_turn, sys_read. only_auto. Qed.
#[export] Hint Resolve aside_release_ip aside_verify : only.
Lemma aside_disconnect c n : only aside (disconnect_container c n).
Proof. unfold disconnect_container, delete_owned_veth. only_auto. Qed.
Lemma aside_unset ip : only aside (unset_container_port_map ip).
Proof.
  assert (Hm : ∀ chain d l r, only aside (delete_matching chain d l r)).
  { intros chain d l. induction l as [|x l IH]; intros r; cbn [delete_matching]; only_auto. }
  unfold unset_container_port_map, delete_dnat_rules_for_chain. only_auto.
Qed.
#[export] Hint Extern 2 (only tame _) => apply aside_tame; solve [auto with only] : only.
Lemma tame_remove_dir p : only tame (remove_dir p).
Proof. unfold remove_dir, td_remove_tree. only_auto. Qed.
Lemma tame_umount_volumes m vols : only tame (umount_volumes m vols).
Proof. unfold umount_volumes. generalize 0. induction (rev vols) as [|v l IH]; intros r; cbn [umount_each]; only_auto. Qed.
#[export] Hint Resolve tame_remove_dir tame_umount_volumes : only.
Lemma tame_exists n : only tame (container_exists n).
Proof. unfold container_exists. only_auto. Qed.
#[export] Hint Resolve aside_disconnect aside_unset tame_exists : only.
Lemma tame_clean name info : only tame (clean_container_runtime name info).
Proof.
  unfold clean_container_runtime, load_volumes, umount_root, release_network, remove_cgroup, remove_status_info.
  only_auto.
Qed.

(** The container's status file, as read, says that it does not run, or its
    process has been found gone. *)
Definition not_running (name : cstr) (w : view) : Prop :=
  ∃ info, td_parse_container_info (Some (vw_text w)) (Some name) = Ok info ∧
    (ci_status info ≠ lit "RUNNING" ∨ gone info w).

(** Only then may anything be destroyed, unmounted, signalled or published. *)
Definition removing (name : cstr) (w : view) (c : syscall) : Prop :=
  harmless c = true ∨ on_temporary name c ∨ not_running name w.

(** What tame calls keep. *)
Definition learnt (t : cstr) (p : option (cstr * cstr)) (s : option (cstr * sysret cstr)) (w : view) : Prop :=
  ∃ m, w = View None t None p s None m.

Lemma tame_learnt {A} ok t p s (prg : prog A) w :
  (∀ w c, learnt t p s w → tame c = true → ok w c) →
  only tame prg → learnt t p s w → wp (viewing ok) prg (λ _ w', learnt t p s w') w.
Proof.
  intros Hok Hp Hw. eapply only_sound; [exact Hok| |exact Hp|exact Hw].
  intros w1 c x w2 (m & ->) Hc [_ ->]. unfold learnt.
  destruct c; try discriminate Hc; cbn [view_step on_temp ended line_seen]; rewrite ?none_fd, ?if_none; try (by eauto);
    repeat match goal with |- context [match ?r with _ => _ end] => destruct r end; by eauto.
Qed.

Lemma removing_learnt name t p s :
  not_running name (View None t None p s None None) →
  ∀ w c, learnt t p s w → tame c = true → removing name w c.
Proof.
  intros (info & Hp & H) w c (m & ->) _. right. right. exists info. split; [exact Hp|].
  destruct H as [H|H]; [by left|]. right. exact H.
Qed.

Lemma exists_learnt name t p s m :
  wp (viewing (removing name)) (container_exists name) (λ _ w, learnt t p s w) (View None t None p s None m).
Proof.
  unfold container_exists. destruct (build_container_runtime_paths _ _ _ _) as [[[d mp] st]|]; [|by apply wp_ret; eexists].
  destruct (get_container_cgroup_path _ _) as [g|]; [|by apply wp_ret; eexists].
  assert (Hp : ∀ path w, learnt t p s w → wp (viewing (removing name)) (path_exist path) (λ _ w, learnt t p s w) w).
  { intros path w (m' & ->). unfold path_exist. split; [by left|]. intros e w' [_ ->]. cbn [view_step].
    destruct (under_sys path); by eexists. }
  apply wp_bind. eapply wp_mono; [|apply Hp; by eexists]. cbv beta. intros [|] w Hw; [done|].
  apply wp_bind. eapply wp_mono; [|by apply Hp]. cbv beta. intros [|] w' Hw'; [done|]. by apply Hp.
Qed.

(** C9: removing a container destroys nothing while it runs: until its status
    file has been read and says that it is not RUNNING, or its process has been
    found gone, no mount is unmounted, no file, directory, interface, rule or
    control group removed and no process signalled.  The removal of a container
    whose record says it runs and whose process is alive fails. *)
Theorem docker_rm_spares_running name t p s m :
  wp (viewing (removing name)) (rm_one name)
    (λ r w, r = true → vw_text w = t ∨ not_running name w) (View None t None p s None m).
Proof.
  unfold rm_one. apply wp_bind. eapply wp_mono; [|apply exists_learnt]. cbv beta.
  intros [|] w (m1 & ->); cbn [negb]; [|by left].
  apply wp_bind. eapply wp_mono; [|apply read_info_view; by left]. cbv beta.
  intros [info|] w (t1 & -> & Hi); [|done]. specialize (Hi _ eq_refl).
  apply wp_bind. eapply wp_mono; [|apply refresh_view; [by left|]].
  2:{ intros s' m' _ Hg. split; [intros ? c Hc; by right; left|]. intros dfd tmp text _. right. right.
      exists info. split; [exact Hi|]. right. exact Hg. }
  cbv beta. intros [refreshed info'] w (s' & m' & H). cbn [fst snd] in H.
  destruct (Z.ltb_spec refreshed 0); [done|]. case_bool_decide as Hrun; [done|].
  assert (Hw : ∃ p', learnt t1 p' s' w ∧ not_running name (View None t1 None p' s' None None)).
  { destruct H as [(-> & -> & _)|(-> & Hs & _ & Hg & [[-> (text & _ & ->)]|[-> _]])]; [| |lia].
    - exists p. split; [by eexists|]. exists info. auto.
    - eexists. split; [by eexists|]. exists info. split; [exact Hi|]. right. exact Hg. }
  destruct Hw as (p' & Hw & Hn). apply wp_bind. eapply wp_mono; [|apply (tame_learnt _ t1 p' s'); [|apply tame_clean|exact Hw]].
  - cbv beta. intros r w' (m'' & ->). apply wp_ret. intros _. right. destruct Hn as (i & Hp & Hd).
    exists i. split; [exact Hp|]. destruct Hd as [?|Hd]; [by left|right; exact Hd].
  - by apply removing_learnt.
Qed.
