(* ===== verification/Cleanup.v ===== *)
(** * container.c: what a cleanup gives back, and in which order

    [clean_container_runtime] under two observers: one sees the mounts, the
    workspace, the control group, the network state and the status file, the
    other the commands that take the container off its network. *)
From S2P Require Import Prelude CString Paths Safety StatusCodec NetworkState CgroupParse Sys Resources Equiv Process Fs.
From S2P Require Import Config Cgroup NetworkStore Network StatusInfo Volumes Workspace Container.
From Stdlib Require Import Lia.

(** ** The order of a cleanup *)

(** What a cleanup has done: the places found unmounted (the latest first),
    whether an unmounting was refused, whether the workspace and the control
    group are gone, whether a new network state was published, whether the
    status file is gone, or its directory was missing, and the descriptor of
    that directory. *)
Record cleaning := Cleaning
  { cl_unmounted : list cstr; cl_refused : bool; cl_emptied : bool; cl_group : bool;
    cl_network : bool; cl_forgotten : bool; cl_missing : bool; cl_dir : option nat }.

Section Cleaning.
Context (name : cstr) (info : container_info) (container_dir mountpoint : cstr).

(** Every volume of the record was unmounted, from the last to the first, then
    the root of the container; nothing was refused. *)
Definition unmounted_all (w : cleaning) : Prop :=
  cl_refused w = false ∧ ∃ targets, cl_unmounted w = mountpoint :: targets ∧
    Forall2 (λ text target,
      td_join_rootfs_path (Some mountpoint) (Some (vc_container (parse_volume_config (Some text)))) 1024 = Ok target)
      (take (Z.to_nat (ci_volume_cnt info)) (ci_volumes info)) targets.
(** All that the container held was given back. *)
Definition given_back (w : cleaning) : Prop :=
  unmounted_all w ∧ cl_emptied w = true ∧ cl_group w = true ∧ (ci_ip_addr info ≠ [] → cl_network w = true).

Definition cleaning_ok (w : cleaning) (c : syscall) : Prop :=
  match c with
  | Umount path => starts_with mountpoint path = true ∧ cl_emptied w = false
  | Nftw path => path = container_dir ∧ unmounted_all w
  | Rmdir path => path = cgroup_path_text name
  | Unlinkat fd n => n = name ∧ cl_dir w = Some fd ∧ given_back w
  | Lstat path => path = container_dir
  | _ => aside c = true
  end.
Definition cleaning_step (w : cleaning) (c : syscall) : ans c → cleaning :=
  match w with
  | Cleaning unmounted refused emptied group network forgotten missing dir =>
      match c with
      | Umount path => λ r : sysret unit,
          if match r with SOk _ => true | SErr e => not_mounted e end
          then Cleaning (path :: unmounted) refused emptied group network forgotten missing dir
          else Cleaning unmounted true emptied group network forgotten missing dir
      | Lstat _ => λ r : sysret file_status,
          Cleaning unmounted refused (emptied || failed_with r ENOENT) group network forgotten missing dir
      | Nftw _ => λ r : Z,
          Cleaning unmounted refused (emptied || (r =? 0)) group network forgotten missing dir
      | Rmdir _ => λ r : sysret unit,
          Cleaning unmounted refused emptied (group || s_ok r || failed_with r ENOENT) network forgotten missing dir
      | Rename _ new => λ r : sysret unit,
          Cleaning unmounted refused emptied group
            (network || (bool_decide (new = CONTAINER_NETWORKS_FILE) && s_ok r)) forgotten missing dir
      | Open path _ _ => λ r : sysret nat,
          if bool_decide (path = CONTAINER_STATUS_INFO_DIR) then
            Cleaning unmounted refused emptied group network forgotten (missing || failed_with r ENOENT)
              (match r with SOk fd => Some fd | SErr _ => None end)
          else w
      | Unlinkat _ _ => λ r : sysret unit,
          Cleaning unmounted refused emptied group network (forgotten || s_ok r || failed_with r ENOENT) missing dir
      | _ => λ _, w
      end
  end.
Definition cleanup : model cleaning := observer cleaning_ok cleaning_step.

(** Nothing but the network, and the look for the directory, has moved on. *)
Definition kept (w w' : cleaning) : Prop :=
  cl_unmounted w' = cl_unmounted w ∧ cl_refused w' = cl_refused w ∧ cl_emptied w' = cl_emptied w ∧
  cl_group w' = cl_group w ∧ cl_forgotten w' = cl_forgotten w ∧ (cl_network w = true → cl_network w' = true).
#[local] Instance kept_preorder : PreOrder kept.
Proof. split; [by intros w|]. unfold kept. intros w w' w'' H H'. naive_solver congruence. Qed.

Lemma aside_cleanup {A} (p : prog A) w : only aside p → wp cleanup p (λ _ w', kept w w') w.
Proof.
  intros Hp. apply (only_sound _ aside (kept w)); [| |exact Hp|reflexivity].
  - intros w' c _ Hc. by destruct c.
  - intros w' c a w'' Hk Hc ->. etrans; [exact Hk|]. clear Hk. destruct w'. destruct c; try done.
    + cbn [cleaning_step]. by case_bool_decide.
    + unfold kept. cbn. split_and!; [done..|]. by intros ->.
Qed.
Lemma kept_bind w0 {A B} (p : prog A) (f : A → prog B) Q w :
  only aside p → kept w0 w → (∀ a w', kept w0 w' → wp cleanup (f a) Q w') → wp cleanup (p ≫= f) Q w.
Proof.
  intros Hp Hw H. apply wp_bind. eapply wp_mono; [|by apply aside_cleanup]. intros a w' Hk. apply H. by etrans.
Qed.
Ltac kept_step w0 := apply (kept_bind w0); [solve [only_auto]|done|].

Lemma unmounted_kept w w' : kept w w' → unmounted_all w → unmounted_all w'.
Proof. intros (H1 & H2 & _). unfold unmounted_all. by rewrite H1, H2. Qed.

Lemma join_starts_with root path size o :
  td_join_rootfs_path (Some root) path size = Ok o → starts_with root o = true.
Proof.
  unfold td_join_rootfs_path. rewrite reject_bind_Ok. intros [_ H]. destruct path as [path|]; [|done].
  repeat (apply reject_bind_Ok in H as [_ H]). injection H as <-. apply bool_decide_eq_true_2.
  apply take_app_length.
Qed.

(** The state once the volumes [done] are unmounted, as [result] says. *)
Definition unmounting (done : list volume_config) (result : Z) (w : cleaning) : Prop :=
  cl_emptied w = false ∧ cl_group w = false ∧ cl_forgotten w = false ∧
  (result = 0 → cl_refused w = false ∧
    Forall2 (λ v target, td_join_rootfs_path (Some mountpoint) (Some (vc_container v)) 1024 = Ok target)
      done (cl_unmounted w)).

Lemma umount_each_cleanup l : ∀ done result w,
  unmounting done result w →
  wp cleanup (umount_each mountpoint l result) (unmounting (rev l ++ done)) w.
Proof.
  induction l as [|v l IH]; intros done result w H; cbn [umount_each rev]; [by apply wp_ret|].
  rewrite <-app_assoc. cbn [app]. destruct H as (He & Hg & Hf & H).
  destruct (td_join_rootfs_path _ _ _) as [o|e] eqn:E; [|by apply IH].
  apply wp_bind, wp_observe; [split; [by eapply join_starts_with|done]|].
  intros r. destruct w. cbn [cleaning_step]. cbn in He, Hg, Hf, H.
  destruct r as [u|e]; [|destruct (not_mounted e)]; (apply IH; split_and!; [done..|]); cbn; try done;
    intros Hr; destruct (H Hr) as [? ?]; (split; [done|]); by constructor.
Qed.

Lemma recorded_volumes_map texts vs :
  recorded_volumes texts = Some vs → vs = (λ t, parse_volume_config (Some t)) <$> texts.
Proof.
  revert vs. induction texts as [|t texts IH]; intros vs; cbn [recorded_volumes]; [by intros [= <-]|].
  cbv zeta. destruct (_ <? 0); [done|]. destruct (recorded_volumes texts) as [l|]; [|done].
  intros [= <-]. cbn. f_equal. by apply IH.
Qed.

Lemma load_cleanup w :
  wp cleanup (load_volumes info) (λ r w', kept w w' ∧ ∀ vols, r = Some vols →
    vols = (λ t, parse_volume_config (Some t)) <$> take (Z.to_nat (ci_volume_cnt info)) (ci_volumes info)) w.
Proof.
  unfold load_volumes. case Z.ltb_spec; intros Hc.
  - kept_step w. intros room w' Hw. apply wp_ret. split; [done|].
    intros vols. destruct room; [|done]. apply recorded_volumes_map.
  - apply wp_ret. split; [done|]. intros vols [= <-]. by replace (Z.to_nat (ci_volume_cnt info)) with O by lia.
Qed.

Lemma remove_dir_cleanup w :
  unmounted_all w →
  wp cleanup (remove_dir container_dir) (λ r w', unmounted_all w' ∧ cl_group w' = cl_group w ∧
    cl_forgotten w' = cl_forgotten w ∧ cl_network w' = cl_network w ∧ (r = 0 → cl_emptied w' = true)) w.
Proof.
  intros Hm. unfold remove_dir, td_remove_tree. destruct (_ || _); [by apply wp_ret|].
  apply wp_bind, wp_observe; [done|]. intros [st|e].
  2:{ destruct w. apply wp_ret. cbn. split_and!; [done..|]. destruct (e =? ENOENT); [|done].
      intros _. apply orb_true_r. }
  apply wp_observe; [destruct w; by split|]. intros r. destruct w. cbn. split_and!; [done..|].
  intros ->. apply orb_true_r.
Qed.

Lemma write_network_cleanup records w0 w :
  kept w0 w →
  wp cleanup (write_network_records records) (λ r w', kept w0 w' ∧ (r = 0 → cl_network w' = true)) w.
Proof.
  assert (Ho : ∀ l, only aside (open_temporary l)) by (induction l as [|n l IH]; cbn [open_temporary]; only_auto).
  assert (Hw : ∀ fd l, only aside (write_records fd l)) by (intros fd l; induction l as [|n l IH]; cbn [write_records]; only_auto).
  assert (Hs : only aside sync_runtime_dir) by (unfold sync_runtime_dir, discard; only_auto).
  intros Hk. unfold write_network_records. kept_step w0. intros [[fd path]|] w1 H1; [|by apply wp_ret].
  kept_step w0. intros stream w2 H2. destruct (negb (s_ok stream)).
  { kept_step w0. intros ? w3 H3. kept_step w0. intros ? w4 H4. by apply wp_ret. }
  kept_step w0. intros written w3 H3. kept_step w0. intros flushed w4 H4. kept_step w0. intros synced w5 H5.
  destruct (negb (s_ok synced)).
  { kept_step w0. intros ? w6 H6. kept_step w0. intros ? w7 H7. by apply wp_ret. }
  kept_step w0. intros closed w6 H6. destruct (negb (s_ok closed)).
  { kept_step w0. intros ? w7 H7. by apply wp_ret. }
  apply wp_bind, wp_observe; [done|]. intros renamed.
  set (w7 := cleaning_step w6 (Rename path CONTAINER_NETWORKS_FILE) renamed).
  assert (H7 : kept w0 w7 ∧ (s_ok renamed = true → cl_network w7 = true)).
  { unfold w7. destruct w6. cbn [cleaning_step]. rewrite bool_decide_eq_true_2 by done. split.
    - etrans; [exact H6|]. unfold kept. cbn. split_and!; [done..|]. by intros ->.
    - cbn. intros ->. apply orb_true_r. }
  destruct H7 as [H7 Hn]. clearbody w7. destruct (s_ok renamed); cbn [negb].
  - apply wp_bind. eapply wp_mono; [|by apply aside_cleanup]. cbv beta. intros _ w8 H8. apply wp_ret.
    split; [by etrans|]. intros _. by apply H8, Hn.
  - kept_step w0. intros ? w8 H8. by apply wp_ret.
Qed.

Lemma release_network_cleanup w0 w :
  kept w0 w →
  wp cleanup (release_network name (ci_ip_addr info)) (λ r w', kept w0 w' ∧ (r = true → cl_network w' = true)) w.
Proof.
  intros Hk. unfold release_network. kept_step w0. intros unset w1 H1.
  destruct (negb (unset =? 0)); [by apply wp_ret|].
  kept_step w0. intros disconnected w2 H2. destruct (negb (disconnected =? 0)); [by apply wp_ret|].
  apply wp_bind. apply (wp_mono _ _ (λ r w', kept w0 w' ∧ (r = 0 → cl_network w' = true))).
  { intros r w' [Hw Hr]. apply wp_ret. split; [done|]. by intros E%Z.eqb_eq%Hr. }
  unfold release_used_ip. cbv zeta. destruct (_ =? 0); [by apply wp_ret|]. unfold with_lock.
  apply (kept_bind w0); [unfold lock_network_state; only_auto|done|]. intros [fd|] w3 H3; [|by apply wp_ret].
  apply wp_bind. apply (wp_mono _ _ (λ r w', kept w0 w' ∧ (r = 0 → cl_network w' = true))).
  { intros r w' [Hw Hr]. apply wp_bind. eapply wp_mono; [|by apply aside_cleanup; only_auto]. cbv beta.
    intros _ w4 H4. apply wp_ret. split; [by etrans|]. intros E. by apply H4, Hr. }
  kept_step w0. intros [records|] w4 H4; [|by apply wp_ret].
  destruct (release_records _ _ records); [|by apply wp_ret]. by apply write_network_cleanup.
Qed.

Lemma remove_cgroup_cleanup w :
  wp cleanup (remove_cgroup name) (λ r w', (unmounted_all w → unmounted_all w') ∧
     cl_emptied w' = cl_emptied w ∧ cl_network w' = cl_network w ∧ cl_forgotten w' = cl_forgotten w ∧
     (r = 0 → cl_group w' = true)) w.
Proof.
  unfold remove_cgroup. destruct (get_container_cgroup_path _ _) as [path|] eqn:E; [|by apply wp_ret].
  apply wp_bind, wp_observe.
  { unfold get_container_cgroup_path in E. destruct (td_validate_name _ _); [|done].
    destruct (truncated _ _); [done|]. by injection E as <-. }
  intros r. destruct w. apply wp_ret. cbn. split_and!; [done..|].
  destruct (s_ok r), (failed_with r ENOENT); cbn; try done; intros _; by rewrite ?orb_true_r.
Qed.

Lemma forget_cleanup w :
  given_back w → cl_forgotten w = false →
  wp cleanup (remove_status_info name) (λ r w', given_back w' ∧
    if r =? 0 then cl_forgotten w' = true ∨ cl_missing w' = true else cl_forgotten w' = false) w.
Proof.
  intros Hg Hf. unfold remove_status_info. destruct (negb _); [by apply wp_ret|].
  apply wp_bind, wp_observe; [done|]. intros [fd|e]; destruct w; cbn in Hf; subst.
  - cbn [cleaning_step]. rewrite bool_decide_eq_true_2 by done.
    apply wp_bind, wp_observe; [by split_and!|]. intros r. cbn [cleaning_step].
    apply wp_bind, wp_observe; [done|]. intros ?. apply wp_ret. split; [exact Hg|].
    destruct r as [u|e]; cbn; [by left|]. destruct (e =? ENOENT); cbn; [by left|done].
  - cbn [cleaning_step]. rewrite bool_decide_eq_true_2 by done. apply wp_ret. split; [exact Hg|].
    cbn. destruct (e =? ENOENT); cbn; [right; apply orb_true_r|done].
Qed.

Lemma clean_cleanup status_path :
  build_container_runtime_paths name PATH_MAX PATH_MAX PATH_MAX = Some (container_dir, mountpoint, status_path) →
  wp cleanup (clean_container_runtime name info) (λ r w,
      r = 0 ∧ given_back w ∧ (cl_forgotten w = true ∨ cl_missing w = true) ∨
      r = -1 ∧ cl_forgotten w = false)
    (Cleaning [] false false false false false false None).
Proof.
  intros Hpaths. unfold clean_container_runtime. rewrite Hpaths.
  apply wp_bind. eapply wp_mono; [|apply load_cleanup]. cbv beta.
  intros [vols|] w [Hk Hv]; [|by right; destruct Hk as (_ & _ & _ & _ & Hf & _)]. specialize (Hv _ eq_refl).
  apply wp_bind. eapply wp_mono; [|apply (umount_each_cleanup _ [])].
  2:{ destruct w, Hk as (?&?&?&?&?&_). cbn in *. subst. by split_and!. }
  rewrite rev_involutive, app_nil_r. intros unm w1 (He & Hg & Hf & Hu). cbv beta.
  unfold umount_root. apply wp_bind, wp_bind, wp_observe.
  { split; [|done]. apply bool_decide_eq_true_2, firstn_all. }
  intros r. apply wp_ret. set (root := match r with SOk _ => true | SErr e => not_mounted e end).
  set (w2 := cleaning_step w1 (Umount mountpoint) r). set (gone := (unm =? 0) && root).
  assert (H2 : cl_group w2 = false ∧ cl_forgotten w2 = false ∧ (gone = true → unmounted_all w2)).
  { unfold w2, gone, root. destruct w1. cbn [cleaning_step]. cbn in He, Hg, Hf, Hu. subst.
    destruct r as [u|e]; [|destruct (not_mounted e)]; cbn; (split_and!; [done..|]);
      (intros [E%Z.eqb_eq Hr]%andb_true_iff); [| |done].
    all: destruct (Hu E) as [? HF]; split; [done|]; eexists; split; [done|]; by apply Forall2_fmap_l in HF. }
  destruct H2 as (Hg2 & Hf2 & Hm2). clearbody w2. clear Hu He Hg Hf w1 Hk w.
  apply wp_bind. apply (wp_mono _ _ (λ r w, kept w2 w ∧ (r = true → ci_ip_addr info ≠ [] → cl_network w = true))).
  2:{ destruct (ci_ip_addr info) as [|c ip] eqn:E; cbn [nonempty]; [by apply wp_ret|]. rewrite <-E.
      eapply wp_mono; [|by apply release_network_cleanup]. intros b w [? H]. split; [done|]. auto. }
  intros network w3 [Hk Hn]. assert (Hm3 : gone = true → unmounted_all w3) by eauto using unmounted_kept.
  assert (Hf3 : cl_forgotten w3 = false) by (destruct Hk as (_&_&_&_&->&_); done).
  apply wp_bind. apply (wp_mono _ _ (λ x w, cl_forgotten w = false ∧ cl_network w = cl_network w3 ∧
    (x = true → unmounted_all w ∧ cl_emptied w = true))).
  2:{ destruct gone; [|by apply wp_ret]. apply wp_bind. eapply wp_mono; [|apply remove_dir_cleanup; auto].
      intros x w (? & _ & Hf & ? & Hx). apply wp_ret. rewrite Hf. split_and!; [done..|]. intros E%Z.eqb_eq. auto. }
  intros workspace w4 (Hf4 & Hn4 & Hw4). apply wp_bind. eapply wp_mono; [|apply remove_cgroup_cleanup].
  cbv beta. intros group w5 (Hm5 & He5 & Hn5 & Hf5 & Hg5). cbv zeta. set (clean := _ && (group =? 0)).
  assert (Hc : clean = true → given_back w5).
  { unfold clean. intros [[[_ Ht]%andb_true_iff Hw]%andb_true_iff E%Z.eqb_eq]%andb_true_iff.
    destruct (Hw4 Hw) as [? ?]. split_and!; [by apply Hm5|congruence|by apply Hg5|]. rewrite Hn5, Hn4. auto. }
  clearbody clean. rewrite Hf4 in Hf5. destruct clean.
  - apply wp_bind. eapply wp_mono; [|apply forget_cleanup; auto]. cbv beta.
    intros forgotten w6 [? H6]. apply wp_ret. cbn [andb]. destruct (forgotten =? 0); [by left|by right].
  - apply wp_bind, wp_ret, wp_ret. by right.
Qed.
End Cleaning.

(** ** Giving back the network *)

(** The last command started, the chains whose rules were listed, whether a
    command that matters failed, and whether the container's interface is there,
    once that was looked up. *)
Record giving := Giving
  { gv_command : list cstr; gv_listed : list cstr; gv_failed : bool; gv_linked : option bool }.

Section Giving.
Context (name : cstr).

Definition ends_interface (argv : list cstr) : bool :=
  match td_make_veth_name (Some name) 16 with
  | Some veth => bool_decide (argv = [lit "ip"; lit "link"; lit "delete"; veth])
  | None => false
  end.
Definition lists_chain (argv : list cstr) : option cstr :=
  match argv with
  | [a; b; c; d; chain] =>
      if bool_decide ([a; b; c; d] = [lit "iptables"; lit "-t"; lit "nat"; lit "-S"]) then Some chain else None
  | _ => None
  end.
(** Taking the interface off its bridge may fail: it is deleted anyway. *)
Definition matters (argv : list cstr) : bool := negb (bool_decide (head argv = Some (lit "brctl"))).

Definition succeeded (w : giving) : giving :=
  let 'Giving argv listed failed linked := w in
  Giving argv (match lists_chain argv with Some chain => chain :: listed | None => listed end) failed
    (if ends_interface argv then Some false else linked).
Definition did_not (w : giving) : giving :=
  let 'Giving argv listed failed linked := w in Giving argv listed (failed || matters argv) linked.
Definition begun (argv : list cstr) (w : giving) : giving :=
  Giving argv (gv_listed w) (gv_failed w) (gv_linked w).

Definition giving_step (w : giving) (c : syscall) : ans c → giving :=
  match c with
  | Fork (ChildExec argv) | Fork (ChildCapture argv _ _) => λ r : sysret positive,
      match r with SOk _ => begun argv w | SErr _ => did_not (begun argv w) end
  | Waitpid _ => λ r : sysret wait_status,
      match r with
      | SOk (Exited status) => if status =? 0 then succeeded w else did_not w
      | SOk (Signaled _) => did_not w
      | SErr e => if e =? EINTR then w else did_not w
      end
  | If_nametoindex interface => λ index : N,
      if bool_decide (Some interface = td_make_veth_name (Some name) 16)
      then Giving (gv_command w) (gv_listed w) (gv_failed w) (Some (negb (index =? 0)%N)) else w
  | _ => λ _, w
  end.

(** The address may be given back: the port mappings were looked for in both
    chains, the interface is gone, and nothing failed on the way. *)
Definition off_the_network (w : giving) : Prop :=
  gv_failed w = false ∧ gv_linked w = Some false ∧ lit "OUTPUT" ∈ gv_listed w ∧ lit "PREROUTING" ∈ gv_listed w.
Definition giving_ok (w : giving) (c : syscall) : Prop :=
  match c with Rename _ _ => off_the_network w | _ => True end.
Definition givings : model giving := observer giving_ok giving_step.

(** Calls that give nothing back, and those the observer does not see. *)
Definition unseen (c : syscall) : bool :=
  match c with Fork _ | Waitpid _ | If_nametoindex _ => false | _ => true end.
Definition unseen_still (c : syscall) : bool := no_rename c && unseen c.

Lemma no_rename_giving {A} (p : prog A) w :
  only no_rename p → wp givings p (λ _ _, True) w.
Proof. intros Hp. by apply (only_sound _ no_rename (λ _, True)); [intros w' [] _| | |]. Qed.
Lemma still_giving {A} (p : prog A) w : only unseen_still p → wp givings p (λ _ w', w' = w) w.
Proof.
  intros Hp. apply (only_sound _ unseen_still (λ w', w' = w)); [by intros w' []| |exact Hp|done].
  intros w' c a w'' -> Hc ->. by destruct c.
Qed.
Lemma off_giving {A} (p : prog A) w : off_the_network w → only unseen p → wp givings p (λ _ w', w' = w) w.
Proof.
  intros Hw Hp. apply (only_sound _ unseen (λ w', w' = w)); [|intros w' c a w'' -> Hc ->; by destruct c|exact Hp|done].
  intros w' c -> _. by destruct c.
Qed.
Lemma still_bind {A B} (p : prog A) (f : A → prog B) Q w :
  only unseen_still p → (∀ a, wp givings (f a) Q w) → wp givings (p ≫= f) Q w.
Proof. intros Hp H. apply wp_bind. eapply wp_mono; [|by apply still_giving]. intros a w' ->. apply H. Qed.

Lemma wait_giving child w :
  wp givings (wait_for_child child) (λ r w', w' = if r =? 0 then succeeded w else did_not w) w.
Proof.
  unfold wait_for_child. apply wp_bind. apply (wp_retry _ (λ w', w' = w)); [done|].
  intros w' ->. apply wp_observe; [done|]. intros [[status|signal]|e]; cbn [failed_with giving_step].
  - by apply wp_ret.
  - by apply wp_ret.
  - destruct (e =? EINTR); [done|]. by apply wp_ret.
Qed.
Lemma run_giving argv w :
  wp givings (td_run_command argv) (λ r w', w' = (if r =? 0 then succeeded else did_not) (begun argv w) ∨
    r = -1 ∧ w' = w) w.
Proof.
  unfold td_run_command. destruct argv as [|[|c s] l]; [by right..|].
  apply wp_bind, wp_observe; [done|]. intros [child|e]; cbn [giving_step].
  - eapply wp_mono; [|apply wait_giving]. intros r w' ->. left. by destruct (r =? 0).
  - apply wp_ret. by left.
Qed.

Lemma turn_giving rd child st w :
  wp givings (capture_turn rd child st) (λ r w', match r with inr None => True | _ => w' = w end) w.
Proof.
  destruct st as [buffer capacity]. unfold capture_turn. apply wp_bind.
  eapply (wp_mono _ _ (λ r w', is_Some r → w' = w)).
  2:{ unfold capture_grow. destruct (_ =? _); [|by apply wp_ret].
      apply still_bind; [only_auto|]. intros [|]; [by apply wp_ret|].
      do 2 (apply still_bind; [done|]; intros ?). apply wp_bind. eapply wp_mono; [|apply wait_giving].
      intros ? ? _. apply wp_ret. by intros []. }
  intros [capacity'|] w' H; [|by apply wp_ret]. specialize (H ltac:(by eexists)) as ->.
  apply still_bind; [unfold sys_read; only_auto|]. intros [data|e].
  - by destruct (nonempty _); apply wp_ret.
  - destruct (_ =? _); [by apply wp_ret|]. apply still_bind; [done|]; intros ?. apply wp_bind.
    eapply wp_mono; [|apply wait_giving]. done.
Qed.

Lemma capture_giving argv w :
  wp givings (td_capture_command argv) (λ r w', r.1 = 0 → w' = succeeded (begun argv w)) w.
Proof.
  unfold td_capture_command. destruct argv as [|a l]; [by apply wp_ret|].
  apply still_bind; [done|]. intros [[rd wr]|e]; [|by apply wp_ret].
  apply wp_bind, wp_observe; [done|]. intros [child|e]; cbn [giving_step].
  2:{ do 2 (apply still_bind; [done|]; intros ?). by apply wp_ret. }
  apply still_bind; [done|]; intros ?. apply still_bind; [done|]; intros [|].
  2:{ do 2 (apply still_bind; [done|]; intros ?). apply wp_bind. eapply wp_mono; [|apply wait_giving].
      intros ? ? _. by apply wp_ret. }
  apply wp_bind. apply (wp_iter _ (λ _ w', w' = begun (a :: l) w)); [done|].
  intros st w' ->. eapply wp_mono; [|apply turn_giving].
  intros [st'|[o|]] w' H; [done| |by apply wp_ret]. rewrite H.
  apply still_bind; [done|]; intros ?. apply wp_bind. eapply wp_mono; [|apply wait_giving].
  intros r w'' ->. apply wp_ret. cbn [fst]. by intros ->.
Qed.

(** A command that is neither of the two, and is not let fail. *)
Lemma run_plain_giving argv w :
  matters argv = true → lists_chain argv = None → ends_interface argv = false →
  wp givings (td_run_command argv) (λ r w', r = 0 → w' = begun argv w) w.
Proof.
  intros Hm Hl He. eapply wp_mono; [|apply run_giving]. intros r w' [->|[-> ->]] Hr; [|done]. subst r.
  unfold succeeded, begun. cbn. by rewrite Hl, He.
Qed.

Lemma delete_matching_giving chain dest lines : ∀ result w,
  wp givings (delete_matching chain dest lines result) (λ r w', r = 0 → result = 0 ∧
    gv_listed w' = gv_listed w ∧ gv_failed w' = gv_failed w) w.
Proof.
  induction lines as [|line lines IH]; intros result w; cbn [delete_matching]; [by apply wp_ret|].
  cbv zeta. destruct (rule_matches _ _ _) eqn:Em; [|apply IH].
  apply wp_bind. apply (wp_mono _ _ (λ r w', r = 0 → gv_listed w' = gv_listed w ∧ gv_failed w' = gv_failed w)).
  - intros r w' Hr. eapply wp_mono; [|apply IH]. cbv beta. intros r' w'' H E. destruct (H E) as (Hres & -> & ->).
    destruct (Z.eqb_spec r 0) as [Z0|]; [|done]. by destruct (Hr Z0).
  - destruct (_ =? _)%nat; [|by apply wp_ret]. eapply wp_mono; [|apply run_plain_giving].
    + intros r w' H E. by rewrite (H E).
    + done.
    + unfold delete_rule, lists_chain. cbn [app]. by destruct (take _ _).
    + unfold delete_rule, ends_interface. cbn [app]. by destruct (td_make_veth_name _ _).
Qed.

Lemma delete_dnat_giving chain ip w :
  wp givings (delete_dnat_rules_for_chain chain ip) (λ r w', r = 0 →
    gv_listed w' = chain :: gv_listed w ∧ gv_failed w' = gv_failed w) w.
Proof.
  unfold delete_dnat_rules_for_chain. apply wp_bind. eapply wp_mono; [|apply capture_giving].
  intros [code [output|]] w' H; [|by apply wp_ret]. cbn [fst] in H.
  destruct (Z.eqb_spec code 0) as [E|]; cbn [negb]; [|by apply wp_ret]. rewrite (H E).
  eapply wp_mono; [|apply delete_matching_giving]. cbv beta. intros r w'' Hr E'. by destruct (Hr E') as (_ & -> & ->).
Qed.

Lemma unset_giving ip w :
  ip ≠ [] → gv_failed w = false →
  wp givings (unset_container_port_map ip) (λ r w', r = 0 →
    gv_failed w' = false ∧ lit "OUTPUT" ∈ gv_listed w' ∧ lit "PREROUTING" ∈ gv_listed w') w.
Proof.
  intros Hip Hw. unfold unset_container_port_map. destruct ip as [|c ip]; [done|]. cbn [nonempty negb].
  destruct (inet_pton (c :: ip)); [|by apply wp_ret]. apply wp_bind. eapply wp_mono; [|apply delete_dnat_giving].
  cbv beta. intros r1 w1 H1. apply wp_bind. eapply wp_mono; [|apply delete_dnat_giving].
  cbv beta. intros r2 w2 H2. apply wp_ret.
  destruct (Z.eqb_spec r1 0) as [E1|], (Z.eqb_spec r2 0) as [E2|]; cbn; try done. intros _.
  destruct (H1 E1) as [L1 F1], (H2 E2) as [L2 F2]. rewrite L2, L1, F2, F1. split_and!; [done|set_solver|set_solver].
Qed.

Definition unmapped (w : giving) : Prop :=
  gv_failed w = false ∧ lit "OUTPUT" ∈ gv_listed w ∧ lit "PREROUTING" ∈ gv_listed w.

Lemma index_giving veth w :
  td_make_veth_name (Some name) 16 = Some veth → unmapped w →
  wp givings (if_nametoindex veth) (λ i w', unmapped w' ∧ (i = 0%N → off_the_network w')) w.
Proof.
  intros Hv (H1 & H2 & H3). unfold if_nametoindex. apply wp_observe; [done|]. intros i. cbn [giving_step].
  rewrite bool_decide_eq_true_2 by done. split; [by split_and!|]. intros ->. by split_and!.
Qed.

Lemma verify_giving veth alias w :
  td_make_veth_name (Some name) 16 = Some veth → unmapped w →
  wp givings (verify_interface_ownership veth alias false) (λ r w', unmapped w') w.
Proof.
  intros Hv Hw. unfold verify_interface_ownership. apply wp_bind. eapply wp_mono; [|by apply index_giving].
  cbv beta. intros i w' [H _]. destruct (i =? 0)%N; [by apply wp_ret|]. apply still_bind; [done|]. intros bridge.
  destruct (negb bridge); [by apply wp_ret|].
  apply still_bind; [unfold read_interface_alias, alias_turn, sys_read; only_auto|]. intros a. by apply wp_ret.
Qed.

Lemma disconnect_giving network w :
  unmapped w →
  wp givings (disconnect_container name network) (λ r w', r = 0 → off_the_network w') w.
Proof.
  intros Hw. unfold disconnect_container. destruct (td_make_veth_name _ _) as [veth|] eqn:Hv; [|by apply wp_ret].
  destruct (build_interface_alias _ _ _) as [alias|]; [|by apply wp_ret].
  apply wp_bind. eapply wp_mono; [|by apply index_giving]. cbv beta. intros i w1 [H1 Hi].
  destruct (N.eqb_spec i 0); [apply wp_ret; auto|].
  apply wp_bind. eapply wp_mono; [|by apply verify_giving]. cbv beta. intros owned w2 H2.
  destruct (negb (owned =? 1)); [by apply wp_ret|].
  apply wp_bind. apply (wp_mono _ _ (λ _ w, unmapped w)).
  2:{ eapply wp_mono; [|apply run_giving]. intros r w' [->|[-> ->]]; [|done]. destruct w2, H2 as (? & ? & ?).
      cbn in *. subst. by destruct (r =? 0); unfold unmapped; cbn; rewrite ?orb_false_r. }
  intros _ w3 H3. unfold delete_owned_veth.
  apply wp_bind. eapply wp_mono; [|by apply index_giving]. cbv beta. intros j w4 [H4 Hj].
  destruct (N.eqb_spec j 0); [apply wp_ret; auto|].
  apply wp_bind. eapply wp_mono; [|by apply verify_giving]. cbv beta. intros again w5 H5.
  apply wp_bind. apply (wp_mono _ _ (λ _ w, unmapped w)).
  2:{ destruct (again =? 1); [|by apply wp_ret]. eapply wp_mono; [|by apply index_giving]. by intros ? ? []. }
  intros index w6 (F & O & P). destruct (_ || _); [by apply wp_ret|].
  apply wp_bind. eapply wp_mono; [|apply run_giving]. cbv beta. intros r w' Hr. apply wp_ret.
  destruct (Z.eqb_spec r 0) as [->|]; [|done]. intros _. destruct Hr as [->|[? _]]; [|done]. cbn.
  unfold off_the_network, succeeded, begun. cbn. unfold ends_interface. rewrite Hv.
  rewrite bool_decide_eq_true_2 by done. by split_and!.
Qed.

Lemma release_giving ip w :
  ip ≠ [] → gv_failed w = false → wp givings (release_network name ip) (λ _ _, True) w.
Proof.
  intros Hip Hw. unfold release_network. apply wp_bind. eapply wp_mono; [|by apply unset_giving].
  cbv beta. intros unset w1 H1. destruct (Z.eqb_spec unset 0) as [E1|]; cbn [negb]; [|by apply wp_ret].
  apply wp_bind. eapply wp_mono; [|by apply disconnect_giving, H1].
  cbv beta. intros disconnected w2 H2. destruct (Z.eqb_spec disconnected 0) as [E2|]; cbn [negb]; [|by apply wp_ret].
  apply wp_bind. eapply wp_mono; [|apply off_giving; [by apply H2|]].
  - intros r w' _. by apply wp_ret.
  - assert (Ho : ∀ l, only unseen (open_temporary l)) by (induction l as [|n l IH]; cbn [open_temporary]; only_auto).
    assert (Hr : ∀ fd l, only unseen (write_records fd l)) by (intros fd l; induction l as [|n l IH]; cbn [write_records]; only_auto).
    unfold release_used_ip, with_lock, lock_network_state, load_network_records, read_exactly, read_turn, sys_read,
      write_network_records, sync_runtime_dir, discard. only_auto.
Qed.

Lemma clean_giving info : wp givings (clean_container_runtime name info) (λ _ _, True) (Giving [] [] false None).
Proof.
  unfold clean_container_runtime. destruct (build_container_runtime_paths _ _ _ _) as [[[d m] st]|]; [|by apply wp_ret].
  apply still_bind; [unfold load_volumes; only_auto|]. intros [vols|]; [|by apply wp_ret].
  assert (Hu : ∀ l r, only unseen_still (umount_each m l r)).
  { induction l as [|v l IH]; intros r; cbn [umount_each]; only_auto. }
  apply still_bind; [apply Hu|]. intros unm. apply still_bind; [unfold umount_root; only_auto|]. intros root. cbv zeta.
  apply wp_bind. apply (wp_mono _ _ (λ _ _, True)).
  - intros network w _. apply no_rename_giving.
    unfold remove_dir, td_remove_tree, remove_cgroup, remove_status_info. only_auto.
  - destruct (ci_ip_addr info); [by apply wp_ret|]. by apply release_giving.
Qed.
End Giving.

(** C20: the cleanup of a container unmounts only below its mount point; it
    deletes its directory only after every volume of the record was unmounted,
    from the last to the first, and then the root, and nothing was refused (a
    volume that is still mounted is never deleted through); its address is given
    back only after the rules of both chains were looked through and its
    interface was found gone or deleted, with no command failing; and its status
    file is removed only after all of that, the directory and the control group
    included, is done, so that a failed cleanup can be retried.  It returns 0
    only when everything was given back and the status file is gone, and -1 only
    when the status file was not removed. *)
Theorem clean_container_runtime_order name info container_dir mountpoint status_path :
  build_container_runtime_paths name PATH_MAX PATH_MAX PATH_MAX = Some (container_dir, mountpoint, status_path) →
  wp (beside (cleanup name info container_dir mountpoint) (givings name)) (clean_container_runtime name info)
    (λ r w,
      r = 0 ∧ given_back info mountpoint w.1 ∧ (cl_forgotten w.1 = true ∨ cl_missing w.1 = true) ∨
      r = -1 ∧ cl_forgotten w.1 = false)
    (Cleaning [] false false false false false false None, Giving [] [] false None).
Proof.
  intros Hpaths. eapply wp_mono; [|apply wp_beside; [by eapply clean_cleanup|apply clean_giving]].
  cbv beta. by intros r w [H _].
Qed.

Lemma clean_container_runtime_order_witness :
  wp (beside (cleanup (lit "demo") demo_info (lit "/home/xanarry/tinydocker_runtime/containers/demo")
        (lit "/home/xanarry/tinydocker_runtime/containers/demo/mountpoint")) (givings (lit "demo")))
    (clean_container_runtime (lit "demo") demo_info)
    (λ r w,
      r = 0 ∧ given_back demo_info (lit "/home/xanarry/tinydocker_runtime/containers/demo/mountpoint") w.1 ∧
        (cl_forgotten w.1 = true ∨ cl_missing w.1 = true) ∨
      r = -1 ∧ cl_forgotten w.1 = false)
    (Cleaning [] false false false false false false None, Giving [] [] false None).
Proof.
  apply (clean_container_runtime_order _ _ _ _ (lit "/home/xanarry/tinydocker_runtime/container_info/demo")).
  reflexivity.
Defined.
