(* ===== verification/Commands.v ===== *)
(** * docker/container.c, second part: the other commands

    The set-up of the runtime, and [docker_commit], [docker_ps], [docker_top],
    [docker_exec] with its namespace worker, [docker_inspect] and
    [docker_stats]. *)
From S2P Require Import Prelude CString Paths Safety StatusCodec NetworkState CgroupParse Sys Resources Process Fs Config Cgroup.
From S2P Require Import NetworkStore Network StatusInfo Volumes Workspace Container.
From Stdlib Require Import Lia.

(** The name that the log gives to a stage. *)
Definition container_stage_name (stage : container_stage) : cstr :=
  match stage with
  | CONTAINER_STAGE_CONFIG_PREPARE => lit "config.prepare"
  | CONTAINER_STAGE_EXISTENCE_CHECK => lit "container.check"
  | CONTAINER_STAGE_FILESYSTEM_PREPARE => lit "filesystem.prepare"
  | CONTAINER_STAGE_VOLUME_MOUNT => lit "filesystem.volumes"
  | CONTAINER_STAGE_CGROUP_PREPARE => lit "cgroup.prepare"
  | CONTAINER_STAGE_SYNC_PIPE_CREATE => lit "process.pipe"
  | CONTAINER_STAGE_PROCESS_CREATE => lit "process.clone"
  | CONTAINER_STAGE_CGROUP_APPLY => lit "cgroup.apply"
  | CONTAINER_STAGE_NETWORK_PREPARE => lit "network.prepare"
  | CONTAINER_STAGE_PORT_MAPPING => lit "network.ports"
  | CONTAINER_STAGE_METADATA_WRITE => lit "state.write"
  | CONTAINER_STAGE_CHILD_RELEASE => lit "process.release"
  | CONTAINER_STAGE_PROCESS_WAIT => lit "process.wait"
  | CONTAINER_STAGE_CLEANUP => lit "cleanup"
  | CONTAINER_STAGE_COMPLETE => lit "complete"
  end.

(** The handler of the forwarded signals; [child] is [foreground_child_pid]. *)
Definition forward_signal_to_container (child signal_number : Z) : prog unit :=
  when (0 <? child) (discard (call (Kill child signal_number))).

(** ** Set-up *)

Definition runtime_dirs : list cstr :=
  [TINYDOCKER_RUNTIME_DIR; CONTAINER_STATUS_INFO_DIR; CONTAINER_LOG_DIR;
   TINYDOCKER_RUNTIME_DIR ++ lit "/containers"; TINYDOCKER_RUNTIME_DIR ++ lit "/images"].

Fixpoint make_dirs (directories : list cstr) : prog Z :=
  match directories with
  | [] => Ret 0
  | dir :: rest =>
      ready ← directory_ready dir;
      if ready : bool then make_dirs rest else Ret (-1)
  end.
Definition init_runtime_dirs : prog Z := make_dirs runtime_dirs.

(** [action] is -C to look for the rule and -A to add it. *)
Definition masquerade_rule (action : cstr) : list cstr :=
  [lit "iptables"; lit "-t"; lit "nat"; action; lit "POSTROUTING"; lit "-s"; TINYDOCKER_DEFAULT_NETWORK_CIDR;
   lit "-j"; lit "MASQUERADE"].

Definition init_docker_env : prog Z :=
  dirs ← init_runtime_dirs;
  if negb (dirs =? 0) then Ret (-1)
  else
    r ← create_default_bridge;
    if negb (r =? 0) then Ret (-1)
    else
      present ← td_run_command (masquerade_rule (lit "-C"));
      if present =? 0 then Ret 0
      else
        added ← td_run_command (masquerade_rule (lit "-A"));
        Ret (if added =? 0 then 0 else -1).

(** ** docker commit *)

Definition docker_commit (args : docker_commit_arguments) : prog Z :=
  let container_mountpoint := TINYDOCKER_RUNTIME_DIR ++ lit "/containers/" ++ commit_name args ++ lit "/mountpoint" in
  there ← path_exist container_mountpoint;
  if negb there then Ret (-1)
  else
    let tar_path := match commit_tar args with Some path => path | None => commit_name args ++ lit ".tar" end in
    r ← create_tar container_mountpoint tar_path;
    Ret (if r =? 0 then 0 else -1).

(** ** docker ps *)

Definition titles : list cstr :=
  [lit "CONTAINER_ID"; lit "IMAGE"; lit "COMMAND"; lit "CREATED"; lit "STATUS"; lit "NAMES"].
Definition first_spans : list Z := [12; 5; 7; 7; 6; 5].

Definition ps_fields (i : container_info) : list cstr :=
  [ci_container_id i; ci_image i; ci_command i; ci_created i; ci_status i; ci_name i].

(** Whether a row is printed for the record. *)
Definition ps_shown (list_all : Z) (i : container_info) : bool :=
  negb ((list_all =? 0) && negb (bool_decide (ci_status i = lit "RUNNING"))).

(** The widths of the columns after one more record. *)
Definition widen (spans : list Z) (i : container_info) : list Z :=
  match spans with
  | [s0; s1; s2; _; _; s5] =>
      [Z.max s0 (strlen (ci_container_id i)); Z.max s1 (strlen (ci_image i)); Z.max s2 (strlen (ci_command i));
       19; 7; Z.max s5 (strlen (ci_name i))]
  | _ => spans
  end.
Definition ps_spans (list_all : Z) (infos : list container_info) : list Z :=
  fold_left widen (List.filter (ps_shown list_all) infos) first_spans.

(** "%-*s" *)
Definition pad (span : Z) (s : cstr) : cstr := pad_right (Z.to_nat span) s.

Definition ps_header (spans : list Z) : cstr :=
  concat (zip_with (λ span title, pad span title ++ [TAB]) spans titles) ++ [LF].
Definition ps_row (spans : list Z) (i : container_info) : cstr := join TAB (zip_with pad spans (ps_fields i)) ++ [LF].

Fixpoint print_rows (spans : list Z) (list_all : Z) (infos : list container_info) : prog unit :=
  match infos with
  | [] => Ret tt
  | i :: rest =>
      _ ← when (ps_shown list_all i) (call (Print (ps_row spans i)));
      print_rows spans list_all rest
  end.

Definition docker_ps (args : docker_ps_arguments) : prog Z :=
  room ← call (Malloc 128);
  if negb room then Ret (-1)
  else
    listed ← list_containers_info 128;
    match listed with
    | None => Ret (-1)
    | Some infos =>
        let spans := ps_spans (ps_list_all args) infos in
        _ ← call (Print (ps_header spans));
        _ ← print_rows spans (ps_list_all args) infos;
        Ret 0
    end.

(** ** docker top *)

(** [snprintf] of one pid at the end of the buffer; [None] when it does not
    fit. *)
Definition append_top_pid (size : Z) (text : option cstr) (pid : Z) : option cstr :=
  match text with
  | None => None
  | Some text =>
      let written := (if nonempty text then lit "," else []) ++ fmt_d pid in
      if truncated written (size - strlen text) then None else Some (text ++ written)
  end.
Definition top_pid_list (pids : list Z) : option cstr :=
  fold_left (append_top_pid (Z.of_nat (length pids) * 32 + 1)) pids (Some []).

Definition docker_top (args : docker_top_arguments) : prog Z :=
  members ← get_container_processes_id (top_name args) 4096;
  match members with
  | None => Ret (-1)
  | Some [] => Ret 0
  | Some pids =>
      room ← call (Malloc (Z.of_nat (length pids) * 32 + 1));
      if negb room then Ret (-1)
      else
        match top_pid_list pids with
        | None => Ret (-1)
        | Some pid_str_list => td_run_command [lit "ps"; lit "-f"; lit "-p"; pid_str_list]
        end
  end.

(** ** docker exec *)

(** What the grandchild does. *)
Definition exec_command (argv envs : list cstr) : prog unit :=
  _ ← call (Execve (default [] (head argv)) argv envs);
  call (Exit 127).

Definition namespace_types : list cstr := [lit "ipc"; lit "uts"; lit "net"; lit "mnt"; lit "pid"].
Definition namespace_path (pid : Z) (type : cstr) : cstr := lit "/proc/" ++ fmt_d pid ++ lit "/ns/" ++ type.

Definition close_all (fds : list nat) : prog unit := for_each fds (λ fd, discard (call (Close fd))).

Fixpoint open_namespaces (pid : Z) (types : list cstr) (opened : list nat) : prog (option (list nat)) :=
  match types with
  | [] => Ret (Some opened)
  | type :: rest =>
      if truncated (namespace_path pid type) 128 then
        _ ← close_all opened;
        Ret None
      else
        r ← call (Open (namespace_path pid type) [O_RDONLY; O_CLOEXEC] 0);
        match r with
        | SErr _ => _ ← close_all opened; Ret None
        | SOk fd => open_namespaces pid rest (opened ++ [fd])
        end
  end.

Fixpoint join_namespaces (fds : list nat) : prog bool :=
  match fds with
  | [] => Ret true
  | fd :: remaining =>
      setns_result ← call (Setns fd);
      _ ← call (Close fd);
      if s_ok setns_result then join_namespaces remaining
      else
        _ ← close_all remaining;
        Ret false
  end.

(** Starts the command and passes its status on. *)
Definition run_in_namespaces (detach : Z) (argv envs : list cstr) : prog unit :=
  forked ← call (Fork (ChildCommand argv envs));
  match forked with
  | SErr _ => call (Exit 125)
  | SOk command_pid =>
      if negb (detach =? 0) then call (Exit 0)
      else
        waited ← retry_intr (call (Waitpid (Zpos command_pid)));
        match waited with
        | SErr _ => call (Exit 125)
        | SOk (Exited status) => call (Exit status)
        | SOk (Signaled signal) => call (Exit (128 + signal))
        end
  end.

(** The namespace worker: the child of [docker_exec]. *)
Definition exec_worker (name : cstr) (pid detach : Z) (argv envs : list cstr) : prog unit :=
  self ← call Getpid;
  applied ← apply_cgroup_limit_to_pid name self;
  if negb (applied =? 0) then call (Exit 125)
  else
    opened ← open_namespaces pid namespace_types [];
    match opened with
    | None => call (Exit 125)
    | Some namespace_fds =>
        joined ← join_namespaces namespace_fds;
        if negb joined then call (Exit 125)
        else
          entered ← call (Chdir (lit "/"));
          if negb (s_ok entered) then call (Exit 125) else run_in_namespaces detach argv envs
    end.

Section Exec.
Context (environ : list cstr).

(** From the fork on. *)
Definition run_worker (args : docker_exec_arguments) (pid : Z) (envs : list cstr) : prog Z :=
  forked ← call (Fork (ChildWorker (exec_name args) pid (exec_detach args) (exec_argv args) envs));
  match forked with
  | SErr _ => Ret (-1)
  | SOk namespace_worker =>
      waited ← retry_intr (call (Waitpid (Zpos namespace_worker)));
      Ret (match waited with
           | SErr _ => -1
           | SOk (Exited exit_code) => exit_code
           | SOk (Signaled signal) => 128 + signal
           end)
  end.

Definition docker_exec (args : docker_exec_arguments) : prog Z :=
  read ← read_container_info (exec_name args);
  match read with
  | None => Ret (-1)
  | Some info =>
      '(refreshed, info) ← refresh_container_status_if_needed (exec_name args) info;
      if (refreshed <? 0) || negb (bool_decide (ci_status info = lit "RUNNING")) then Ret (-1)
      else
        members ← get_container_processes_id (exec_name args) 4096;
        match members with
        | None => Ret (-1)
        | Some pids =>
            if existsb (Z.eqb (ci_pid info)) pids then
              envs ← load_process_env environ (ci_pid info) (exec_env args);
              match envs with
              | None => Ret (-1)
              | Some envs => run_worker args (ci_pid info) envs
              end
            else Ret (-1)
        end
  end.
End Exec.

(** ** docker inspect *)

Definition inspect_head (info : container_info) (cgroup_path : cstr) : list cstr :=
  [lit "Name: " ++ ci_name info ++ [LF]; lit "PID: " ++ fmt_d (ci_pid info) ++ [LF];
   lit "Status: " ++ ci_status info ++ [LF]; lit "Image: " ++ ci_image info ++ [LF];
   lit "Command: " ++ ci_command info ++ [LF]; lit "Created: " ++ ci_created info ++ [LF];
   lit "IP: " ++ (if nonempty (ci_ip_addr info) then ci_ip_addr info else lit "none") ++ [LF];
   lit "CgroupPath: " ++ cgroup_path ++ [LF]].
Definition inspect_volumes (info : container_info) : list cstr :=
  if 0 <? ci_volume_cnt info then
    (lit "Volumes:" ++ [LF]) ::
    map (λ v, lit "  " ++ v ++ [LF]) (take (Z.to_nat (ci_volume_cnt info)) (ci_volumes info))
  else [lit "Volumes: none" ++ [LF]].
Definition yes_no (b : bool) : cstr := if b then lit "yes" else lit "no".
Definition print_all (texts : list cstr) : prog unit := for_each texts (λ text, call (Print text)).

Definition docker_inspect (args : docker_inspect_arguments) : prog Z :=
  let name := inspect_name args in
  read ← read_container_info name;
  match read with
  | None => Ret (-1)
  | Some info =>
      '(_, info) ← refresh_container_status_if_needed name info;
      match get_container_cgroup_path (Some name) 1024 with
      | None => Ret (-1)
      | Some cgroup_path =>
          _ ← print_all (inspect_head info cgroup_path);
          group ← path_exist cgroup_path;
          _ ← call (Print (lit "CgroupAvailable: " ++ yes_no group ++ [LF]));
          _ ← (match build_container_runtime_paths name PATH_MAX PATH_MAX PATH_MAX with
               | None => Ret tt
               | Some (_, rootfs_path, _) =>
                   _ ← call (Print (lit "RootfsPath: " ++ rootfs_path ++ [LF]));
                   there ← path_exist rootfs_path;
                   call (Print (lit "RootfsAvailable: " ++ yes_no there ++ [LF]))
               end);
          _ ← print_all (inspect_volumes info);
          _ ← call (Print (lit "PortMappings: unavailable" ++ [LF]));
          Ret 0
      end
  end.

(** ** docker stats *)

Definition not_available : cstr := lit "N/A".

(** What [buf] holds afterwards; no caller looks at the return value. *)
Definition read_cgroup_value (cgroup_path file_name : cstr) (buf_size : Z) : prog cstr :=
  let path := cgroup_path ++ lit "/" ++ file_name in
  if truncated path 1024 then Ret not_available
  else
    there ← path_exist path;
    if negb there then Ret not_available
    else
      opened ← call (Fopen path);
      match opened with
      | SErr _ => Ret not_available
      | SOk file =>
          line ← call (Fgets file buf_size);
          _ ← call (Fclose file);
          Ret (match line with
               | SErr _ => not_available
               | SOk l => (span (λ c, negb (bool_decide (c = LF))) (until_nul (take (Z.to_nat (buf_size - 1)) l))).1
               end)
      end.

Definition read_cpu_usage_usec (cgroup_path : cstr) (buf_size : Z) : prog cstr :=
  let path := cgroup_path ++ lit "/cpu.stat" in
  if truncated path 1024 then Ret not_available
  else
    there ← path_exist path;
    if negb there then Ret not_available
    else
      opened ← call (Fopen path);
      match opened with
      | SErr _ => Ret not_available
      | SOk file =>
          '(data, (_, ferror)) ← call (Fread file 4095);
          _ ← call (Fclose file);
          Ret (if ferror : bool then not_available
               else
                 match td_parse_cgroup_stat (Some (until_nul (take 4095 data))) (Some (lit "usage_usec")) buf_size with
                 | Ok value => value
                 | Err _ => not_available
                 end)
      end.

Definition format_bytes (raw : cstr) (buf_size : Z) : cstr :=
  match td_format_bytes (Some raw) buf_size with Ok text => text | Err _ => not_available end.

Definition stats_row (fields : list cstr) : cstr := concat (zip_with pad [12; 15; 17; 13; 12; 20] fields) ++ [LF].
Definition stats_titles : list cstr :=
  [lit "NAME"; lit "CPU_USEC"; lit "MEM_CURRENT"; lit "MEM_MAX"; lit "PIDS"; lit "CPU_MAX"].

Definition docker_stats (args : docker_stats_arguments) : prog Z :=
  let name := stats_name args in
  read ← read_container_info name;
  match read with
  | None => Ret (-1)
  | Some info =>
      '(_, info) ← refresh_container_status_if_needed name info;
      match get_container_cgroup_path (Some name) 1024 with
      | None => Ret (-1)
      | Some cgroup_path =>
          _ ← path_exist cgroup_path;
          cpu_usec ← read_cpu_usage_usec cgroup_path 128;
          memory_current ← read_cgroup_value cgroup_path (lit "memory.current") 128;
          memory_max ← read_cgroup_value cgroup_path (lit "memory.max") 128;
          cpu_max ← read_cgroup_value cgroup_path (lit "cpu.max") 128;
          pids_current ← read_cgroup_value cgroup_path (lit "pids.current") 128;
          pids_max ← read_cgroup_value cgroup_path (lit "pids.max") 128;
          let pids := set_error 256 (pids_current ++ lit "/" ++ pids_max) in
          _ ← call (Print (stats_row stats_titles));
          _ ← call (Print (stats_row [ci_name info; cpu_usec; format_bytes memory_current 128;
                                      format_bytes memory_max 128; pids; cpu_max]));
          Ret 0
      end
  end.

(** ** Descriptors and children *)

Lemma balanced_make_dirs l : balanced (make_dirs l).
Proof. induction l as [|d l IH]; cbn [make_dirs]; balanced_auto. Qed.
#[export] Hint Resolve balanced_make_dirs : balanced.
Lemma balanced_init_env : balanced init_docker_env.
Proof. unfold init_docker_env, init_runtime_dirs. balanced_auto. Qed.
Lemma balanced_commit args : balanced (docker_commit args).
Proof. unfold docker_commit, create_tar. cbv zeta. balanced_auto. Qed.
Lemma balanced_ps args : balanced (docker_ps args).
Proof.
  assert (H : ∀ spans a l, balanced (print_rows spans a l)) by (induction l as [|i l IH]; cbn [print_rows]; unfold when; balanced_auto).
  unfold docker_ps. cbv zeta. balanced_auto.
Qed.
Lemma balanced_top args : balanced (docker_top args).
Proof. unfold docker_top. balanced_auto. Qed.
#[export] Hint Resolve balanced_init_env balanced_commit balanced_ps balanced_top : balanced.
Lemma balanced_load_env environ pid user : balanced (load_process_env environ pid user).
Proof.
  assert (Hu : ∀ l envs, balanced (add_user_envs envs l)) by (induction l as [|x l IH]; intros envs; cbn [add_user_envs]; balanced_auto).
  assert (Hc : ∀ l envs, balanced (copy_entries envs l)) by (induction l as [|x l IH]; intros envs; cbn [copy_entries]; balanced_auto).
  assert (Hp : balanced (process_environ pid)).
  { intros w. unfold process_environ. cbv zeta. destruct (truncated _ _); [done|]. held_step. held_step; [|done].
    held_step. destruct (negb a1); [held_auto|].
    apply wp_bind. apply (wp_iter resources (λ _ w', w' = take_fd a0 w)); [done|].
    assert (Hend : ∀ o : option cstr, wp resources (_ ← call (Close a0);
      match o with Some contents => copy_entries [] (environ_entries contents) | None => Ret None end)
      (λ _ w', w' = w) (take_fd a0 w)).
    { intros o. held_step. autorewrite with held. destruct o; [apply Hc|done]. }
    intros [contents capacity] w' ->. unfold environ_turn. apply wp_balanced; [balanced_auto|].
    intros [cap|]; [|apply (Hend None)]. held_step. apply wp_ret. destruct r as [x|e].
    - destruct (nonempty x); [done|apply (Hend (Some contents))].
    - destruct (e =? EINTR); [done|apply (Hend None)]. }
  unfold load_process_env. balanced_auto.
Qed.
#[export] Hint Resolve balanced_load_env : balanced.
Lemma balanced_exec environ args : balanced (docker_exec environ args).
Proof.
  assert (Hr : ∀ args pid envs, balanced (run_worker args pid envs)).
  { intros args' pid envs w. unfold run_worker. held_step. held_step; [|done]. apply wp_waitpid. intros r. by apply wp_ret. }
  unfold docker_exec. balanced_auto.
Qed.
Lemma balanced_cgroup_value path file size : balanced (read_cgroup_value path file size).
Proof.
  intros w. unfold read_cgroup_value. cbv zeta. destruct (truncated _ _); [done|]. held_auto.
Qed.
Lemma balanced_cpu_usage path size : balanced (read_cpu_usage_usec path size).
Proof.
  intros w. unfold read_cpu_usage_usec. cbv zeta. destruct (truncated _ _); [done|]. held_auto.
Qed.
#[export] Hint Resolve balanced_exec balanced_cgroup_value balanced_cpu_usage : balanced.
Lemma balanced_inspect args : balanced (docker_inspect args).
Proof. unfold docker_inspect, print_all. cbv zeta. balanced_auto. Qed.
Lemma balanced_stats args : balanced (docker_stats args).
Proof. unfold docker_stats. cbv zeta. balanced_auto. Qed.
#[export] Hint Resolve balanced_inspect balanced_stats : balanced.

(** ** The list of pids of docker top *)

Lemma join_snoc sep ws w :
  Forall (λ w : cstr, w ≠ []) ws →
  join sep (ws ++ [w]) = join sep ws ++ (if nonempty (join sep ws) then [sep] else []) ++ w.
Proof.
  induction ws as [|v [|u ws] IH]; intros H; apply Forall_cons in H as [Hv H] || clear H; [done|..].
  - by destruct v.
  - change (join sep ((v :: u :: ws) ++ [w])) with (v ++ sep :: join sep ((u :: ws) ++ [w])).
    change (join sep (v :: u :: ws)) with (v ++ sep :: join sep (u :: ws)).
    rewrite IH by done. apply Forall_cons in H as [Hu _].
    assert (E : nonempty (join sep (u :: ws)) = true) by (destruct u; [done|by destruct ws]).
    rewrite E. assert (E' : nonempty (v ++ sep :: join sep (u :: ws)) = true) by (by destruct v).
    rewrite E'. by rewrite <-!app_assoc.
Qed.

Lemma fmt_d_pid p : 1 ≤ p ≤ INT_MAX → fmt_d p ≠ [] ∧ strlen (fmt_d p) ≤ 10.
Proof.
  intros Hp. split; [by apply (fmt_d_token p)|]. unfold fmt_d. case Z.ltb_spec; [lia|]. intros _.
  apply (fmt_u_length p 10); unfold INT_MAX in *; lia.
Qed.

Lemma top_pid_list_prefix size pids : ∀ before text,
  Forall (λ p, 1 ≤ p ≤ INT_MAX) (before ++ pids) → size = Z.of_nat (length (before ++ pids)) * 32 + 1 →
  text = join "," (map fmt_d before) → strlen text ≤ 11 * Z.of_nat (length before) →
  fold_left (append_top_pid size) pids (Some text) = Some (join "," (map fmt_d (before ++ pids))).
Proof.
  induction pids as [|p pids IH]; intros before text Hf -> -> Hlen; cbn [fold_left]; [by rewrite app_nil_r|].
  pose proof Hf as Hf'. apply Forall_app in Hf' as [Hb [Hp _]%Forall_cons].
  destruct (fmt_d_pid p Hp) as [_ Hl]. set (text := join "," (map fmt_d before)) in *.
  set (written := (if nonempty text then lit "," else []) ++ fmt_d p).
  assert (Hw : strlen written ≤ 11).
  { unfold written. rewrite strlen_app. destruct (nonempty text); cbn [strlen]; [change (strlen (lit ",")) with 1|change (strlen []) with 0]; lia. }
  cbn [append_top_pid]. fold written.
  assert (Ht : truncated written (Z.of_nat (length (before ++ p :: pids)) * 32 + 1 - strlen text) = false).
  { apply Z.leb_gt. rewrite length_app. cbn [length]. lia. }
  rewrite Ht. replace (before ++ p :: pids) with ((before ++ [p]) ++ pids) in * by (by rewrite <-app_assoc).
  apply IH; [done|done| |].
  - rewrite map_app. cbn [map]. rewrite join_snoc; [done|]. apply Forall_map. eapply Forall_impl; [exact Hb|].
    intros q Hq. by apply fmt_d_pid.
  - rewrite strlen_app, length_app. cbn [length]. lia.
Qed.

Lemma top_pid_list_join pids :
  Forall (λ p, 1 ≤ p ≤ INT_MAX) pids → top_pid_list pids = Some (join "," (map fmt_d pids)).
Proof. intros H. by apply (top_pid_list_prefix _ pids [] []). Qed.
