(* ===== verification/Lifecycle.v ===== *)
(** * Promises of whole commands

    What [docker_stop] and [docker_run] of docker/container.c promise across
    the components they are made of. *)
From S2P Require Import Prelude CString Paths Safety StatusCodec NetworkState CgroupParse Sys Resources Equiv Process Fs Config Cgroup.
From S2P Require Import NetworkStore Network StatusInfo Volumes Workspace Container Commands.
From Stdlib Require Import Lia.

(** ** The members of a control group *)

Definition procs_path (name : cstr) : cstr := cgroup_path_text name ++ lit "/cgroup.procs".

(** What the member list of the container's control group held when it was
    last looked at; a group that does not exist has no members. *)
Definition members_are (name : cstr) (capacity : Z) (w : view) (pids : list Z) : Prop :=
  ∃ text, vw_members w = Some (procs_path name, text) ∧ td_parse_cgroup_pid_list (Some text) capacity = Ok pids.

Lemma under_sys_procs name : under_sys (procs_path name) = true.
Proof. reflexivity. Qed.

Lemma members_read name capacity t p s text pids :
  members_are name capacity (View None t None p s None (Some (procs_path name, text))) pids ↔
  td_parse_cgroup_pid_list (Some text) capacity = Ok pids.
Proof.
  split; [|by exists text]. intros (text' & E & Hp). cbn [vw_members] in E. congruence.
Qed.

Lemma members_agree name capacity w pids pids' :
  members_are name capacity w pids → members_are name capacity w pids' → pids' = pids.
Proof. intros (t & E & H) (t' & E' & H'). congruence. Qed.

Section Members.
Context (ok : view → syscall → Prop) (Hok : ∀ w c, harmless c = true → ok w c) (name : cstr).

Ltac view_step_ :=
  apply wp_view; [by apply Hok|]; let H := fresh "Hdoc" in intros ? H;
  cbn [view_step documented on_temp line_seen ended] in *; rewrite ?none_fd, ?if_none, ?Nat.eqb_refl; cbv iota.

(** A list that is returned is the one that was read, and one that was read is
    returned. *)
Lemma processes_view capacity t p s w :
  learnt t p s w → 0 < capacity ≤ INT_MAX →
  wp (viewing ok) (get_container_processes_id name capacity)
    (λ r w', learnt t p s w' ∧ (∀ pids, r = Some pids → members_are name capacity w' pids) ∧
       (vw_members w = None → r = None → ∀ pids, members_are name capacity w' pids → pids = [])) w.
Proof.
  intros (m & ->) Hcap. assert (Hl : ∀ m, learnt t p s (View None t None p s None m)) by (intros; by eexists).
  assert (Hn : ∀ pids, members_are name capacity (View None t None p s None None) pids → pids = []) by (by intros pids (? & ? & _)).
  assert (Hstop : ∀ m, m = None ∨ m = Some (procs_path name, []) → wp (viewing ok) (Ret None) (λ r w', learnt t p s w' ∧
    (∀ pids, r = Some pids → members_are name capacity w' pids) ∧
    (m = None → r = None → ∀ pids, members_are name capacity w' pids → pids = [])) (View None t None p s None m)).
  { intros m1 Hm1. apply wp_ret. split_and!; [done|done|]. intros -> _. done. }
  unfold get_container_processes_id, get_container_cgroup_file_path. cbv zeta.
  change (cgroup_path_text name ++ lit "/" ++ lit "cgroup.procs") with (procs_path name). cbn [vw_members].
  destruct (truncated _ _).
  { apply wp_ret. split_and!; [done|done|]. by intros ->. }
  unfold path_exist. view_step_. rewrite under_sys_procs.
  destruct a; cbn [negb].
  2:{ apply wp_ret. split_and!; [done|done|]. intros _ _ pids Hp%members_read. unfold td_parse_cgroup_pid_list in Hp.
      rewrite reject_if_false in Hp by (apply Z.eqb_neq; lia). by injection Hp as <-. }
  assert (Hstop' : wp (viewing ok) (Ret None) (λ r w', learnt t p s w' ∧
    (∀ pids, r = Some pids → members_are name capacity w' pids) ∧
    (m = None → r = None → ∀ pids, members_are name capacity w' pids → pids = [])) (View None t None p s None None)).
  { apply wp_ret. by split_and!. }
  view_step_. rewrite under_sys_procs. destruct a as [file|e]; [|exact Hstop'].
  destruct (_ || _); [view_step_; exact Hstop'|]. view_step_.
  destruct (negb a); [view_step_; exact Hstop'|]. view_step_. destruct a0 as [data [feof ferror]].
  cbn [fst snd]. set (content := take _ data).
  assert (Hgo : ∀ m1, m1 = Some (procs_path name, until_nul content) →
    wp (viewing ok) match td_parse_cgroup_pid_list (Some (until_nul content)) capacity with
      | Err _ => Ret None
      | Ok pids => Ret (if INT_MAX <? Z.of_nat (length pids) then None else Some pids)
      end (λ r w', learnt t p s w' ∧ (∀ pids, r = Some pids → members_are name capacity w' pids) ∧
       (m = None → r = None → ∀ pids, members_are name capacity w' pids → pids = [])) (View None t None p s None m1)).
  { intros m1 ->. destruct (td_parse_cgroup_pid_list _ _) as [pids|] eqn:Ep; apply wp_ret; (split; [by eexists|]).
    - pose proof (pid_list_range _ _ _ (proj1 Hcap) Ep) as [Hl' _]. rewrite (proj2 (Z.ltb_ge _ _)) by lia.
      split; [|done]. intros pids' [= <-]. by apply members_read.
    - split; [done|]. intros _ _ pids' Hp%members_read. congruence. }
  destruct (strlen content =? _), ferror, feof; cbn [negb andb orb]; view_step_; first [exact Hstop'|by apply Hgo].
Qed.

Lemma count_view t p s w :
  learnt t p s w →
  wp (viewing ok) (container_process_count name 1024)
    (λ r w, learnt t p s w ∧ ∀ pids, r = Some pids → members_are name 1024 w pids) w.
Proof.
  intros (m & ->). assert (Hl : ∀ m, learnt t p s (View None t None p s None m)) by (intros; by eexists).
  unfold container_process_count. destruct (get_container_cgroup_path _ _) as [path|] eqn:E; [|by apply wp_ret].
  apply get_container_cgroup_path_Some in E as ->. cbv zeta. fold (procs_path name).
  destruct (truncated _ _); [by apply wp_ret|]. unfold path_exist. view_step_. rewrite under_sys_procs.
  destruct a.
  - eapply wp_mono; [|by apply processes_view]. cbv beta. intros r w (H1 & H2 & _). by split.
  - apply wp_ret. split; [apply Hl|]. intros pids [= <-]. by exists [].
Qed.
End Members.

(** ** Stopping *)

Definition stopped (info : container_info) : container_info :=
  set_status (set_error STATUS_SIZE (str_status CONTAINER_STOPPED)) info.

(** Only members of the group are signalled.  The status file is replaced by
    the record read from it, marked STOPPED when the group is empty and EXITED
    when the recorded process is gone. *)
Definition stopping (name : cstr) (w : view) (c : syscall) : Prop :=
  match c with
  | Kill pid signal =>
      (signal = SIGTERM ∨ signal = SIGKILL) ∧ 0 < pid ∧ ∃ pids, members_are name 1024 w pids ∧ pid ∈ pids
  | Renameat olddir old newdir new =>
      olddir = newdir ∧ new = name ∧
      ∃ text info, written old text w ∧
        td_parse_container_info (Some (vw_text w)) (Some name) = Ok info ∧
        (td_write_container_info (Some (stopped info)) = Ok text ∧ members_are name 1024 w [] ∨
         td_write_container_info (Some (exited info)) = Ok text ∧ ci_status info = lit "RUNNING" ∧ gone info w)
  | _ => harmless c = true ∨ on_temporary name c
  end.

Lemma stopping_harmless name w c : harmless c = true → stopping name w c.
Proof. destruct c; try (by left); done. Qed.
Lemma stopping_temporary name w c : on_temporary name c → stopping name w c.
Proof. destruct c; try (by right); done. Qed.

Lemma exited_status info : ci_status (exited info) = lit "EXITED".
Proof. by destruct info. Qed.

Section Stop.
Context (name : cstr).

Ltac view_step_ :=
  apply wp_view; [by apply stopping_harmless|]; let H := fresh "Hdoc" in intros ? H;
  cbn [view_step documented on_temp line_seen ended] in *; rewrite ?none_fd, ?if_none, ?Nat.eqb_refl; cbv iota.

Lemma signal_view t p s w signal :
  signal = SIGTERM ∨ signal = SIGKILL → learnt t p s w →
  wp (viewing (stopping name)) (signal_container_processes name signal) (λ _ w, learnt t p s w) w.
Proof.
  intros Hs Hw. unfold signal_container_processes. apply wp_bind. eapply wp_mono; [|apply count_view; [apply stopping_harmless|exact Hw]]. cbv beta.
  clear w Hw. intros [pids|] w [Hw Hm]; [|by apply wp_ret]. specialize (Hm _ eq_refl). generalize 0.
  assert (Hsub : ∀ pid, pid ∈ pids → pid ∈ pids) by done. revert Hsub. generalize pids at 1 3 as rest.
  induction rest as [|pid rest IH]; intros Hsub result; cbn [signal_each]; [by apply wp_ret|].
  assert (Hr : ∀ x, x ∈ rest → x ∈ pids) by (intros x Hx; apply Hsub; by constructor).
  destruct (Z.leb_spec pid 0); [by apply IH|].
  apply wp_view.
  - split; [done|]. split; [done|]. exists pids. split; [done|]. apply Hsub. by constructor.
  - intros r _. destruct Hw as (m & ->). cbn [view_step]. by apply IH.
Qed.

(** A count of 0 stands for a list of members that was read empty. *)
Definition vouched (count : Z) (w : view) : Prop := count = 0 → members_are name 1024 w [].

Lemma vouched_count members w :
  (∀ pids, members = Some pids → members_are name 1024 w pids) → vouched (count_of members) w.
Proof. intros H. destruct members as [[|x pids]|]; cbn; [intros _; by apply H|done|done]. Qed.

Lemma poll_view t p s polls : ∀ count w,
  learnt t p s w → vouched count w →
  wp (viewing (stopping name)) (poll_members polls name count) (λ r w, learnt t p s w ∧ vouched r w) w.
Proof.
  induction polls as [|polls IH]; intros count w Hw Hc; cbn [poll_members]; [by apply wp_ret|].
  destruct (_ <? _); [|by apply wp_ret]. destruct Hw as (m & ->). view_step_.
  apply wp_bind. eapply wp_mono; [|apply count_view; [apply stopping_harmless|by eexists]]. cbv beta. intros members w [Hw Hm].
  apply IH; [done|]. by apply vouched_count.
Qed.

Lemma kill_view t p s count w :
  learnt t p s w → vouched count w →
  wp (viewing (stopping name)) (kill_remaining name count)
    (λ r w, learnt t p s w ∧ ∀ count, r = Some count → vouched count w) w.
Proof.
  intros Hw Hc. unfold kill_remaining. destruct (Z.ltb_spec 0 count); [|apply wp_ret; split; [done|]; by intros ? [= <-]].
  apply wp_bind. eapply wp_mono; [|by apply signal_view; [right|]]. cbv beta. clear w Hw Hc. intros killed w Hw.
  destruct (negb _); [by apply wp_ret|]. apply wp_bind. eapply wp_mono; [|apply poll_view; [exact Hw|intros ?; lia]].
  cbv beta. intros r w' [Hw' Hr]. apply wp_ret. split; [done|]. by intros ? [= <-].
Qed.

(** The file then holds the record that was read again, marked STOPPED. *)
Definition marked_stopped (w : view) : Prop :=
  ∃ info text, td_parse_container_info (Some (vw_text w)) (Some name) = Ok info ∧
    td_write_container_info (Some (stopped info)) = Ok text ∧ vw_published w = Some (name, text) ∧
    members_are name 1024 w [].

Lemma update_view t p s w :
  learnt t p s w → members_are name 1024 w [] →
  wp (viewing (stopping name)) (update_container_status name CONTAINER_STOPPED)
    (λ r w, r = 0 → marked_stopped w) w.
Proof.
  intros (m & ->) Hm. unfold update_container_status. apply wp_bind.
  eapply wp_mono; [|apply read_info_view, stopping_harmless]. cbv beta.
  intros [info|] w (t' & -> & Hi); [|by apply wp_ret]. specialize (Hi _ eq_refl). fold (stopped info).
  eapply wp_mono; [|apply write_info_view; [apply stopping_harmless|]].
  - cbv beta. intros r w [[_ (text & Ht & ->)]|[-> _]]; [|done]. intros _. by exists info, text.
  - split; [intros w c; apply stopping_temporary|]. intros dfd tmp text Ht. split; [done|]. split; [done|].
    exists text, info. split; [done|]. split; [done|]. left. by split.
Qed.

(** C12: stopping a container signals only processes that its control group
    lists at that moment, and records it as STOPPED only after the group was
    read and found empty (or gone); the record published is the one read from
    the status file, with no other change.  Stopping reports success only when
    that happened, or when the container was not running in the first place. *)
Theorem docker_stop_empties_group time t p s m :
  wp (viewing (stopping name)) (stop_one time name)
    (λ r w, r = true → not_running name w ∨ marked_stopped w) (View None t None p s None m).
Proof.
  unfold stop_one. apply wp_bind. eapply wp_mono; [|apply read_info_view, stopping_harmless]. cbv beta.
  intros [info|] w (t1 & -> & Hi); [|done]. specialize (Hi _ eq_refl).
  apply wp_bind. eapply wp_mono; [|apply refresh_view; [apply stopping_harmless|]].
  2:{ intros s' m' Hs Hg. split; [intros w c; apply stopping_temporary|]. intros dfd tmp text Ht.
      split; [done|]. split; [done|]. exists text, info. split; [done|]. split; [done|]. by right. }
  cbv beta. intros [refreshed info'] w (s' & m' & H). cbn [fst snd] in H.
  destruct (Z.ltb_spec refreshed 0); [done|]. case_bool_decide as Hrun; cbn [negb].
  2:{ apply wp_ret. intros _. left. exists info.
      destruct H as [(-> & -> & _)|(-> & Hs & _ & Hg & [[_ (text & _ & ->)]|[-> _]])]; [| |lia].
      - split; [done|]. by left.
      - split; [done|]. right. exact Hg. }
  assert (Hw : learnt t1 p s' w).
  { destruct H as [(-> & -> & _)|(-> & _)]; [by eexists|]. exfalso. by rewrite exited_status in Hrun. }
  clear H. apply wp_bind. eapply wp_mono; [|apply signal_view; [by left|exact Hw]]. cbv beta. clear w Hw.
  intros signalled w Hw. destruct (negb _); [done|].
  apply wp_bind. eapply wp_mono; [|apply count_view; [apply stopping_harmless|exact Hw]]. cbv beta. clear w Hw. intros members w [Hw Hm].
  apply wp_bind. eapply wp_mono; [|apply poll_view; [exact Hw|by apply vouched_count]]. cbv beta. clear w Hw Hm.
  intros count w [Hw Hc]. apply wp_bind. eapply wp_mono; [|by apply kill_view]. cbv beta. clear w Hw Hc.
  intros [remaining|] w [Hw Hc]; [|done]. specialize (Hc _ eq_refl).
  destruct (Z.eqb_spec remaining 0); cbn [negb]; [|done].
  apply wp_bind. eapply wp_mono; [|eapply update_view; [exact Hw|by apply Hc]]. cbv beta. intros r w' Hr.
  apply wp_ret. intros Hz%Z.eqb_eq. right. by apply Hr.
Qed.
End Stop.

(** ** Looking at the processes of a container *)

(** The command that is run, if any, is [ps] for the members of the group. *)
Definition listing (name : cstr) (w : view) (c : syscall) : Prop :=
  match c with
  | Fork what => ∃ pids, members_are name 4096 w pids ∧ pids ≠ [] ∧
      what = ChildExec [lit "ps"; lit "-f"; lit "-p"; join "," (map fmt_d pids)]
  | _ => harmless c = true
  end.
Lemma listing_harmless name w c : harmless c = true → listing name w c.
Proof. by destruct c. Qed.

(** Whether a command was started, and whether memory ran out. *)
Definition started_step (x : bool * bool) (c : syscall) : ans c → bool * bool :=
  match c with
  | Fork _ => λ _, (true, x.2)
  | Malloc _ => λ r : bool, (x.1, x.2 || negb r)
  | _ => λ _, x
  end.
Definition topping (name : cstr) : model (view * (bool * bool)) := beside (viewing (listing name)) (free started_step).

(** Running a command the view knows nothing of. *)
Lemma run_command_topping name argv t p s m x :
  (∃ what, argv = lit "ps" :: what) → listing name (View None t None p s None m) (Fork (ChildExec argv)) →
  wp (topping name) (td_run_command argv)
    (λ _ y, y.1 = View None t None p s None m ∧ y.2.1 = true) (View None t None p s None m, x).
Proof.
  intros [what ->] Hf. unfold td_run_command. split; [done|]. intros r [w y] [[_ Hw] Hy]. cbn in Hw, Hy. subst w y.
  destruct r as [pid|e]; [|done].
  unfold wait_for_child. apply wp_bind. apply (wp_retry _ (λ y, y.1 = View None t None p s None m ∧ y.2.1 = true)); [done|].
  intros [w y] [Hw Hy]. cbn [fst snd] in Hw, Hy. subst w. split; [done|].
  intros r [w2 y2] [[_ Hw2] Hy2]. cbn in Hw2, Hy2. subst w2 y2. apply wp_ret. by destruct (failed_with r EINTR).
Qed.

(** C39: [docker top] runs [ps] for exactly the processes that the container's
    group lists when it looks, all of them and no others, and runs nothing else.
    It does run it: whenever the list was read and is not empty, only a lack of
    memory keeps it from starting [ps], so the text of the pids always fits the
    buffer made for it. *)
Theorem docker_top_lists_members name t p s :
  wp (topping name) (docker_top (TopArguments name))
    (λ _ x, ∀ pids, members_are name 4096 x.1 pids → pids ≠ [] → x.2.1 = true ∨ x.2.2 = true)
    (View None t None p s None None, (false, false)).
Proof.
  unfold docker_top. cbn [top_name]. apply wp_bind.
  pose proof (processes_view _ (listing_harmless name) name 4096 t p s (View None t None p s None None)
    ltac:(by eexists) ltac:(done)) as Hv.
  pose proof (wp_beside _ _ _ _ _ _ (false, false) Hv (free_any started_step _ _)) as H.
  eapply wp_mono; [|exact H]. clear H Hv.
  cbv beta. intros r [w x] [(Hw & Hm & Hn) _]. cbn [fst snd] in *. destruct r as [pids|].
  2:{ apply wp_ret. intros pids Hp Hne. by destruct Hne; apply (Hn eq_refl eq_refl). }
  specialize (Hm _ eq_refl). destruct Hw as (m & ->). destruct pids as [|pid pids].
  { apply wp_ret. intros pids Hp Hne. destruct Hne. by eapply members_agree. }
  split; [done|]. intros room [w1 x1] [[_ Hw1] Hx1]. cbn in Hw1, Hx1. subst w1 x1.
  destruct room; cbn [negb]; [|apply wp_ret; intros; right; apply orb_true_r].
  assert (Hr : Forall (λ p, 1 ≤ p ≤ INT_MAX) (pid :: pids)).
  { destruct Hm as (text & _ & Hp). by apply pid_list_range in Hp as [_ Hp]. }
  rewrite top_pid_list_join by exact Hr.
  eapply wp_mono; [|apply run_command_topping; [by eexists|]].
  - cbv beta. intros _ [w y] [_ Hy] pids' _ _. by left.
  - exists (pid :: pids). by split_and!.
Qed.

(** ** Entering a container *)

(** A worker is started only for a container whose status file, as just read,
    says RUNNING, and for the process recorded there, which was found alive and
    is a member of the container's control group. *)
Definition enterable (name : cstr) (pid : Z) (w : view) : Prop :=
  ∃ info pids, td_parse_container_info (Some (vw_text w)) (Some name) = Ok info ∧ ci_pid info = pid ∧
    ci_status info = lit "RUNNING" ∧ alive info w ∧ members_are name 4096 w pids ∧ pid ∈ pids.

Definition entering (args : docker_exec_arguments) (w : view) (c : syscall) : Prop :=
  let name := exec_name args in
  match c with
  | Fork what => ∃ pid envs, what = ChildWorker name pid (exec_detach args) (exec_argv args) envs ∧ enterable name pid w
  | Renameat _ _ _ _ => ∃ info, td_parse_container_info (Some (vw_text w)) (Some name) = Ok info ∧
      ci_status info = lit "RUNNING" ∧ gone info w ∧ publishing name (exited info) w c
  | _ => harmless c = true ∨ on_temporary name c
  end.
Lemma entering_harmless args w c : harmless c = true → entering args w c.
Proof. destruct c; try (by left); done. Qed.
Lemma entering_temporary args w c : on_temporary (exec_name args) c → entering args w c.
Proof. destruct c; try (by right); done. Qed.

(** Calls that leave the view as it is while no status file is open. *)
Definition quiet (c : syscall) : bool :=
  match c with Malloc _ | Read _ _ | Close _ | Getpid => true | Open _ flags _ => read_flags flags | _ => false end.

Lemma quiet_view {A} ok (prg : prog A) t p s m :
  (∀ w c, harmless c = true → ok w c) → only quiet prg →
  wp (viewing ok) prg (λ _ w, w = View None t None p s None m) (View None t None p s None m).
Proof.
  intros Hok Hp. eapply (only_sound _ quiet (λ w, w = View None t None p s None m)); [| |exact Hp|done].
  - intros w c _ Hc. apply Hok. by destruct c.
  - intros w c x w' -> Hc [_ ->]. destruct c; try discriminate Hc; cbn [view_step on_temp ended]; rewrite ?none_fd, ?if_none; try done.
    by destruct x.
Qed.

Lemma load_env_quiet environ pid user : only quiet (load_process_env environ pid user).
Proof.
  assert (Hu : ∀ l envs, only quiet (add_user_envs envs l)) by (induction l as [|x l IH]; intros envs; cbn [add_user_envs]; only_auto).
  assert (Hc : ∀ l envs, only quiet (copy_entries envs l)) by (induction l as [|x l IH]; intros envs; cbn [copy_entries]; only_auto).
  assert (Ht : ∀ fd st, only quiet (environ_turn fd st)).
  { intros fd [contents capacity]. unfold environ_turn, sys_read. cbv zeta. only_auto. }
  assert (Hp : only quiet (process_environ pid)).
  { unfold process_environ. cbv zeta. only_auto. }
  unfold load_process_env. only_auto.
Qed.

(** C14: [docker exec] starts a worker only for a container that it has found
    running: its status file says RUNNING, the entry in /proc of the process
    recorded there shows that process alive with the recorded start time, and the
    container's control group lists it.  The worker is started for exactly that
    process ([exec_worker] joins its namespaces), with the command given. *)
Theorem docker_exec_enters_live_member environ args t p s m :
  wp (viewing (entering args)) (docker_exec environ args) (λ _ _, True) (View None t None p s None m).
Proof.
  set (name := exec_name args). unfold docker_exec. fold name. apply wp_bind.
  eapply wp_mono; [|apply read_info_view, entering_harmless]. cbv beta. intros [info|] w (t1 & -> & Hi); [|done].
  specialize (Hi _ eq_refl). apply wp_bind. eapply wp_mono; [|apply refresh_view; [apply entering_harmless|]].
  2:{ intros s' m' Hs Hg. split; [intros w c; apply entering_temporary|]. intros dfd tmp text Ht. exists info. split; [done|].
      split; [done|]. split; [exact Hg|]. split; [done|]. split; [done|]. by exists text. }
  cbv beta. intros [refreshed info'] w (s' & m' & H). cbn [fst snd] in H.
  destruct (Z.ltb_spec refreshed 0); [done|]. cbn [orb].
  case_bool_decide as Hrun; cbn [negb]; [|done].
  destruct H as [(-> & -> & H)|(-> & _)]; [|exfalso; by rewrite exited_status in Hrun].
  assert (Hal : alive info (View None t1 None p s' None m')).
  { destruct H as [[-> _]|[_ [[?|Hpid]|?]]]; [lia|done| |done].
    apply (parse_sound false) in Hi as [[Hsc _ _] _]; [|done]. pose proof (so_pid _ _ _ Hsc eq_refl). lia. }
  clear H. apply wp_bind. eapply wp_mono; [|apply processes_view; [apply entering_harmless|by eexists|done]].
  cbv beta. intros [pids|] w ((m1 & ->) & Hm & _); [|done]. specialize (Hm _ eq_refl).
  destruct (existsb _ pids) eqn:E; [|done]. apply wp_bind.
  eapply wp_mono; [|apply quiet_view; [apply entering_harmless|apply load_env_quiet]]. cbv beta.
  intros [envs|] w ->; [|done]. unfold run_worker. apply wp_view.
  - exists (ci_pid info), envs. split; [done|]. exists info, pids. split_and!; [done|done|done|exact Hal|done|].
    apply existsb_exists in E as (q & Hq & Eq%Z.eqb_eq). rewrite Eq. by apply list_elem_of_In.
  - intros r _. destruct r as [pid|e]; [|done]. apply wp_bind. apply (wp_retry _ (λ _, True)); [done|].
    intros w _. split; [by left|]. intros r w' _. apply wp_ret. by destruct (failed_with r EINTR).
Qed.
