(* ===== verification/Exec.v ===== *)
(** * The namespace worker of docker exec

    What the worker of [docker_exec] (docker/container.c) has joined when it
    starts the command. *)
From S2P Require Import Prelude CString Paths Safety StatusCodec CgroupParse Sys Resources Process Fs Config Cgroup.
From S2P Require Import NetworkStore StatusInfo Workspace Container Commands.
From stdpp Require Import gmap.
From Stdlib Require Import Lia.
#[local] Open Scope Z_scope.

(** ** What a worker joins

    The pid the worker was told to have; the descriptors that are open, with
    the paths they were opened at; the files opened, with the bytes written to
    them, the newest first; the namespaces joined, in order; whether the
    working directory was set after that. *)
Record joining := Joining {
  jn_self : option Z;
  jn_open : gmap nat cstr;
  jn_files : list (cstr * cstr);
  jn_joined : list cstr;
  jn_inside : bool;
}.

(** The worker's own pid was written to the member list of the group. *)
Definition is_member (name : cstr) (w : joining) : Prop :=
  ∃ self, jn_self w = Some self ∧ (cgroup_path_text name ++ lit "/cgroup.procs", fmt_d self ++ [LF]) ∈ jn_files w.

(** Namespaces are joined as a member of the group; the command is started
    after all of them were joined, in order, and no program is executed by the
    worker itself. *)
Definition joining_ok (name : cstr) (pid : Z) (command : child) (w : joining) (c : syscall) : Prop :=
  match c with
  | Setns fd => is_member name w ∧ is_Some (jn_open w !! fd)
  | Fork what => what = command ∧ is_member name w ∧
      jn_joined w = map (namespace_path pid) namespace_types ∧ jn_inside w = true
  | Execve _ _ _ | Execvp _ | Clone _ => False
  | _ => True
  end.

Definition joining_step (w : joining) (c : syscall) : ans c → joining :=
  let '(Joining self open files joined inside) := w in
  match c with
  | Getpid => λ pid : Z, Joining (Some pid) open files joined inside
  | Open path _ _ => λ r : sysret nat,
      match r with SOk fd => Joining self (<[fd := path]> open) ((path, []) :: files) joined inside | SErr _ => w end
  | Close fd => λ _, Joining self (delete fd open) files joined inside
  | Write _ data => λ r : sysret Z,
      match r, files with
      | SOk n, (path, before) :: rest =>
          Joining self open ((path, before ++ take (Z.to_nat (Z.min n (strlen data))) data) :: rest) joined inside
      | _, _ => w
      end
  | Setns fd => λ r : sysret unit,
      if s_ok r then Joining self open files (joined ++ [default [] (open !! fd)]) false else w
  | Chdir path => λ r : sysret unit,
      if s_ok r && bool_decide (path = lit "/") then Joining self open files joined true else w
  | _ => λ _, w
  end.

(** A descriptor that is open is not given out again. *)
Definition fresh (w : joining) (c : syscall) : ans c → Prop :=
  match c with
  | Open _ _ _ => λ r : sysret nat, match r with SOk fd => jn_open w !! fd = None | SErr _ => True end
  | _ => λ _, True
  end.

Section Worker.
Context (name : cstr) (pid : Z) (command : child).

Definition joined_by : model joining :=
  Model (joining_ok name pid command) (λ w c a w', fresh w c a ∧ w' = joining_step w c a).

Lemma wp_joined {A} c (k : ans c → prog A) Q w :
  joining_ok name pid command w c → (∀ a, fresh w c a → wp joined_by (k a) Q (joining_step w c a)) →
  wp joined_by (call c ≫= k) Q w.
Proof. intros Hc H. apply wp_bind. split; [done|]. intros a w' [Ha ->]. by apply H. Qed.

(** A call at the end. *)
Lemma wp_joined_end c Q w :
  joining_ok name pid command w c → (∀ a, Q a (joining_step w c a)) → wp joined_by (call c) Q w.
Proof. intros Hc H. split; [done|]. intros a w' [_ ->]. apply H. Qed.

Lemma write_file_joined path value self files :
  wp joined_by (write_file path value)
    (λ r w, ∃ open files', w = Joining self open files' [] false ∧ (r = 0 → open = ∅ ∧ files' = (path, value) :: files))
    (Joining self ∅ files [] false).
Proof.
  unfold write_file. apply wp_joined; [done|]. intros [fd|e] _; cbn [joining_step]; [|apply wp_ret; by eexists _, _].
  apply wp_bind. apply (wp_iter joined_by (λ rest w, ∃ before,
    w = Joining self (<[fd := path]> ∅) ((path, before) :: files) [] false ∧ before ++ rest = value)).
  { by exists []. }
  assert (Hend : ∀ before (failed : bool), (failed = false → before = value) →
    wp joined_by (closed ← call (Close fd); Ret (if s_ok closed then if failed then -1 else 0 else -1))
      (λ r w, ∃ open files', w = Joining self open files' [] false ∧ (r = 0 → open = ∅ ∧ files' = (path, value) :: files))
      (Joining self (<[fd := path]> ∅) ((path, before) :: files) [] false)).
  { intros before failed Hf. apply wp_joined; [done|]. intros r _. cbn [joining_step]. apply wp_ret.
    eexists _, _. split; [done|]. rewrite delete_insert_id by apply lookup_empty.
    destruct (s_ok r), failed; try done. by rewrite (Hf eq_refl). }
  intros rest w (before & -> & Hv). unfold write_turn. destruct rest as [|c rest]; cbn [nonempty].
  { apply wp_ret. rewrite app_nil_r in Hv. by apply (Hend before false). }
  apply wp_bind. unfold sys_write. apply wp_joined; [done|].
  intros [n|e] _; apply wp_ret; apply wp_ret; cbn [joining_step].
  - destruct (Z.leb_spec (Z.min n (strlen (c :: rest))) 0); [by apply (Hend _ true)|].
    eexists. split; [done|]. by rewrite <-app_assoc, take_drop.
  - destruct (e =? EINTR); [by exists before|]. by apply (Hend _ true).
Qed.

(** The descriptors [fds] are open, each once, at [paths]. *)
Definition opened_at (open : gmap nat cstr) (fds : list nat) (paths : list cstr) : Prop :=
  NoDup fds ∧ Forall2 (λ fd path, open !! fd = Some path) fds paths.

Lemma opened_at_snoc open fds paths fd path :
  open !! fd = None → opened_at open fds paths → opened_at (<[fd := path]> open) (fds ++ [fd]) (paths ++ [path]).
Proof.
  intros Hfresh [Hnd Ho].
  assert (Hnew : fd ∉ fds).
  { intros Hin. apply list_elem_of_lookup in Hin as [i Hi]. destruct (Forall2_lookup_l _ _ _ _ _ Ho Hi) as (q & _ & E).
    by rewrite Hfresh in E. }
  split; [apply NoDup_app; split_and!; [done|set_solver|apply NoDup_singleton]|].
  apply Forall2_app; [|repeat constructor; by rewrite lookup_insert_eq].
  apply Forall2_same_length_lookup_2; [by eapply Forall2_length|].
  intros i x y Hx Hy. destruct (Forall2_lookup_l _ _ _ _ _ Ho Hx) as (q & Hq & E).
  rewrite lookup_insert_ne; [congruence|]. intros ->. apply Hnew. by eapply list_elem_of_lookup_2.
Qed.

Lemma opened_at_cons open fd fds path paths :
  opened_at open (fd :: fds) (path :: paths) → open !! fd = Some path ∧ opened_at (delete fd open) fds paths.
Proof.
  intros [[Hn Hnd]%NoDup_cons [Hp Ho]%Forall2_cons]. split; [done|]. split; [done|].
  apply Forall2_same_length_lookup_2; [by eapply Forall2_length|].
  intros i x y Hx Hy. destruct (Forall2_lookup_l _ _ _ _ _ Ho Hx) as (q & Hq & E).
  rewrite lookup_delete_ne; [congruence|]. intros ->. apply Hn. by eapply list_elem_of_lookup_2.
Qed.

Lemma close_all_joined fds Q w :
  (∀ open, Q tt (Joining (jn_self w) open (jn_files w) (jn_joined w) (jn_inside w))) →
  wp joined_by (close_all fds) Q w.
Proof.
  unfold close_all. revert w. induction fds as [|fd fds IH]; intros [self open files joined inside] H; cbn [for_each].
  { apply wp_ret, H. }
  unfold discard. apply wp_bind, wp_joined; [done|]. intros r _. cbn [joining_step]. by apply wp_ret, IH.
Qed.

Lemma open_namespaces_joined self member types : ∀ open files fds paths,
  opened_at open fds paths → member ∈ files →
  wp joined_by (open_namespaces pid types fds)
    (λ r w, ∀ fds', r = Some fds' → ∃ open files', w = Joining self open files' [] false ∧ member ∈ files' ∧
       opened_at open fds' (paths ++ map (namespace_path pid) types))
    (Joining self open files [] false).
Proof.
  induction types as [|type types IH]; intros open files fds paths Ho Hm; cbn [open_namespaces map].
  { apply wp_ret. intros ? [= <-]. rewrite app_nil_r. by eexists _, _. }
  destruct (truncated _ _); [by apply wp_bind, close_all_joined|].
  apply wp_joined; [done|]. intros [fd|e] Hfresh; cbn [joining_step]; [|by apply wp_bind, close_all_joined].
  change (paths ++ namespace_path pid type :: map (namespace_path pid) types) with
    (paths ++ [namespace_path pid type] ++ map (namespace_path pid) types). rewrite app_assoc.
  apply IH; [by apply opened_at_snoc|]. by right.
Qed.

Lemma join_namespaces_joined self files fds : ∀ paths open joined inside,
  is_member name (Joining self open files joined inside) → opened_at open fds paths →
  wp joined_by (join_namespaces fds)
    (λ r w, r = true → ∃ open inside, w = Joining self open files (joined ++ paths) inside)
    (Joining self open files joined inside).
Proof.
  induction fds as [|fd fds IH]; intros paths open joined inside Hm Ho; cbn [join_namespaces].
  { destruct Ho as [_ ->%Forall2_nil_inv_l]. apply wp_ret. intros _. rewrite app_nil_r. by eexists _, _. }
  destruct paths as [|path paths]; [by destruct Ho as [_ ?%Forall2_cons_nil_inv]|].
  apply opened_at_cons in Ho as [Hp Ho].
  apply wp_joined; [split; [done|]; by exists path|]. intros r _. cbn [joining_step].
  destruct (s_ok r).
  - apply wp_joined; [done|]. intros x _. cbn [joining_step]. rewrite Hp. cbn [default from_option id].
    eapply wp_mono; [|apply IH; [exact Hm|exact Ho]]. cbv beta. intros b w H Hb. destruct (H Hb) as (o & i & ->).
    rewrite <-app_assoc. by eexists _, _.
  - apply wp_joined; [done|]. intros x _. cbn [joining_step]. by apply wp_bind, close_all_joined.
Qed.

End Worker.

(** C11: the worker of [docker exec] starts the command only in a process that
    has first entered the container's control group (its own pid was written to
    the member list) and then joined all five namespaces of the recorded
    process, in order, and moved to its root directory: otherwise nothing is
    started.  The command itself runs in a child of that process, so that it is
    inside the pid namespace too. *)
Theorem exec_worker_joins name pid detach argv envs files :
  wp (joined_by name pid (ChildCommand argv envs)) (exec_worker name pid detach argv envs) (λ _ _, True)
    (Joining None ∅ files [] false).
Proof.
  unfold exec_worker. apply wp_joined; [done|]. intros self _. cbn [joining_step].
  set (member := (cgroup_path_text name ++ lit "/cgroup.procs", fmt_d self ++ [LF])).
  apply wp_bind. apply (wp_mono _ _ (λ r w, r = 0 → ∃ files, w = Joining (Some self) ∅ files [] false ∧ member ∈ files)).
  2:{ unfold apply_cgroup_limit_to_pid, get_container_cgroup_file_path. cbv zeta.
      destruct (truncated _ _); [by apply wp_ret|]. unfold write_pid_to_cgroup_procs.
      destruct (self <=? 0); [by apply wp_ret|]. destruct (truncated _ _); [by apply wp_ret|].
      eapply wp_mono; [|apply write_file_joined]. cbv beta. intros r w (open & fs & -> & H) Hr.
      destruct (H Hr) as [-> ->]. eexists. split; [done|]. by left. }
  intros r w H. destruct (Z.eqb_spec r 0) as [E|]; cbn [negb]; [|by apply wp_joined_end].
  destruct (H E) as (fs & -> & Hm). clear H E.
  apply wp_bind. eapply wp_mono; [|apply (open_namespaces_joined _ _ _ _ member _ _ _ [] []); [by split; [constructor|constructor]|exact Hm]].
  cbv beta. intros [fds|] w' H; [|by apply wp_joined_end]. destruct (H _ eq_refl) as (open & fs' & -> & Hm' & Ho). clear H.
  assert (His : ∀ o j i, is_member name (Joining (Some self) o fs' j i)) by (intros; by exists self).
  apply wp_bind. eapply wp_mono; [|eapply join_namespaces_joined; [apply His|exact Ho]]. cbv beta.
  intros [|] w' H; cbn [negb]; [|by apply wp_joined_end]. destruct (H eq_refl) as (open' & inside & ->). clear H.
  apply wp_joined; [done|]. intros moved _. cbn [joining_step]. destruct (s_ok moved); cbn [negb andb].
  2:{ by apply wp_joined_end. }
  rewrite bool_decide_eq_true_2 by done. unfold run_in_namespaces. apply wp_joined.
  { split; [done|]. split; [apply His|]. by split. }
  intros forked _. cbn [joining_step]. destruct forked as [cpid|e]; [|by apply wp_joined_end].
  destruct (negb _); [by apply wp_joined_end|]. apply wp_bind. apply (wp_retry _ (λ _, True)); [done|].
  intros w' _. split; [done|]. intros a w'' _. apply wp_ret. destruct (failed_with a EINTR); [done|].
  destruct a as [[st|sg]|e]; by apply wp_joined_end.
Qed.
