(* ===== verification/CmdParser.v ===== *)
(** * cmdparser/cmdparser.c: from the command line to a command

    The parser functions that [argp_parse] calls back, [parse_docker_cmd] and
    [print_docker_cmds].  How argp cuts a command line into options
    and arguments is glibc's: the sequence of its callbacks is a parameter. *)
From S2P Require Import Prelude CString Paths Safety StatusCodec NetworkState CgroupParse Sys Resources Process Fs Config Cgroup.
From S2P Require Import NetworkStore Network StatusInfo Volumes Workspace Container Commands.
From Stdlib Require Import Lia.

(** ** Outcomes

    Parsing yields a value, or ends the process with exit(-1) after a message,
    or writes beyond an array, after which C promises nothing. *)
Inductive outcome (A : Type) : Type :=
  | Parsed (a : A)
  | ExitFailure
  | Overflow.
Arguments Parsed {A} a.
Arguments ExitFailure {A}.
Arguments Overflow {A}.

#[global] Instance outcome_ret : MRet outcome := λ A a, Parsed a.
#[global] Instance outcome_bind : MBind outcome := λ A B f o,
  match o with Parsed a => f a | ExitFailure => ExitFailure | Overflow => Overflow end.

Definition exit_if (b : bool) : outcome unit := if b then ExitFailure else Parsed tt.

(** A result of [core/] whose failure ends the process. *)
Definition or_exit {A} (r : result A) : outcome A := match r with Ok a => Parsed a | Err _ => ExitFailure end.

(** ** argp's callbacks

    An option with its argument (which for -d, -i and -t the parsers ignore);
    an argument with [state->next], the index of what follows it; any other
    callback. *)
Inductive argp_event :=
  | OptionEvent (key : ascii) (arg : cstr)
  | ArgEvent (arg : cstr) (next : nat)
  | OtherEvent.

Inductive argp_parser := docker_run_argp | docker_exec_argp | docker_stop_argp.

(** The callbacks of one [argp_parse], in order; every parser returns 0. *)
Fixpoint run_parser {A} (parse_func : A → argp_event → outcome A) (arguments : A) (events : list argp_event)
    : outcome A :=
  match events with
  | [] => Parsed arguments
  | e :: rest => arguments ← parse_func arguments e; run_parser parse_func arguments rest
  end.

Definition DOCKER_RUN_OPTION_CAPACITY : Z := 128.
Definition DOCKER_RUN_ARG_CAPACITY : Z := 128.

(** [strtok] twice: the first two words. *)
Definition parse_key_val_pair (str spliter : cstr) : key_val_pair :=
  match strtok spliter str with
  | [] => KeyVal None None
  | [key] => KeyVal (Some key) None
  | key :: val :: _ => KeyVal (Some key) (Some val)
  end.
Definition complete (pair : key_val_pair) : bool :=
  match kv_key pair, kv_val pair with Some _, Some _ => true | _, _ => false end.

(** ** docker run *)

Definition with_volumes (x : list volume_config) (a : docker_run_arguments) : docker_run_arguments :=
  RunArguments x (run_interactive a) (run_detach a) (run_cpu a) (run_memory a) (run_image a) (run_name a)
    (run_env a) (run_argv a) (run_port_mapping a).
Definition with_ports (x : list port_map) (a : docker_run_arguments) : docker_run_arguments :=
  RunArguments (run_volumes a) (run_interactive a) (run_detach a) (run_cpu a) (run_memory a) (run_image a)
    (run_name a) (run_env a) (run_argv a) x.
Definition with_interactive (x : Z) (a : docker_run_arguments) : docker_run_arguments :=
  RunArguments (run_volumes a) x (run_detach a) (run_cpu a) (run_memory a) (run_image a) (run_name a)
    (run_env a) (run_argv a) (run_port_mapping a).
Definition with_detach (x : Z) (a : docker_run_arguments) : docker_run_arguments :=
  RunArguments (run_volumes a) (run_interactive a) x (run_cpu a) (run_memory a) (run_image a) (run_name a)
    (run_env a) (run_argv a) (run_port_mapping a).
Definition with_cpu (x : Z) (a : docker_run_arguments) : docker_run_arguments :=
  RunArguments (run_volumes a) (run_interactive a) (run_detach a) x (run_memory a) (run_image a) (run_name a)
    (run_env a) (run_argv a) (run_port_mapping a).
Definition with_memory (x : Z) (a : docker_run_arguments) : docker_run_arguments :=
  RunArguments (run_volumes a) (run_interactive a) (run_detach a) (run_cpu a) x (run_image a) (run_name a)
    (run_env a) (run_argv a) (run_port_mapping a).
Definition with_name (x : cstr) (a : docker_run_arguments) : docker_run_arguments :=
  RunArguments (run_volumes a) (run_interactive a) (run_detach a) (run_cpu a) (run_memory a) (run_image a) x
    (run_env a) (run_argv a) (run_port_mapping a).
Definition with_env (x : list key_val_pair) (a : docker_run_arguments) : docker_run_arguments :=
  RunArguments (run_volumes a) (run_interactive a) (run_detach a) (run_cpu a) (run_memory a) (run_image a)
    (run_name a) x (run_argv a) (run_port_mapping a).
Definition with_command (image : cstr) (argv : list cstr) (a : docker_run_arguments) : docker_run_arguments :=
  RunArguments (run_volumes a) (run_interactive a) (run_detach a) (run_cpu a) (run_memory a) (Some image)
    (run_name a) (run_env a) argv (run_port_mapping a).

Definition full {A} (l : list A) (capacity : Z) : bool := capacity <=? Z.of_nat (length l).

(** One option of docker run. *)
Definition run_option (a : docker_run_arguments) (key : ascii) (arg : cstr) : outcome docker_run_arguments :=
  if bool_decide (key = "v"%char) then
    _ ← exit_if (full (run_volumes a) DOCKER_RUN_OPTION_CAPACITY);
    let vol := parse_volume_config (Some arg) in
    _ ← exit_if (vc_ro vol =? -1);
    Parsed (with_volumes (run_volumes a ++ [vol]) a)
  else if bool_decide (key = "p"%char) then
    _ ← exit_if (full (run_port_mapping a) DOCKER_RUN_OPTION_CAPACITY);
    '(host_port, container_port) ← or_exit (td_parse_port_mapping (Some arg));
    Parsed (with_ports (run_port_mapping a ++ [PortMap host_port container_port]) a)
  else if bool_decide (key = "i"%char) then Parsed (with_interactive 1 a)
  else if bool_decide (key = "d"%char) then Parsed (with_detach 1 a)
  else if bool_decide (key = "c"%char) then
    value ← or_exit (td_parse_long (Some arg) 1000 INT_MAX);
    Parsed (with_cpu value a)
  else if bool_decide (key = "m"%char) then
    value ← or_exit (td_parse_long (Some arg) 1 INT_MAX);
    Parsed (with_memory value a)
  else if bool_decide (key = "n"%char) then Parsed (with_name arg a)
  else if bool_decide (key = "e"%char) then
    _ ← exit_if (full (run_env a) DOCKER_RUN_OPTION_CAPACITY);
    let env_pair := parse_key_val_pair arg (lit "=") in
    _ ← exit_if (negb (complete env_pair));
    Parsed (with_env (run_env a ++ [env_pair]) a)
  else Parsed a.

(** [argv] is [state->argv]; the first argument is the image, and all that
    follows it is the command of the container. *)
Definition docker_run_parse_func (argv : list cstr) (a : docker_run_arguments) (e : argp_event)
    : outcome docker_run_arguments :=
  match run_image a with
  | Some _ => Parsed a
  | None =>
      match e with
      | OptionEvent key arg => run_option a key arg
      | ArgEvent arg next =>
          _ ← exit_if (DOCKER_RUN_ARG_CAPACITY - 1 <? Z.of_nat (length (run_argv a ++ drop next argv)));
          Parsed (with_command arg (run_argv a ++ drop next argv) a)
      | OtherEvent => Parsed a
      end
  end.

Definition docker_run_cmd_check (a : docker_run_arguments) : bool :=
  if (run_detach a =? 1) && (run_interactive a =? 1) then false
  else negb (match run_image a with None => true | Some _ => false end
             || (negb (run_cpu a =? -1) && (run_cpu a <? 1000)) || (negb (run_memory a =? -1) && (run_memory a =? 0))
             || (Z.of_nat (length (run_argv a)) <? 1)).

(** ** docker exec *)

Definition docker_exec_parse_func (argv : list cstr) (st : option cstr * docker_exec_arguments) (e : argp_event)
    : outcome (option cstr * docker_exec_arguments) :=
  let '(container_name, ExecArguments detach interactive tty env name command) := st in
  match container_name with
  | Some _ => Parsed st
  | None =>
      match e with
      | OptionEvent key arg =>
          if bool_decide (key = "d"%char) then Parsed (None, ExecArguments 1 interactive tty env name command)
          else if bool_decide (key = "i"%char) then Parsed (None, ExecArguments detach 1 tty env name command)
          else if bool_decide (key = "t"%char) then Parsed (None, ExecArguments detach interactive 1 env name command)
          else if bool_decide (key = "e"%char) then
            _ ← exit_if (full env 128);
            let pair_ := parse_key_val_pair arg (lit "=") in
            _ ← exit_if (negb (complete pair_));
            Parsed (None, ExecArguments detach interactive tty (env ++ [pair_]) name command)
          else Parsed st
      | ArgEvent arg next =>
          _ ← exit_if (127 <? Z.of_nat (length (command ++ drop next argv)));
          Parsed (Some arg, ExecArguments detach interactive tty env arg (command ++ drop next argv))
      | OtherEvent => Parsed st
      end
  end.

(** ** docker stop *)

(** The array of names has 128 places, one of them for the NULL at the end;
    the loop does not look at its bound. *)
Definition docker_stop_parse_func (argv : list cstr) (a : docker_stop_arguments) (e : argp_event)
    : outcome docker_stop_arguments :=
  match stop_names a with
  | _ :: _ => Parsed a
  | [] =>
      match e with
      | OptionEvent key arg =>
          if bool_decide (key = "t"%char) then
            value ← or_exit (td_parse_long (Some arg) 0 3600);
            Parsed (StopArguments value (stop_names a))
          else Parsed a
      | ArgEvent _ next =>
          let names := drop (next - 1) argv in
          if 127 <? Z.of_nat (length names) then Overflow else Parsed (StopArguments (stop_time a) names)
      | OtherEvent => Parsed a
      end
  end.

(** ** All commands *)

(** [struct docker_cmd]: the type with the arguments that belong to it. *)
Inductive docker_cmd :=
  | CmdRun (a : docker_run_arguments)
  | CmdCommit (a : docker_commit_arguments)
  | CmdPs (a : docker_ps_arguments)
  | CmdTop (a : docker_top_arguments)
  | CmdExec (a : docker_exec_arguments)
  | CmdStop (a : docker_stop_arguments)
  | CmdRm (a : docker_rm_arguments)
  | CmdInspect (a : docker_inspect_arguments)
  | CmdStats (a : docker_stats_arguments)
  | CmdNetworkCreate (a : docker_network_create)
  | CmdNetworkList
  | CmdNetworkRm (a : docker_network_rm).

Definition cmd_type (c : docker_cmd) : docker_command_type :=
  match c with
  | CmdRun _ => DOCKER_RUN
  | CmdCommit _ => DOCKER_COMMIT
  | CmdPs _ => DOCKER_PS
  | CmdTop _ => DOCKER_TOP
  | CmdExec _ => DOCKER_EXEC
  | CmdStop _ => DOCKER_STOP
  | CmdRm _ => DOCKER_RM
  | CmdInspect _ => DOCKER_INSPECT
  | CmdStats _ => DOCKER_STATS
  | CmdNetworkCreate _ => DOCKER_NETWORK_CREATE
  | CmdNetworkList => DOCKER_NETWORK_LIST
  | CmdNetworkRm _ => DOCKER_NETWORK_RM
  end.

Definition validate_container_name (container_name : cstr) : bool :=
  is_Ok (td_validate_name (Some container_name) TINYDOCKER_MAX_CONTAINER_NAME).
Definition TINYDOCKER_MAX_NETWORK_NAME : Z := 15.
Definition validate_network_name (network_name : cstr) : bool :=
  is_Ok (td_validate_name (Some network_name) TINYDOCKER_MAX_NETWORK_NAME).

Section Parse.
(** What [argp_parse] calls back for a parser and an argument vector. *)
Context (argp_parse : argp_parser → list cstr → list argp_event).

Definition run_defaults (now : Z) : docker_run_arguments := RunArguments [] 0 0 (-1) (-1) None (fmt_d now) [] [] [].

(** [argv] is [argv + 1]: the action and its arguments. *)
Definition parse_run (now : Z) (argv : list cstr) : outcome docker_cmd :=
  a ← run_parser (docker_run_parse_func argv) (run_defaults now) (argp_parse docker_run_argp argv);
  _ ← exit_if (negb (docker_run_cmd_check a));
  _ ← exit_if (negb (validate_container_name (run_name a)));
  Parsed (CmdRun a).

Definition parse_exec (argv : list cstr) : outcome docker_cmd :=
  '(container_name, a) ← run_parser (docker_exec_parse_func argv) (None, ExecArguments 0 0 0 [] [] [])
                           (argp_parse docker_exec_argp argv);
  _ ← exit_if (match container_name with None => true | Some _ => false end
               || (Z.of_nat (length (exec_argv a)) =? 0));
  _ ← exit_if (negb (validate_container_name (exec_name a)));
  Parsed (CmdExec a).

Definition parse_stop (argv : list cstr) : outcome docker_cmd :=
  a ← run_parser (docker_stop_parse_func argv) (StopArguments 10 []) (argp_parse docker_stop_argp argv);
  _ ← exit_if ((Z.of_nat (length (stop_names a)) =? 0) || (stop_time a <? 0));
  _ ← exit_if (negb (forallb validate_container_name (stop_names a)));
  Parsed (CmdStop a).

Definition parse_network (arguments : list cstr) : outcome docker_cmd :=
  match arguments with
  | [] => ExitFailure
  | sub :: rest =>
      if bool_decide (sub = lit "create") then
        match rest with
        | [name; cider] =>
            _ ← exit_if (negb (validate_network_name name));
            _ ← or_exit (td_parse_ipv4_cidr (Some cider));
            Parsed (CmdNetworkCreate (NetworkCreate name cider))
        | _ => ExitFailure
        end
      else if bool_decide (sub = lit "ls") then Parsed CmdNetworkList
      else if bool_decide (sub = lit "rm") then
        match rest with
        | [] => ExitFailure
        | names =>
            _ ← exit_if (negb (forallb validate_network_name names));
            Parsed (CmdNetworkRm (NetworkRm names))
        end
      else ExitFailure
  end.

(** A command with one container for its argument. *)
Definition parse_one (arguments : list cstr) (command : cstr → docker_cmd) : outcome docker_cmd :=
  match arguments with
  | [name] => _ ← exit_if (negb (validate_container_name name)); Parsed (command name)
  | _ => ExitFailure
  end.

(** The commands that need no time. *)
Definition parse_other (action : cstr) (arguments : list cstr) : outcome docker_cmd :=
  if bool_decide (action = lit "commit") then
    match arguments with
    | [name] => _ ← exit_if (negb (validate_container_name name)); Parsed (CmdCommit (CommitArguments name None))
    | [name; path] =>
        _ ← exit_if (negb (validate_container_name name)); Parsed (CmdCommit (CommitArguments name (Some path)))
    | _ => ExitFailure
    end
  else if bool_decide (action = lit "ps") then
    match arguments with
    | [] => Parsed (CmdPs (PsArguments 0))
    | [flag] => Parsed (CmdPs (PsArguments (if bool_decide (flag = lit "-a") then 1 else 0)))
    | _ => ExitFailure
    end
  else if bool_decide (action = lit "top") then parse_one arguments (λ name, CmdTop (TopArguments name))
  else if bool_decide (action = lit "exec") then parse_exec (action :: arguments)
  else if bool_decide (action = lit "stop") then
    match arguments with [] => ExitFailure | _ => parse_stop (action :: arguments) end
  else if bool_decide (action = lit "rm") then
    match arguments with
    | [] => ExitFailure
    | names =>
        _ ← exit_if (negb (forallb validate_container_name names));
        Parsed (CmdRm (RmArguments names))
    end
  else if bool_decide (action = lit "inspect") then parse_one arguments (λ name, CmdInspect (InspectArguments name))
  else if bool_decide (action = lit "stats") then parse_one arguments (λ name, CmdStats (StatsArguments name))
  else if bool_decide (action = lit "network") then parse_network arguments
  else ExitFailure.

(** [argv] with the name of the program first.  The messages printed before an
    exit, and the allocations of the argument structures, are left out. *)
Definition parse_docker_cmd (argv : list cstr) : prog (outcome docker_cmd) :=
  match argv with
  | _ :: action :: arguments =>
      if bool_decide (action = lit "run") then
        now ← call Time;
        Ret (parse_run now (action :: arguments))
      else Ret (parse_other action arguments)
  | _ => Ret ExitFailure
  end.
End Parse.

(** ** Printing a command *)

Definition line (words : list cstr) : cstr := concat words ++ [LF].
Definition show_int (label : cstr) (value : Z) : cstr := line [label; lit "="; fmt_d value].
Definition show_env (env : list key_val_pair) : list cstr :=
  map (λ p, line [lit "env_key:"; default [] (kv_key p); lit ", env_val:"; default [] (kv_val p)]) env.
Definition show_words (argv : list cstr) : cstr := concat (map (λ w, w ++ lit " ") argv) ++ [LF].

Definition docker_run_cmd_print (a : docker_run_arguments) : list cstr :=
  [show_int (lit "interactive") (run_interactive a); show_int (lit "detach") (run_detach a);
   show_int (lit "cpu") (run_cpu a); show_int (lit "memory") (run_memory a);
   line [lit "image="; default [] (run_image a)]; line [lit "name="; run_name a]] ++
  map (λ v, line [lit "host_dir:"; vc_host v; lit ", container_dir:"; vc_container v; lit ", ro:"; fmt_d (vc_ro v)])
    (run_volumes a) ++
  show_env (run_env a) ++
  [show_int (lit "args_count") (Z.of_nat (length (run_argv a))); show_words (run_argv a);
   show_int (lit "port_mapping") (Z.of_nat (length (run_port_mapping a)))] ++
  map (λ m, line [lit "host:"; fmt_d (pm_host_port m); lit "->container:"; fmt_d (pm_container_port m)])
    (run_port_mapping a) ++ [[LF]].

Definition docker_exec_cmd_print (a : docker_exec_arguments) : list cstr :=
  [show_int (lit "interactive") (exec_interactive a); show_int (lit "tty") (exec_tty a);
   show_int (lit "detach") (exec_detach a); line [lit "container_name="; exec_name a]] ++
  show_env (exec_env a) ++
  [show_int (lit "args_count") (Z.of_nat (length (exec_argv a))); show_words (exec_argv a)].

(** A count and a name on each line. *)
Definition show_names (label : cstr) (names : list cstr) (between : list cstr) : list cstr :=
  show_int label (Z.of_nat (length names)) :: between ++ map (λ n, line [n]) names.

Definition docker_commit_cmd_print (a : docker_commit_arguments) : list cstr :=
  [line [lit "container_name="; commit_name a]; line [lit "tar_path="; default [] (commit_tar a)]].
Definition docker_ps_cmd_print (a : docker_ps_arguments) : list cstr := [show_int (lit "list_all") (ps_list_all a)].
Definition docker_stop_cmd_print (a : docker_stop_arguments) : list cstr :=
  show_names (lit "container_cnt") (stop_names a) [show_int (lit "wait_time") (stop_time a)].
Definition docker_rm_cmd_print (a : docker_rm_arguments) : list cstr :=
  show_names (lit "container_cnt") (rm_containers a) [].
Definition docker_network_rm_cmd_print (a : docker_network_rm) : list cstr :=
  show_names (lit "network_cnt") (nrm_argv a) [].
Definition docker_network_create_cmd_print (a : docker_network_create) : list cstr :=
  [line [lit "name="; nc_name a]; line [lit "cidr="; nc_cider a]].

Definition print_docker_cmds (c : docker_cmd) : prog unit :=
  match c with
  | CmdRun a => print_all (docker_run_cmd_print a)
  | CmdCommit a => print_all (docker_commit_cmd_print a)
  | CmdPs a => print_all (docker_ps_cmd_print a)
  | CmdExec a => print_all (docker_exec_cmd_print a)
  | CmdStop a => print_all (docker_stop_cmd_print a)
  | CmdRm a => print_all (docker_rm_cmd_print a)
  | CmdNetworkRm a => print_all (docker_network_rm_cmd_print a)
  | CmdNetworkCreate a => print_all (docker_network_create_cmd_print a)
  | CmdTop _ | CmdNetworkList => Ret tt
  | CmdInspect _ | CmdStats _ => _ ← call (Print (lit "now support" ++ [LF])); call (Exit 255)
  end.

(** ** What a parsed command guarantees *)

Lemma outcome_bind_Parsed {A B} (o : outcome A) (f : A → outcome B) b :
  (o ≫= f) = Parsed b ↔ ∃ a, o = Parsed a ∧ f a = Parsed b.
Proof. destruct o; cbn; [naive_solver|split; [done|naive_solver]..]. Qed.
Lemma exit_if_Parsed b {A} (k : outcome A) a : (_ ← exit_if b; k) = Parsed a ↔ b = false ∧ k = Parsed a.
Proof. destruct b; cbn; naive_solver. Qed.
Lemma or_exit_Parsed {A} (r : result A) a : or_exit r = Parsed a ↔ r = Ok a.
Proof. destruct r; cbn; naive_solver. Qed.

Lemma run_parser_invariant {A} (I : A → Prop) f events : (∀ a e a', I a → f a e = Parsed a' → I a') →
  ∀ a a', I a → run_parser f a events = Parsed a' → I a'.
Proof.
  intros Hf. induction events as [|e events IH]; intros a a' Ha; cbn [run_parser]; [by intros [= <-]|].
  rewrite outcome_bind_Parsed. intros (x & Hx & H). by eapply IH; [eapply Hf|].
Qed.

Definition volume_accepted (v : volume_config) : Prop :=
  volume_ok (vc_host v) (vc_container v) 1024 1024 ∧ (vc_ro v = 0 ∨ vc_ro v = 1).
Definition port_accepted (m : port_map) : Prop := 1 ≤ pm_host_port m ≤ 65535 ∧ 1 ≤ pm_container_port m ≤ 65535.
(** Both words are there, not empty, and hold no "=". *)
Definition env_accepted (p : key_val_pair) : Prop :=
  ∃ key val, p = KeyVal (Some key) (Some val) ∧ key ≠ [] ∧ val ≠ [] ∧ ("="%char ∉ key) ∧ ("="%char ∉ val).
Definition at_most {A} (n : Z) (P : A → Prop) (l : list A) : Prop := Z.of_nat (length l) ≤ n ∧ Forall P l.
Definition valid_container (name : cstr) : Prop := td_validate_name (Some name) 127 = Ok tt.

Record run_options_ok (a : docker_run_arguments) : Prop := {
  ro_volumes : at_most 128 volume_accepted (run_volumes a);
  ro_ports : at_most 128 port_accepted (run_port_mapping a);
  ro_env : at_most 128 env_accepted (run_env a);
  ro_argv : Z.of_nat (length (run_argv a)) ≤ 127;
  ro_cpu : run_cpu a = -1 ∨ 1000 ≤ run_cpu a ≤ INT_MAX;
  ro_memory : run_memory a = -1 ∨ 1 ≤ run_memory a ≤ INT_MAX;
  ro_flags : 0 ≤ run_detach a ≤ 1 ∧ 0 ≤ run_interactive a ≤ 1;
}.

(** What the commands rely on. *)
Definition wellformed (c : docker_cmd) : Prop :=
  match c with
  | CmdRun a => run_options_ok a ∧ valid_container (run_name a) ∧ is_Some (run_image a) ∧ run_argv a ≠ [] ∧
      (run_detach a = 0 ∨ run_interactive a = 0)
  | CmdExec a => valid_container (exec_name a) ∧ exec_argv a ≠ [] ∧ Z.of_nat (length (exec_argv a)) ≤ 127 ∧
      at_most 128 env_accepted (exec_env a)
  | CmdStop a => stop_names a ≠ [] ∧ at_most 127 valid_container (stop_names a) ∧ 0 ≤ stop_time a ≤ 3600
  | CmdRm a => rm_containers a ≠ [] ∧ Forall valid_container (rm_containers a)
  | CmdCommit a => valid_container (commit_name a)
  | CmdTop a => valid_container (top_name a)
  | CmdInspect a => valid_container (inspect_name a)
  | CmdStats a => valid_container (stats_name a)
  | CmdPs a => ps_list_all a = 0 ∨ ps_list_all a = 1
  | CmdNetworkCreate a => td_validate_name (Some (nc_name a)) 15 = Ok tt ∧
      ∃ network prefix, td_parse_ipv4_cidr (Some (nc_cider a)) = Ok (network, prefix)
  | CmdNetworkRm a => nrm_argv a ≠ [] ∧ Forall (λ n, td_validate_name (Some n) 15 = Ok tt) (nrm_argv a)
  | CmdNetworkList => True
  end.

Lemma at_most_snoc {A} n (P : A → Prop) l x : full l n = false → at_most n P l → P x → at_most n P (l ++ [x]).
Proof.
  unfold full, at_most. rewrite Z.leb_gt, length_app, Forall_app, Forall_singleton. cbn. intros ? [? ?] ?.
  split; [lia|done].
Qed.

Lemma volume_parsed arg : vc_ro (parse_volume_config (Some arg)) ≠ -1 → volume_accepted (parse_volume_config (Some arg)).
Proof.
  unfold parse_volume_config. destruct (td_parse_volume_spec (Some arg) 1024 1024) as [[[h c] ro]|] eqn:E; [|done].
  intros _. apply td_parse_volume_spec_Ok in E as (Hv & m & Hm & _); [|done|done]. split; [exact Hv|].
  cbn [vc_ro]. unfold mode_value in Hm. repeat case_match; naive_solver.
Qed.

Lemma env_parsed arg : complete (parse_key_val_pair arg (lit "=")) = true → env_accepted (parse_key_val_pair arg (lit "=")).
Proof.
  unfold parse_key_val_pair. pose proof (strtok_tokens (lit "=") arg) as H.
  destruct (strtok _ arg) as [|key [|val rest]]; [done|done|]. intros _.
  apply Forall_cons in H as [[Hk1 Hk2] H]. apply Forall_cons in H as [[Hv1 Hv2] _].
  assert (Hno : ∀ s, Forall (.∉ lit "=") s → "="%char ∉ s).
  { intros s Hs Hin. rewrite Forall_forall in Hs. apply (Hs _ Hin). by left. }
  exists key, val. auto 6.
Qed.

(** One callback of docker run keeps the options right. *)
Lemma run_option_ok a key arg a' : run_options_ok a → run_option a key arg = Parsed a' → run_options_ok a'.
Proof.
  intros [Hv Hp He Ha Hc Hm [Hd Hi]]. unfold run_option, INT_MAX in *.
  destruct (bool_decide (key = "v"%char)).
  { rewrite !exit_if_Parsed. intros (Hf & Hro%Z.eqb_neq & [= <-]). split; try done.
    by apply at_most_snoc, volume_parsed. }
  destruct (bool_decide (key = "p"%char)).
  { rewrite exit_if_Parsed, outcome_bind_Parsed. intros (Hf & [h c] & Hm'%or_exit_Parsed & [= <-]). split; try done.
    apply at_most_snoc; [done|done|]. apply td_parse_port_mapping_spec. by eexists. }
  destruct (bool_decide (key = "i"%char)); [intros [= <-]; split; try done; cbn; lia|].
  destruct (bool_decide (key = "d"%char)); [intros [= <-]; split; try done; cbn; lia|].
  destruct (bool_decide (key = "c"%char)).
  { rewrite outcome_bind_Parsed. intros (v & Hl%or_exit_Parsed & [= <-]). apply td_parse_long_Some_Ok in Hl as (_ & ? & _).
    split; try done. by right. }
  destruct (bool_decide (key = "m"%char)).
  { rewrite outcome_bind_Parsed. intros (v & Hl%or_exit_Parsed & [= <-]). apply td_parse_long_Some_Ok in Hl as (_ & ? & _).
    split; try done. by right. }
  destruct (bool_decide (key = "n"%char)); [intros [= <-]; split; done|].
  destruct (bool_decide (key = "e"%char)); [|intros [= <-]; split; done].
  rewrite !exit_if_Parsed. intros (Hf & Hc'%negb_false_iff & [= <-]). split; try done.
  by apply at_most_snoc, env_parsed.
Qed.

Lemma run_parse_ok argv a e a' : run_options_ok a → docker_run_parse_func argv a e = Parsed a' → run_options_ok a'.
Proof.
  intros Ha. unfold docker_run_parse_func. destruct (run_image a); [by intros [= <-]|].
  destruct e as [key arg|arg next|]; [by apply run_option_ok| |by intros [= <-]].
  rewrite exit_if_Parsed. intros (Hn%Z.ltb_ge & [= <-]). destruct Ha. split; try done.
Qed.

Lemma exec_parse_ok argv st e st' :
  let ok (st : option cstr * docker_exec_arguments) := (∀ name, st.1 = Some name → exec_name st.2 = name) ∧
    Z.of_nat (length (exec_argv st.2)) ≤ 127 ∧ at_most 128 env_accepted (exec_env st.2) in
  ok st → docker_exec_parse_func argv st e = Parsed st' → ok st'.
Proof.
  cbv zeta. destruct st as [[name|] [detach interactive tty env name' command]]; cbn [docker_exec_parse_func];
    [by intros ? [= <-]|]. cbn [fst snd exec_name exec_argv exec_env]. intros (Hn & Hl & He).
  destruct e as [key arg|arg next|]; [| |by intros [= <-]].
  - destruct (bool_decide (key = "d"%char)); [by intros [= <-]|].
    destruct (bool_decide (key = "i"%char)); [by intros [= <-]|].
    destruct (bool_decide (key = "t"%char)); [by intros [= <-]|].
    destruct (bool_decide (key = "e"%char)); [|by intros [= <-]].
    rewrite !exit_if_Parsed. intros (Hf & Hc%negb_false_iff & [= <-]). cbn [fst snd exec_name exec_argv exec_env].
    split; [done|]. split; [done|]. by apply at_most_snoc, env_parsed.
  - rewrite exit_if_Parsed. intros (Hx%Z.ltb_ge & [= <-]). cbn [fst snd exec_name exec_argv exec_env].
    split; [by intros ? [= ->]|]. by split.
Qed.

Lemma stop_parse_ok argv a e a' :
  let ok a := Z.of_nat (length (stop_names a)) ≤ 127 ∧ 0 ≤ stop_time a ≤ 3600 in
  ok a → docker_stop_parse_func argv a e = Parsed a' → ok a'.
Proof.
  cbv zeta. intros [Hn Ht]. unfold docker_stop_parse_func. destruct (stop_names a) as [|n l] eqn:E.
  2:{ intros [= <-]. by rewrite E. }
  destruct e as [key arg|arg next|]; [| |intros [= <-]; by rewrite E].
  - destruct (bool_decide _); [|intros [= <-]; by rewrite E]. rewrite outcome_bind_Parsed.
    intros (v & Hl%or_exit_Parsed & [= <-]). by apply td_parse_long_Some_Ok in Hl as (_ & ? & _).
  - cbv zeta. destruct (Z.ltb_spec 127 (Z.of_nat (length (drop (next - 1) argv)))); [done|]. by intros [= <-].
Qed.

Lemma validated name : validate_container_name name = true → valid_container name.
Proof. unfold validate_container_name, valid_container. change TINYDOCKER_MAX_CONTAINER_NAME with 127. by destruct (td_validate_name _ _) as [[]|]. Qed.
Lemma validated_network name : validate_network_name name = true → td_validate_name (Some name) 15 = Ok tt.
Proof. unfold validate_network_name. change TINYDOCKER_MAX_NETWORK_NAME with 15. by destruct (td_validate_name _ _) as [[]|]. Qed.
Lemma validated_all {A} (f : A → bool) (P : A → Prop) l : (∀ x, f x = true → P x) → forallb f l = true → Forall P l.
Proof. intros H Hf. apply Forall_forall. intros x Hx. apply H. apply list_elem_of_In in Hx. by eapply forallb_forall. Qed.

Lemma run_checked a : docker_run_cmd_check a = true →
  is_Some (run_image a) ∧ run_argv a ≠ [] ∧ ¬ (run_detach a = 1 ∧ run_interactive a = 1).
Proof.
  unfold docker_run_cmd_check. destruct (_ && _) eqn:E; [done|]. intros H%negb_true_iff.
  rewrite !orb_false_iff in H. destruct H as [[[Hi _] _] Ha%Z.ltb_ge].
  split; [by destruct (run_image a)|]. split; [by intros E'; rewrite E' in Ha|].
  intros [Hd Hi']. by rewrite Hd, Hi' in E.
Qed.

Section Parsed.
Context (argp_parse : argp_parser → list cstr → list argp_event).

Lemma parse_run_ok now argv c : parse_run argp_parse now argv = Parsed c → wellformed c.
Proof.
  unfold parse_run. rewrite outcome_bind_Parsed. intros (a & Ha & H). rewrite !exit_if_Parsed in H.
  destruct H as (Hc%negb_false_iff & Hv%negb_false_iff & [= <-]).
  apply (run_parser_invariant run_options_ok) in Ha; [|intros; by eapply run_parse_ok|].
  2:{ split; unfold at_most; cbn; try (split; [lia|done]); first [lia|by left]. }
  apply run_checked in Hc as (Hi & Hn & Hx). split; [done|]. split; [by apply validated|]. split; [done|]. split; [done|].
  destruct (ro_flags _ Ha). lia.
Qed.

Lemma parse_exec_ok argv c : parse_exec argp_parse argv = Parsed c → wellformed c.
Proof.
  unfold parse_exec. rewrite outcome_bind_Parsed. intros ([name a] & Ha & H). rewrite !exit_if_Parsed in H.
  destruct H as ([Hn Hl%Z.eqb_neq]%orb_false_iff & Hv%negb_false_iff & [= <-]).
  eapply run_parser_invariant in Ha; [|intros st e st'; apply exec_parse_ok|].
  2:{ cbn. split; [done|]. split; [lia|]. split; [cbn; lia|done]. }
  destruct Ha as (_ & Hc & He). cbn [fst snd] in *. split; [by apply validated|]. split; [|by split].
  intros E. by rewrite E in Hl.
Qed.

Lemma parse_stop_ok argv c : parse_stop argp_parse argv = Parsed c → wellformed c.
Proof.
  unfold parse_stop. rewrite outcome_bind_Parsed. intros (a & Ha & H). rewrite !exit_if_Parsed in H.
  destruct H as ([Hl%Z.eqb_neq _]%orb_false_iff & Hv%negb_false_iff & [= <-]).
  eapply run_parser_invariant in Ha; [|intros st e st'; apply stop_parse_ok|].
  2:{ cbn. lia. }
  destruct Ha as [Hc Ht]. split; [intros E; by rewrite E in Hl|]. split; [|done]. split; [done|].
  by eapply validated_all; [apply validated|].
Qed.

Lemma parse_network_ok arguments c : parse_network arguments = Parsed c → wellformed c.
Proof.
  destruct arguments as [|sub rest]; [done|]. cbn [parse_network].
  destruct (bool_decide (sub = lit "create")).
  { destruct rest as [|name [|cider [|]]]; try done. rewrite exit_if_Parsed, outcome_bind_Parsed.
    intros (Hn%negb_false_iff & [network prefix] & Hc%or_exit_Parsed & [= <-]).
    split; [by apply validated_network|]. by eexists _, _. }
  destruct (bool_decide (sub = lit "ls")); [by intros [= <-]|].
  destruct (bool_decide (sub = lit "rm")); [|done]. destruct rest as [|n rest]; [done|].
  rewrite exit_if_Parsed. intros (Hv%negb_false_iff & [= <-]). split; [done|].
  by eapply validated_all; [apply validated_network|].
Qed.

Lemma parse_one_ok arguments command c :
  (∀ name, valid_container name → wellformed (command name)) → parse_one arguments command = Parsed c → wellformed c.
Proof.
  intros Hw. unfold parse_one. destruct arguments as [|name [|]]; try done. rewrite exit_if_Parsed.
  intros (Hv%negb_false_iff & [= <-]). by apply Hw, validated.
Qed.

Lemma parse_other_ok action arguments c : parse_other argp_parse action arguments = Parsed c → wellformed c.
Proof.
  unfold parse_other. repeat (match goal with |- (if ?b then _ else _) = _ → _ => destruct b end);
    try (by apply parse_one_ok); try apply parse_exec_ok; try apply parse_network_ok; try done.
  - destruct arguments as [|name [|path [|]]]; try done; rewrite exit_if_Parsed; intros (Hv%negb_false_iff & [= <-]);
      by apply validated.
  - destruct arguments as [|flag [|]]; try done; intros [= <-]; cbn; [by left|]. destruct (bool_decide _); auto.
  - apply parse_stop_ok.
  - rewrite exit_if_Parsed. intros (Hv%negb_false_iff & [= <-]).
    split; [done|]. by eapply validated_all; [apply validated|].
Qed.

(** C15: whatever the command line and however argp cuts it, a command that
    [parse_docker_cmd] returns is well formed: every name is a valid name that
    cannot leave its directory, a container to run has an image, a command of 1
    to 127 words, limits and ports in range, at most 128 volumes, ports and
    variables, each of them valid, and is not both detached and interactive;
    networks have a CIDR that parses; the time to stop is at most an hour. *)
Theorem parse_docker_cmd_wellformed argv :
  wp (free (λ (_ : unit) _ _, tt)) (parse_docker_cmd argp_parse argv) (λ r _, ∀ c, r = Parsed c → wellformed c) tt.
Proof.
  unfold parse_docker_cmd. destruct argv as [|name [|action arguments]]; [done|done|].
  destruct (bool_decide _); [|apply wp_ret; intros c; apply parse_other_ok].
  apply wp_bind, wp_observe; [done|]. intros now. apply wp_ret. intros c. apply parse_run_ok.
Qed.
End Parsed.

(** ** The command line of docker run *)

Lemma run_after_image argv events : ∀ a, is_Some (run_image a) → run_parser (docker_run_parse_func argv) a events = Parsed a.
Proof.
  induction events as [|e events IH]; intros a [image Hi]; cbn [run_parser]; [done|].
  assert (E : docker_run_parse_func argv a e = Parsed a) by (unfold docker_run_parse_func; by rewrite Hi).
  rewrite E. by apply IH; exists image.
Qed.

Lemma run_parser_app {A} f (a : A) e1 e2 : run_parser f a (e1 ++ e2) = (run_parser f a e1 ≫= λ a, run_parser f a e2).
Proof.
  revert a. induction e1 as [|e e1 IH]; intros a; cbn [run_parser app]; [done|].
  destruct (f a e) as [a'| |]; [apply IH|done|done].
Qed.

Definition is_argument (e : argp_event) : bool := match e with ArgEvent _ _ => true | _ => false end.

Lemma options_keep_command argv events : ∀ a a', Forall (λ e, is_argument e = false) events →
  run_image a = None → run_argv a = [] → run_parser (docker_run_parse_func argv) a events = Parsed a' →
  run_image a' = None ∧ run_argv a' = [].
Proof.
  intros a a' He Hi Ha. revert He.
  induction events as [|e events IH] in a, Hi, Ha |- *; intros He; cbn [run_parser]; [by intros [= <-]|].
  apply Forall_cons in He as [He Hes]. rewrite outcome_bind_Parsed. intros (x & Hx & H).
  assert (run_image x = None ∧ run_argv x = []) as [Hi' Ha']; [|by eapply IH].
  unfold docker_run_parse_func in Hx. rewrite Hi in Hx. destruct e as [key arg|arg next|]; [|done|by injection Hx as <-].
  unfold run_option in Hx. repeat (match type of Hx with (if ?b then _ else _) = _ => destruct b end);
    rewrite ?exit_if_Parsed, ?outcome_bind_Parsed in Hx; first [naive_solver | by destruct Hx as (_ & [h p] & _ & [= <-])].
Qed.

(** C38: the command of a container is what follows the image on the command
    line, whatever it looks like: the first word that is no option is the image,
    the words after it are the command, word for word ([next] is where argp says
    the rest begins), and every other part of the command is what the options
    before the image have set: nothing that follows the image sets an option. *)
Theorem docker_run_words argp_parse now argv options image next rest :
  Forall (λ e, is_argument e = false) options →
  argp_parse docker_run_argp argv = options ++ ArgEvent image next :: rest →
  ∀ c, parse_run argp_parse now argv = Parsed c →
  ∃ before,
    run_parser (docker_run_parse_func argv) (run_defaults now) options = Parsed before ∧
    run_image before = None ∧ c = CmdRun (with_command image (drop next argv) before).
Proof.
  intros Ho Hargp c. unfold parse_run. rewrite Hargp, outcome_bind_Parsed. intros (a & Ha & H).
  rewrite !exit_if_Parsed in H. destruct H as (_ & _ & [= <-]).
  rewrite run_parser_app in Ha. apply outcome_bind_Parsed in Ha as (b & Hb & Ha). exists b. split; [done|].
  apply options_keep_command in Hb as [Hi Hv]; [|done..]. split; [done|]. cbn [run_parser] in Ha.
  apply outcome_bind_Parsed in Ha as (d & Hd & Ha). unfold docker_run_parse_func in Hd. rewrite Hi in Hd.
  apply exit_if_Parsed in Hd as [_ [= <-]]. rewrite run_after_image in Ha by done. injection Ha as <-.
  by rewrite Hv.
Qed.

(** [run -d busybox sh -c id], where argp also calls back for the -c. *)
Lemma docker_run_words_witness :
  let argv := [lit "run"; lit "-d"; lit "busybox"; lit "sh"; lit "-c"; lit "id"] in
  let argp_parse := λ _ _, [OptionEvent "d" []; ArgEvent (lit "busybox") 3; OptionEvent "c" (lit "id")] in
  ∃ c, parse_run argp_parse 1700000000 argv = Parsed c ∧
  ∃ before, run_parser (docker_run_parse_func argv) (run_defaults 1700000000) [OptionEvent "d" []] = Parsed before ∧
    run_image before = None ∧ c = CmdRun (with_command (lit "busybox") [lit "sh"; lit "-c"; lit "id"] before).
Proof.
  eexists. split; [vm_compute; reflexivity|].
  apply (docker_run_words (λ _ _, [OptionEvent "d" []; ArgEvent (lit "busybox") 3; OptionEvent "c" (lit "id")]) 1700000000
    [lit "run"; lit "-d"; lit "busybox"; lit "sh"; lit "-c"; lit "id"] [OptionEvent "d" []] (lit "busybox") 3
    [OptionEvent "c" (lit "id")]).
  - repeat constructor.
  - reflexivity.
  - vm_compute; reflexivity.
Defined.

(** ** Two limits of the parser *)

(** The value of a variable ends at its first "=". *)
Lemma env_value_cut :
  parse_key_val_pair (lit "OPTS=a=b") (lit "=") = KeyVal (Some (lit "OPTS")) (Some (lit "a")).
Proof. reflexivity. Qed.

(** 128 names of containers to stop overflow the array of names. *)
Lemma stop_names_overflow argp_parse names :
  length names = 128%nat → argp_parse docker_stop_argp (lit "stop" :: names) = [ArgEvent (default [] (head names)) 2] →
  parse_other argp_parse (lit "stop") names = Overflow.
Proof.
  intros Hn Ha. destruct names as [|n names]; [done|]. unfold parse_other.
  rewrite !bool_decide_eq_false_2 by done. rewrite bool_decide_eq_true_2 by done.
  unfold parse_stop. rewrite Ha. cbn [run_parser]. unfold docker_stop_parse_func. cbn [stop_names].
  cbn [Nat.sub drop]. by rewrite Hn.
Qed.
