(* ===== verification/Main.v ===== *)
(** * main.c: running the command

    [main], and what holds of every command it runs. *)
From S2P Require Import Prelude CString Paths Safety StatusCodec NetworkState CgroupParse Sys Resources Process Fs Config Cgroup.
From S2P Require Import NetworkStore Network StatusInfo Volumes Workspace Container Commands CmdParser.
From Stdlib Require Import Lia.

Section Main.
Context {D : Digest} (environ : list cstr) (argp_parse : argp_parser → list cstr → list argp_event).

Definition EXIT_FAILURE : Z := 1.
(** A command that needs a set-up first. *)
Definition after (setup : prog Z) (command : prog Z) : prog Z :=
  ready ← setup;
  if negb (ready =? 0) then Ret (-1) else command.

(** [command_result]; -1 for a set-up that failed. *)
Definition run_command (c : docker_cmd) : prog Z :=
  match c with
  | CmdRun a => after init_docker_env (_ ← print_docker_cmds c; docker_run a)
  | CmdCommit a => _ ← print_docker_cmds c; docker_commit a
  | CmdPs a => _ ← print_docker_cmds c; docker_ps a
  | CmdTop a => _ ← print_docker_cmds c; docker_top a
  | CmdExec a => _ ← print_docker_cmds c; docker_exec environ a
  | CmdStop a => _ ← print_docker_cmds c; docker_stop a
  | CmdRm a => _ ← print_docker_cmds c; docker_rm a
  | CmdInspect a => docker_inspect a
  | CmdStats a => docker_stats a
  | CmdNetworkCreate a =>
      after init_runtime_dirs (_ ← print_docker_cmds c; create_network (nc_name a) (nc_cider a) (lit "bridge"))
  | CmdNetworkList => list_network
  | CmdNetworkRm a => _ ← print_docker_cmds c; remove_docker_network a
  end.

(** The value returned by [main]; [None] when the process has ended in
    [parse_docker_cmd] or C promises nothing. *)
Definition main (argv : list cstr) : prog (option Z) :=
  parsed ← parse_docker_cmd argp_parse argv;
  match parsed with
  | Parsed c =>
      command_result ← run_command c;
      Ret (Some (if command_result <? 0 then EXIT_FAILURE else command_result))
  | ExitFailure => _ ← call (Exit 255); Ret None
  | Overflow => Ret None
  end.
End Main.

(** ** Descriptors and children *)

Lemma balanced_print_cmds c : balanced (print_docker_cmds c).
Proof. destruct c; cbn [print_docker_cmds]; unfold print_all; balanced_auto. Qed.
Lemma balanced_remove_networks names : ∀ r, balanced (remove_networks names r).
Proof. induction names as [|n names IH]; intros r; cbn [remove_networks]; balanced_auto. Qed.
Lemma balanced_runtime_dirs : balanced init_runtime_dirs.
Proof. apply balanced_make_dirs. Qed.
Lemma balanced_list_network : balanced list_network.
Proof.
  assert (H : ∀ l, balanced (print_networks l)) by (induction l as [|r l IH]; cbn [print_networks]; balanced_auto).
  unfold list_network. balanced_auto.
Qed.
#[export] Hint Resolve balanced_runtime_dirs balanced_list_network balanced_print_cmds balanced_remove_networks balanced_stop balanced_rm : balanced.

Section MainResources.
Context {D : Digest} (environ : list cstr) (argp_parse : argp_parser → list cstr → list argp_event).

(** What running a command leaves: a child for a start in the background. *)
Definition leaves (c : docker_cmd) (r : Z) (w w' : held) : Prop :=
  w' = w ∨ r = 0 ∧ (∃ a, c = CmdRun a ∧ run_detach a = 1) ∧ ∃ pid, w' = add_child (Zpos pid) w.

Lemma run_command_leaves c w : wp resources (run_command environ c) (λ r w', leaves c r w w') w.
Proof.
  destruct c as [a| | | | | | | | | | |]; cbn [run_command];
    [|apply wp_balanced_end; [unfold after, remove_docker_network; balanced_auto|by left]..].
  unfold after. apply wp_balanced; [auto with balanced|]. intros ready.
  destruct (negb _); [by left|]. apply wp_balanced; [auto with balanced|]. intros _.
  eapply wp_mono; [|by apply docker_run_resources]. cbv beta. intros r w' [->|(-> & Hd & Hp)]; [by left|].
  right. split; [done|]. split; [by exists a|done].
Qed.

(** Only a command line that starts with run is parsed to [CmdRun]. *)
Lemma parse_other_no_run action arguments a : parse_other argp_parse action arguments ≠ Parsed (CmdRun a).
Proof.
  unfold parse_other, parse_one, parse_exec, parse_stop, parse_network.
  repeat (match goal with |- (if ?b then _ else _) ≠ _ => destruct b | |- (match ?l with _ => _ end) ≠ _ => destruct l end);
    try done; intros H;
    repeat (let x := fresh "x" in apply outcome_bind_Parsed in H as (x & _ & H);
      try (match type of H with (match x with _ => _ end) = _ => destruct x end));
    done.
Qed.

(** C1: whatever the command line and whatever the kernel answers, the program
    ends with the descriptors and children it was started with: on every path
    of every command each descriptor is closed once, none is used after it was
    closed, and each child (of [fork] or [clone]) has been waited for.  The one
    exception is [docker run -d] that succeeds: it returns 0 and leaves the
    running container as its only child. *)
Theorem main_resources argv w :
  wp resources (main environ argp_parse argv)
    (λ r w', w' = w ∨
       r = Some 0 ∧ (∃ pid, w' = add_child (Zpos pid) w) ∧
       ∃ name arguments now a, argv = name :: lit "run" :: arguments ∧
         parse_run argp_parse now (lit "run" :: arguments) = Parsed (CmdRun a) ∧ run_detach a = 1) w.
Proof.
  unfold main. apply wp_bind. apply (wp_mono _ _ (λ r w', w' = w ∧ ∀ a, r = Parsed (CmdRun a) →
    ∃ name arguments now, argv = name :: lit "run" :: arguments ∧
      parse_run argp_parse now (lit "run" :: arguments) = Parsed (CmdRun a))).
  - intros [c| |] w' [-> Hrun]; [|held_step; apply wp_ret; by left|by left].
    apply wp_bind. eapply wp_mono; [|apply run_command_leaves]. cbv beta.
    intros r w' [->|(-> & (a & -> & Hd) & Hp)]; apply wp_ret; [by left|]. right. split; [done|]. split; [done|].
    destruct (Hrun a eq_refl) as (name & arguments & now & E & H). by exists name, arguments, now, a.
  - unfold parse_docker_cmd. destruct argv as [|name [|action arguments]]; [by split|by split|].
    case_bool_decide as Ha.
    + subst action. held_step. apply wp_ret. split; [done|]. intros a' E. by exists name, arguments, a.
    + apply wp_ret. split; [done|]. intros a E. by apply parse_other_no_run in E.
Qed.
End MainResources.

(** ** Names that are refused *)

(** The name the options of docker run give, if they do: the argument of the
    last -n before the image. *)
Fixpoint given_name (events : list argp_event) : option cstr :=
  match events with
  | OptionEvent key arg :: rest =>
      match given_name rest with
      | Some name => Some name
      | None => if bool_decide (key = "n"%char) then Some arg else None
      end
  | OtherEvent :: rest => given_name rest
  | ArgEvent _ _ :: _ | [] => None
  end.
(** The first argument, and where the words after it begin. *)
Fixpoint first_argument (events : list argp_event) : option (cstr * nat) :=
  match events with
  | ArgEvent arg next :: _ => Some (arg, next)
  | _ :: rest => first_argument rest
  | [] => None
  end.

Section Named.
Context (argp_parse : argp_parser → list cstr → list argp_event).

(** The words of a command line that name containers; docker stop takes at
    most 127 of them (more overflow its array: [stop_names_overflow]). *)
Definition named_containers (action : cstr) (arguments : list cstr) : list cstr :=
  if bool_decide (action = lit "run") then
    option_list (given_name (argp_parse docker_run_argp (action :: arguments)))
  else if bool_decide (action = lit "exec") then
    option_list (fst <$> first_argument (argp_parse docker_exec_argp (action :: arguments)))
  else if bool_decide (action = lit "stop") then
    match first_argument (argp_parse docker_stop_argp (action :: arguments)) with
    | Some (_, next) =>
        let names := drop (next - 1) (action :: arguments) in
        if 127 <? Z.of_nat (length names) then [] else names
    | None => []
    end
  else if bool_decide (action = lit "commit") then take 1 arguments
  else if bool_decide (action ∈ [lit "top"; lit "rm"; lit "inspect"; lit "stats"]) then arguments
  else [].
(** Those that name networks. *)
Definition named_networks (action : cstr) (arguments : list cstr) : list cstr :=
  if bool_decide (action = lit "network") then
    match arguments with
    | sub :: rest =>
        if bool_decide (sub = lit "create") then take 1 rest
        else if bool_decide (sub = lit "rm") then rest else []
    | [] => []
    end
  else [].

(** One of the names is no name of its kind. *)
Definition misnamed (action : cstr) (arguments : list cstr) : Prop :=
  (∃ bad, bad ∈ named_containers action arguments ∧ td_validate_name (Some bad) 127 ≠ Ok tt) ∨
  (∃ bad, bad ∈ named_networks action arguments ∧ td_validate_name (Some bad) 15 ≠ Ok tt).
End Named.

(** A process that looks at the clock at most, and then ends with status 255. *)
Definition exiting : model bool :=
  observer (λ w c, w = false ∧ (c = Time ∨ c = Exit 255))
    (λ w c, match c with Exit _ => λ _, true | _ => λ _, w end).

(** Decides the comparisons of literal words. *)
Ltac decide_words :=
  repeat match goal with
  | |- context [@bool_decide (lit ?a = lit ?b) ?d] =>
      let v := eval vm_compute in (@bool_decide (lit a = lit b) d) in
      change (@bool_decide (lit a = lit b) d) with v
  end; cbv iota.

Section Refused.
Context {D : Digest} (environ : list cstr) (argp_parse : argp_parser → list cstr → list argp_event).

Lemma parse_one_refused arguments command bad :
  bad ∈ arguments → validate_container_name bad = false → parse_one arguments command = ExitFailure.
Proof.
  intros Hin Hbad. destruct arguments as [|name [|]]; [done| |done]. apply list_elem_of_singleton in Hin as ->.
  unfold parse_one. by rewrite Hbad.
Qed.

Lemma forallb_refused (f : cstr → bool) bad l : bad ∈ l → f bad = false → forallb f l = false.
Proof.
  intros Hin Hbad. apply not_true_iff_false. rewrite forallb_forall. intros H.
  rewrite H in Hbad; [done|]. by apply list_elem_of_In.
Qed.
Lemma bad_container bad : td_validate_name (Some bad) 127 ≠ Ok tt → validate_container_name bad = false.
Proof. intros H. apply not_true_iff_false. by intros ?%validated. Qed.
Lemma bad_network bad : td_validate_name (Some bad) 15 ≠ Ok tt → validate_network_name bad = false.
Proof. intros H. apply not_true_iff_false. by intros ?%validated_network. Qed.

(** *** Option parsers *)

Lemma run_parser_safe {A} (f : A → argp_event → outcome A) events :
  (∀ a e, f a e ≠ Overflow) → ∀ a, run_parser f a events ≠ Overflow.
Proof.
  intros Hf. induction events as [|e events IH]; intros a; cbn [run_parser]; [done|].
  pose proof (Hf a e). destruct (f a e); [apply IH|done|done].
Qed.
Lemma exit_if_safe {A} b (k : outcome A) : k ≠ Overflow → (_ ← exit_if b; k) ≠ Overflow.
Proof. by destruct b. Qed.

Lemma run_parse_safe argv a e : docker_run_parse_func argv a e ≠ Overflow.
Proof.
  unfold docker_run_parse_func. destruct (run_image a); [done|]. destruct e as [key arg| |]; [|by apply exit_if_safe|done].
  unfold run_option. repeat case_bool_decide; try done; repeat apply exit_if_safe; try done.
  - by destruct (td_parse_port_mapping _) as [[]|].
  - by destruct (td_parse_long _ _ _).
  - by destruct (td_parse_long _ _ _).
Qed.
Lemma exec_parse_safe argv st e : docker_exec_parse_func argv st e ≠ Overflow.
Proof.
  destruct st as [[name|] [d i t env n c]]; [done|]. destruct e as [key arg| |]; [|by apply exit_if_safe|done].
  cbn [docker_exec_parse_func]. repeat case_bool_decide; try done. by repeat apply exit_if_safe.
Qed.

Lemma run_option_name a key arg a' :
  run_option a key arg = Parsed a' →
  run_image a' = run_image a ∧ run_name a' = if bool_decide (key = "n"%char) then arg else run_name a.
Proof.
  unfold run_option. repeat case_bool_decide; subst; try done;
    rewrite ?exit_if_Parsed, ?outcome_bind_Parsed; try by intros [= <-].
  - by intros (_ & _ & [= <-]).
  - by intros (_ & [h c'] & _ & [= <-]).
  - by intros (v & _ & [= <-]).
  - by intros (v & _ & [= <-]).
  - by intros (_ & _ & [= <-]).
Qed.

Lemma run_parser_name argv events : ∀ a a',
  run_image a = None → run_parser (docker_run_parse_func argv) a events = Parsed a' →
  run_name a' = default (run_name a) (given_name events).
Proof.
  induction events as [|e events IH]; intros a a' Hi; cbn [run_parser]; [by intros [= <-]|].
  rewrite outcome_bind_Parsed. intros (x & Hx & H). unfold docker_run_parse_func in Hx. rewrite Hi in Hx.
  destruct e as [key arg|arg next|]; cbn [given_name].
  - apply run_option_name in Hx as [Hi' Hn]. rewrite (IH x a') by (by rewrite ?Hi'). rewrite Hn.
    destruct (given_name events); [done|]. by case_bool_decide.
  - apply exit_if_Parsed in Hx as [_ [= <-]]. rewrite run_after_image in H by done. by injection H as <-.
  - injection Hx as <-. by apply IH.
Qed.

Lemma exec_parser_name argv events arg next : ∀ a st,
  first_argument events = Some (arg, next) →
  run_parser (docker_exec_parse_func argv) (None, a) events = Parsed st → exec_name st.2 = arg.
Proof.
  assert (Hs : ∀ events name a, run_parser (docker_exec_parse_func argv) (Some name, a) events = Parsed (Some name, a)).
  { intros l name [d i t env n c]. induction l as [|e l IH]; [done|]. cbn. exact IH. }
  induction events as [|e events IH]; intros [d i t env n c] st Hf; [done|]. cbn [run_parser].
  rewrite outcome_bind_Parsed. intros (x & Hx & H). destruct e as [key w|w m|]; cbn [first_argument] in Hf.
  - assert (∃ a, x = (None, a)) as [a' ->]; [|by eapply IH].
    cbn [docker_exec_parse_func] in Hx. repeat case_bool_decide; try (injection Hx as <-; by eexists).
    rewrite !exit_if_Parsed in Hx. destruct Hx as (_ & _ & [= <-]). by eexists.
  - injection Hf as -> ->. cbn [docker_exec_parse_func] in Hx. apply exit_if_Parsed in Hx as [_ [= <-]].
    rewrite Hs in H. by injection H as <-.
  - cbn in Hx. injection Hx as <-. by eapply IH.
Qed.

Lemma stop_parser_names argv events arg next : ∀ a,
  stop_names a = [] → first_argument events = Some (arg, next) →
  drop (next - 1) argv ≠ [] → Z.of_nat (length (drop (next - 1) argv)) ≤ 127 →
  match run_parser (docker_stop_parse_func argv) a events with
  | Parsed a' => stop_names a' = drop (next - 1) argv
  | ExitFailure => True
  | Overflow => False
  end.
Proof.
  intros a Ha Hf Hne Hl. revert a Ha Hf.
  assert (Hs : ∀ events a, stop_names a ≠ [] → run_parser (docker_stop_parse_func argv) a events = Parsed a).
  { intros l a Ha. induction l as [|e l IH]; [done|]. cbn [run_parser].
    assert (E : docker_stop_parse_func argv a e = Parsed a); [|by rewrite E].
    unfold docker_stop_parse_func. by destruct (stop_names a). }
  induction events as [|e events IH]; intros a Ha Hf; [done|]. cbn [run_parser].
  destruct (docker_stop_parse_func argv a e) as [a'| |] eqn:E; cbn [mbind outcome_bind]; [|done|];
    unfold docker_stop_parse_func in E; rewrite Ha in E; destruct e as [key w|w m|]; cbn [first_argument] in Hf; try done.
  - apply IH; [|done]. case_bool_decide; [|by injection E as <-]. apply outcome_bind_Parsed in E as (v & _ & [= <-]). done.
  - injection Hf as -> ->. cbv zeta in E. destruct (_ <? _); [done|]. injection E as <-. by rewrite Hs.
  - injection E as <-. by apply IH.
  - case_bool_decide; [|done]. by destruct (td_parse_long _ _ _).
  - injection Hf as -> ->. cbv zeta in E. destruct (Z.ltb_spec 127 (Z.of_nat (length (drop (next - 1) argv)))); [lia|done].
Qed.

(** *** The commands *)

Lemma parse_run_refused now argv name :
  given_name (argp_parse docker_run_argp argv) = Some name → validate_container_name name = false →
  parse_run argp_parse now argv = ExitFailure.
Proof.
  intros Hn Hbad. unfold parse_run.
  pose proof (run_parser_safe (docker_run_parse_func argv) (argp_parse docker_run_argp argv) (run_parse_safe argv)
    (run_defaults now)) as Hs.
  destruct (run_parser _ _ _) as [a| |] eqn:E; [|done|done]. cbn [mbind outcome_bind].
  apply run_parser_name in E; [|done]. rewrite Hn in E. cbn [default from_option id] in E.
  destruct (docker_run_cmd_check a); cbn [negb exit_if mbind outcome_bind]; [|done]. by rewrite E, Hbad.
Qed.

Lemma parse_exec_refused argv arg next :
  first_argument (argp_parse docker_exec_argp argv) = Some (arg, next) → validate_container_name arg = false →
  parse_exec argp_parse argv = ExitFailure.
Proof.
  intros Hf Hbad. unfold parse_exec.
  pose proof (run_parser_safe (docker_exec_parse_func argv) (argp_parse docker_exec_argp argv) (exec_parse_safe argv)
    (None, ExecArguments 0 0 0 [] [] [])) as Hs.
  destruct (run_parser _ _ _) as [[name a]| |] eqn:E; [|done|done]. cbn [mbind outcome_bind].
  apply (exec_parser_name _ _ _ _ _ _ Hf) in E. cbn [snd] in E.
  destruct (_ || _); cbn [exit_if mbind outcome_bind]; [done|]. by rewrite E, Hbad.
Qed.

Lemma parse_stop_refused argv arg next bad :
  first_argument (argp_parse docker_stop_argp argv) = Some (arg, next) →
  bad ∈ drop (next - 1) argv → Z.of_nat (length (drop (next - 1) argv)) ≤ 127 → validate_container_name bad = false →
  parse_stop argp_parse argv = ExitFailure.
Proof.
  intros Hf Hin Hl Hbad. unfold parse_stop.
  pose proof (stop_parser_names argv (argp_parse docker_stop_argp argv) arg next (StopArguments 10 [])) as H.
  specialize (H eq_refl Hf ltac:(by intros E; rewrite E in Hin; apply not_elem_of_nil in Hin) Hl).
  destruct (run_parser _ _ _) as [a| |]; [|done|done]. cbn [mbind outcome_bind].
  destruct (_ || _); cbn [exit_if mbind outcome_bind]; [done|]. by rewrite H, (forallb_refused _ bad).
Qed.

Lemma parse_other_refused action arguments :
  action ≠ lit "run" → misnamed argp_parse action arguments → parse_other argp_parse action arguments = ExitFailure.
Proof.
  intros Hrun [(bad & Hin & Hbad%bad_container)|(bad & Hin & Hbad%bad_network)].
  - unfold named_containers in Hin. rewrite (bool_decide_eq_false_2 _ Hrun) in Hin.
    case_bool_decide as He; [subst; unfold parse_other; decide_words|].
    { destruct (first_argument _) as [[arg next]|] eqn:Hf; cbn in Hin; [|by apply not_elem_of_nil in Hin].
      apply list_elem_of_singleton in Hin as ->. by eapply parse_exec_refused. }
    case_bool_decide as Hs; [subst; unfold parse_other; decide_words|].
    { destruct arguments as [|a0 l0] eqn:Ea; [done|]. rewrite <-Ea in *. clear Ea.
      destruct (first_argument _) as [[arg next]|] eqn:Hf; [|by apply not_elem_of_nil in Hin]. cbv zeta in Hin.
      destruct (Z.ltb_spec 127 (Z.of_nat (length (drop (next - 1) (lit "stop" :: arguments)))));
        [by apply not_elem_of_nil in Hin|]. by eapply parse_stop_refused. }
    case_bool_decide as Hc; [subst; unfold parse_other; decide_words|].
    { destruct arguments as [|name [|path [|]]]; try done; apply list_elem_of_singleton in Hin as ->; by rewrite Hbad. }
    case_bool_decide as Ha; [|by apply not_elem_of_nil in Hin]. unfold parse_other.
    repeat (apply elem_of_cons in Ha as [->|Ha]); [..|by apply not_elem_of_nil in Ha];
      decide_words; try by eapply parse_one_refused.
    destruct arguments as [|name rest]; [done|]. by rewrite (forallb_refused _ bad).
  - unfold named_networks in Hin. case_bool_decide as Hn; [|by apply not_elem_of_nil in Hin].
    subst. unfold parse_other. decide_words. unfold parse_network.
    destruct arguments as [|sub rest]; [done|]. case_bool_decide as Hc.
    + destruct rest as [|name [|cider [|]]]; try done. apply list_elem_of_singleton in Hin as ->. by rewrite Hbad.
    + case_bool_decide as Hr; [|by apply not_elem_of_nil in Hin]. subst. decide_words.
      destruct rest as [|n rest]; [done|]. by rewrite (forallb_refused _ bad).
Qed.

(** C27: a command line that gives a container or a network a bad name (empty,
    too long, or with a character such as a slash) is refused before anything is
    done, the other names of the line included: the name of [run -n], that of
    [exec], each of those of [stop], [rm] and [network rm], and those of
    [commit], [top], [inspect], [stats] and [network create].  The whole run of
    the program is a look at the clock, for [run] only, and [exit(255)]. *)
Theorem bad_names_refused program action arguments :
  misnamed argp_parse action arguments →
  wp exiting (main environ argp_parse (program :: action :: arguments)) (λ r w, r = None ∧ w = true) false.
Proof.
  intros Hbad. unfold main, parse_docker_cmd. case_bool_decide as Hr.
  - subst action. apply wp_bind, wp_bind, wp_observe; [by auto|]. intros now. apply wp_ret.
    rewrite parse_run_refused with (name := default [] (given_name (argp_parse docker_run_argp (lit "run" :: arguments)))).
    + apply wp_bind, wp_observe; [by auto|]. intros ?. by apply wp_ret.
    + destruct Hbad as [(bad & Hin & _)|(bad & Hin & _)]; [|by apply not_elem_of_nil in Hin].
      unfold named_containers in Hin. change (bool_decide (lit "run" = lit "run")) with true in Hin. cbv iota in Hin.
      by destruct (given_name _); [|apply not_elem_of_nil in Hin].
    + destruct Hbad as [(bad & Hin & Hbad%bad_container)|(bad & Hin & _)]; [|by apply not_elem_of_nil in Hin].
      unfold named_containers in Hin. change (bool_decide (lit "run" = lit "run")) with true in Hin. cbv iota in Hin.
      destruct (given_name _); [|by apply not_elem_of_nil in Hin]. by apply list_elem_of_singleton in Hin as <-.
  - rewrite parse_other_refused by done. apply wp_bind, wp_ret. apply wp_bind, wp_observe; [by auto|]. intros ?. by apply wp_ret.
Qed.
End Refused.

(** [run -n ../etc busybox sh] and [rm web ../etc] *)
Lemma bad_names_refused_witness :
  wp exiting (main (D := plain_digest) [] (λ _ _, [OptionEvent "n" (lit "../etc"); ArgEvent (lit "busybox") 4])
      [lit "tinydocker"; lit "run"; lit "-n"; lit "../etc"; lit "busybox"; lit "sh"]) (λ r w, r = None ∧ w = true) false ∧
  wp exiting (main (D := plain_digest) [] (λ _ _, []) [lit "tinydocker"; lit "rm"; lit "web"; lit "../etc"])
    (λ r w, r = None ∧ w = true) false.
Proof.
  split.
  - apply (bad_names_refused (D := plain_digest) [] (λ _ _, [OptionEvent "n" (lit "../etc"); ArgEvent (lit "busybox") 4])
      (lit "tinydocker") (lit "run") [lit "-n"; lit "../etc"; lit "busybox"; lit "sh"]).
    left. exists (lit "../etc"). split; [|vm_compute; discriminate].
    change (lit "../etc" ∈ [lit "../etc"]). by apply elem_of_cons; left.
  - apply (bad_names_refused (D := plain_digest) [] (λ _ _, []) (lit "tinydocker") (lit "rm") [lit "web"; lit "../etc"]).
    left. exists (lit "../etc"). split; [|vm_compute; discriminate].
    change (lit "../etc" ∈ [lit "web"; lit "../etc"]). apply elem_of_cons. right. by apply elem_of_cons; left.
Defined.
