(* ===== verification/Terminate.v ===== *)
(** * Every command ends

    Apart from [docker run], which hashes an image of any size and waits for
    its container, and [docker ps], which lists a directory of any size, every
    command ends under every kernel that interrupts it finitely often; and
    [docker stop] sleeps no longer than it was told to. *)
From S2P Require Import Prelude CString Paths Safety StatusCodec NetworkState CgroupParse Sys Resources Process Fs Config Cgroup.
From S2P Require Import NetworkStore Network StatusInfo Volumes Workspace Container Commands CmdParser Main.
From Stdlib Require Import Lia.

#[local] Hint Resolve td_capture_command_terminates : terminates.

(** ** Loops *)

Lemma terminates_waitpid pid : terminates (retry_intr (call (Waitpid pid))).
Proof.
  apply (terminates_iter (λ _ : unit, True) (λ _, O)); [done|]. intros [] n _.
  apply twp_call_bind. intros r n'. cbn [answered patient interrupted].
  destruct (failed_with r EINTR); intros ->; cbn; split; lia || done.
Qed.

Lemma terminates_retry_read fd count : terminates (retry_intr (sys_read fd count)).
Proof.
  apply (terminates_iter (λ _ : unit, True) (λ _, O)); [done|]. intros [] n _. unfold sys_read.
  apply twp_bind, twp_call_bind. intros r n'. cbn [answered patient interrupted].
  destruct r as [d|e]; cbn [failed_with]; [done|]. destruct (e =? EINTR) eqn:E; intros ->; unfold twp; cbn [failed_with];
    rewrite E; [split; [done|lia]|done].
Qed.

(** A loop that appends what it reads to a text no longer than [limit]. *)
Lemma twp_reading {A} fd count (text : cstr) (limit : Z) (next : sysret cstr → cstr + A) n :
  strlen text < limit →
  (∀ d, d ≠ [] → next (SOk d) = inl (text ++ d)) → (∃ a, next (SOk []) = inr a) →
  (next (SErr EINTR) = inl text) → (∀ e, e ≠ EINTR → ∃ a, next (SErr e) = inr a) →
  twp patient (r ← sys_read fd count; Ret (next r)) (λ r n', match r with
    | inl text' => True ∧ (Z.to_nat (limit - strlen text') + n' < Z.to_nat (limit - strlen text) + n)%nat
    | inr _ => True end) n.
Proof.
  intros Hl Hd [a0 H0] Hi He. apply twp_bind. unfold sys_read. apply twp_call_bind. intros r n'.
  cbn [answered patient interrupted]. destruct r as [d|e]; cbn [failed_with]; unfold twp.
  - intros ->. set (t := take _ d). destruct (decide (t = [])) as [->|Ht]; [by rewrite H0|]. rewrite (Hd t Ht).
    assert (0 < strlen t) by (destruct t; [done|]; rewrite strlen_cons; pose proof (strlen_nonneg t); lia).
    rewrite strlen_app. split; [done|]. lia.
  - destruct (Z.eqb_spec e EINTR) as [->|Hne]; intros ->; [rewrite Hi; split; [done|]; lia|].
    by destruct (He e Hne) as [b ->].
Qed.

Lemma terminates_alias fd size : terminates (iter (alias_turn fd size) []).
Proof.
  apply (terminates_iter (λ _, True) (λ a : cstr, Z.to_nat (size - strlen a))); [done|]. intros a n _.
  unfold alias_turn. case Z.ltb_spec; intros Hlt; [|done].
  apply (twp_reading fd _ a size (λ r, match r with
    | SErr e => if e =? EINTR then inl a else inr None
    | SOk data => if nonempty data then inl (a ++ data) else inr (Some a) end)); [lia| |by eexists|done|].
  - by intros [|].
  - intros e He. apply Z.eqb_neq in He. rewrite He. by eexists.
Qed.

Lemma terminates_environ fd : terminates (iter (environ_turn fd) ([], 4096)).
Proof.
  apply (terminates_iter (λ st, 0 < st.2 ∧ strlen st.1 ≤ st.2 ≤ MAX_ENV_BYTES) (λ st, Z.to_nat (MAX_ENV_BYTES + 1 - strlen st.1))).
  { by vm_compute. }
  intros [contents capacity] n Hc. cbn [fst snd] in Hc. unfold environ_turn. cbv zeta. apply twp_bind.
  apply (twp_mono _ _ (λ r n', n' = n ∧ ∀ c, r = Some c → strlen contents < c ≤ MAX_ENV_BYTES)).
  2:{ case Z.eqb_spec; intros Hu; [|split; [done|]; intros ? [= <-]; lia].
      case Z.ltb_spec; intros Hm; [done|]. apply twp_call_bind. intros [|] n' ->; (split; [done|]); [|done].
      intros ? [= <-]. lia. }
  intros [c|] n' [-> Hr]; [|done]. specialize (Hr c eq_refl).
  apply twp_bind. unfold sys_read. apply twp_call_bind. intros r n'. cbn [answered patient interrupted].
  destruct r as [d|e]; cbn [failed_with]; unfold twp.
  - intros ->. set (t := take _ d). destruct t eqn:Et; cbn [nonempty]; [done|]. rewrite <-Et.
    assert (0 < strlen t) by (rewrite Et, strlen_cons; pose proof (strlen_nonneg l); lia).
    assert (strlen t ≤ c - strlen contents).
    { unfold t, strlen in *. rewrite length_take. lia. }
    cbn [fst snd]. rewrite strlen_app. pose proof (strlen_nonneg contents). lia.
  - destruct (e =? EINTR); intros ->; [|done]. cbn [fst snd]. pose proof (strlen_nonneg contents). lia.
Qed.
#[local] Hint Resolve terminates_waitpid terminates_retry_read terminates_alias terminates_environ : terminates.

(** ** Components *)

Lemma terminates_load_env environ pid user : terminates (load_process_env environ pid user).
Proof.
  assert (Hu : ∀ l envs, terminates (add_user_envs envs l)) by (induction l as [|x l IH]; intros envs; cbn [add_user_envs]; terminates_auto).
  assert (Hc : ∀ l envs, terminates (copy_entries envs l)) by (induction l as [|x l IH]; intros envs; cbn [copy_entries]; terminates_auto).
  unfold load_process_env, process_environ. terminates_auto.
Qed.
Lemma terminates_members name capacity : terminates (get_container_processes_id name capacity).
Proof. unfold get_container_processes_id, path_exist. terminates_auto. Qed.
Lemma terminates_put_info fd info : terminates (put_container_info fd info).
Proof.
  assert (H : ∀ l, terminates (put_volumes fd l)) by (induction l as [|v l IH]; cbn [put_volumes]; terminates_auto).
  unfold put_container_info. terminates_auto.
Qed.
Lemma terminates_make_prefixes rest : ∀ before, terminates (make_prefixes before rest).
Proof. induction rest as [|c rest IH]; intros before; cbn [make_prefixes]; unfold path_exist; terminates_auto. Qed.
#[local] Hint Resolve terminates_load_env terminates_members terminates_put_info terminates_make_prefixes : terminates.
Lemma terminates_ready dir : terminates (directory_ready dir).
Proof. unfold directory_ready, path_exist, make_path. terminates_auto; unfold path_exist; terminates_auto. Qed.
Lemma terminates_open_info fd name l : ∀ t, terminates (open_temporary_info fd name l t).
Proof. induction l as [|n l IH]; intros t; cbn [open_temporary_info]; terminates_auto. Qed.
#[local] Hint Resolve terminates_ready terminates_open_info : terminates.
Lemma terminates_write_info name info : terminates (write_container_info name info).
Proof. unfold write_container_info, publish_info, when, discard. terminates_auto. Qed.
Lemma terminates_read_info name : terminates (read_container_info name).
Proof. unfold read_container_info, load_metadata. terminates_auto. Qed.
#[local] Hint Resolve terminates_write_info terminates_read_info : terminates.
Lemma terminates_refresh name info : terminates (refresh_container_status_if_needed name info).
Proof.
  unfold refresh_container_status_if_needed, process_identity, read_process_start_time. terminates_auto.
Qed.
Lemma terminates_update name status : terminates (update_container_status name status).
Proof. unfold update_container_status. terminates_auto. Qed.
#[local] Hint Resolve terminates_refresh terminates_update : terminates.

(** Interfaces, rules and addresses. *)
Lemma terminates_verify name alias b : terminates (verify_interface_ownership name alias b).
Proof.
  unfold verify_interface_ownership, read_interface_alias, if_nametoindex, path_exist. terminates_auto.
Qed.
Lemma terminates_run_all l : terminates (run_all l).
Proof. induction l as [|c l IH]; cbn [run_all]; terminates_auto. Qed.
#[local] Hint Resolve terminates_verify terminates_run_all : terminates.
Lemma terminates_release name ip : terminates (release_used_ip name ip).
Proof. apply (network_store_terminates name ip demo_network 0). Qed.
Lemma terminates_store name network :
  terminates (add_network_info network) ∧ terminates (delete_network_info name) ∧
  terminates (read_network_info name) ∧ terminates (network_info_exists name).
Proof. split_and!; apply (network_store_terminates name [] network 0). Qed.
#[local] Hint Extern 1 (terminates (add_network_info _)) => apply (terminates_store []) : terminates.
#[local] Hint Extern 1 (terminates (delete_network_info _)) => apply (terminates_store _ demo_network) : terminates.
#[local] Hint Extern 1 (terminates (read_network_info _)) => apply (terminates_store _ demo_network) : terminates.
#[local] Hint Extern 1 (terminates (network_info_exists _)) => apply (terminates_store _ demo_network) : terminates.
#[local] Hint Resolve terminates_release : terminates.
Lemma terminates_disconnect container network : terminates (disconnect_container container network).
Proof.
  unfold disconnect_container, delete_owned_veth, net_has_exist, if_nametoindex, discard. terminates_auto.
Qed.
Lemma terminates_unset ip : terminates (unset_container_port_map ip).
Proof.
  assert (H : ∀ chain prefix l r, terminates (delete_matching chain prefix l r)).
  { induction l as [|x l IH]; intros r; cbn [delete_matching]; terminates_auto. }
  unfold unset_container_port_map, delete_dnat_rules_for_chain. terminates_auto.
Qed.
Lemma terminates_create_network name cidr driver : terminates (create_network name cidr driver).
Proof.
  unfold create_network, create_bridge, delete_created, delete_owned_bridge, net_has_exist, if_nametoindex, path_exist,
    when, discard.
  terminates_auto.
Qed.
Lemma terminates_delete_network name : terminates (delte_network name).
Proof. unfold delte_network, delete_owned_bridge, net_has_exist, if_nametoindex, path_exist. terminates_auto. Qed.
#[local] Hint Resolve terminates_disconnect terminates_unset terminates_create_network terminates_delete_network : terminates.
Lemma terminates_remove_networks l : ∀ r, terminates (remove_networks l r).
Proof. induction l as [|n l IH]; intros r; cbn [remove_networks]; terminates_auto. Qed.
Lemma terminates_list_network : terminates list_network.
Proof.
  assert (H : ∀ l, terminates (print_networks l)) by (induction l as [|r l IH]; cbn [print_networks]; terminates_auto).
  unfold list_network. terminates_auto.
Qed.
#[local] Hint Resolve terminates_remove_networks terminates_list_network : terminates.

(** Containers. *)
Lemma terminates_umount m l : terminates (umount_volumes m l).
Proof.
  assert (H : ∀ l r, terminates (umount_each m l r)) by (clear l; induction l as [|v l IH]; intros r; cbn [umount_each]; terminates_auto).
  unfold umount_volumes. terminates_auto.
Qed.
Lemma terminates_remove_group name : terminates (remove_cgroup name).
Proof. unfold remove_cgroup, path_exist. terminates_auto. Qed.
Lemma terminates_remove_dir path : terminates (remove_dir path).
Proof. unfold remove_dir, td_remove_tree. terminates_auto. Qed.
Lemma terminates_forget name : terminates (remove_status_info name).
Proof. unfold remove_status_info. terminates_auto. Qed.
#[local] Hint Resolve terminates_umount terminates_remove_group terminates_remove_dir terminates_forget : terminates.
Lemma terminates_clean name info : terminates (clean_container_runtime name info).
Proof. unfold clean_container_runtime, load_volumes, umount_root, release_network. terminates_auto. Qed.
Lemma terminates_count name n : terminates (container_process_count name n).
Proof. unfold container_process_count, path_exist. terminates_auto. Qed.
#[local] Hint Resolve terminates_clean terminates_count : terminates.
Lemma terminates_poll n name : ∀ c, terminates (poll_members n name c).
Proof. induction n as [|n IH]; intros c; cbn [poll_members]; terminates_auto. Qed.
Lemma terminates_signal name signal : terminates (signal_container_processes name signal).
Proof.
  assert (H : ∀ l r, terminates (signal_each signal l r)) by (induction l as [|p l IH]; intros r; cbn [signal_each]; terminates_auto).
  unfold signal_container_processes. terminates_auto.
Qed.
#[local] Hint Resolve terminates_poll terminates_signal : terminates.
Lemma terminates_stop time l : ∀ r, terminates (stop_each time l r).
Proof. induction l as [|n l IH]; intros r; cbn [stop_each]; unfold stop_one, kill_remaining; terminates_auto. Qed.
Lemma terminates_rm l : ∀ r, terminates (rm_each l r).
Proof. induction l as [|n l IH]; intros r; cbn [rm_each]; unfold rm_one, container_exists, path_exist; terminates_auto. Qed.
#[local] Hint Resolve terminates_stop terminates_rm : terminates.
Lemma terminates_value path file size : terminates (read_cgroup_value path file size).
Proof. unfold read_cgroup_value, path_exist. terminates_auto. Qed.
Lemma terminates_cpu path size : terminates (read_cpu_usage_usec path size).
Proof. unfold read_cpu_usage_usec, path_exist. terminates_auto. Qed.
Lemma terminates_dirs l : terminates (make_dirs l).
Proof. induction l as [|d l IH]; cbn [make_dirs]; terminates_auto. Qed.
#[local] Hint Resolve terminates_value terminates_cpu terminates_dirs : terminates.

(** Commands. *)
Lemma terminates_print_all l : terminates (print_all l).
Proof. unfold print_all. auto with terminates. Qed.
#[local] Hint Resolve terminates_print_all : terminates.
Lemma terminates_commit args : terminates (docker_commit args).
Proof. unfold docker_commit, create_tar, path_exist. terminates_auto. Qed.
Lemma terminates_top args : terminates (docker_top args).
Proof. unfold docker_top. terminates_auto. Qed.
Lemma terminates_exec environ args : terminates (docker_exec environ args).
Proof. unfold docker_exec, run_worker. terminates_auto. Qed.
Lemma terminates_inspect args : terminates (docker_inspect args).
Proof. unfold docker_inspect, path_exist. terminates_auto. Qed.
Lemma terminates_stats args : terminates (docker_stats args).
Proof. unfold docker_stats, path_exist. terminates_auto. Qed.
Lemma terminates_print_cmds c : terminates (print_docker_cmds c).
Proof. destruct c; cbn [print_docker_cmds]; terminates_auto. Qed.
#[local] Hint Resolve terminates_commit terminates_top terminates_exec terminates_inspect terminates_stats
  terminates_print_cmds : terminates.

(** C3: every command but [docker run] and [docker ps] ends under every kernel
    that interrupts it finitely often: no answer of the kernel, no content of a
    file or pipe (an endless environment, alias or rule list included) and no
    container that refuses to die keeps it in a loop.  The two left out read an
    image and a directory to their ends, which nothing in the code bounds. *)
Theorem commands_terminate {D : Digest} environ c :
  match c with
  | CmdRun _ | CmdPs _ => True
  | _ => terminates (run_command environ c)
  end.
Proof.
  destruct c; try exact I; cbn [run_command]; unfold after, docker_stop, docker_rm, init_runtime_dirs, remove_docker_network;
    terminates_auto.
Qed.

(** ** How long docker stop waits *)

Definition awake (c : syscall) : bool := match c with Nanosleep _ => false | _ => true end.
(** The time slept so far, in nanoseconds. *)
Definition napping : model Z := free (λ n c _, match c with Nanosleep t => n + t | _ => n end).

Lemma awake_naps {A} (p : prog A) n : only awake p → wp napping p (λ _ n', n' = n) n.
Proof.
  intros Hp. apply (only_sound _ awake (λ n', n' = n)); [done| |exact Hp|done].
  intros w c a w' -> Hc ->. by destruct c.
Qed.

Lemma awake_members name capacity : only awake (get_container_processes_id name capacity).
Proof. unfold get_container_processes_id, path_exist. only_auto. Qed.
Lemma awake_put fd info : only awake (put_container_info fd info).
Proof.
  assert (H : ∀ l, only awake (put_volumes fd l)) by (induction l as [|v l IH]; cbn [put_volumes]; only_auto).
  unfold put_container_info. only_auto.
Qed.
Lemma awake_prefixes rest : ∀ before, only awake (make_prefixes before rest).
Proof. induction rest as [|c rest IH]; intros before; cbn [make_prefixes]; unfold path_exist; only_auto. Qed.
Lemma awake_open_info fd name l : ∀ t, only awake (open_temporary_info fd name l t).
Proof. induction l as [|n l IH]; intros t; cbn [open_temporary_info]; only_auto. Qed.
#[local] Hint Resolve awake_members awake_put awake_prefixes awake_open_info : only.
Lemma awake_write_info name info : only awake (write_container_info name info).
Proof.
  unfold write_container_info, directory_ready, make_path, publish_info, path_exist, when, discard. only_auto.
Qed.
Lemma awake_read_info name : only awake (read_container_info name).
Proof. unfold read_container_info, load_metadata, read_exactly, read_turn, sys_read. only_auto. Qed.
#[local] Hint Resolve awake_write_info awake_read_info : only.
Lemma awake_refresh name info : only awake (refresh_container_status_if_needed name info).
Proof. unfold refresh_container_status_if_needed, process_identity, read_process_start_time. only_auto. Qed.
Lemma awake_update name status : only awake (update_container_status name status).
Proof. unfold update_container_status. only_auto. Qed.
Lemma awake_count name n : only awake (container_process_count name n).
Proof. unfold container_process_count, path_exist. only_auto. Qed.
#[local] Hint Resolve awake_refresh awake_update awake_count : only.
Lemma awake_signal name signal : only awake (signal_container_processes name signal).
Proof.
  assert (H : ∀ l r, only awake (signal_each signal l r)) by (induction l as [|p l IH]; intros r; cbn [signal_each]; only_auto).
  unfold signal_container_processes. only_auto.
Qed.
#[local] Hint Resolve awake_signal : only.

(** A part that does not sleep, then the rest. *)
Lemma napping_awake {A B} (p : prog A) (k : A → prog B) Q n :
  only awake p → (∀ a, wp napping (k a) Q n) → wp napping (p ≫= k) Q n.
Proof. intros Hp H. apply wp_bind. eapply wp_mono; [|by apply awake_naps]. by intros a n' ->. Qed.

Lemma poll_naps polls name : ∀ count n,
  wp napping (poll_members polls name count) (λ _ n', n' ≤ n + Z.of_nat polls * 100000000) n.
Proof.
  induction polls as [|polls IH]; intros count n; cbn [poll_members]; [apply wp_ret; lia|].
  destruct (_ <? _); [|apply wp_ret; lia]. apply wp_bind, wp_observe; [done|]. intros []. unfold poll_interval. cbv beta.
  apply napping_awake; [auto with only|]. intros members. eapply wp_mono; [|apply IH]. cbv beta. lia.
Qed.

Lemma stop_one_naps time name n : wp napping (stop_one time name) (λ _ n', n' ≤ n + Z.of_nat (poll_limit time + 20) * 100000000) n.
Proof.
  unfold stop_one. apply napping_awake; [auto with only|]. intros [info|]; [|apply wp_ret; lia].
  apply napping_awake; [auto with only|]. intros [refreshed info']. destruct (_ <? _); [apply wp_ret; lia|].
  destruct (negb _); [apply wp_ret; lia|]. apply napping_awake; [auto with only|]. intros signalled.
  destruct (negb _); [apply wp_ret; lia|]. apply napping_awake; [auto with only|]. intros members.
  apply wp_bind. eapply wp_mono; [|apply poll_naps]. cbv beta. intros count n1 H1.
  apply wp_bind. apply (wp_mono _ _ (λ _ n', n' ≤ n1 + 20 * 100000000)).
  2:{ unfold kill_remaining. destruct (_ <? _); [|apply wp_ret; lia]. apply napping_awake; [auto with only|].
      intros killed. destruct (negb _); [apply wp_ret; lia|]. apply wp_bind. eapply wp_mono; [|apply poll_naps].
      cbv beta. intros r n' H. apply wp_ret. lia. }
  intros [remaining|] n2 H2; [|apply wp_ret; lia]. destruct (negb _); [apply wp_ret; lia|].
  apply napping_awake; [auto with only|]. intros updated. apply wp_ret. lia.
Qed.

(** C6: [docker stop] gives every container the grace time asked for and no
    more: for each container named it sleeps at most [time + 2] seconds in all,
    whatever the containers do. *)
Theorem docker_stop_waits args :
  wp napping (docker_stop args)
    (λ _ n, n ≤ Z.of_nat (length (stop_names args)) * (Z.max 0 (stop_time args) + 2) * 1000000000) 0.
Proof.
  set (each := (Z.max 0 (stop_time args) + 2) * 1000000000).
  assert (He : Z.of_nat (poll_limit (stop_time args) + 20) * 100000000 = each) by (unfold each, poll_limit; lia).
  rewrite <-Z.mul_assoc. fold each. unfold docker_stop. cut (∀ l r n, wp napping (stop_each (stop_time args) l r)
    (λ _ n', n' ≤ n + Z.of_nat (length l) * each) n).
  { intros H. eapply wp_mono; [|apply H]. cbv beta. lia. }
  induction l as [|name l IH]; intros r n; cbn [stop_each length]; [apply wp_ret; lia|].
  apply wp_bind. eapply wp_mono; [|apply stop_one_naps]. cbv beta. intros ok n1 H1.
  eapply wp_mono; [|apply IH]. cbv beta. intros r' n2 H2. rewrite He in H1. lia.
Qed.
