(* ===== verification/Batch.v ===== *)
(** * Commands on several names

    [docker stop], [docker rm] and [docker network rm] handle their names one
    by one: a command on two lists of names is equivalent to the command on the
    first list followed by the command on the second. *)
From S2P Require Import Prelude CString Sys Resources Equiv Config Network Container.

(** The loop the three commands share: every name is handled, whatever became
    of the ones before it; the result is [r], or -1 once one has failed. *)
Section Each.
Context (one : cstr → prog bool).

Fixpoint each (names : list cstr) (r : Z) : prog Z :=
  match names with
  | [] => Ret r
  | name :: rest => ok ← one name; each rest (if ok : bool then r else -1)
  end.

Definition both (r1 r2 : Z) : Z := if r1 =? 0 then r2 else -1.

(** The result of a loop that starts with 0 decides that of every other. *)
Lemma each_from names r : each names r ≡ (x ← each names 0; Ret (both x r)).
Proof.
  revert r. induction names as [|name rest IH]; intros r; cbn [each]; [done|].
  rewrite bind_assoc. apply bind_below. intros ok.
  rewrite (IH (if ok then r else -1)), (IH (if ok then 0 else -1)), bind_assoc. apply bind_below. intros x.
  rewrite bind_ret_l. unfold both. by destruct ok, (x =? 0).
Qed.

Lemma each_app a b r : each (a ++ b) r ≡ (x ← each a r; each b x).
Proof.
  revert r. induction a as [|name a IH]; intros r; cbn [each app]; [done|].
  rewrite bind_assoc. apply bind_below. intros ok. apply IH.
Qed.

Lemma each_split a b : each (a ++ b) 0 ≡ (x ← each a 0; y ← each b 0; Ret (both x y)).
Proof.
  rewrite each_app, (each_from a 0), !bind_assoc. apply bind_below. intros x.
  rewrite !bind_ret_l, each_from, (each_from b 0), !bind_assoc. apply bind_below. intros y. rewrite !bind_ret_l.
  unfold both. by destruct (x =? 0), (y =? 0).
Qed.
End Each.

(** The three loops are instances. *)
Lemma stop_each_each time names : ∀ r, stop_each time names r ≡ each (stop_one time) names r.
Proof. induction names as [|name names IH]; intros r; [done|]. apply bind_below. intros ok. apply IH. Qed.
Lemma rm_each_each names : ∀ r, rm_each names r ≡ each rm_one names r.
Proof. induction names as [|name names IH]; intros r; [done|]. apply bind_below. intros ok. apply IH. Qed.

Definition delete_one (name : cstr) : prog bool := r ← delte_network name; Ret (r =? 0).
Lemma remove_networks_each names : ∀ r, remove_networks names r ≡ each delete_one names r.
Proof.
  induction names as [|name names IH]; intros r; [done|]. cbn [remove_networks each].
  change (delete_one name) with (r ← delte_network name; Ret (r =? 0)). rewrite bind_assoc. apply bind_below. intros x. rewrite bind_ret_l. apply IH.
Qed.

(** C5: a command on several names is the sequence of the commands on each
    part: [docker stop a b], [docker rm a b] and [docker network rm a b] make
    the calls of the command on [a] and then those of the command on [b], in
    every model and under every kernel, even when the first part fails, and
    return 0 exactly when both parts do. *)
Theorem several_names_split time a b :
  docker_stop (StopArguments time (a ++ b)) ≡
    (x ← docker_stop (StopArguments time a); y ← docker_stop (StopArguments time b); Ret (both x y)) ∧
  docker_rm (RmArguments (a ++ b)) ≡
    (x ← docker_rm (RmArguments a); y ← docker_rm (RmArguments b); Ret (both x y)) ∧
  remove_docker_network (NetworkRm (a ++ b)) ≡
    (x ← remove_docker_network (NetworkRm a); y ← remove_docker_network (NetworkRm b); Ret (both x y)).
Proof.
  unfold docker_stop, docker_rm, remove_docker_network.
  cbn [stop_time stop_names rm_containers nrm_argv]. split_and!.
  - rewrite (stop_each_each time (a ++ b)), (stop_each_each time a), each_split.
    apply bind_below. intros x. by rewrite (stop_each_each time b).
  - rewrite (rm_each_each (a ++ b)), (rm_each_each a), each_split.
    apply bind_below. intros x. by rewrite (rm_each_each b).
  - rewrite (remove_networks_each (a ++ b)), (remove_networks_each a), each_split.
    apply bind_below. intros x. by rewrite (remove_networks_each b).
Qed.
