(* ===== verification/Looking.v ===== *)
(** * The commands that only look

    [docker ps], [docker inspect], [docker stats] and [docker network ls]
    change nothing but the status files of containers they find gone. *)
From S2P Require Import Prelude CString Paths Safety StatusCodec NetworkState CgroupParse Sys Resources Process Fs Config Cgroup.
From S2P Require Import NetworkStore Network StatusInfo Volumes Workspace Container Commands.
From Stdlib Require Import Lia.

(** A status file is replaced by the record just read from it, marked EXITED,
    and only after that record said RUNNING and the entry of its process showed
    that it is gone; besides, only temporary names of a container are created and
    unlinked; everything else is harmless. *)
Definition looking (w : view) (c : syscall) : Prop :=
  match c with
  | Renameat _ _ _ name => ∃ info, td_parse_container_info (Some (vw_text w)) (Some name) = Ok info ∧
      ci_status info = lit "RUNNING" ∧ gone info w ∧ publishing name (exited info) w c
  | _ => harmless c = true ∨ ∃ name, on_temporary name c
  end.
Lemma looking_harmless w c : harmless c = true → looking w c.
Proof. destruct c; try (by left); done. Qed.
Lemma looking_temporary name w c : on_temporary name c → looking w c.
Proof. destruct c; try (by right; exists name); done. Qed.

(** No status file and no stream is open and no temporary file is being
    written. *)
Definition at_rest (w : view) : Prop := ∃ t p s m, w = View None t None p s None m.

(** Calls that keep it so. *)
Definition calm (c : syscall) : bool :=
  match c with Openat _ _ _ _ | Renameat _ _ _ _ | Unlinkat _ _ | Fopen _ => false | _ => harmless c end.

Lemma rest_step w c a : at_rest w → calm c = true → at_rest (view_step w c a).
Proof.
  intros (t & p & s & m & ->) Hc. destruct c; try discriminate Hc; cbn [view_step on_temp ended line_seen];
    rewrite ?none_fd, ?if_none; repeat case_match; by eexists _, _, _, _.
Qed.

Lemma rest_calm {A} (prg : prog A) w : only calm prg → at_rest w → wp (viewing looking) prg (λ _ w, at_rest w) w.
Proof.
  intros Hp. apply (only_sound _ calm at_rest); [| |exact Hp].
  - intros w' c _ Hc. apply looking_harmless. by destruct c.
  - intros w' c a w'' Hw Hc [_ ->]. by apply rest_step.
Qed.

Lemma looking_read name w :
  at_rest w → wp (viewing looking) (read_container_info name)
    (λ r w, at_rest w ∧ ∀ info, r = Some info → td_parse_container_info (Some (vw_text w)) (Some name) = Ok info) w.
Proof.
  intros (t & p & s & m & ->). eapply wp_mono; [|apply read_info_view, looking_harmless]. cbv beta.
  intros r w (t' & -> & H). split; [by eexists _, _, _, _|exact H].
Qed.

Lemma looking_refresh name info w :
  at_rest w → td_parse_container_info (Some (vw_text w)) (Some name) = Ok info →
  wp (viewing looking) (refresh_container_status_if_needed name info) (λ _ w, at_rest w) w.
Proof.
  intros (t & p & s & m & ->) Hi. eapply wp_mono; [|apply refresh_view; [apply looking_harmless|]].
  - cbv beta. intros r w (s' & m' & [(_ & -> & _)|(_ & _ & _ & _ & [[_ (text & _ & ->)]|[_ ->]])]); by eexists _, _, _, _.
  - intros s' m' Hs Hg. split; [intros w c; apply looking_temporary|]. intros dfd tmp text Ht. exists info. split; [done|].
    split; [done|]. split; [exact Hg|]. split; [done|]. split; [done|]. by exists text.
Qed.

Lemma looking_entry name w : at_rest w → wp (viewing looking) (list_entry name) (λ _ w, at_rest w) w.
Proof.
  intros Hw. unfold list_entry. apply wp_bind. eapply wp_mono; [|by apply looking_read]. cbv beta. clear w Hw.
  intros [info|] w [Hw Hi]; [|by apply wp_ret]. apply wp_bind.
  eapply wp_mono; [|apply looking_refresh; [exact Hw|by apply Hi]]. cbv beta. by intros [r info'] w' Hw'.
Qed.

(** A call, then the rest. *)
Lemma rest_call {A} c (k : ans c → prog A) Q w :
  calm c = true → at_rest w → (∀ a w, at_rest w → wp (viewing looking) (k a) Q w) →
  wp (viewing looking) (call c ≫= k) Q w.
Proof.
  intros Hc Hw H. apply wp_bind. eapply wp_mono; [|apply rest_calm; [by apply only_call|exact Hw]]. cbv beta. auto.
Qed.
Ltac rest_call := apply rest_call; [done|assumption|]; let w := fresh "w" in let H := fresh "Hw" in intros ? w H.

Lemma looking_list capacity w : at_rest w → wp (viewing looking) (list_containers_info capacity) (λ _ w, at_rest w) w.
Proof.
  intros Hw. unfold list_containers_info. destruct (capacity =? 0); [by apply wp_ret|]. rest_call.
  destruct a as [dir|e]; [|by apply wp_ret]. apply wp_bind. apply (wp_iter _ (λ _ w, at_rest w)); [done|].
  intros infos w1 Hw1. unfold list_turn. rest_call.
  assert (Hend : ∀ i : list container_info, wp (viewing looking) (_ ← call (Closedir dir); Ret (Some i)) (λ _ w, at_rest w) w2).
  { intros i. rest_call. by apply wp_ret. }
  destruct a as [name|]; [|by apply Hend]. destruct (_ || _); [by apply wp_ret|]. destruct (negb _); [by apply wp_ret|].
  cbv zeta. destruct (truncated _ _); [by apply wp_ret|]. rest_call. destruct a as [st|e]; [|by apply wp_ret].
  destruct (negb _); [by apply wp_ret|]. destruct (capacity <=? _).
  { apply wp_ret. rest_call. by apply wp_ret. }
  apply wp_bind. eapply wp_mono; [|by apply looking_entry]. cbv beta. intros loaded w4 Hw4. by apply wp_ret.
Qed.

(** Reading on, when nothing is to be written any more. *)
Definition reading (c : syscall) : bool :=
  match c with Openat _ _ _ _ | Renameat _ _ _ _ | Unlinkat _ _ => false | _ => harmless c end.
Lemma looking_reading {A} (p : prog A) w : only reading p → wp (viewing looking) p (λ _ _, True) w.
Proof.
  intros Hp. apply (only_sound _ reading (λ _, True)); [|done|exact Hp|done]. intros w' c _ Hc. apply looking_harmless.
  by destruct c.
Qed.

Lemma reading_print_all l : only reading (print_all l).
Proof. unfold print_all. only_auto. Qed.
Lemma reading_path_exist path : only reading (path_exist path).
Proof. unfold path_exist. only_auto. Qed.
#[local] Hint Resolve reading_print_all reading_path_exist : only.
Lemma reading_cgroup_value path file size : only reading (read_cgroup_value path file size).
Proof. unfold read_cgroup_value. only_auto. Qed.
Lemma reading_cpu_usage path size : only reading (read_cpu_usage_usec path size).
Proof. unfold read_cpu_usage_usec. only_auto. Qed.
Lemma reading_rows spans all l : only reading (print_rows spans all l).
Proof. induction l as [|i l IH]; cbn [print_rows]; unfold when; only_auto. Qed.
Lemma reading_networks l : only reading (print_networks l).
Proof. induction l as [|r l IH]; cbn [print_networks]; only_auto. Qed.
#[local] Hint Resolve reading_cgroup_value reading_cpu_usage reading_rows reading_networks : only.
Lemma reading_list_network : only reading list_network.
Proof. unfold list_network, load_network_records, read_exactly, read_turn, sys_read. only_auto. Qed.

(** The start that inspect and stats share: read the status file, refresh. *)
Lemma looking_load {A} name (k : option container_info → prog A) w :
  at_rest w → (∀ w, at_rest w → wp (viewing looking) (k None) (λ _ _, True) w) →
  (∀ info w, at_rest w → td_parse_container_info (Some (vw_text w)) (Some name) = Ok info →
     wp (viewing looking) (k (Some info)) (λ _ _, True) w) →
  wp (viewing looking) (read_container_info name ≫= k) (λ _ _, True) w.
Proof.
  intros Hw Hn Hs. apply wp_bind. eapply wp_mono; [|by apply looking_read]. cbv beta.
  intros [info|] w' [Hw' Hi]; [by apply Hs; [|apply Hi]|by apply Hn].
Qed.

(** C4: [docker ps], [docker inspect], [docker stats] and [docker network ls]
    look and do nothing else: they start no process and signal none, mount,
    remove and rename nothing and open no existing file for writing, with one
    exception: the status file of a container that says RUNNING, and whose
    process /proc shows to be gone (no entry for the recorded pid, or one with
    another start time), is replaced, in one step, by the same record marked
    EXITED, through a temporary file of its own. *)
Theorem inspecting_only_looks ps inspect stats t p s m :
  let looks {A} (prg : prog A) := wp (viewing looking) prg (λ _ _, True) (View None t None p s None m) in
  looks (docker_ps ps) ∧ looks (docker_inspect inspect) ∧ looks (docker_stats stats) ∧ looks list_network.
Proof.
  assert (Hw : at_rest (View None t None p s None m)) by (by eexists _, _, _, _). cbv zeta. split_and!.
  - unfold docker_ps. rest_call. destruct (negb _); [done|]. apply wp_bind.
    eapply wp_mono; [|by apply looking_list]. cbv beta. intros [infos|] w1 Hw1; [|done]. cbv zeta.
    apply looking_reading. only_auto.
  - unfold docker_inspect. cbv zeta. apply looking_load; [done|done|]. intros info w Hi Hp. apply wp_bind.
    eapply wp_mono; [|by apply looking_refresh]. cbv beta. intros [r info'] w' Hw'.
    destruct (get_container_cgroup_path _ _); [|done]. apply looking_reading. only_auto.
  - unfold docker_stats. cbv zeta. apply looking_load; [done|done|]. intros info w Hi Hp. apply wp_bind.
    eapply wp_mono; [|by apply looking_refresh]. cbv beta. intros [r info'] w' Hw'.
    destruct (get_container_cgroup_path _ _); [|done]. apply looking_reading. only_auto.
  - apply looking_reading, reading_list_network.
Qed.
