(* ===== verification/Launch.v ===== *)
(** * When docker run lets its container go

    The child of [docker_run] (docker/container.c) blocks on a pipe until the
    parent writes one byte.  What is in place when that byte is written. *)
From S2P Require Import Prelude CString Paths Safety StatusCodec NetworkState CgroupParse Sys Resources Equiv Process Fs.
From S2P Require Import Config Cgroup NetworkStore Network StatusInfo Volumes Workspace Container Commands.
From Stdlib Require Import Lia.

(** ** What is watched

    Before the child is cloned: the last pipe made.  Then: the write end of
    that pipe and the pid of the child; the descriptors opened and not closed
    since; the files opened, each with its path and the bytes written to it,
    and those that were closed; and what [viewing] sees, in particular the
    status file last published.  When the write end is closed it is over. *)
Record watch := Watch {
  wt_end : nat;
  wt_child : Z;
  wt_fds : list nat;
  wt_open : list (nat * (cstr * cstr));
  wt_closed : list (cstr * cstr);
  wt_view : view;
}.
Inductive launch :=
  | Before (pipe : option (nat * nat))
  | Started (w : watch)
  | Over.

(** The bytes written to the files that are open, and the files closed. *)
Definition write_open (fd : nat) (data : cstr) (files : list (nat * (cstr * cstr))) : list (nat * (cstr * cstr)) :=
  map (λ f, if (f.1 =? fd)%nat then (f.1, (f.2.1, f.2.2 ++ data)) else f) files.
Definition files_step (c : syscall) (open : list (nat * (cstr * cstr))) (closed : list (cstr * cstr)) :
    ans c → list (nat * (cstr * cstr)) * list (cstr * cstr) :=
  match c with
  | Open path _ _ => λ r : sysret nat,
      match r with SOk fd => ((fd, (path, [])) :: open, closed) | SErr _ => (open, closed) end
  | Write fd data => λ r : sysret Z,
      match r with
      | SOk n => (write_open fd (take (Z.to_nat (Z.min n (strlen data))) data) open, closed)
      | SErr _ => (open, closed)
      end
  | Close fd => λ _,
      (List.filter (λ f, negb (f.1 =? fd)%nat) open, map snd (List.filter (λ f, (f.1 =? fd)%nat) open) ++ closed)
  | _ => λ _, (open, closed)
  end.

Definition watch_step (w : watch) (c : syscall) (a : ans c) : watch :=
  let '(open, closed) := files_step c (wt_open w) (wt_closed w) a in
  Watch (wt_end w) (wt_child w) (h_fds (res_step (Held (wt_fds w) []) c a)) open closed (view_step (wt_view w) c a).

Definition launch_step (s : launch) (c : syscall) : ans c → launch :=
  match s with
  | Before pipe =>
      match c with
      | Pipe => λ r : sysret (nat * nat), match r with SOk ends => Before (Some ends) | SErr _ => s end
      | Clone _ => λ r : sysret positive,
          match r, pipe with
          | SOk pid, Some (_, write_end) => Started (Watch write_end (Zpos pid) [] [] [] unviewed)
          | _, _ => s
          end
      | _ => λ _, s
      end
  | Started w =>
      match c with
      | Close fd => λ a : ans (Close fd), if (fd =? wt_end w)%nat then Over else Started (watch_step w (Close fd) a)
      | c => λ a, Started (watch_step w c a)
      end
  | Over => λ _, Over
  end.

(** The kernel gives out no descriptor that is open. *)
Definition fresh (w : watch) (c : syscall) : ans c → Prop :=
  let new fd := fd ≠ wt_end w ∧ fd ∉ wt_fds w in
  match c with
  | Open _ _ _ | Openat _ _ _ _ | Fopen _ | Opendir _ => λ r : sysret nat,
      match r with SOk fd => new fd | SErr _ => True end
  | Pipe => λ r : sysret (nat * nat), match r with SOk (a, b) => new a ∧ new b ∧ a ≠ b | SErr _ => True end
  | _ => λ _, True
  end.

(** The container is on record: its published status file is the text of a
    record that says RUNNING, with the pid of the child, and the pid was written
    to the member list of its control group. *)
Definition on_record (name : cstr) (w : watch) : Prop :=
  (∃ info text, vw_published (wt_view w) = Some (name, text) ∧ td_write_container_info (Some info) = Ok text ∧
     ci_name info = name ∧ ci_status info = lit "RUNNING" ∧ ci_pid info = wt_child w) ∧
  (cgroup_path_text name ++ lit "/cgroup.procs", fmt_d (wt_child w) ++ [LF]) ∈ wt_closed w.

(** The write end of the pipe is used for one thing: to write "1", when the
    container is on record. *)
Definition launch_ok (name : cstr) (s : launch) (c : syscall) : Prop :=
  match s with
  | Started w =>
      match c with
      | Write fd data => fd = wt_end w → data = lit "1" ∧ on_record name w
      | Fputs fd _ | Fdopen fd | Dup2 fd _ => fd ≠ wt_end w
      | _ => True
      end
  | _ => True
  end.
Definition launching (name : cstr) : model launch :=
  Model (launch_ok name)
    (λ s c a s', match s with Started w => fresh w c a ∧ documented c a | _ => True end ∧ s' = launch_step s c a).

(** ** Parts of the program *)

Lemma only_any {A} (p : prog A) : only (λ _, true) p.
Proof.
  unfold only. induction p as [A a|A c k IH|A S B body IHb s k IHk]; [done| |].
  - split; [done|]. intros a [] _. apply IH.
  - exists (λ _ _, True). split; [done|]. intros s' [] _. eapply wp_mono; [|apply IHb]. intros [s''|b] [] _; [done|]. apply IHk.
Qed.

(** Once the pipe is closed nothing is watched. *)
Lemma launch_over name {A} (p : prog A) : wp (launching name) p (λ _ s, s = Over) Over.
Proof.
  apply (only_sound _ (λ _, true) (λ s, s = Over)); [by intros s c ->| |apply only_any|done].
  by intros s c a s' -> _ [_ ->].
Qed.

(** Before the child is there: parts that clone nothing. *)
Definition sober (c : syscall) : bool := match c with Clone _ => false | _ => true end.
Lemma launch_before name {A} (p : prog A) (P : A → Prop) s :
  only sober p → returns p P → (∃ pipe, s = Before pipe) →
  wp (launching name) p (λ a s', P a ∧ ∃ pipe, s' = Before pipe) s.
Proof.
  intros Hp HP Hs. apply wp_returns; [done|].
  apply (only_sound _ sober (λ s, ∃ pipe, s = Before pipe)); [by intros s' c [pipe ->]| |done|done].
  intros s' c a s'' [pipe ->] Hc [_ ->]. destruct c; try discriminate Hc; cbn [launch_step]; try by eexists.
  destruct a as [ends|e]; by eexists.
Qed.

(** While the child waits: a part that gives back what it takes runs as it
    would alone, and cannot touch the pipe. *)
Definition shared (w : watch) (x : held * view) (s : launch) : Prop :=
  ∃ w', s = Started w' ∧ wt_end w' = wt_end w ∧ wt_child w' = wt_child w ∧ wt_fds w' = h_fds x.1 ∧
    (wt_end w ∉ h_fds x.1) ∧ wt_view w' = x.2 ∧ ∀ f, f ∈ wt_closed w → f ∈ wt_closed w'.

Lemma res_step_fds h c a : h_fds (res_step h c a) = h_fds (res_step (Held (h_fds h) []) c a).
Proof. destruct c; try reflexivity; cbn [res_step]; repeat case_match; reflexivity. Qed.

Lemma remove1_subset {A} `{EqDecision A} (x y : A) l : y ∈ remove1 x l → y ∈ l.
Proof.
  induction l as [|z l IH]; cbn [remove1]; [done|]. destruct (decide (z = x)); [by right|].
  intros [->|H]%elem_of_cons; [by left|]. right. by apply IH.
Qed.

Lemma shared_new w h v s c a :
  shared w (h, v) s → res_ok h c → (∀ w', s = Started w' → fresh w' c a) →
  wt_end w ∉ h_fds (res_step h c a).
Proof.
  intros (w' & -> & He & _ & Hf & Hn & _) Hc Hfr. specialize (Hfr _ eq_refl).
  assert (Hdrop : ∀ fd, wt_end w ∉ h_fds (drop_fd fd h)) by (intros fd H; by apply remove1_subset in H).
  assert (Htake : ∀ fd, fd ≠ wt_end w' → wt_end w ∉ h_fds (take_fd fd h)).
  { intros fd Hne [E|H]%elem_of_cons; [congruence|done]. }
  destruct c; try exact Hn; cbn [res_step fresh] in *; try apply Hdrop;
    try (destruct a as [fd|e]; [|exact Hn]; first [apply Htake, Hfr|exact Hn]).
  - destruct a as [[a b]|e]; [|exact Hn]. destruct Hfr as ([Ha _] & [Hb _] & _).
    intros [E|[E|H]%elem_of_cons]%elem_of_cons; [congruence|congruence|done].
  - by destruct (failed_with a EINTR).
Qed.

Lemma files_step_closed c open closed a f : f ∈ closed → f ∈ (files_step c open closed a).2.
Proof.
  intros H. destruct c; try exact H; cbn [files_step].
  - by destruct a.
  - cbn [snd]. apply elem_of_app. by right.
  - by destruct a.
Qed.

Lemma launch_framed name {A} (p : prog A) Q w v :
  balanced p → wp (viewing (λ _ _, True)) p Q v → wt_fds w = [] → wt_view w = v →
  wp (launching name) p (λ a s, ∃ w', s = Started w' ∧ wt_end w' = wt_end w ∧ wt_child w' = wt_child w ∧
    wt_fds w' = [] ∧ (∀ f, f ∈ wt_closed w → f ∈ wt_closed w') ∧ Q a (wt_view w')) (Started w).
Proof.
  intros Hb Hv Hf Hw. pose proof (wp_beside _ _ p _ _ (Held [] []) v (Hb (Held [] [])) Hv) as H.
  eapply wp_mono; [|eapply (wp_transfer _ (launching name) (shared w)); [| | |exact H]].
  - cbv beta. intros a s ([h v'] & (w' & -> & E1 & E2 & E3 & _ & E4 & E5) & Hh & HQ). cbn [fst snd] in *. subst h v'.
    exists w'. by split_and!.
  - intros [h v'] s c (w' & -> & E1 & _ & _ & Hn & _) [Hc _]. cbn [fst snd] in *.
    assert (Hne : ∀ fd, fd ∈ h_fds h → fd ≠ wt_end w') by (intros fd Hfd ->; by rewrite E1 in Hfd).
    destruct c; try exact I; cbn [allowed launching launch_ok]; try (by apply Hne).
    intros E. by destruct (Hne fd Hc).
  - intros [h v'] s c a s' HR [Hc _] [Hans ->]. pose proof HR as (w' & -> & E1 & E2 & E3 & Hn & E4 & E5).
    destruct Hans as [Hfr Hcl]. cbn [fst snd] in *.
    exists (res_step h c a, view_step v' c a). split; [by split|].
    assert (Hlive : launch_step (Started w') c a = Started (watch_step w' c a)).
    { destruct c; try reflexivity. cbn [launch_step]. destruct (Nat.eqb_spec fd (wt_end w')) as [->|]; [|done].
      by rewrite E1 in Hc. }
    exists (watch_step w' c a). unfold watch_step. split; [exact Hlive|].
    pose proof (files_step_closed c (wt_open w') (wt_closed w') a) as Hm.
    destruct (files_step _ _ _ a) as [open closed]. cbn [wt_end wt_child wt_fds wt_view wt_closed fst snd] in *.
    split_and!; [done|done| | | |].
    + by rewrite E3, <-res_step_fds.
    + eapply (shared_new w h v'); [exact HR|done|]. by intros w2 [= <-].
    + by rewrite E4.
    + intros f Hin. by apply Hm, E5.
  - exists w. cbn [fst snd]. rewrite Hf. split_and!; [done|done|done|done|apply not_elem_of_nil|done|done].
Qed.

(** ** The parts of a start *)

(** What is known of files is independent of what is known of processes. *)
Definition files_view (w : view) : option nat * cstr * option temporary * option (cstr * cstr) :=
  (vw_file w, vw_text w, vw_temp w, vw_published w).
Lemma files_view_step w v c a : files_view w = files_view v → files_view (view_step w c a) = files_view (view_step v c a).
Proof.
  destruct w as [f t tm p s b m], v as [f' t' tm' p' s' b' m']. unfold files_view. cbn [vw_file vw_text vw_temp vw_published].
  intros [= <- <- <- <-]. destruct c; try reflexivity; cbn [view_step]; repeat case_match; reflexivity.
Qed.
Lemma files_only {A} (p : prog A) Q w v :
  files_view w = files_view v → wp (viewing (λ _ _, True)) p (λ r x, Q r (files_view x)) w →
  wp (viewing (λ _ _, True)) p (λ r x, Q r (files_view x)) v.
Proof.
  intros E H. eapply wp_mono; [|apply (wp_transfer _ _ (λ w v, files_view w = files_view v)) with (4 := H); [done| |exact E]].
  - cbv beta. intros r x (y & Hxy & Hy). by rewrite <-Hxy.
  - intros w1 v1 c a v' E1 _ [Ha ->]. exists (view_step w1 c a). split; [done|]. by apply files_view_step.
Qed.

(** No status file is open and no temporary file is being written. *)
Definition resting (w : view) : Prop := ∃ t p s a m, w = View None t None p s a m.

(** Parts that open nothing relative to a directory leave [viewing] at rest. *)
Definition no_openat (c : syscall) : bool := match c with Openat _ _ _ _ | Renameat _ _ _ _ => false | _ => true end.
Lemma rest_kept w c a : resting w → no_openat c = true → resting (view_step w c a).
Proof.
  intros (t & p & s & b & m & ->) Hc. destruct c; try discriminate Hc; cbn [view_step on_temp]; rewrite ?none_fd, ?if_none;
    repeat case_match; by eexists _, _, _, _, _.
Qed.
Lemma rest_only {A} (p : prog A) w : only no_openat p → resting w → wp (viewing (λ _ _, True)) p (λ _ w, resting w) w.
Proof.
  intros Hp. apply (only_sound _ no_openat resting); [done| |exact Hp]. intros w' c a w'' Hw Hc [_ ->]. by apply rest_kept.
Qed.

(** The child still waits, and more files may have been closed. *)
Definition waits (w w' : watch) : Prop :=
  wt_end w' = wt_end w ∧ wt_child w' = wt_child w ∧ wt_fds w' = [] ∧ resting (wt_view w') ∧
  ∀ f, f ∈ wt_closed w → f ∈ wt_closed w'.

Lemma launch_waiting name {A} (p : prog A) (P : A → Prop) w :
  balanced p → only no_openat p → returns p P → wt_fds w = [] → resting (wt_view w) →
  wp (launching name) p (λ a s, P a ∧ ∃ w', s = Started w' ∧ waits w w') (Started w).
Proof.
  intros Hb Ho HP Hf Hi. apply wp_returns; [done|]. eapply wp_mono; [|apply (launch_framed name p (λ _ v, resting v) w (wt_view w)); [done|by apply rest_only|done|done]].
  cbv beta. intros a s (w' & -> & E1 & E2 & E3 & E4 & Hi'). exists w'. by split_and!.
Qed.

Lemma wp_launch {A} name c (k : ans c → prog A) Q s :
  launch_ok name s c →
  (∀ a, match s with Started w => fresh w c a ∧ documented c a | _ => True end →
     wp (launching name) (k a) Q (launch_step s c a)) →
  wp (launching name) (call c ≫= k) Q s.
Proof. intros Hc H. apply wp_bind. split; [done|]. intros a s' [Ha ->]. by apply H. Qed.

Lemma write_file_launched name path value w :
  wt_fds w = [] → resting (wt_view w) →
  wp (launching name) (write_file path value)
    (λ r s, ∃ w', s = Started w' ∧ waits w w' ∧ (r = 0 → (path, value) ∈ wt_closed w')) (Started w).
Proof.
  destruct w as [e child fds open closed v]. cbn [wt_fds wt_view]. intros -> Hv.
  assert (Hv' := Hv). destruct Hv' as (t & p & s & b & m & ->).
  unfold write_file. apply wp_launch; [done|]. intros [fd|x] [Hfr _]; cbn [launch_step].
  2:{ apply wp_ret. eexists. split; [reflexivity|]. split; [|done]. by split_and!. }
  destruct Hfr as [Hne _]. cbn [wt_end] in Hne.
  set (at_ before open := Started (Watch e child [fd] ((fd, (path, before)) :: open) closed (View None t None p s b m))).
  assert (Hend : ∀ (failed : bool) before others, (failed = false → before = value) →
    wp (launching name) (closed ← call (Close fd); Ret (if s_ok closed then (if failed then -1 else 0) else -1))
      (λ r s', ∃ w', s' = Started w' ∧ waits (Watch e child [] open closed (View None t None p s b m)) w' ∧
         (r = 0 → (path, value) ∈ wt_closed w')) (at_ before others)).
  { intros failed before others Hval. apply wp_launch; [done|]. intros a _. apply wp_ret.
    unfold at_. cbn [launch_step wt_end]. destruct (Nat.eqb_spec fd e); [done|].
    eexists. split; [reflexivity|]. unfold watch_step. cbn [files_step wt_end wt_child wt_fds wt_open wt_closed wt_view view_step].
    rewrite none_fd. cbn [res_step drop_fd h_fds]. cbn [List.filter fst]. rewrite Nat.eqb_refl. cbn [map snd].
    split.
    - split_and!; [done|done| |by eexists _, _, _, _, _|].
      + unfold drop_fd. cbn [wt_fds h_fds]. apply remove1_head.
      + intros f Hf. cbn [wt_closed]. right. apply elem_of_app. by right.
    - cbn [wt_closed]. destruct (s_ok a), failed; try done. intros _. rewrite (Hval eq_refl). by left. }
  apply wp_bind. apply (wp_iter (launching name) (λ rest s', ∃ before open, s' = at_ before open ∧ before ++ rest = value)).
  { exists [], open. split; [done|]. done. }
  intros rest s' (before & open' & -> & Hval). unfold write_turn. destruct rest as [|c rest]; cbn [nonempty].
  { apply wp_ret. rewrite app_nil_r in Hval. eapply wp_mono; [|apply (Hend false before open'); done]. done. }
  apply wp_bind. unfold sys_write. apply wp_launch; [intros E; by destruct Hne|]. intros [n|x] _; apply wp_ret, wp_ret.
  - assert (Hw : launch_step (at_ before open') (Write fd (c :: rest)) (SOk n) =
      at_ (before ++ take (Z.to_nat (n `min` strlen (c :: rest))) (c :: rest))
        (write_open fd (take (Z.to_nat (n `min` strlen (c :: rest))) (c :: rest)) open')).
    { unfold at_. cbn [launch_step]. unfold watch_step. cbn [files_step wt_open]. unfold write_open at 1. cbn [map fst snd].
      rewrite Nat.eqb_refl. reflexivity. }
    rewrite Hw. destruct (_ <=? 0); [by apply (Hend true)|]. eexists _, _. split; [reflexivity|].
    by rewrite <-app_assoc, take_drop.
  - change (launch_step _ _ _) with (at_ before open'). destruct (x =? EINTR); [by exists before, open'|by apply (Hend true)].
Qed.

Lemma apply_launched name st pid w :
  wt_fds w = [] → resting (wt_view w) →
  wp (launching name) (cgroup_apply (Some st) pid)
    (λ r s, ∃ w', s = Started w' ∧ waits w w' ∧
       (r = 0 → (cs_path st ++ lit "/cgroup.procs", fmt_d pid ++ [LF]) ∈ wt_closed w')) (Started w).
Proof.
  intros Hf Hi. assert (Hsame : wp (launching name) (Ret (-1)) (λ r s, ∃ w', s = Started w' ∧ waits w w' ∧
    (r = 0 → (cs_path st ++ lit "/cgroup.procs", fmt_d pid ++ [LF]) ∈ wt_closed w')) (Started w)).
  { exists w. split; [done|]. split; [by split_and!|done]. }
  unfold cgroup_apply. destruct (_ || _); [exact Hsame|]. cbv zeta. destruct (truncated _ _); [exact Hsame|].
  unfold write_pid_to_cgroup_procs. destruct (pid <=? 0); [exact Hsame|]. destruct (truncated _ _); [exact Hsame|].
  by apply write_file_launched.
Qed.

(** Publishing the record puts the container on record. *)
Lemma record_launched name info w :
  wt_fds w = [] → resting (wt_view w) → ci_status info = lit "RUNNING" → ci_pid info = wt_child w →
  (cgroup_path_text name ++ lit "/cgroup.procs", fmt_d (wt_child w) ++ [LF]) ∈ wt_closed w →
  wp (launching name) (write_container_info name info)
    (λ r s, ∃ w', s = Started w' ∧ wt_end w' = wt_end w ∧ (r = 0 → on_record name w')) (Started w).
Proof.
  intros Hf Hi Hs Hp Hm. pose proof Hi as (t & p & s & a & m & Hv).
  destruct (decide (name = ci_name info)) as [Hn|Hn].
  2:{ unfold write_container_info. rewrite (bool_decide_eq_false_2 (name = ci_name info)) by done. rewrite orb_true_r.
      apply wp_ret. by exists w. }
  eapply wp_mono; [|eapply launch_framed; [auto with balanced| |exact Hf|exact Hv]].
  2:{ apply (files_only _ (λ (r : Z) (x : option nat * cstr * option temporary * option (cstr * cstr)), r = 0 →
        ∃ text, td_write_container_info (Some info) = Ok text ∧ x.2 = Some (name, text)) (View None t None p s None m)); [done|].
      eapply wp_mono; [|apply write_info_view; [done|by split]]. cbv beta.
      intros r w' [[_ (text & Ht & ->)]|[-> _]]; [|done]. intros _. by exists text. }
  cbv beta. intros r s' (w' & -> & E1 & E2 & _ & E3 & H). exists w'. split; [done|]. split; [done|]. intros Hr.
  destruct (H Hr) as (text & Ht & Hw). split; [|rewrite E2; by apply E3].
  exists info, text. rewrite E2. by split_and!.
Qed.

(** What [create_container_info] returns. *)
Lemma created_record args pid status ip time :
  returns (create_container_info args pid status ip time)
    (λ r, ∀ info, r = Some info → ci_pid info = pid ∧ ci_status info = str_status status).
Proof.
  unfold returns, create_container_info. destruct (run_image args), (run_argv args) as [|argv0 arguments]; try done.
  apply wp_bind. eapply wp_mono; [|apply returns_any]. intros [start|e] [] _; [|done].
  destruct (first_fields _ _ _ _) as [[[id image] command]|]; [|done]. apply wp_bind.
  eapply wp_mono; [|apply returns_any]. intros created [] _. apply wp_ret. unfold last_fields.
  destruct (negb _); [done|]. assert (Hc : copy_string_field STATUS_SIZE (Some (str_status status)) = Some (str_status status)) by (by destruct status).
  rewrite Hc. repeat case_match; try done. intros info [= <-]. simplify_eq. by split.
Qed.

(** Which parts clone nothing, and which open nothing relative to a directory. *)
Lemma tame_sober {A} (p : prog A) : only tame p → only sober p.
Proof. apply only_mono. by intros []. Qed.
Lemma tame_no_openat {A} (p : prog A) : only tame p → only no_openat p.
Proof. apply only_mono. by intros []. Qed.
#[local] Hint Extern 2 (only sober _) => apply tame_sober; solve [auto with only] : only.
#[local] Hint Extern 2 (only no_openat _) => apply tame_no_openat; solve [auto with only] : only.

Lemma tame_write_file path value : only tame (write_file path value).
Proof. unfold write_file, write_turn, sys_write. only_auto. Qed.
#[local] Hint Resolve tame_write_file : only.
Lemma tame_prepare name config st : only tame (cgroup_prepare name config st).
Proof.
  unfold cgroup_prepare, init_cgroup, set_cgroup_limits, set_mem_limit, set_cpu_limit, set_cpuset_limit, cgroup_cleanup.
  only_auto.
Qed.
Lemma tame_group_cleanup st : only tame (cgroup_cleanup st).
Proof. unfold cgroup_cleanup. only_auto. Qed.
Lemma tame_alloc name size : only tame (alloc_new_ip name size).
Proof. unfold alloc_new_ip, with_lock, lock_network_state. only_auto. Qed.
Lemma tame_make_prefixes rest : ∀ before, only tame (make_prefixes before rest).
Proof. induction rest as [|c rest IH]; intros before; cbn [make_prefixes]; only_auto. Qed.
#[local] Hint Resolve tame_prepare tame_group_cleanup tame_alloc tame_make_prefixes : only.
Lemma tame_make_path path : only tame (make_path path).
Proof. unfold make_path. only_auto. Qed.
Lemma tame_extract tar path : only tame (extract_tar tar path).
Proof. unfold extract_tar. only_auto. Qed.
Lemma tame_run_all l : only tame (run_all l).
Proof. induction l as [|c l IH]; cbn [run_all]; only_auto. Qed.
#[local] Hint Resolve tame_make_path tame_extract tame_run_all : only.

Lemma no_openat_members name capacity : only no_openat (get_container_processes_id name capacity).
Proof. unfold get_container_processes_id. only_auto. Qed.
Lemma no_openat_delete_veth name alias : only no_openat (delete_owned_veth name alias).
Proof. unfold delete_owned_veth. only_auto. Qed.
#[local] Hint Resolve no_openat_members no_openat_delete_veth : only.
Lemma no_openat_attach name network ip : only no_openat (attach_container name network ip).
Proof. unfold attach_container, delete_created, when, discard. only_auto. Qed.
#[local] Hint Resolve no_openat_attach : only.
Lemma no_openat_connect name network : only no_openat (connect_container name network).
Proof. unfold connect_container. only_auto. Qed.
Lemma no_openat_ports ip maps : only no_openat (set_container_port_map ip maps).
Proof.
  assert (H : ∀ l, only no_openat (map_ports ip l)) by (induction l as [|x l IH]; cbn [map_ports]; only_auto).
  unfold set_container_port_map. only_auto.
Qed.
Lemma no_openat_create args pid status ip time : only no_openat (create_container_info args pid status ip time).
Proof. unfold create_container_info, read_process_start_time, timestamp_to_string. only_auto. Qed.

Lemma sober_ensure root path size : only sober (td_ensure_directory_beneath root path size).
Proof.
  assert (H : ∀ l fd, only sober (ensure_components fd l)) by (induction l as [|c l IH]; intros fd; cbn [ensure_components]; only_auto).
  unfold td_ensure_directory_beneath. only_auto.
Qed.
#[local] Hint Resolve sober_ensure : only.
Lemma sober_mount mountpoint vols : only sober (mount_volumes mountpoint vols).
Proof.
  assert (Hs : ∀ l, only sober (sources_ready l)) by (induction l as [|v l IH]; cbn [sources_ready]; only_auto).
  assert (Hr : ∀ l, only sober (rollback mountpoint l)) by (induction l as [|v l IH]; cbn [rollback]; only_auto).
  assert (Hm : ∀ l m, only sober (mount_each mountpoint m l)).
  { induction l as [|v l IH]; intros m; cbn [mount_each]; unfold mount_one; only_auto. }
  unfold mount_volumes. only_auto.
Qed.
Lemma sober_forget name : only sober (remove_status_info name).
Proof. unfold remove_status_info. only_auto. Qed.
#[local] Hint Resolve sober_mount sober_forget : only.
Lemma sober_cleanup args l : only sober (cleanup_run_failure args l).
Proof.
  unfold cleanup_run_failure, kill_child, close_both, release_attempt, unmount_attempt, umount_root, when, discard. only_auto.
Qed.

Section Docker_run.
Context {D : Digest} (args : docker_run_arguments).

Lemma sober_workspace : only sober (init_container_workerspace args).
Proof.
  unfold init_container_workerspace, create_readonly_layer, is_folder, calculate_sha256, hash_turn, unpack_image,
    create_readwrite_layer, mount_workspace, create_workspace_mount_point. only_auto.
Qed.
#[local] Hint Resolve sober_workspace : only.
Lemma sober_files : only sober (prepare_files args).
Proof. unfold prepare_files. only_auto. Qed.

(** A group that was prepared is the container's. *)
Lemma prepared_group :
  returns (prepare_files args)
    (λ r, r.1 = true → rs_cgroup (rl_state r.2) = CgroupState (cgroup_path_text (run_name args)) 1).
Proof.
  assert (Hg : returns (cgroup_prepare (Some (run_name args)) (Some (CgroupConfig (run_cpu args) (run_memory args) None)) (Some no_cgroup))
    (λ r, r.1 = 0 → r.2 = Some (CgroupState (cgroup_path_text (run_name args)) 1))).
  { unfold returns, cgroup_prepare, no_cgroup. cbn [cs_created Z.eqb negb].
    destruct (get_container_cgroup_path _ _) as [path|] eqn:E; [|done]. apply get_container_cgroup_path_Some in E as ->.
    apply wp_bind. eapply wp_mono; [|apply returns_any]. intros made [] _. destruct (negb _); [done|].
    apply wp_bind. eapply wp_mono; [|apply returns_any]. intros limits [] _. destruct (_ =? 0); [done|].
    apply wp_bind. eapply wp_mono; [|apply returns_any]. by intros [r st] [] _. }
  unfold returns, prepare_files. cbv zeta. apply wp_bind. eapply wp_mono; [|apply returns_any].
  intros [workspace mountpoint] [] _. destruct (workspace =? -1); [done|].
  apply wp_bind. eapply wp_mono; [|apply returns_any]. intros mounted [] _. destruct (mounted =? -1); [done|].
  apply wp_bind. eapply wp_mono; [|exact Hg]. cbv beta. intros [prepared group] [] H. apply wp_ret.
  cbn [fst snd rl_state rs_cgroup] in *. intros Hz%Z.eqb_eq. by rewrite H.
Qed.

(** Where a start stands after [set_up_child]: on record if it succeeded;
    otherwise there is no child, or the pipe is in the locals. *)
Definition set_up (r : bool * run_locals) (s : launch) : Prop :=
  (∃ w read_end, s = Started w ∧ rl_pipe r.2 = Some (read_end, wt_end w) ∧ (r.1 = true → on_record (run_name args) w)) ∨
  r.1 = false ∧ ∃ pipe, s = Before pipe.

Lemma set_up_child_launched l pipe :
  rs_cgroup (rl_state l) = CgroupState (cgroup_path_text (run_name args)) 1 →
  wp (launching (run_name args)) (set_up_child args l) (λ r s, set_up r s) (Before pipe).
Proof.
  intros Hg. unfold set_up_child. cbv zeta. apply wp_launch; [done|]. intros [[read_end write_end]|e] _; cbn [launch_step].
  2:{ right. split; [done|]. by eexists. }
  apply wp_launch; [done|]. intros [pid|e] _; cbn [launch_step].
  2:{ right. split; [done|]. by eexists. }
  set (w0 := Watch write_end (Zpos pid) [] [] [] unviewed).
  assert (Hi0 : resting (wt_view w0)) by (by eexists _, _, _, _, _).
  apply wp_bind. eapply wp_mono; [|apply apply_launched; done]. cbv beta. intros applied s (w1 & -> & (E1 & C1 & F1 & I1 & _) & Hm).
  change (wt_end w0) with write_end in E1. change (wt_child w0) with (Z.pos pid) in C1.
  assert (Hfail : ∀ stage group mp ip child w, wt_end w = write_end →
    set_up (false, RunLocals (RuntimeState stage group) mp ip child (Some (read_end, write_end))) (Started w)).
  { intros stage group mp ip child w Hw. left. exists w, read_end. cbn [fst snd rl_pipe]. by rewrite Hw. }
  destruct (Z.eqb_spec applied 0) as [->|]; cbn [negb]; [|by apply wp_ret, Hfail]. specialize (Hm eq_refl).
  rewrite Hg in Hm. cbn [cs_path] in Hm.
  apply wp_bind. eapply wp_mono; [|apply launch_waiting; [auto with balanced|apply no_openat_connect|apply returns_any|done|done]].
  cbv beta. intros [connected ip] s [_ (w2 & -> & (E2 & C2 & F2 & I2 & M2))].
  destruct (connected =? -1); [apply wp_ret, Hfail; congruence|].
  apply wp_bind. eapply wp_mono; [|apply launch_waiting; [auto with balanced|apply no_openat_ports|apply returns_any|done|done]].
  cbv beta. intros mapped s [_ (w3 & -> & (E3 & C3 & F3 & I3 & M3))].
  destruct (negb _); [apply wp_ret, Hfail; congruence|].
  apply wp_bind. eapply wp_mono; [|apply (launch_waiting _ (call Time) (λ _, True)); [auto with balanced|by apply only_call|done|done|done]].
  cbv beta. intros start_time s [_ (w4 & -> & (E4 & C4 & F4 & I4 & M4))].
  apply wp_bind. eapply wp_mono; [|apply launch_waiting; [auto with balanced|apply no_openat_create|apply created_record|done|done]].
  cbv beta. intros [info|] s [Hinfo (w5 & -> & (E5 & C5 & F5 & I5 & M5))]; [|apply wp_ret, Hfail; congruence].
  destruct (Hinfo _ eq_refl) as [Hpid Hst].
  apply wp_bind. eapply wp_mono; [|apply record_launched; [done|done|done|congruence|]].
  - cbv beta. intros written s (w6 & -> & E6 & H). apply wp_ret. left. exists w6, read_end. cbn [fst snd rl_pipe].
    split; [done|]. split; [congruence|]. intros Hz%Z.eqb_eq. by apply H.
  - replace (wt_child w5) with (Z.pos pid) by congruence. by apply M5, M4, M3, M2.
Qed.

Lemma release_child_launched l w read_end :
  rl_pipe l = Some (read_end, wt_end w) → on_record (run_name args) w →
  wp (launching (run_name args)) (release_child l) (λ _ s, s = Over) (Started w).
Proof.
  intros Hp Hr. unfold release_child. rewrite Hp. apply wp_launch; [done|]. intros x _. cbn [launch_step].
  destruct (Nat.eqb_spec read_end (wt_end w)) as [_|Hne].
  { eapply wp_mono; [|apply launch_over]. done. }
  set (s1 := Started (watch_step w (Close read_end) x)).
  assert (Hr1 : ∀ w', wt_end w' = wt_end w → wt_child w' = wt_child w → vw_published (wt_view w') = vw_published (wt_view w) →
    (∀ f, f ∈ wt_closed w → f ∈ wt_closed w') → on_record (run_name args) w').
  { intros w' E1 E2 E3 E4. destruct Hr as [Hi Hm]. unfold on_record. rewrite E2, E3. split; [exact Hi|by apply E4]. }
  apply wp_bind. apply (wp_retry _ (λ s, ∃ w', s = Started w' ∧ wt_end w' = wt_end w ∧ on_record (run_name args) w')).
  { exists (watch_step w (Close read_end) x). split; [done|]. unfold watch_step. cbn [files_step wt_end]. split; [done|].
    apply Hr1; [done|done| |]; cbn [wt_view wt_closed].
    - destruct (wt_view w) as [f t tm p s a m]. cbn [view_step]. by case_bool_decide.
    - intros f Hf. apply elem_of_app. by right. }
  intros s (w' & -> & Hend & Hrec). unfold sys_write. apply wp_launch; [done|]. intros r _. apply wp_ret. cbn [launch_step].
  assert (Hclose : ∀ w2 (b : bool) (l' : run_locals), wt_end w2 = wt_end w →
    wp (launching (run_name args)) (_ ← call (Close (wt_end w)); Ret (b, l')) (λ _ s, s = Over) (Started w2)).
  { intros w2 b l' E. apply wp_launch; [done|]. intros y _. apply wp_ret. cbn [launch_step]. by rewrite E, Nat.eqb_refl. }
  destruct r as [n|e]; cbn [failed_with]; [by apply Hclose|].
  destruct (e =? EINTR); [|by apply Hclose]. exists w'. split; [|done]. f_equal. by destruct w' as [? ? ? ? ? []].
Qed.

Lemma cleanup_launched l s :
  set_up (false, l) s → wp (launching (run_name args)) (cleanup_run_failure args l) (λ _ _, True) s.
Proof.
  assert (Hany : ∀ {A} (p : prog A), wp (launching (run_name args)) p (λ _ _, True) Over).
  { intros A p. eapply wp_mono; [|apply launch_over]. done. }
  intros [(w & read_end & -> & Hp & _)|[_ Hb]].
  2:{ eapply wp_mono; [|apply launch_before; [apply sober_cleanup|apply returns_any|exact Hb]]. done. }
  cbn [snd] in Hp. unfold cleanup_run_failure. apply wp_bind.
  apply (wp_mono _ _ (λ _ s, ∃ w', s = Started w' ∧ wt_end w' = wt_end w)).
  2:{ unfold kill_child, discard. destruct (rl_child l) as [pid|]; [|by exists w]. apply wp_launch; [done|]. intros a _.
      cbn [launch_step]. apply wp_bind. apply (wp_retry _ (λ s, ∃ w', s = Started w' ∧ wt_end w' = wt_end w)); [by eexists|].
      intros s (w' & -> & E). split; [done|]. intros r s' [_ ->]. cbn [launch_step].
      apply wp_ret. destruct (failed_with r EINTR); [|apply wp_ret]; by exists (watch_step w' (Waitpid (Z.pos pid)) r). }
  intros [] s (w' & -> & E). apply wp_bind. apply (wp_mono _ _ (λ _ s, s = Over)); [intros [] s' ->; apply Hany|].
  unfold close_both, discard. rewrite Hp. apply wp_launch; [done|]. intros a _. cbn [launch_step].
  destruct (_ =? _)%nat; [apply launch_over|]. apply wp_launch; [done|]. intros b _. apply wp_ret. cbn [launch_step].
  change (wt_end (watch_step w' (Close read_end) a)) with (wt_end w'). by rewrite E, Nat.eqb_refl.
Qed.

(** C2: [docker run] lets its container go only when it is on record.  From the
    moment the child exists the write end of the pipe is used for nothing but
    the byte that releases it, and when that byte is written the published status
    file of the container is the complete text of a RUNNING record with the
    child's pid, and that pid was written to the member list of the container's
    control group.  So a container that runs its command can be found, stopped
    and removed by the other commands, even when [docker run] dies. *)
Theorem docker_run_releases_recorded :
  wp (launching (run_name args)) (docker_run args) (λ _ _, True) (Before None).
Proof.
  unfold docker_run. apply wp_bind.
  eapply wp_mono; [|apply launch_before; [apply tame_sober; auto with only|apply returns_any|by eexists]].
  cbv beta. intros exists_ s [_ [pipe ->]]. destruct exists_; [done|]. apply wp_launch; [done|]. intros room _. cbn [launch_step].
  destruct (negb room); [done|]. apply wp_bind.
  eapply wp_mono; [|apply launch_before; [apply sober_files|apply prepared_group|by eexists]].
  cbv beta. intros [ok l] s [Hg [pipe1 ->]]. cbn [fst snd] in Hg.
  apply wp_bind. apply (wp_mono _ _ set_up).
  2:{ destruct ok; [apply set_up_child_launched; by apply Hg|]. apply wp_ret. right. split; [done|by eexists]. }
  intros [ok1 l1] s Hs.
  assert (Hany : ∀ {A} (p : prog A), wp (launching (run_name args)) p (λ _ _, True) Over).
  { intros A p. eapply wp_mono; [|apply launch_over]. done. }
  apply wp_bind. apply (wp_mono _ _ (λ r s, s = Over ∨ r.1 = false ∧ set_up (false, r.2) s)).
  2:{ destruct ok1.
      - destruct Hs as [(w & read_end & -> & Hp & Hr)|[? _]]; [|done]. eapply wp_mono; [|eapply release_child_launched; [exact Hp|by apply Hr]].
        cbv beta. intros r s ->. by left.
      - apply wp_ret. right. split; [done|]. exact Hs. }
  intros [ok2 l2] s2 H2. destruct ok2; cbn [negb].
  { destruct H2 as [->|[? _]]; [|done]. destruct (run_detach args =? 1); [done|]. destruct (rl_child l2); [apply Hany|done]. }
  destruct H2 as [->|[_ H2]]; [apply Hany|]. cbn [snd] in H2. apply wp_bind. eapply wp_mono; [|by apply cleanup_launched]. done.
Qed.
End Docker_run.
