(* ===== verification/Cooperative.v ===== *)
(** * Stopping works

    The other theorems say what a command does not do, whatever the kernel
    answers.  Here a kernel that keeps its promises answers: files are read as
    they were written, signals arrive, and the processes of a container leave a
    while after SIGTERM.  On it [docker stop] succeeds. *)
From S2P Require Import Prelude CString Paths Safety StatusCodec NetworkState CgroupParse Sys Resources Equiv Process Fs.
From S2P Require Import Config Cgroup NetworkStore Network StatusInfo Volumes Workspace Container Commands Lifecycle.
From Stdlib Require Import Lia.

(** ** Runs under a handler *)

Section Runs.
Context {W : Type} (handle : W → ∀ c, ans c * W).

(** With enough fuel the program ends with [a] in [w']. *)
Definition runs {A} (p : prog A) (w : W) (a : A) (w' : W) : Prop :=
  ∃ fuel, ∀ f, (fuel ≤ f)%nat → run f handle p w = Some (a, w').

Lemma runs_ret {A} (a : A) w : runs (Ret a) w a w.
Proof. by exists O. Qed.
Lemma runs_bind {A B} (p : prog A) (k : A → prog B) w a w1 b w2 :
  runs p w a w1 → runs (k a) w1 b w2 → runs (p ≫= k) w b w2.
Proof.
  intros [n Hn] [m Hm]. exists (n + m)%nat. intros f Hf. rewrite run_bind, Hn by lia. apply Hm. lia.
Qed.
Lemma runs_call {A} c (k : ans c → prog A) w b w' :
  runs (k (handle w c).1) (handle w c).2 b w' → runs (call c ≫= k) w b w'.
Proof.
  intros H. eapply runs_bind; [|exact H]. exists O. intros f _. cbn [call run]. by destruct (handle w c).
Qed.
Lemma runs_last c w b w' : handle w c = (b, w') → runs (call c) w b w'.
Proof. intros H. exists O. intros f _. cbn [call run]. by rewrite H. Qed.

Lemma runs_iter_exit {S B} (body : S → prog (S + B)) s w b w' :
  runs (body s) w (inr b) w' → runs (iter body s) w b w'.
Proof.
  intros [n Hn]. exists (Datatypes.S n). intros [|f] Hf; [lia|]. cbn [iter run loop_run]. by rewrite Hn by lia.
Qed.
Lemma runs_iter_next {S B} (body : S → prog (S + B)) s s' w w1 b w' :
  runs (body s) w (inl s') w1 → runs (iter body s') w1 b w' → runs (iter body s) w b w'.
Proof.
  intros [n Hn] [m Hm]. exists (Datatypes.S (n + m)). intros [|f] Hf; [lia|]. cbn [iter run loop_run].
  rewrite Hn by lia. assert (H : run f handle (iter body s') w1 = Some (b, w')) by (apply Hm; lia).
  cbn [iter run] in H. revert H. apply loop_run_more; [lia| |]; intros x w2 r Hx; [|exact Hx].
  eapply run_more; [|exact Hx]. lia.
Qed.
End Runs.

(** ** A kernel that keeps its promises *)

(** The status file and what is left to read of it; the temporary file (its
    name, the buffer of its stream and what is in the file); the stream that is
    open; the members of the group, and for those that were asked to leave for
    how many sleeps they stay; the signals sent, in order. *)
Record machine := Machine {
  m_status : cstr;
  m_unread : cstr;
  m_temp : cstr * cstr * cstr;
  m_stream : cstr;
  m_members : list (Z * option nat);
  m_signals : list (Z * Z);
}.

(** The calls that concern nothing of this succeed. *)
Definition success (c : syscall) : ans c :=
  match c with
  | Open _ _ _ | Openat _ _ _ _ | Fopen _ | Opendir _ => SOk 3%nat
  | Read _ _ | Fgets _ _ => SOk []
  | Write _ data => SOk (strlen data)
  | Fstat _ | Stat _ | Lstat _ => SOk (FileStatus Regular 0)
  | Malloc _ | Access _ => true
  | Nftw _ => 0
  | Realpath path => Some path
  | Fread _ _ => ([], (true, false))
  | Readdir _ => None
  | Pipe => SOk (3%nat, 4%nat)
  | Fork _ | Clone _ => SOk 1%positive
  | Waitpid _ => SOk (Exited 0)
  | Getpid | Time => 1
  | If_nametoindex _ => 0%N
  | Strftime _ => []
  | Execvp _ | Execve _ _ _ => -1
  | Exit _ | Print _ | Nanosleep _ => tt
  | _ => SOk tt
  end.

(** What becomes of a member while the others sleep: [None] when it leaves. *)
Definition pass (x : Z * option nat) : option (Z * option nat) :=
  match x.2 with
  | None => Some x
  | Some (S (S n)) => Some (x.1, Some (S n))
  | Some _ => None
  end.

Section Kernel.
(** The container; the process its record names, with its line of /proc; for how
    many sleeps each process stays after SIGTERM. *)
Context (name : cstr) (pid : Z) (stat_line : cstr) (patience : Z → nat).

(** SIGTERM starts the countdown of a process, SIGKILL is obeyed at once. *)
Definition ask (p : Z) (x : Z * option nat) : Z * option nat :=
  match x.2 with None => if x.1 =? p then (x.1, Some (patience p)) else x | Some _ => x end.
Definition obey (signal : Z) (members : list (Z * option nat)) (p : Z) : list (Z * option nat) :=
  if signal =? SIGKILL then List.filter (λ x, negb (x.1 =? p)) members
  else if signal =? SIGTERM then map (ask p) members else members.

(** What a path reads: the member list, one pid on a line, or the line of
    /proc. *)
Definition contents (path : cstr) (members : list (Z * option nat)) : option cstr :=
  if bool_decide (path = procs_path name) then Some (lines_text (map (λ x, fmt_d x.1) members))
  else if bool_decide (path = proc_stat pid) then Some stat_line
  else None.

Definition handle (w : machine) (c : syscall) : ans c * machine :=
  let '(Machine status unread (temp, buffer, written) stream members signals) := w in
  match c with
  | Access path => (bool_decide (path ∈ [CONTAINER_STATUS_INFO_DIR; procs_path name]), w)
  | Openat _ x flags _ =>
      if creates flags then (SOk 5%nat, Machine status unread (x, [], []) stream members signals)
      else if bool_decide (x = name)
        then (SOk 4%nat, Machine status status (temp, buffer, written) stream members signals)
        else (SErr ENOENT, w)
  | Fstat fd => (SOk (FileStatus Regular (strlen status)), w)
  | Read fd n =>
      if (fd =? 4)%nat then (SOk (take (Z.to_nat n) unread),
        Machine status (drop (Z.to_nat n) unread) (temp, buffer, written) stream members signals)
      else (SErr EIO, w)
  | Fopen path =>
      match contents path members with
      | Some text => (SOk 6%nat, Machine status unread (temp, buffer, written) text members signals)
      | None => (SErr ENOENT, w)
      end
  | Fgets fd n => if (fd =? 6)%nat then (SOk (take (Z.to_nat (n - 1)) stream), w) else (SErr EIO, w)
  | Fread fd n => if (fd =? 6)%nat then ((take (Z.to_nat n) stream, (true, false)), w) else (([], (true, true)), w)
  | Fputs fd text =>
      if (fd =? 5)%nat then (SOk tt, Machine status unread (temp, buffer ++ text, written) stream members signals)
      else (SErr EIO, w)
  | Fflush fd | Fclose fd =>
      if (fd =? 5)%nat then (SOk tt, Machine status unread (temp, [], written ++ buffer) stream members signals)
      else (SOk tt, w)
  | Renameat _ old _ new =>
      if bool_decide (old = temp ∧ new = name)
      then (SOk tt, Machine written unread (temp, buffer, written) stream members signals) else (SErr ENOENT, w)
  | Kill p signal =>
      (SOk tt, Machine status unread (temp, buffer, written) stream (obey signal members p) (signals ++ [(p, signal)]))
  | Nanosleep _ => (tt, Machine status unread (temp, buffer, written) stream (omap pass members) signals)
  | c => (success c, w)
  end.

(** The next call of a program, answered. *)
Ltac answer := apply runs_call; cbn [handle success fst snd].

(** ** The member list *)

Lemma until_nul_id s : NUL ∉ s → until_nul s = s.
Proof.
  unfold until_nul. induction s as [|c s IH]; intros H; cbn [span]; [done|]. apply not_elem_of_cons in H as [Hc H].
  rewrite bool_decide_eq_false_2 by done. cbn [negb]. specialize (IH H). destruct (span _ s) as [a b]. cbn in *. by rewrite IH.
Qed.

Lemma members_text pids :
  Forall (λ p, 1 ≤ p ≤ INT_MAX) pids →
  (NUL ∉ lines_text (map fmt_d pids)) ∧ strlen (lines_text (map fmt_d pids)) ≤ 11 * Z.of_nat (length pids).
Proof.
  unfold lines_text. induction 1 as [|p pids Hp _ [IH1 IH2]]; cbn [map concat length]; [by split; [apply not_elem_of_nil|]|].
  destruct (fmt_d_pid p Hp) as [_ Hl]. assert (Hn : NUL ∉ fmt_d p).
  { unfold fmt_d. case Z.ltb_spec; [lia|]. intros _ Hin.
    pose proof (fmt_u_spec p ltac:(unfold INT_MAX, ULLONG_MAX in *; lia)) as (Hd & _ & _).
    rewrite Forall_forall in Hd. by specialize (Hd _ Hin). }
  rewrite !strlen_app. change (strlen [LF]) with 1. split; [|lia].
  rewrite !not_elem_of_app. split_and!; [done|by intros ?%list_elem_of_singleton|done].
Qed.

Context (Hname : td_validate_name (Some name) 127 = Ok tt).

Lemma name_length : strlen name ≤ 127.
Proof. by apply td_validate_name_Ok in Hname as (_ & H & _). Qed.
Lemma group_fits n : 512 ≤ n → truncated (procs_path name) n = false ∧ truncated (cgroup_path_text name) n = false.
Proof.
  intros Hn. pose proof name_length. unfold procs_path, cgroup_path_text, truncated. rewrite !Z.leb_gt, !strlen_app.
  change (strlen cgroup_base) with 27. change (strlen TINYDOCKER_PREFIX) with 10.
  change (strlen (lit "/")) with 1. change (strlen (lit "-")) with 1. change (strlen (lit "/cgroup.procs")) with 13. lia.
Qed.

#[local] Abbreviation runs := (runs handle).

Lemma members_runs st u tp sm ms sg :
  Forall (λ p, 1 ≤ p ≤ INT_MAX) (map fst ms) → (length ms ≤ 1024)%nat →
  ∃ sm', runs (container_process_count name 1024) (Machine st u tp sm ms sg) (Some (map fst ms)) (Machine st u tp sm' ms sg).
Proof.
  intros Hp Hl. destruct (members_text _ Hp) as [Hn Ht]. rewrite length_map in Ht. rewrite map_map in Hn, Ht.
  destruct tp as [[tn tb] tf]. exists (lines_text (map (λ x, fmt_d x.1) ms)).
  assert (Hin : bool_decide (procs_path name ∈ [CONTAINER_STATUS_INFO_DIR; procs_path name]) = true)
    by (apply bool_decide_eq_true_2; right; left).
  unfold container_process_count, get_container_cgroup_path. change TINYDOCKER_MAX_CONTAINER_NAME with 127. rewrite Hname.
  cbv zeta. change (default [] (Some name)) with name. rewrite (proj2 (group_fits PATH_MAX ltac:(done))).
  change (cgroup_path_text name ++ lit "/cgroup.procs") with (procs_path name).
  rewrite (proj1 (group_fits PATH_MAX ltac:(done))).
  unfold path_exist. answer. rewrite Hin. unfold get_container_processes_id, get_container_cgroup_file_path.
  change (cgroup_path_text name ++ lit "/" ++ lit "cgroup.procs") with (procs_path name).
  rewrite (proj1 (group_fits 1024 ltac:(done))). unfold path_exist. answer. rewrite Hin. cbn [negb]. answer.
  unfold contents. rewrite bool_decide_eq_true_2 by done. cbn [fst snd].
  change ((1024 =? 0) || ((SIZE_MAX - 1) / 32 <? 1024)) with false. cbv iota zeta. answer. cbn [negb]. answer.
  cbn [Nat.eqb fst snd]. change (1024 * 32 + 1 - 1) with 32768. rewrite take_take, Nat.min_id.
  rewrite take_ge by (unfold strlen in Ht; lia). cbn [orb andb negb]. answer. cbn [Nat.eqb fst snd].
  rewrite until_nul_id by done. rewrite <-(map_map fst fmt_d), pid_list_printed by (done || rewrite length_map; lia).
  rewrite length_map, (proj2 (Z.ltb_ge _ _)) by (unfold INT_MAX; lia). apply runs_ret.
Qed.

Lemma read_exactly_runs text tp sm ms sg :
  runs (read_exactly 4 (strlen text)) (Machine text text tp sm ms sg) (Some text) (Machine text [] tp sm ms sg).
Proof.
  unfold read_exactly.
  assert (Hdone : runs (iter (read_turn 4 (strlen text)) text) (Machine text [] tp sm ms sg) (Some text)
    (Machine text [] tp sm ms sg)).
  { apply runs_iter_exit. unfold read_turn. rewrite Z.ltb_irrefl. apply runs_ret. }
  destruct text as [|c text]; [exact Hdone|]. eapply runs_iter_next; [|exact Hdone].
  unfold read_turn. change (strlen []) with 0. rewrite Z.sub_0_r.
  rewrite (proj2 (Z.ltb_lt 0 _)) by (unfold strlen; cbn [length]; lia). destruct tp as [[tn tb] tf].
  unfold sys_read. eapply runs_bind; [answer; cbn [Nat.eqb fst snd]; apply runs_ret|]. cbn [nonempty].
  unfold strlen. rewrite Nat2Z.id, take_take, Nat.min_id, firstn_all, drop_all. apply runs_ret.
Qed.

Lemma read_info_runs text info u tp sm ms sg :
  strlen text ≤ MAX_METADATA_SIZE → td_parse_container_info (Some text) (Some name) = Ok info →
  runs (read_container_info name) (Machine text u tp sm ms sg) (Some info) (Machine text [] tp sm ms sg).
Proof.
  intros Hl Hp. unfold read_container_info. change TINYDOCKER_MAX_CONTAINER_NAME with 127. rewrite Hname. cbn [is_Ok negb].
  destruct tp as [[tn tb] tf]. answer. answer. change (creates [O_RDONLY; O_CLOEXEC; O_NOFOLLOW]) with false. cbv iota.
  rewrite bool_decide_eq_true_2 by done. cbn [fst snd]. eapply runs_bind.
  - unfold load_metadata. answer. unfold safe_size. cbn [fs_kind fs_size].
    rewrite bool_decide_eq_true_2, (proj2 (Z.leb_le 0 _)), (proj2 (Z.leb_le _ MAX_METADATA_SIZE)) by (done || unfold strlen; lia).
    cbn [andb]. answer. apply read_exactly_runs.
  - answer. answer. rewrite Hp. apply runs_ret.
Qed.

(** ** Looking at the process *)

Context (start : Z).
Context (Hpid : 1 ≤ pid ≤ INT_MAX) (Hstat : NUL ∉ stat_line) (Hlength : strlen stat_line ≤ 4095).
Context (Hstart : td_parse_proc_stat_start_time (Some stat_line) = Ok start).

Lemma start_time_runs st u tp sm ms sg :
  runs (read_process_start_time pid) (Machine st u tp sm ms sg) (SOk start) (Machine st u tp stat_line ms sg).
Proof.
  unfold read_process_start_time. rewrite (proj2 (Z.leb_gt _ _)) by lia. cbv zeta. fold (proc_stat pid).
  assert (Hfit : truncated (proc_stat pid) 64 = false).
  { destruct (truncated _ _) eqn:E; [|done]. apply proc_stat_fits in E; lia. }
  rewrite Hfit. destruct tp as [[tn tb] tf]. answer. unfold contents. rewrite bool_decide_eq_false_2 by (by intros [=]).
  rewrite bool_decide_eq_true_2 by done. cbn [fst snd]. answer. cbn [Nat.eqb fst snd]. answer. cbn [Nat.eqb fst snd].
  change (Z.to_nat (4096 - 1)) with (Z.to_nat 4095). rewrite take_ge, (take_ge stat_line) by (rewrite ?length_take; unfold strlen in Hlength; lia).
  rewrite until_nul_id by done. rewrite Hstart. apply runs_ret.
Qed.

Lemma refresh_runs info st u tp sm ms sg :
  name ≠ [] → ci_status info = lit "RUNNING" → ci_pid info = pid → ci_pid_start_time info = start →
  runs (refresh_container_status_if_needed name info) (Machine st u tp sm ms sg) (0, info)
    (Machine st u tp stat_line ms sg).
Proof.
  intros Hn Hs Hp Ht. unfold refresh_container_status_if_needed.
  replace (nonempty name) with true by (by destruct name). cbn [negb].
  rewrite Hs, Hp, (proj2 (Z.leb_gt _ _)) by lia. change (bool_decide (lit "RUNNING" = lit "RUNNING")) with true.
  cbn [negb]. eapply runs_bind.
  - unfold process_identity. rewrite Hp. eapply runs_bind; [apply start_time_runs|apply runs_ret].
  - rewrite Ht, Z.eqb_refl, orb_true_r. apply runs_ret.
Qed.

(** ** Signals *)

Lemma signal_runs signal st u tp sm : ∀ pids ms sg,
  Forall (λ p, 1 ≤ p ≤ INT_MAX) pids →
  runs (signal_each signal pids 0) (Machine st u tp sm ms sg) 0
    (Machine st u tp sm (fold_left (obey signal) pids ms) (sg ++ map (λ p, (p, signal)) pids)).
Proof.
  destruct tp as [[tn tb] tf].
  induction pids as [|p pids IH]; intros ms sg Hp; cbn [signal_each map fold_left].
  - rewrite app_nil_r. apply runs_ret.
  - apply Forall_cons in Hp as [Hp Hps]. rewrite (proj2 (Z.leb_gt _ _)) by lia. answer. cbn [s_ok orb].
    specialize (IH (obey signal ms p) (sg ++ [(p, signal)]) Hps). by rewrite <-app_assoc in IH.
Qed.

Lemma signal_all_runs signal st u tp sm ms sg :
  Forall (λ p, 1 ≤ p ≤ INT_MAX) (map fst ms) → (length ms ≤ 1024)%nat →
  ∃ sm', runs (signal_container_processes name signal) (Machine st u tp sm ms sg) 0
    (Machine st u tp sm' (fold_left (obey signal) (map fst ms) ms) (sg ++ map (λ p, (p, signal)) (map fst ms))).
Proof.
  intros Hp Hl. destruct (members_runs st u tp sm ms sg Hp Hl) as [sm' H]. exists sm'.
  unfold signal_container_processes. eapply runs_bind; [exact H|]. by apply signal_runs.
Qed.

(** Everyone who is asked starts to count. *)
Lemma ask_all pids : ∀ ms, Forall (λ x, x.2 = None → x.1 ∈ pids) ms →
  fold_left (obey SIGTERM) pids ms = map (λ x, match x.2 with None => (x.1, Some (patience x.1)) | Some _ => x end) ms.
Proof.
  induction pids as [|p pids IH]; intros ms Hms; cbn [fold_left].
  - induction Hms as [|[q [n|]] ms Hx _ IHm]; cbn [map]; [done|by rewrite <-IHm|]. exfalso. by apply (not_elem_of_nil q), Hx.
  - change (obey SIGTERM ms p) with (map (ask p) ms). rewrite IH, map_map.
    + apply map_ext. intros [q [n|]]; cbn; [done|]. destruct (Z.eqb_spec q p) as [->|]; done.
    + apply Forall_map. eapply Forall_impl; [exact Hms|]. intros [q [n|]]; cbn; [done|].
      destruct (Z.eqb_spec q p); [done|]. intros Hx _. by destruct (elem_of_cons pids q p) as [[|] _]; [by apply Hx| |].
Qed.
Lemma obey_kill pids : ∀ ms, (∀ x, x ∈ ms → x.1 ∈ pids) → fold_left (obey SIGKILL) pids ms = [].
Proof.
  induction pids as [|p pids IH]; intros ms Hms; cbn [fold_left].
  - destruct ms as [|x ms]; [done|]. exfalso. eapply not_elem_of_nil, Hms. by apply elem_of_cons; left.
  - apply IH. intros x Hx%list_elem_of_In. unfold obey in Hx. rewrite Z.eqb_refl in Hx.
    apply filter_In in Hx as [Hx Hn%negb_true_iff%Z.eqb_neq]. apply list_elem_of_In, Hms in Hx.
    by apply elem_of_cons in Hx as [|].
Qed.

(** ** Waiting *)

(** The processes that stay for more than [k] sleeps after SIGTERM. *)
Definition staying (k : nat) (pids : list Z) : list Z :=
  List.filter (λ p, (k <? Nat.max 1 (patience p))%nat) pids.
Definition waiting (k : nat) (pids : list Z) : list (Z * option nat) :=
  map (λ p, (p, Some (patience p - k)%nat)) (staying k pids).

Lemma waiting_fst k pids : map fst (waiting k pids) = staying k pids.
Proof. unfold waiting. by rewrite map_map, map_id. Qed.
Lemma waiting_pass k pids : omap pass (waiting k pids) = waiting (S k) pids.
Proof.
  unfold waiting, staying. induction pids as [|p pids IH]; [done|]. cbn [List.filter].
  destruct (Nat.ltb_spec k (Nat.max 1 (patience p))), (Nat.ltb_spec (S k) (Nat.max 1 (patience p))); try lia;
    cbn [map]; [| |exact IH]; rewrite <-IH; cbn; destruct (patience p - k)%nat as [|[|n]] eqn:E; try lia; try done.
  by replace (patience p - S k)%nat with (S n) by lia.
Qed.
Lemma staying_incl k pids p : p ∈ staying k pids → p ∈ pids.
Proof. unfold staying. rewrite !list_elem_of_In. by intros [H _]%filter_In. Qed.
Lemma staying_nil k j pids : staying k pids = [] → staying (k + j) pids = [].
Proof.
  unfold staying. induction pids as [|p pids IH]; cbn [List.filter]; [done|].
  destruct (Nat.ltb_spec k (Nat.max 1 (patience p))); [done|]. destruct (Nat.ltb_spec (k + j) (Nat.max 1 (patience p))); [lia|done].
Qed.

Section Wait.
Context (pids : list Z) (Hpids : Forall (λ p, 1 ≤ p ≤ INT_MAX) pids) (Hcount : (length pids ≤ 1024)%nat).

Lemma staying_ok k : Forall (λ p, 1 ≤ p ≤ INT_MAX) (map fst (waiting k pids)) ∧ (length (waiting k pids) ≤ 1024)%nat.
Proof.
  rewrite waiting_fst. split.
  - rewrite Forall_forall in *. intros p Hp. by eapply Hpids, staying_incl.
  - unfold waiting, staying. rewrite length_map. pose proof (List.filter_length_le (λ p, (k <? Nat.max 1 (patience p))%nat) pids). lia.
Qed.

Lemma poll_runs st u tp polls : ∀ k sm sg, ∃ sm',
  runs (poll_members polls name (Z.of_nat (length (waiting k pids)))) (Machine st u tp sm (waiting k pids) sg)
    (Z.of_nat (length (waiting (k + polls) pids))) (Machine st u tp sm' (waiting (k + polls) pids) sg).
Proof.
  induction polls as [|polls IH]; intros k sm sg; cbn [poll_members].
  { exists sm. rewrite Nat.add_0_r. apply runs_ret. }
  destruct (Z.ltb_spec 0 (Z.of_nat (length (waiting k pids)))) as [Hl|Hl].
  - destruct (staying_ok (S k)) as [Hp Hc]. destruct (members_runs st u tp sm (waiting (S k) pids) sg Hp Hc) as [sm1 H1].
    destruct (IH (S k) sm1 sg) as [sm2 H2]. exists sm2. destruct tp as [[tn tb] tf]. answer. rewrite waiting_pass.
    eapply runs_bind; [exact H1|]. cbn [count_of]. rewrite length_map. by rewrite <-Nat.add_succ_comm.
  - assert (E : staying k pids = []).
    { unfold waiting in Hl. rewrite length_map in Hl. by destruct (staying k pids). }
    exists sm. unfold waiting. rewrite E, (staying_nil k (S polls)) by done. apply runs_ret.
Qed.

Lemma gone_runs st u tp sm sg n polls :
  0 < n → (0 < polls)%nat →
  ∃ sm', runs (poll_members polls name n) (Machine st u tp sm [] sg) 0 (Machine st u tp sm' [] sg).
Proof.
  intros Hn Hpolls. destruct polls as [|polls]; [lia|]. cbn [poll_members]. rewrite (proj2 (Z.ltb_lt _ _)) by done.
  destruct (members_runs st u tp sm [] sg) as [sm1 H1]; [constructor|cbn; lia|].
  exists sm1. destruct tp as [[tn tb] tf]. answer. eapply runs_bind; [exact H1|]. cbn [count_of map length].
  destruct polls; apply runs_ret.
Qed.

Lemma kill_runs st u tp sm k sg :
  ∃ sm', runs (kill_remaining name (Z.of_nat (length (waiting k pids)))) (Machine st u tp sm (waiting k pids) sg) (Some 0)
    (Machine st u tp sm' [] (sg ++ map (λ p, (p, SIGKILL)) (staying k pids))).
Proof.
  unfold kill_remaining. destruct (staying_ok k) as [Hp Hl].
  destruct (Z.ltb_spec 0 (Z.of_nat (length (waiting k pids)))) as [Hpos|Hz].
  - destruct (signal_all_runs SIGKILL st u tp sm _ sg Hp Hl) as [sm1 H1].
    rewrite obey_kill in H1 by (intros x Hx; apply list_elem_of_fmap; by exists x). rewrite waiting_fst in H1.
    destruct (gone_runs st u tp sm1 (sg ++ map (λ p, (p, SIGKILL)) (staying k pids)) (Z.of_nat (length (waiting k pids))) 20)
      as [sm2 H2]; [done|lia|].
    exists sm2. eapply runs_bind; [exact H1|]. cbn [negb Z.eqb]. eapply runs_bind; [exact H2|apply runs_ret].
  - unfold waiting in *. rewrite length_map in *. destruct (staying k pids); [|cbn in Hz; lia]. exists sm.
    rewrite app_nil_r. apply runs_ret.
Qed.
End Wait.

(** ** Writing the status file *)

Lemma put_volumes_runs st u tn sm ms sg volumes : ∀ out text,
  mfold write_volume out volumes = Ok text →
  runs (put_volumes 5 volumes) (Machine st u (tn, out, []) sm ms sg) true (Machine st u (tn, text, []) sm ms sg).
Proof.
  induction volumes as [|v volumes IH]; intros out text; cbn [put_volumes].
  - intros [= <-]. apply runs_ret.
  - rewrite mfold_cons. unfold write_volume at 2. destruct (contains_record_separator v); [done|].
    intros H. answer. cbn [Nat.eqb fst snd s_ok]. by apply IH.
Qed.

Lemma put_info_runs info text st u tn sm ms sg :
  td_write_container_info (Some info) = Ok text →
  runs (put_container_info 5 info) (Machine st u (tn, [], []) sm ms sg) true (Machine st u (tn, text, []) sm ms sg).
Proof.
  unfold td_write_container_info, put_container_info. destruct (_ || _); [done|]. rewrite reject_if_false by done.
  intros H. cbv iota. answer. cbn [Nat.eqb fst snd s_ok negb app].
  destruct (mfold write_volume _ _) as [out|] eqn:E; [|done]. injection H as <-.
  eapply runs_bind; [by apply put_volumes_runs|]. answer. cbn [Nat.eqb fst snd s_ok]. apply runs_ret.
Qed.

Lemma publish_runs info text st u tn sm ms sg :
  td_write_container_info (Some info) = Ok text →
  ∃ tp, runs (publish_info 3 5 tn name info) (Machine st u (tn, [], []) sm ms sg) true (Machine text u tp sm ms sg).
Proof.
  intros Ht. exists (tn, [], text). unfold publish_info. answer. cbn [s_ok negb].
  eapply runs_bind; [by apply put_info_runs|]. cbv iota.
  eapply runs_bind; [by apply (runs_last _ (Fflush 5))|]. cbn [s_ok].
  eapply runs_bind; [by apply (runs_last _ (Fsync 5))|]. cbn [s_ok negb]. answer. cbn [Nat.eqb fst snd s_ok negb app].
  answer. rewrite bool_decide_eq_true_2 by done. cbn [fst snd s_ok]. rewrite app_nil_r. apply runs_ret.
Qed.

Lemma write_info_runs info text st u tp sm ms sg :
  ci_name info = name → td_write_container_info (Some info) = Ok text →
  ∃ tp', runs (write_container_info name info) (Machine st u tp sm ms sg) 0 (Machine text u tp' sm ms sg).
Proof.
  intros Hn Ht. destruct (publish_runs info text st u (temporary_info_name name 1 0) sm ms sg Ht) as [tp' Hpub]. exists tp'.
  unfold write_container_info. change TINYDOCKER_MAX_CONTAINER_NAME with 127.
  rewrite Hname, Hn, bool_decide_eq_true_2 by done. cbn [is_Ok negb orb]. destruct tp as [[tn tb] tf]. eapply runs_bind.
  { unfold directory_ready, path_exist. answer. rewrite bool_decide_eq_true_2 by (left). apply runs_ret. }
  cbn [negb]. answer. change (seq 0 100) with (0%nat :: seq 1 99). cbn [open_temporary_info]. eapply runs_bind.
  { answer. cbv zeta.
    rewrite (proj1 (temporary_name_fits name 1 0 Hname ltac:(unfold INT_MAX; lia) ltac:(lia))).
    answer. change (creates [O_WRONLY; O_CREAT; O_EXCL; O_CLOEXEC; O_NOFOLLOW]) with true. apply runs_ret. }
  cbn [fst snd]. eapply runs_bind; [exact Hpub|].
  cbn [negb andb when]. eapply runs_bind; [apply runs_ret|]. destruct tp' as [[tn' tb'] tf']. answer. apply runs_ret.
Qed.

(** ** Stopping *)

Lemma update_runs text info status text' u tp sm ms sg :
  strlen text ≤ MAX_METADATA_SIZE → td_parse_container_info (Some text) (Some name) = Ok info →
  td_write_container_info (Some (set_status (set_error STATUS_SIZE (str_status status)) info)) = Ok text' →
  ∃ tp', runs (update_container_status name status) (Machine text u tp sm ms sg) 0 (Machine text' [] tp' sm ms sg).
Proof.
  intros Hl Hp Ht. pose proof (parse_sound false _ _ _ ltac:(done) Hp) as [_ Hn].
  destruct (write_info_runs (set_status (set_error STATUS_SIZE (str_status status)) info) text' text [] tp sm ms sg) as [tp' H];
    [by destruct info|done|].
  exists tp'. unfold update_container_status. eapply runs_bind; [by apply read_info_runs|exact H].
Qed.

Lemma stop_runs text info text' time pids u tp sm :
  strlen text ≤ MAX_METADATA_SIZE → td_parse_container_info (Some text) (Some name) = Ok info →
  ci_status info = lit "RUNNING" → ci_pid info = pid → ci_pid_start_time info = start →
  td_write_container_info (Some (stopped info)) = Ok text' →
  Forall (λ p, 1 ≤ p ≤ INT_MAX) pids → (length pids ≤ 1024)%nat →
  ∃ w, runs (stop_one time name) (Machine text u tp sm (map (λ p, (p, None)) pids) []) true w ∧
    m_status w = text' ∧ m_members w = [] ∧
    m_signals w = map (λ p, (p, SIGTERM)) pids ++ map (λ p, (p, SIGKILL)) (staying (poll_limit time) pids).
Proof.
  intros Hl Hp Hs Hpid' Ht Hw Hpids Hlen.
  assert (Hne : name ≠ []) by (intros E; rewrite E in Hname; by vm_compute in Hname).
  set (ms := map (λ p, (p, @None nat)) pids).
  assert (Hfst : map fst ms = pids) by (unfold ms; by rewrite map_map, map_id).
  destruct (signal_all_runs SIGTERM text [] tp stat_line ms []) as [sm1 H1];
    [by rewrite Hfst|unfold ms; by rewrite length_map|].
  assert (Hask : fold_left (obey SIGTERM) (map fst ms) ms = waiting 0 pids).
  { rewrite ask_all.
    - unfold ms, waiting, staying. rewrite map_map. cbn [fst snd].
      replace (List.filter _ pids) with pids; [by apply map_ext; intros p; rewrite Nat.sub_0_r|].
      symmetry. apply forallb_filter_id, forallb_forall. intros p _. apply Nat.ltb_lt. lia.
    - rewrite Hfst. unfold ms. apply Forall_map, Forall_forall. by intros p Hin _. }
  rewrite Hask, Hfst in H1. set (sg := [] ++ map (λ p, (p, SIGTERM)) pids) in *.
  destruct (staying_ok pids Hpids Hlen 0) as [Hp0 Hl0].
  destruct (members_runs text [] tp sm1 (waiting 0 pids) sg Hp0 Hl0) as [sm2 H2].
  destruct (poll_runs pids Hpids Hlen text [] tp (poll_limit time) 0 sm2 sg) as [sm3 H3]. cbn [Nat.add] in H3.
  destruct (kill_runs pids Hpids Hlen text [] tp sm3 (poll_limit time) sg) as [sm4 H4].
  destruct (update_runs text info CONTAINER_STOPPED text' [] tp sm4 []
    (sg ++ map (λ p, (p, SIGKILL)) (staying (poll_limit time) pids)) Hl Hp Hw) as [tp5 H5].
  exists (Machine text' [] tp5 sm4 [] (sg ++ map (λ p, (p, SIGKILL)) (staying (poll_limit time) pids))).
  split; [|by split_and!].
  unfold stop_one. eapply runs_bind; [by apply read_info_runs|]. cbv iota.
  eapply runs_bind; [by apply refresh_runs|]. cbn [Z.ltb Z.compare]. rewrite Hs.
  change (bool_decide (lit "RUNNING" = lit "RUNNING")) with true. cbn [negb].
  eapply runs_bind; [exact H1|]. cbn [negb Z.eqb]. eapply runs_bind; [exact H2|]. cbn [count_of]. rewrite length_map.
  eapply runs_bind; [exact H3|]. eapply runs_bind; [exact H4|]. cbv iota. cbn [negb Z.eqb].
  eapply runs_bind; [exact H5|apply runs_ret].
Qed.
End Kernel.

(** A running container as [docker stop] finds it: [data] is its status file,
    written by tinydocker, [stat_line] the line of /proc of the process it
    records and [pids] the members of its group. *)
Record running (name data stat_line : cstr) (info : container_info) (pids : list Z) : Prop := {
  rn_parsed : td_parse_container_info (Some data) (Some name) = Ok info;
  rn_data : strlen data ≤ MAX_METADATA_SIZE ∧ (CR ∉ data);
  rn_status : ci_status info = lit "RUNNING";
  rn_stat : strlen stat_line ≤ 4095 ∧ (NUL ∉ stat_line);
  rn_start : td_parse_proc_stat_start_time (Some stat_line) = Ok (ci_pid_start_time info);
  rn_pids : Forall (λ p, 1 ≤ p ≤ INT_MAX) pids ∧ (length pids ≤ 1024)%nat;
}.

(** C13: stopping works.  Under the kernel [handle], which reads files back as
    they were written, delivers signals and lets each process of the group stay
    after SIGTERM for a number of sleeps of its own, however large, [docker stop]
    of a running container returns 0: each member of the group gets SIGTERM,
    exactly those that need longer than the time given get SIGKILL, in the end
    the group is empty and the status file reads back as the same record,
    STOPPED. *)
Theorem docker_stop_succeeds name data stat_line info pids patience time unread temp stream :
  running name data stat_line info pids →
  ∃ fuel w, run fuel (handle name (ci_pid info) stat_line patience) (docker_stop (StopArguments time [name]))
      (Machine data unread temp stream (map (λ p, (p, None)) pids) []) = Some (0, w) ∧
    m_members w = [] ∧
    m_signals w = map (λ p, (p, SIGTERM)) pids ++
      map (λ p, (p, SIGKILL)) (List.filter (λ p, (poll_limit time <? Nat.max 1 (patience p))%nat) pids) ∧
    td_parse_container_info (Some (m_status w)) (Some name) = Ok (stopped info).
Proof.
  intros [Hp [Hl Hcr] Hs [Hsl Hn] Hst [Hpids Hlen]].
  pose proof (parse_sound false _ _ _ ltac:(done) Hp) as [[Hsc Hname _] E]. rewrite E in Hname.
  destruct (container_info_rewrite _ _ _ (lit "STOPPED") Hcr Hp eq_refl) as (text & Hw & Hback).
  destruct (stop_runs name (ci_pid info) stat_line patience Hname (ci_pid_start_time info)) with (time := time) (text' := text)
    (u := unread) (tp := temp) (sm := stream) (pids := pids) (text := data) (info := info)
    as (w & [fuel Hrun] & H1 & H2 & H3); try done.
  { by apply (so_pid _ _ _ Hsc). }
  exists fuel, w. split_and!; [|done|exact H3|by rewrite H1].
  unfold docker_stop. cbn [stop_time stop_names stop_each]. rewrite run_bind, Hrun by done. done.
Qed.

(** One second is given; the first process needs half a second, the second one
    ignores SIGTERM for an hour. *)
Lemma docker_stop_succeeds_witness :
  let data := join LF (header_lines demo_info ++ [lit "/tmp/data:/data:ro"]) ++ [LF] in
  let stat_line := stat_record 4242 (lit "sh") (replicate 19 (lit "7") ++ [fmt_u 987654; lit "20"]) in
  let patience p := if p =? 4242 then 5%nat else Z.to_nat 36000 in
  ∃ fuel w, run fuel (handle (lit "demo") 4242 stat_line patience) (docker_stop (StopArguments 1 [lit "demo"]))
      (Machine data [] ([], [], []) [] [(4242, None); (4243, None)] []) = Some (0, w) ∧
    m_members w = [] ∧ m_signals w = [(4242, SIGTERM); (4243, SIGTERM); (4243, SIGKILL)] ∧
    td_parse_container_info (Some (m_status w)) (Some (lit "demo")) = Ok (stopped demo_info).
Proof.
  intros data stat_line patience.
  assert (Hr : running (lit "demo") data stat_line demo_info [4242; 4243]).
  { split.
    - vm_compute; reflexivity.
    - split; [vm_compute; discriminate|]. apply contains_false. vm_compute. reflexivity.
    - reflexivity.
    - split; [vm_compute; discriminate|]. apply contains_false. vm_compute. reflexivity.
    - vm_compute; reflexivity.
    - split; [repeat constructor; vm_compute; discriminate|vm_compute; lia]. }
  destruct (docker_stop_succeeds _ _ _ _ _ patience 1 [] ([], [], []) [] Hr) as (fuel & w & H1 & H2 & H3 & H4).
  exists fuel, w. split_and!; [exact H1|exact H2| |exact H4].
  rewrite H3. vm_compute. reflexivity.
Defined.
